(* ===== verification/_CoqProject ===== *)
-Q . S2P
Prelude.v
Text.v
Json.v
Wire.v
Sync.v
Leader.v
Nodelink.v
NodelinkSafety.v
Budget.v
Mesh.v
Wg.v
WgSync.v
NetText.v
Routing.v
HostLabels.v
HostTable.v
PodId.v
Rows.v
TableBuild.v
Identity.v
Joins.v
MeshSpec.v
MeshRefine.v
MeshRuns.v
MeshSender.v
Certificates.v
AgentMesh.v
IngressMesh.v
ToolCalls.v
ToolCallRuns.v
ToolCallStore.v
Store.v
Placement.v
Change.v
Ops.v
Lifecycle.v
Transactions.v
Engine.v
Safety.v
