(* ===== verification/Prelude.v ===== *)
(** * FeRun, the control plane of FeOS: a verification library

    FeOS runs tenants' code in pods, microVMs on nodes.  FeRun is its control
    plane (go/): ferund, in replicas over one PostgreSQL, keeps the registry
    of sandboxes and environments, decides which node runs what, and calls the
    nodes over connections they open; ferun-ingress serves tenants' hosts.
    This library translates the parts of FeRun that decide into executable
    functions and proves what makes them correct.  Paths below are relative to
    go/internal.

    ** The parts and their files

    The sandbox engine (sandbox/, on store/): an op (create, start, resume,
    restore, pause, hibernate, repair) begins in one transaction, calls
    a node, and finishes in another; syncs, reconciles, sweeps and other
    instances write the same rows in between.
    - [PodId]: podid/podid.go, the IDs of pods and the names of their devices.
    - [Rows]: the rows of store/ and the types of model/.
    - [Store]: store/'s statements as functions on a database [DB] of finite
      maps; a transaction is a computation that commits or leaves the database
      alone (store.InTx).
    - [Placement]: sandbox/placement.go, the gates, the score, the order of
      the candidates, and the claim of a begin under the node's lock.
    - [Change]: sandbox/change.go, one lifecycle write with its tombstones,
      booking and run.
    - [Ops]: sandbox/begin.go, finish.go, sync.go, reconcile.go, tombstone.go.
    - [Lifecycle], [Transactions], [Engine]: the registry's invariant, that
      every transaction keeps it, and the relation of all instances' steps.
    - [Safety]: the engine's properties, by induction on that relation.

    The replicas and the nodes:
    - [Leader]: store/leases.go and leader/elector.go, the lease that makes one
      instance the leader; a cluster is a step relation with calls in flight.
    - [Nodelink], [NodelinkSafety]: nodelink/, the registry of the nodes'
      connections, their calls in flight and budgets; each critical section of
      the registry's mutex is a function on a heap of shared links.
    - [ToolCalls], [ToolCallStore], [ToolCallRuns]: tools/keyed*.go and
      store/tool_calls.go, calls of tools that carry an id; instances, the
      database and the guests are a machine in which requests and answers are
      lost and instances crash.

    Identities and the pods' mesh: a node or an ingress joins with a token,
    renews its certificate, takes a seat on the mesh, and is removed; the
    leader sends the nodes their peers, and an ingress sets its own device.
    - [Mesh], [NetText]: mesh/mesh.go, the prefixes and peers of the network,
      and net/netip's texts of addresses.
    - [Identity]: store/jointokens.go, nodecerts.go, mesh.go, ingresses.go, the
      tables and their statements.  [Joins]: the calls over them (fleet/ and
      ingress/service/), and the control plane as the machine [Joins.step].
    - [MeshSpec]: the mesh as a state machine of seats and versions, a
      specification; [MeshRefine]: every step of [Joins.step] refines it;
      [MeshRuns]: what that says of the peers and the group read in a run.
    - [Certificates]: what a run does to certificates.
    - [MeshSender]: fleet/mesh.go, the leader's sends, with the node that takes
      them (crates/services/pod-service/src/network/mesh.rs).
    - [Wg], [WgSync]: ingress/wg, netlink's messages byte by byte, and the
      setting of a WireGuard device's peers; the kernel is the class
      [WireGuard].
    - [AgentMesh], [IngressMesh]: ingress/agent/mesh.go, the ingress's device;
      from the database's rows to the kernel's peers.

    The ingress:
    - [Json], [Wire]: ingress/wire, the messages as encoding/json writes them,
      a table cut into parts, and the state an ingress builds of the parts.
    - [TableBuild]: ingress/table/build.go, an environment's entry in the
      table, out of its rows and its deployment's routes (env/spec/routes.go).
    - [Sync]: ingress/service/sync.go and ingress/table/diff.go, the stream of
      deltas; it composes ferund's side with [Wire]'s state.
    - [Budget]: ingress/proxy/limits.go, the shares of requests.
    - [Routing]: routing/routing.go, how a path finds its route and is cut.
    - [HostLabels], [HostTable]: model/ingress.go, model/zones.go,
      store/host_labels.go and what of env/ and store/ changes that registry:
      the hosts of environments, from their spelling to their table.

    Shared: this file, and [Text] (activity/activity.go: UTF-8 as Go decodes
    it, and the texts PostgreSQL stores), which [Json] and [Ops] use.

    ** What the theorems show

    - The registry: no tombstone names the pod a sandbox is on
      ([own_pod_never_tombstoned], [tombstone_spares_placed_pod]); op, state,
      node and booking agree ([op_state_node_agree], [bookings_follow_states]);
      rows only move forward ([rows_move_forward]).
    - Ops: a begin is admitted within capacity or changes nothing
      ([admitted_begin_within_capacity], [failed_begin_changes_nothing],
      [live_op_not_taken_over], [idle_pause_spares_held]); a finish commits,
      ends its op, and writes nothing of it when fenced out ([finish_commits],
      [finish_ends_op], [fenced_finish_keeps_row]); a deletion leaves its
      tombstones ([delete_leaves_tombstones]).
    - Placement: exactly the nodes that pass, in the policy's order
      ([place_candidates_feasible], [place_in_policy_order],
      [restore_prefers_record_holder], [candidate_passes_claim]).
    - The replicas: at most one leader at a time ([one_leader]), and a new one
      within the lease's TTL ([lease_taken_over]).
    - The connections: [current_connection_best], [drain_spares_lifecycle],
      [calls_within_budgets], [close_terminates].
    - Tool calls with an id: one run per record ([keyed_call_runs_once]); what
      is recorded is so ([not_run_never_runs], [ended_call_final]); the expiry
      ends ([expireCalls_ends_dead]); [calls_in_flight_capped],
      [final_write_fits].
    - The mesh: a version names one set of peers and one group
      ([mesh_version_names_peers], [group_version_admits]); the leader's memory
      is right about the nodes ([leader_knows_nodes]); SetPeers makes any device
      the wanted one ([set_peers_converges], [peer_messages_read]), so an
      ingress's device has exactly the nodes ([ingress_device_has_nodes],
      [agent_device_in_sync]); endpoints have one text
      ([CheckEndpoint_canonical]).  A configuration wanted during a repair is
      lost ([repair_drops_wanted_config]).
    - Certificates: a holder that was locked out stays out
      ([locked_out_for_good]), but for transactions that began before
      ([renewal_outlives_revocation]).
    - The ingress's table: the stream refines "the ingress has ferund's table"
      ([ingress_shows_table]); splitting is invisible and fits
      ([split_apply], [split_parts_fit], [apply_all_or_nothing]); an entry has
      exactly the instances that may take requests ([endpoints_exact]), and
      tables made of entries fit their messages ([built_table_fits]).
    - Hosts, paths, addresses, requests: [hosts_unique],
      [host_labels_unambiguous], [match_longest], [stripped_path_safe],
      [node_prefixes_disjoint], [delta_turns_peers],
      [budget_counts_requests].
    - IDs and texts: [parse_canonical], [mint_uniform_valid],
      [tap_conflict_iff_same_device], [clean_storable].

    ** How the code is modelled

    Integers are [Z]; where the code's width shows (scores, sizes, sequence
    numbers, addresses, hashes, counters) the wrap is written out.  Strings are
    byte strings, as Go's are.  Times are nanoseconds since the zero time.
    Go's zero values stand for NULL, as the store's scan functions have it.  A
    transaction that takes a row's lock runs alone on that row, so
    transactions are atomic and interleave as wholes; an error of the
    connection is a transaction that did not commit or an answer that was
    lost.  PostgreSQL's now() is the time a transaction began, which may be
    before one that committed already.  Random draws, fresh UUIDs and serials,
    clocks, what nodes answer and which other rows exist are arguments or
    steps, never chosen by the model.

    Fuel: closing a connection recurses with fuel 2, and [close_terminates]
    shows that more changes nothing.  Doubling a backoff runs as often as the
    failures it counts.  The minting of an ID tries as often as the source
    does, and a repair tries the 15 other ports of its range.  The parsers of
    netlink's messages and attributes have the length of their input, of which
    each round takes at least one byte; a varint has 9 bytes more, an address
    8 groups.  The expiry of tool calls has one round more than there are rows,
    of which each round ends at least one ([expireCalls_ends_dead]).  Every
    other function is structurally recursive.

    ** Not modelled

    What lies beneath: PostgreSQL, TLS, HTTP/2, gRPC, Curve25519, X.509 and
    ACME are libraries or services; the kernel's WireGuard is an interface
    with laws.  Goroutines, timers and contexts appear as steps that may
    happen at any time.  Of environments only hosts and the routes and
    ports of a spec are here: the spec's JSON and validation and its controller
    (env/spec, env/ctl) are a client of the engine of a size of its own.  The
    loop that rebuilds the ingress's table when rows change
    (ingress/table/builder.go) and the cache of parsed specs
    (ingress/table/specs.go) are reads of the store with timers; the entries
    they build are [TableBuild]'s.  The REST and MCP doors, bindings, ports and watches stream bytes between clients and
    pods; sink, domains, kube and the issuing of pki are clients of external
    services or of cryptography; cmd, config and server wire the parts; gen is
    generated; testnode is a test's node.  The programs of the nodes (crates)
    are Rust and meet FeRun in what their calls answer; of them only the state
    of a node's mesh is here. *)

From Stdlib Require Ascii String.
From Stdlib Require Export ZArith Lia.
From stdpp Require Export base gmap strings list pretty sorting.
Export Ascii.AsciiSyntax.
Delimit Scope char_scope with char.

Open Scope Z_scope.

(** ** Record update

    [r <| f := v |>] is the record [r] with its field [f] set to [v].  A
    record type gives its eta expansion once, as an instance of [Eta]; the
    setter of each field is then built from it by [build_setter]. *)

Class Eta (R : Type) := eta : R → R.
Class Setter {R T : Type} (proj : R → T) := with_field : (T → T) → R → R.
Arguments with_field {R T} proj {_} f r.

Ltac build_setter :=
  match goal with
  | |- @Setter ?R ?T ?proj =>
      let e := eval cbv [eta] in (_ : Eta R) in
      let h := eval red in e in
      exact (fun (f : T → T) (r : R) =>
        ltac:(let b := eval cbv beta in (h r) in
              match eval pattern (proj r) in b with
              | ?g _ => let x := eval cbv beta in (g (f (proj r))) in exact x
              end))
  end.
#[export] Hint Extern 1 (Setter _) => build_setter : typeclass_instances.

Declare Scope update_scope.
Notation "r <| p ::= f |>" := (with_field p f r)
  (at level 1, p at level 200, f at level 200, format "r  <|  p  ::=  f  |>") : update_scope.
Notation "r <| p := v |>" := (with_field p (λ _, v) r)
  (at level 1, p at level 200, v at level 200, format "r  <|  p  :=  v  |>") : update_scope.
Open Scope update_scope.

(** ** Go integers

    A Go [int] or [int64] is a [Z] in the signed 64-bit range; an operation
    that may leave it wraps around. *)

Definition int64_min : Z := - 2 ^ 63.
Definition int64_max : Z := 2 ^ 63 - 1.

Definition in_int64 (z : Z) : Prop := int64_min ≤ z ≤ int64_max.

Definition wrap64 (z : Z) : Z := (z + 2 ^ 63) mod 2 ^ 64 - 2 ^ 63.

Definition wrapu64 (z : Z) : Z := z mod 2 ^ 64.

Lemma wrap64_id z : in_int64 z → wrap64 z = z.
Proof.
  unfold in_int64, int64_min, int64_max, wrap64. intros H.
  rewrite Z.mod_small; lia.
Qed.

Lemma wrap64_range z : in_int64 (wrap64 z).
Proof.
  unfold in_int64, int64_min, int64_max, wrap64.
  pose proof (Z.mod_pos_bound (z + 2 ^ 63) (2 ^ 64) ltac:(lia)). lia.
Qed.

(** ** Times

    A [time.Time] is its distance in nanoseconds from Go's zero time, so
    that [IsZero] is the comparison with 0; a NULL timestamp reads as the
    zero time.  A [time.Duration] is its nanoseconds. *)

Definition Time : Type := Z.
Definition Duration : Type := Z.
Definition zeroTime : Time := 0.
Definition IsZero (t : Time) : bool := t =? zeroTime.

Definition Second : Duration := 1000000000.
Definition Minute : Duration := 60 * Second.
Definition Hour : Duration := 60 * Minute.

(** The calendar date of a day counted from 0001-01-01, in the proleptic
    Gregorian calendar: year, month and day of the month. *)
Definition civil (days : Z) : Z * Z * Z :=
  let z := days + 306 in
  let era := z / 146097 in
  let doe := z mod 146097 in
  let yoe := (doe - doe / 1460 + doe / 36524 - doe / 146096) / 365 in
  let doy := doe - (365 * yoe + yoe / 4 - yoe / 100) in
  let mp := (5 * doy + 2) / 153 in
  let d := doy - (153 * mp + 2) / 5 + 1 in
  let m := if mp <? 10 then mp + 3 else mp - 9 in
  let y := yoe + era * 400 + (if m <=? 2 then 1 else 0) in
  (y, m, d).

Fixpoint zeros (n : nat) : string :=
  match n with O => "" | S n' => String "0" (zeros n') end.

(** [z] in decimal, padded with zeros to [n] digits. *)
Definition padded (n : nat) (z : Z) : string :=
  let s := pretty z in (zeros (n - String.length s) +:+ s)%string.

(** [t.UTC().Format(time.RFC3339)]: the time in whole seconds. *)
Definition format_rfc3339 (t : Time) : string :=
  let secs := t / Second in
  let '(y, m, d) := civil (secs / 86400) in
  let r := secs mod 86400 in
  (padded 4 y +:+ "-" +:+ padded 2 m +:+ "-" +:+ padded 2 d +:+ "T" +:+ padded 2 (r / 3600)
    +:+ ":" +:+ padded 2 (r / 60 mod 60) +:+ ":" +:+ padded 2 (r mod 60) +:+ "Z")%string.

Example format_leap_day : format_rfc3339 (63844761600 * Second + 5) = "2024-02-29T00:00:00Z"%string.
Proof. vm_compute. reflexivity. Qed.

(** [interval(d)] of the store: a duration as a SQL interval, in whole
    microseconds. *)
Definition interval (d : Duration) : Duration := Z.quot d 1000 * 1000.

(** ** Errors as values *)

Inductive result (E A : Type) : Type :=
| Ok (a : A)
| Err (e : E).
Arguments Ok {E A} a.
Arguments Err {E A} e.

#[export] Instance result_bind E : MBind (result E) :=
  λ A B f r, match r with Ok a => f a | Err e => Err e end.

Lemma bind_Ok {E A B} (f : A → result E B) (r : result E A) b :
  r ≫= f = Ok b ↔ ∃ a, r = Ok a ∧ f a = Ok b.
Proof.
  destruct r as [a|e]; cbn; split.
  - eauto.
  - intros (a' & [= ->] & H). done.
  - done.
  - intros (a' & [=] & _).
Qed.

Definition is_ok {E A} (r : result E A) : bool :=
  match r with Ok _ => true | Err _ => false end.

(** ** Bytes and strings

    A Go string is a sequence of bytes, as [String.string] is. *)

Definition byteZ (c : Ascii.ascii) : Z := Z.of_N (Ascii.N_of_ascii c).

Fixpoint string_in (c : Ascii.ascii) (s : string) : bool :=
  match s with
  | EmptyString => false
  | String d s' => Ascii.eqb c d || string_in c s'
  end.

Fixpoint string_forallb (f : Ascii.ascii → bool) (s : string) : bool :=
  match s with
  | EmptyString => true
  | String c s' => f c && string_forallb f s'
  end.

(** The verb [%q] on a text without characters to escape. *)
Definition quoted (s : string) : string :=
  String "034" (s +:+ String "034" EmptyString)%string.

(** [strings.HasPrefix] and [strings.HasSuffix]. *)
Definition HasPrefix (s p : string) : bool := String.prefix p s.

Definition HasSuffix (s p : string) : bool :=
  let n := String.length s in
  let k := String.length p in
  (k <=? n)%nat && String.eqb (String.substring (n - k) k s) p.

Lemma filter_all {A} (P : A → Prop) `{∀ x, Decision (P x)} (l : list A) : Forall P l → filter P l = l.
Proof. induction 1; [done|]. rewrite filter_cons_True by done. by f_equal. Qed.

Lemma filter_none {A} (P : A → Prop) `{∀ x, Decision (P x)} (l : list A) : Forall (λ x, ¬ P x) l → filter P l = [].
Proof. induction 1; [done|]. by rewrite filter_cons_False. Qed.

(** ** Sorting

    [slices.SortFunc] by a comparison: [leb a b] says that it does not put
    [a] after [b]. *)

Fixpoint insert_by {A} (leb : A → A → bool) (x : A) (l : list A) : list A :=
  match l with
  | [] => [x]
  | y :: l' => if leb x y then x :: l else y :: insert_by leb x l'
  end.

Fixpoint sort_by {A} (leb : A → A → bool) (l : list A) : list A :=
  match l with [] => [] | x :: l' => insert_by leb x (sort_by leb l') end.

Lemma insert_by_perm {A} (leb : A → A → bool) x l : insert_by leb x l ≡ₚ x :: l.
Proof.
  induction l as [|y l IH]; cbn; [done|]. destruct (leb x y); [done|]. rewrite IH. constructor.
Qed.

Lemma sort_by_perm {A} (leb : A → A → bool) l : sort_by leb l ≡ₚ l.
Proof. induction l as [|x l IH]; cbn; [done|]. by rewrite insert_by_perm, IH. Qed.

Lemma insert_by_sorted {A} (leb : A → A → bool) x l :
  (∀ y, y ∈ l → leb x y = true ∨ leb y x = true) →
  Sorted (λ a b, leb a b = true) l → Sorted (λ a b, leb a b = true) (insert_by leb x l).
Proof.
  intros Htot Hs. induction Hs as [|y l Hs IH Hhd]; cbn; [repeat constructor|].
  destruct (leb x y) eqn:E; [repeat (constructor; try done)|].
  constructor; [apply IH; intros; apply Htot; by constructor|].
  destruct l as [|z l]; cbn; [|destruct (leb x z)]; constructor; try (by inversion Hhd);
    destruct (Htot y) as [?|?]; try constructor; congruence.
Qed.

(** The result is in order when the comparison is total on the list. *)
Lemma sort_by_sorted {A} (leb : A → A → bool) l :
  (∀ x y, x ∈ l → y ∈ l → leb x y = true ∨ leb y x = true) →
  Sorted (λ a b, leb a b = true) (sort_by leb l).
Proof.
  induction l as [|x l IH]; intros Htot; cbn; [constructor|].
  apply insert_by_sorted; [|apply IH; intros; apply Htot; by constructor].
  intros y Hy. rewrite sort_by_perm in Hy. apply Htot; by constructor.
Qed.

(** ** Shared tactics *)

(** Case analysis on every boolean test and match in the goal. *)
Ltac split_tests :=
  repeat match goal with
  | |- context [if ?b then _ else _] => destruct b eqn:?
  | |- context [match ?x with _ => _ end] => destruct x eqn:?
  end.

(** Turns boolean comparisons among the hypotheses into propositions. *)
Ltac reflect_tests :=
  repeat match goal with
  | H : (_ && _)%bool = true |- _ => apply andb_true_iff in H; destruct H
  | H : (_ || _)%bool = false |- _ => apply orb_false_iff in H; destruct H
  | H : negb _ = true |- _ => apply negb_true_iff in H
  | H : negb _ = false |- _ => apply negb_false_iff in H
  | H : (_ =? _) = true |- _ => apply Z.eqb_eq in H
  | H : (_ =? _) = false |- _ => apply Z.eqb_neq in H
  | H : (_ <=? _) = true |- _ => apply Z.leb_le in H
  | H : (_ <=? _) = false |- _ => apply Z.leb_gt in H
  | H : (_ <? _) = true |- _ => apply Z.ltb_lt in H
  | H : (_ <? _) = false |- _ => apply Z.ltb_ge in H
  | H : String.eqb _ _ = true |- _ => apply String.eqb_eq in H
  | H : String.eqb _ _ = false |- _ => apply String.eqb_neq in H
  | H : bool_decide _ = true |- _ => apply bool_decide_eq_true in H
  | H : bool_decide _ = false |- _ => apply bool_decide_eq_false in H
  end.
