(* ===== verification/Text.v ===== *)
(** * Text that PostgreSQL stores (activity/activity.go)

    The runes of a Go string as UTF-8 decoding finds them, and the functions
    that make a text storable: [Clean], [Name] and [CapOutput].  A string is
    cut once into its runes and the bytes that belong to none ([chunks]); the
    functions of the strings and utf8 packages are list functions on that. *)

From S2P Require Import Prelude.

(** ** UTF-8 *)

(** A valid rune with its bytes, or a byte of no valid rune. *)
Inductive chunk : Type := Rune (bytes : string) | Bad (b : Ascii.ascii).

Definition between (lo hi z : Z) : bool := (lo <=? z) && (z <=? hi).

(** A continuation byte. *)
Definition cont (c : Ascii.ascii) : bool := between 128 191 (byteZ c).

Definition ascii_byte (a : Ascii.ascii) : bool := byteZ a <? 128.

Definition rune2 (a b : Ascii.ascii) : bool := between 194 223 (byteZ a) && cont b.

Definition rune3 (a b c : Ascii.ascii) : bool :=
  let x := byteZ a in
  let y := byteZ b in
  ((x =? 224) && between 160 191 y
   || (between 225 236 x || between 238 239 x) && between 128 191 y
   || (x =? 237) && between 128 159 y) && cont c.

Definition rune4 (a b c d : Ascii.ascii) : bool :=
  let x := byteZ a in
  let y := byteZ b in
  ((x =? 240) && between 144 191 y
   || between 241 243 x && between 128 191 y
   || (x =? 244) && between 128 143 y) && cont c && cont d.

Fixpoint chunks (s : string) : list chunk :=
  match s with
  | EmptyString => []
  | String a s1 =>
      if ascii_byte a then Rune (String a "") :: chunks s1
      else
        match s1 with
        | String b s2 =>
            if rune2 a b then Rune (String a (String b "")) :: chunks s2
            else
              match s2 with
              | String c s3 =>
                  if rune3 a b c then Rune (String a (String b (String c ""))) :: chunks s3
                  else
                    match s3 with
                    | String d s4 =>
                        if rune4 a b c d
                        then Rune (String a (String b (String c (String d "")))) :: chunks s4
                        else Bad a :: chunks s1
                    | EmptyString => Bad a :: chunks s1
                    end
              | EmptyString => Bad a :: chunks s1
              end
        | EmptyString => Bad a :: chunks s1
        end
  end.

Definition chunk_bytes (k : chunk) : string :=
  match k with Rune r => r | Bad b => String b "" end.

Definition is_rune (k : chunk) : bool := match k with Rune _ => true | Bad _ => false end.

(** The concatenation of a list of strings. *)
Fixpoint joined (l : list string) : string :=
  match l with [] => ""%string | s :: l' => (s +:+ joined l')%string end.

(** [utf8.ValidString]. *)
Definition ValidString (s : string) : bool := forallb is_rune (chunks s).

(** The encoding of one rune. *)
Definition valid_rune (r : string) : bool :=
  match r with
  | String a "" => ascii_byte a
  | String a (String b "") => negb (ascii_byte a) && rune2 a b
  | String a (String b (String c "")) => negb (ascii_byte a) && negb (rune2 a b) && rune3 a b c
  | String a (String b (String c (String d ""))) =>
      negb (ascii_byte a) && negb (rune2 a b) && negb (rune3 a b c) && rune4 a b c d
  | _ => false
  end.

(** U+FFFD. *)
Definition replacement : string := String "239" (String "191" (String "189" "")).

(** [strings.ToValidUTF8]: a run of bad bytes becomes one replacement. *)
Fixpoint to_valid (rep : string) (invalid : bool) (l : list chunk) : list string :=
  match l with
  | [] => []
  | Rune r :: l' => r :: to_valid rep false l'
  | Bad _ :: l' => if invalid then to_valid rep true l' else rep :: to_valid rep true l'
  end.

Definition ToValidUTF8 (s rep : string) : string := joined (to_valid rep false (chunks s)).

(** [strings.ReplaceAll(s, "\x00", "")]. *)
Fixpoint drop_nul (s : string) : string :=
  match s with
  | EmptyString => EmptyString
  | String c s' => if Ascii.eqb c "000" then drop_nul s' else String c (drop_nul s')
  end.

(** [Clean]: storable as PostgreSQL text. *)
Definition Clean (s : string) : string :=
  let v := ToValidUTF8 s replacement in
  if string_in "000"%char v then drop_nul v else v.

(** ** Labels *)

(** [unicode.IsSpace] of a rune, by its bytes. *)
Definition is_space (k : chunk) : bool :=
  match k with
  | Rune (String a "") => let x := byteZ a in between 9 13 x || (x =? 32)
  | Rune (String a (String b "")) => (byteZ a =? 194) && ((byteZ b =? 133) || (byteZ b =? 160))
  | Rune (String a (String b (String c ""))) =>
      let x := byteZ a in let y := byteZ b in let z := byteZ c in
      (x =? 225) && (y =? 154) && (z =? 128)
      || (x =? 226) && (y =? 128) && (between 128 138 z || (z =? 168) || (z =? 169) || (z =? 175))
      || (x =? 226) && (y =? 129) && (z =? 159)
      || (x =? 227) && (y =? 128) && (z =? 128)
  | _ => false
  end.

(** [strings.Fields], each field as its chunks; [cur] is the field begun. *)
Fixpoint fields (cur : list chunk) (l : list chunk) : list (list chunk) :=
  match l with
  | [] => match cur with [] => [] | _ => [cur] end
  | k :: l' =>
      if is_space k
      then match cur with [] => fields [] l' | _ => cur :: fields [] l' end
      else fields (cur ++ [k]) l'
  end.

(** [strings.Join(strings.Fields(s), " ")]. *)
Definition space : chunk := Rune " ".

Fixpoint join_fields (l : list (list chunk)) : list chunk :=
  match l with
  | [] => []
  | [f] => f
  | f :: l' => f ++ space :: join_fields l'
  end.

Definition NameCap : nat := 120.
Definition OutputCap : nat := 64 * 1024.
(** U+2026. *)
Definition ellipsis : string := String "226" (String "128" (String "166" "")).

(** [utf8.RuneStart] of the byte at [i]. *)
Definition rune_start_at (s : string) (i : nat) : bool :=
  match String.get i s with Some c => negb (cont c) | None => true end.

(** The cut moved back to a rune's start. *)
Fixpoint cut_back (s : string) (cut : nat) : nat :=
  match cut with
  | O => O
  | S n => if rune_start_at s cut then cut else cut_back s n
  end.

(** [strings.TrimRight(s, " ")]. *)
Fixpoint trim_spaces (s : string) : string :=
  match s with
  | EmptyString => EmptyString
  | String c s' =>
      match trim_spaces s' with
      | EmptyString => if Ascii.eqb c " " then EmptyString else String c ""
      | t => String c t
      end
  end.

(** [Name]: one line, whitespace collapsed, at most [NameCap] bytes. *)
Definition Name (s : string) : string :=
  let t := joined (chunk_bytes <$> join_fields (fields [] (chunks (Clean s)))) in
  if (String.length t <=? NameCap)%nat then t
  else (trim_spaces (String.substring 0 (cut_back t (NameCap - String.length ellipsis)) t)
        +:+ ellipsis)%string.

(** [CapOutput]: at most [OutputCap] bytes, cut on a rune boundary. *)
Definition CapOutput (s : string) : string * bool :=
  if (String.length s <=? OutputCap)%nat then (s, false)
  else (String.substring 0 (cut_back s OutputCap) s, true).

Example name_example :
  Name ("a " +:+ String "009" (String "195" (String "000" "b  c "))) = ("a " +:+ replacement +:+ "b c")%string.
Proof. vm_compute. reflexivity. Qed.

(** ** The chunks of a string *)

Lemma app_Empty s : ("" +:+ s)%string = s.
Proof. reflexivity. Qed.

Lemma app_String a r s : (String a r +:+ s)%string = String a (r +:+ s)%string.
Proof. reflexivity. Qed.

Lemma chunks_rune r s : valid_rune r = true → chunks (r +:+ s)%string = Rune r :: chunks s.
Proof.
  destruct r as [|a [|b [|c [|d [|? ?]]]]]; cbn [valid_rune];
    intros H; try done; rewrite !app_String, app_Empty; cbn [chunks]; reflect_tests;
    by repeat match goal with H : _ = _ |- _ => rewrite H end.
Qed.

(** Induction along the chunks. *)
Lemma chunks_ind (P : string → list chunk → Prop) :
  P ""%string [] →
  (∀ r s, valid_rune r = true → P s (chunks s) → P (r +:+ s)%string (Rune r :: chunks s)) →
  (∀ a s, P s (chunks s) → P (String a s) (Bad a :: chunks s)) →
  ∀ s, P s (chunks s).
Proof.
  intros H0 Hr Hb. enough (H : ∀ n s, (String.length s ≤ n)%nat → P s (chunks s)) by eauto.
  induction n as [|n IH]; intros [|a s1] Hn; cbn in Hn; try done; [lia|].
  assert (Hbad : P (String a s1) (Bad a :: chunks s1)) by (apply Hb, IH; lia).
  cbn [chunks]. destruct (ascii_byte a) eqn:Ea.
  { apply (Hr (String a "")); [done|]. apply IH. lia. }
  destruct s1 as [|b s2]; [done|]. destruct (rune2 a b) eqn:E2; cbn in Hn.
  { apply (Hr (String a (String b ""))); [cbn; by rewrite Ea, E2|]. apply IH. lia. }
  destruct s2 as [|c s3]; [done|]. destruct (rune3 a b c) eqn:E3; cbn in Hn.
  { apply (Hr (String a (String b (String c "")))); [cbn; by rewrite Ea, E2, E3|]. apply IH. lia. }
  destruct s3 as [|d s4]; [done|]. destruct (rune4 a b c d) eqn:E4; cbn in Hn; [|done].
  apply (Hr (String a (String b (String c (String d ""))))); [cbn; by rewrite Ea, E2, E3, E4|].
  apply IH. lia.
Qed.

Lemma chunks_joined s : joined (chunk_bytes <$> chunks s) = s.
Proof.
  apply (chunks_ind (λ s l, joined (chunk_bytes <$> l) = s)); [done| |].
  - intros r t _ IH. cbn. by rewrite IH.
  - intros a t IH. cbn. by rewrite IH.
Qed.

Lemma chunks_valid s : Forall (λ k, ∀ r, k = Rune r → valid_rune r = true) (chunks s).
Proof.
  apply (chunks_ind (λ _ l, Forall (λ k, ∀ r, k = Rune r → valid_rune r = true) l));
    [constructor| |]; intros; constructor; naive_solver.
Qed.

Definition runes_ok (l : list string) : Prop := Forall (λ r, valid_rune r = true) l.

(** Valid runes are cut as they were put together. *)
Lemma chunks_of_runes l : runes_ok l → chunks (joined l) = Rune <$> l.
Proof. induction 1 as [|r l Hr _ IH]; [done|]. cbn. by rewrite chunks_rune, IH. Qed.

Lemma valid_iff s : ValidString s = true ↔ ∃ l, runes_ok l ∧ s = joined l.
Proof.
  unfold ValidString. split.
  - intros H. exists (chunk_bytes <$> chunks s). split; [|by rewrite chunks_joined].
    pose proof (chunks_valid s) as Hv. rewrite forallb_forall in H. apply Forall_fmap.
    induction Hv as [|k l Hk _ IH]; constructor.
    + destruct k; cbn; [by apply Hk|]. by specialize (H (Bad b) (or_introl eq_refl)).
    + apply IH. intros x Hx. apply H. by right.
  - intros (l & Hl & ->). rewrite (chunks_of_runes _ Hl). clear Hl. by induction l.
Qed.

Lemma to_valid_runes rep inv l :
  valid_rune rep = true → Forall (λ k, ∀ r, k = Rune r → valid_rune r = true) l →
  runes_ok (to_valid rep inv l).
Proof.
  intros Hrep Hl. revert inv.
  induction Hl as [|[r|b] l Hk _ IH]; intros inv; cbn; [constructor| |].
  - constructor; [by apply Hk|apply IH].
  - destruct inv; [apply IH|]. constructor; [done|apply IH].
Qed.

Lemma to_valid_id rep inv l : to_valid rep inv (Rune <$> l) = l.
Proof. revert inv. induction l as [|r l IH]; intros inv; cbn; [done|]. by rewrite IH. Qed.

(** NUL is a rune of its own. *)
Definition nul : string := String "000" "".

Lemma drop_nul_app s t : drop_nul (s +:+ t)%string = (drop_nul s +:+ drop_nul t)%string.
Proof.
  induction s as [|c s IH]; [done|]. rewrite app_String. cbn [drop_nul]. rewrite IH.
  by destruct (Ascii.eqb _ _).
Qed.

Lemma string_in_app c s t : string_in c (s +:+ t)%string = string_in c s || string_in c t.
Proof. induction s as [|d s IH]; [done|]. rewrite app_String. cbn [string_in].
  by rewrite IH, orb_assoc. Qed.

Lemma substring_all s : String.substring 0 (String.length s) s = s.
Proof. induction s as [|c s IH]; cbn; [done|]. by rewrite IH. Qed.

Lemma drop_nul_none s : string_in "000"%char s = false → drop_nul s = s.
Proof.
  induction s as [|c s IH]; cbn [string_in drop_nul]; [done|]. rewrite orb_false_iff, Ascii.eqb_sym.
  intros [-> H]. by rewrite IH.
Qed.

Lemma string_in_high a s : (128 <=? byteZ a) = true →
  string_in "000"%char (String a s) = string_in "000"%char s.
Proof. intros H. cbn [string_in]. destruct (Ascii.eqb_spec "000" a) as [<-|]; done. Qed.

(** Only the rune NUL has the byte 0. *)
Lemma rune_without_nul r : valid_rune r = true → r ≠ nul → string_in "000"%char r = false.
Proof.
  intros Hr Hn. destruct r as [|a [|b [|c [|d [|? ?]]]]]; try done; cbn in Hr;
    unfold ascii_byte, rune2, rune3, rune4, cont, between in Hr.
  - cbn [string_in]. rewrite orb_false_r. apply Ascii.eqb_neq. by intros <-.
  - rewrite !string_in_high; [done|lia|lia].
  - rewrite !string_in_high; [done|lia..].
  - rewrite !string_in_high; [done|lia..].
Qed.

Lemma drop_nul_joined l : runes_ok l → drop_nul (joined l) = joined (filter (.≠ nul) l).
Proof.
  induction 1 as [|r l Hr _ IH]; [done|]. cbn [joined]. rewrite drop_nul_app, IH, filter_cons.
  case_decide as Hn; cbn [joined]; [by rewrite drop_nul_none by by apply rune_without_nul|].
  by rewrite Hn.
Qed.

Lemma joined_without_nul l :
  runes_ok l → (∀ r, r ∈ l → r ≠ nul) → string_in "000"%char (joined l) = false.
Proof.
  induction 1 as [|r l Hr _ IH]; [done|]. cbn [joined]. intros Hn.
  rewrite string_in_app, IH by (intros; apply Hn; by constructor).
  rewrite rune_without_nul; [done|done|]. apply Hn. constructor.
Qed.

(** [Clean] as the runes it keeps. *)
Lemma Clean_runes s :
  ∃ l, runes_ok l ∧ (∀ r, r ∈ l → r ≠ nul) ∧ Clean s = joined l.
Proof.
  set (l := to_valid replacement false (chunks s)).
  assert (Hl : runes_ok l) by (apply to_valid_runes; [done|apply chunks_valid]).
  exists (filter (.≠ nul) l). split.
  { unfold runes_ok in *. rewrite Forall_forall in *. intros r [_ Hr]%list_elem_of_filter. auto. }
  split; [by intros r [? _]%list_elem_of_filter|].
  rewrite <- (drop_nul_joined l Hl). unfold Clean, ToValidUTF8. fold l.
  destruct (string_in _ _) eqn:E; [done|]. by rewrite drop_nul_none.
Qed.

(** ** Fields and their join *)

Definition words (s : string) : list (list chunk) := fields [] (chunks s).

Lemma fields_forall (P : chunk → Prop) cur l :
  Forall (λ k, P k ∧ is_space k = false) cur → Forall P l →
  Forall (λ f, f ≠ [] ∧ Forall (λ k, P k ∧ is_space k = false) f) (fields cur l).
Proof.
  intros Hcur Hl. revert cur Hcur. induction Hl as [|k l Hk _ IH]; intros cur Hcur; cbn.
  - destruct cur; [constructor|]. constructor; [done|constructor].
  - destruct (is_space k) eqn:E.
    + destruct cur; [by apply IH|]. constructor; [done|by apply IH].
    + apply IH, Forall_app. split; [done|]. constructor; [done|constructor].
Qed.

Lemma join_fields_forall (P : chunk → Prop) ws :
  Forall (λ f, f ≠ [] ∧ Forall (λ k, P k ∧ is_space k = false) f) ws →
  Forall (λ k, P k ∧ is_space k = false ∨ k = space) (join_fields ws).
Proof.
  assert (Hw : ∀ f, Forall (λ k, P k ∧ is_space k = false) f →
    Forall (λ k, P k ∧ is_space k = false ∨ k = space) f)
    by (intros f Hf; eapply Forall_impl; [exact Hf|by left]).
  induction 1 as [|f ws [_ Hf] Hws IH]; [constructor|]. destruct ws; cbn; [by apply Hw|].
  apply Forall_app. split; [by apply Hw|]. constructor; [by right|exact IH].
Qed.

Lemma fields_word cur f l :
  Forall (λ k, is_space k = false) f → fields cur (f ++ l) = fields (cur ++ f) l.
Proof.
  intros Hf. revert cur. induction Hf as [|k f Hk _ IH]; intros cur; cbn; [by rewrite app_nil_r|].
  by rewrite Hk, IH, <- app_assoc.
Qed.

(** The join has the words it was made of. *)
Lemma fields_join ws :
  Forall (λ f, f ≠ [] ∧ Forall (λ k, is_space k = false) f) ws → fields [] (join_fields ws) = ws.
Proof.
  induction 1 as [|f ws [Hne Hf] Hws IH]; [done|]. destruct ws as [|g ws].
  - cbn [join_fields]. rewrite <- (app_nil_r f), fields_word, app_nil_l by done. cbn.
    rewrite app_nil_r. by destruct f.
  - change (join_fields (f :: g :: ws)) with (f ++ space :: join_fields (g :: ws)).
    rewrite fields_word by done. cbn [fields app is_space space]. cbn -[join_fields fields].
    rewrite IH. by destruct f.
Qed.

(** ** Cuts on rune boundaries *)

Lemma cut_back_le s n : (cut_back s n ≤ n)%nat.
Proof. induction n as [|n IH]; cbn [cut_back]; [done|]. destruct (rune_start_at _ _); lia. Qed.

Lemma cut_back_start s n : cut_back s n = 0%nat ∨ rune_start_at s (cut_back s n) = true.
Proof.
  induction n as [|n IH]; cbn [cut_back]; [by left|].
  destruct (rune_start_at s (S n)) eqn:E; [by right|done].
Qed.

Lemma cut_back_ge s n m : (m ≤ n)%nat → rune_start_at s m = true → (m ≤ cut_back s n)%nat.
Proof.
  induction n as [|n IH]; cbn [cut_back]; intros Hm Hs; [lia|].
  destruct (rune_start_at s (S n)) eqn:E; [done|].
  apply IH; [|done]. destruct (decide (m = S n)); [congruence|lia].
Qed.

Lemma string_length_app s t : String.length (s +:+ t)%string = (String.length s + String.length t)%nat.
Proof. induction s as [|c s IH]; [done|]. rewrite app_String. cbn. by rewrite IH. Qed.

Lemma substring_app s t : String.substring 0 (String.length s) (s +:+ t)%string = s.
Proof.
  induction s as [|c s IH]; [by destruct t|]. rewrite app_String. cbn. by rewrite IH.
Qed.

Lemma rune_length r : valid_rune r = true → (1 ≤ String.length r ≤ 4)%nat.
Proof. destruct r as [|a [|b [|c [|d [|? ?]]]]]; cbn [valid_rune String.length]; intros; try done; lia. Qed.

(** The first byte of a rune starts it, the others do not. *)
Lemma rune_starts r t i :
  valid_rune r = true → (i < String.length r)%nat →
  rune_start_at (r +:+ t)%string i = bool_decide (i = 0%nat).
Proof.
  intros Hr Hi. unfold rune_start_at.
  rewrite <- (String.append_correct1 r t i Hi).
  destruct r as [|a [|b [|c [|d [|? ?]]]]]; try done; cbn in Hi;
    unfold valid_rune, ascii_byte, rune2, rune3, rune4, cont, between in Hr;
    destruct i as [|[|[|[|i]]]]; try lia; cbn [String.get]; case_bool_decide; try done;
    unfold cont, between; lia.
Qed.

Lemma rune_starts_next r t i :
  rune_start_at (r +:+ t)%string (i + String.length r) = rune_start_at t i.
Proof. unfold rune_start_at. by rewrite <- String.append_correct2. Qed.

Lemma prefix_boundary l n :
  runes_ok l → (n ≤ String.length (joined l))%nat →
  ∃ l1 l2, l = l1 ++ l2 ∧ (String.length (joined l1) ≤ n < String.length (joined l1) + 4)%nat
    ∧ rune_start_at (joined l) (String.length (joined l1)) = true.
Proof.
  intros Hl. revert n. induction Hl as [|r l Hr Hl IH]; intros n Hn.
  { exists [], []. cbn in *. split; [done|]. split; [lia|done]. }
  pose proof (rune_length r Hr). cbn [joined] in Hn. rewrite string_length_app in Hn.
  destruct (decide (n < String.length r)%nat) as [Hlt|Hge].
  - exists [], (r :: l). split; [done|]. cbn [joined String.length]. split; [lia|].
    rewrite rune_starts by (done || lia). done.
  - destruct (IH (n - String.length r)%nat ltac:(lia)) as (l1 & l2 & -> & Hb & Hs).
    exists (r :: l1), l2. split; [done|]. cbn [joined]. rewrite string_length_app. split; [lia|].
    rewrite Nat.add_comm. rewrite <- Hs. cbn [joined]. apply rune_starts_next.
Qed.

(** A rune's start inside valid runes is a boundary between them. *)
Lemma start_boundary l m :
  runes_ok l → (m ≤ String.length (joined l))%nat → rune_start_at (joined l) m = true →
  ∃ l1 l2, l = l1 ++ l2 ∧ m = String.length (joined l1).
Proof.
  intros Hl. revert m. induction Hl as [|r l Hr Hl IH]; intros m Hm Hs.
  { exists [], []. cbn in *. split; [done|lia]. }
  cbn [joined] in Hm, Hs. rewrite string_length_app in Hm.
  destruct (decide (m < String.length r)%nat) as [Hlt|Hge].
  - rewrite rune_starts in Hs by done. apply bool_decide_eq_true in Hs as ->. by exists [], (r :: l).
  - replace m with (m - String.length r + String.length r)%nat in Hs by lia.
    rewrite rune_starts_next in Hs. destruct (IH (m - String.length r)%nat ltac:(lia) Hs) as (l1 & l2 & -> & He).
    exists (r :: l1), l2. split; [done|]. cbn [joined]. rewrite string_length_app. lia.
Qed.

Lemma joined_app l1 l2 : joined (l1 ++ l2) = (joined l1 +:+ joined l2)%string.
Proof.
  induction l1 as [|r l1 IH]; [done|]. cbn [app joined]. rewrite IH.
  induction r as [|c r IHr]; [done|]. rewrite !app_String. by rewrite IHr.
Qed.

(** The cut of valid text keeps whole runes and loses at most three bytes
    of the room it had. *)
Lemma cut_runes l n :
  runes_ok l → (n ≤ String.length (joined l))%nat →
  ∃ l1 l2, l = l1 ++ l2 ∧ String.substring 0 (cut_back (joined l) n) (joined l) = joined l1
    ∧ (String.length (joined l1) ≤ n < String.length (joined l1) + 4)%nat.
Proof.
  intros Hl Hn. pose proof (cut_back_le (joined l) n) as Hle.
  destruct (prefix_boundary l n Hl Hn) as (p1 & p2 & -> & Hb & Hs).
  pose proof (cut_back_ge (joined (p1 ++ p2)) n (String.length (joined p1)) ltac:(lia) Hs) as Hge.
  assert (∃ l1 l2, p1 ++ p2 = l1 ++ l2
    ∧ cut_back (joined (p1 ++ p2)) n = String.length (joined l1)) as (l1 & l2 & He & Hc).
  { destruct (cut_back_start (joined (p1 ++ p2)) n) as [H0|H0].
    - exists [], (p1 ++ p2). done.
    - apply start_boundary; [done|lia|done]. }
  exists l1, l2. split; [done|]. rewrite Hc in *. rewrite He, joined_app, substring_app.
  split; [done|lia].
Qed.

Lemma trim_app s t :
  trim_spaces (s +:+ t)%string =
    match trim_spaces t with EmptyString => trim_spaces s | t' => (s +:+ t')%string end.
Proof.
  induction s as [|c s IH].
  - rewrite !app_Empty. by destruct (trim_spaces t).
  - rewrite app_String. cbn [trim_spaces]. rewrite IH. destruct (trim_spaces t) as [|d u]; [done|].
    rewrite app_String. destruct (s +:+ String d u)%string eqn:E; [|done].
    destruct s; discriminate E.
Qed.

Lemma rune_trim r : valid_rune r = true → r = " "%string ∨ trim_spaces r = r.
Proof.
  assert (Hh : ∀ a, (128 <=? byteZ a) = true → Ascii.eqb a " " = false)
    by (intros a Ha; apply Ascii.eqb_neq; by intros ->).
  intros Hr. destruct r as [|a [|b [|c [|d [|? ?]]]]]; try done;
    unfold valid_rune, ascii_byte, rune2, rune3, rune4, cont, between in Hr; cbn [trim_spaces].
  - destruct (Ascii.eqb_spec a " ") as [->|]; [by left|by right].
  - right. by rewrite (Hh b) by lia.
  - right. by rewrite (Hh c) by lia.
  - right. by rewrite (Hh d) by lia.
Qed.

Lemma app_nil_r_string s : (s +:+ "")%string = s.
Proof. induction s as [|c s IH]; [done|]. by rewrite app_String, IH. Qed.

Lemma trim_runes l : runes_ok l → ∃ l1 l2, l = l1 ++ l2 ∧ trim_spaces (joined l) = joined l1.
Proof.
  induction 1 as [|r l Hr Hl (l1 & l2 & -> & IH)]; [by exists [], []|].
  cbn [joined]. rewrite trim_app, IH. destruct l1 as [|q l1].
  - cbn [joined]. destruct (rune_trim r Hr) as [-> | ->]; [by exists [], (" "%string :: l2)|].
    exists [r], l2. split; [done|]. cbn [joined]. by rewrite app_nil_r_string.
  - exists (r :: q :: l1), l2. split; [done|]. apply Forall_cons in Hl as [Hq _]. cbn [joined].
    apply rune_length in Hq. destruct q; cbn in Hq; [lia|]. by rewrite app_String.
Qed.

(** ** Properties *)

Lemma ellipsis_rune : valid_rune ellipsis = true.
Proof. reflexivity. Qed.

Lemma runes_ok_prefix l1 l2 : runes_ok (l1 ++ l2) → runes_ok l1.
Proof. by intros [? _]%Forall_app. Qed.

(** [Clean] makes every string storable as PostgreSQL text, valid UTF-8
    without a NUL byte, and leaves a string that is storable already as it
    is. *)
Theorem clean_storable s :
  ValidString (Clean s) = true ∧ string_in "000"%char (Clean s) = false
  ∧ (ValidString s = true → string_in "000"%char s = false → Clean s = s).
Proof.
  destruct (Clean_runes s) as (l & Hl & Hn & E). split; [apply valid_iff; eauto|]. split.
  - rewrite E. by apply joined_without_nul.
  - intros (k & Hk & ->)%valid_iff H0. unfold Clean, ToValidUTF8.
    by rewrite (chunks_of_runes k Hk), to_valid_id, H0.
Qed.

(** The text of a label, one line with its words as they were: its runes. *)
Lemma label_runes s :
  ∃ l, runes_ok l ∧ Rune <$> l = join_fields (words (Clean s))
    ∧ Forall (λ k, k ≠ Rune nul ∧ (is_space k = true → k = space)) (Rune <$> l)
    ∧ fields [] (Rune <$> l) = words (Clean s).
Proof.
  destruct (Clean_runes s) as (c & Hc & Hn & E).
  assert (Hw : Forall (λ f, f ≠ [] ∧ Forall (λ k, (∃ r, k = Rune r ∧ valid_rune r = true ∧ r ≠ nul)
    ∧ is_space k = false) f) (words (Clean s))).
  { unfold words. apply fields_forall; [constructor|]. rewrite E, chunks_of_runes by done.
    apply Forall_fmap. unfold runes_ok in Hc. rewrite Forall_forall in *. intros r Hr.
    exists r. split; [done|]. split; [by apply Hc|by apply Hn]. }
  set (ks := join_fields (words (Clean s))).
  assert (Hks : Forall (λ k, ∃ r, k = Rune r ∧ valid_rune r = true ∧ r ≠ nul
    ∧ (is_space k = true → k = space)) ks).
  { eapply Forall_impl; [apply (join_fields_forall _ _ Hw)|]. cbn.
    intros k [[(r & -> & ? & ?) Hsp]| ->]; [|by exists " "%string].
    exists r. repeat split; [done..|]. intros. congruence. }
  assert (∃ l, runes_ok l ∧ Rune <$> l = ks) as (l & Hl & El).
  { clear -Hks. induction Hks as [|k ks (r & -> & Hr & _) _ (l & Hl & <-)];
      [exists []; split; [constructor|done]|].
    exists (r :: l). split; [by constructor|done]. }
  exists l. split; [done|]. split; [done|]. rewrite El. split.
  - eapply Forall_impl; [exact Hks|]. intros k (r & -> & _ & Hr & Hsp). split; [congruence|done].
  - apply fields_join. eapply Forall_impl; [exact Hw|]. intros f [? Hf]. split; [done|].
    eapply Forall_impl; [exact Hf|]. by intros k [_ ?].
Qed.

(** The name of an activity row is valid UTF-8 of at most [NameCap]
    bytes whose only white space is single spaces; it has the words of the
    label, or is a whole-rune prefix of them with an ellipsis where they take
    more. *)
Theorem name_one_line s :
  (String.length (Name s) ≤ NameCap)%nat ∧ ValidString (Name s) = true
  ∧ Forall (λ k, k ≠ Rune nul ∧ (is_space k = true → k = space)) (chunks (Name s))
  ∧ ∃ t, words t = words (Clean s)
      ∧ (Name s = t ∨ (NameCap < String.length t)%nat ∧
         ∃ u rest, t = (u +:+ rest)%string ∧ Name s = (u +:+ ellipsis)%string).
Proof.
  destruct (label_runes s) as (l & Hl & El & Hsp & Hw).
  assert (Et : joined (chunk_bytes <$> join_fields (fields [] (chunks (Clean s)))) = joined l).
  { change (fields [] (chunks (Clean s))) with (words (Clean s)). rewrite <- El.
    rewrite <- list_fmap_compose. f_equal. by rewrite list_fmap_id. }
  assert (Hwt : words (joined l) = words (Clean s)) by (unfold words at 1; by rewrite chunks_of_runes).
  unfold Name. rewrite Et. cbv zeta. destruct (Nat.leb_spec (String.length (joined l)) NameCap) as [Hle|Hgt].
  { rewrite chunks_of_runes by done. repeat split; [done|apply valid_iff; eauto|done|]. eauto. }
  destruct (cut_runes l (NameCap - String.length ellipsis) Hl ltac:(lia))
    as (l1 & l2 & -> & -> & Hlen).
  destruct (trim_runes l1) as (u & v & -> & ->); [by eapply runes_ok_prefix|].
  rewrite !joined_app in *. rewrite string_length_app in Hlen.
  assert (Ht : runes_ok (u ++ [ellipsis])).
  { apply Forall_app. split; [by eapply runes_ok_prefix, runes_ok_prefix|].
    constructor; [apply ellipsis_rune|constructor]. }
  assert (Ej : (joined u +:+ ellipsis)%string = joined (u ++ [ellipsis]))
    by (rewrite joined_app; cbn [joined]; by rewrite app_nil_r_string).
  change (String.length ellipsis) with 3%nat in Hlen.
  split; [rewrite string_length_app; change (String.length ellipsis) with 3%nat; unfold NameCap in *; lia|]. rewrite Ej at 1 2. split; [apply valid_iff; eauto|].
  rewrite chunks_of_runes by done. split.
  - rewrite fmap_app, Forall_app. rewrite !fmap_app, !Forall_app in Hsp. split; [apply Hsp|].
    constructor; [|constructor]. split; [done|]. vm_compute. done.
  - eexists. split; [exact Hwt|]. right. split; [done|]. exists (joined u), (joined v +:+ joined l2)%string.
    split; [|done]. clear. induction (joined u) as [|c t IH]; [done|]. rewrite !app_String. by f_equal.
Qed.

Lemma substring_prefix n s :
  (n ≤ String.length s)%nat →
  String.length (String.substring 0 n s) = n ∧ ∃ rest, s = (String.substring 0 n s +:+ rest)%string.
Proof.
  revert s. induction n as [|n IH]; intros [|c s] Hn; cbn in Hn; try lia.
  - split; [done|]. by exists ""%string.
  - split; [done|]. by exists (String c s).
  - destruct (IH s ltac:(lia)) as [Hl [rest Hr]]. cbn [String.substring String.length]. split; [lia|].
    exists rest. rewrite app_String. by f_equal.
Qed.

(** [CapOutput] returns a text of at most [OutputCap] bytes as it is, and of
    a longer one a prefix of at most [OutputCap] bytes; of valid UTF-8 the
    prefix is valid and at most three bytes short of the cap. *)
Lemma capOutput_cuts s out cut :
  CapOutput s = (out, cut) →
  (String.length out ≤ OutputCap)%nat ∧ (cut = false → out = s)
  ∧ (∃ rest, s = (out +:+ rest)%string)
  ∧ (cut = true → ValidString s = true →
     ValidString out = true ∧ (OutputCap < String.length out + 4)%nat).
Proof.
  unfold CapOutput. generalize OutputCap. intros cap.
  destruct (Nat.leb_spec (String.length s) cap) as [Hle|Hgt]; intros [= <- <-].
  { repeat split; [done| |done..]. exists ""%string. by rewrite app_nil_r_string. }
  pose proof (cut_back_le s cap) as Hc.
  destruct (substring_prefix (cut_back s cap) s ltac:(lia)) as [Hl Hr].
  split; [lia|]. split; [done|]. split; [done|]. intros _ (l & Hok & ->)%valid_iff.
  destruct (cut_runes l cap Hok ltac:(lia)) as (l1 & l2 & -> & -> & Hb).
  split; [|lia]. apply valid_iff. exists l1. split; [by eapply runes_ok_prefix|done].
Qed.
