(* ===== verification/Json.v ===== *)
(** * JSON as encoding/json writes it

    The encoder the wire messages of the ingresses use (ingress/wire/codec.go:
    encoding/json without HTML escaping), on a tree of values: strings with
    their escapes, base64 of byte slices, times in RFC 3339; and the length of
    what it writes. *)

From S2P Require Import Prelude Text.

Inductive json : Type :=
| JNull
| JBool (b : bool)
| JNum (z : Z)
| JStr (s : string)
| JArr (l : list json)
| JObj (l : list (string * json)).

(** ** Strings *)

Definition quote_char : Ascii.ascii := "034"%char.
Definition backslash : Ascii.ascii := "092"%char.

Definition hex_digit (z : Z) : Ascii.ascii :=
  Ascii.ascii_of_N (Z.to_N (if z <? 10 then 48 + z else 87 + z)).

(** The escape of a byte below 128, as [appendString] writes it. *)
Definition escape_byte (a : Ascii.ascii) : string :=
  let z := byteZ a in
  if Ascii.eqb a quote_char || Ascii.eqb a backslash then String backslash (String a "")
  else if z =? 8 then String backslash "b"
  else if z =? 12 then String backslash "f"
  else if z =? 10 then String backslash "n"
  else if z =? 13 then String backslash "r"
  else if z =? 9 then String backslash "t"
  else if z <? 32
  then String backslash ("u00" +:+ String (hex_digit (z / 16)) (String (hex_digit (z mod 16)) ""))
  else String a "".

(** U+2028 and U+2029 are escaped, as JavaScript takes them for line ends; a
    byte of no rune becomes the escape of U+FFFD. *)
Definition escape_chunk (k : chunk) : string :=
  match k with
  | Rune (String a "") => escape_byte a
  | Rune (String a (String b (String c ""))) =>
      if (byteZ a =? 226) && (byteZ b =? 128) && ((byteZ c =? 168) || (byteZ c =? 169))
      then String backslash ("u202" +:+ String (hex_digit (byteZ c - 160)) "")
      else String a (String b (String c ""))
  | Rune r => r
  | Bad _ => String backslash "ufffd"
  end.

Definition escape (s : string) : string := joined (escape_chunk <$> chunks s).

Definition encode_string (s : string) : string :=
  String quote_char (escape s +:+ String quote_char "").

(** ** Values *)

(** Parts with a comma between them. *)
Fixpoint commas (l : list string) : string :=
  match l with
  | [] => ""
  | [s] => s
  | s :: l' => (s +:+ "," +:+ commas l')%string
  end.

Fixpoint encode (j : json) : string :=
  match j with
  | JNull => "null"
  | JBool true => "true"
  | JBool false => "false"
  | JNum z => pretty z
  | JStr s => encode_string s
  | JArr l => ("[" +:+ commas ((fix go l := match l with [] => [] | x :: l' => encode x :: go l' end) l)
               +:+ "]")%string
  | JObj l =>
      ("{" +:+ commas ((fix go l :=
         match l with
         | [] => []
         | (k, x) :: l' => (encode_string k +:+ ":" +:+ encode x)%string :: go l'
         end) l) +:+ "}")%string
  end.

(** A nil slice or map is null. *)
Definition JSlice {A} (f : A → json) (o : option (list A)) : json :=
  match o with None => JNull | Some l => JArr (f <$> l) end.

(** ** Byte slices *)

Definition base64_alphabet : string :=
  "ABCDEFGHIJKLMNOPQRSTUVWXYZabcdefghijklmnopqrstuvwxyz0123456789+/".

Definition base64_char (z : Z) : Ascii.ascii :=
  match String.get (Z.to_nat (Z.land z 63)) base64_alphabet with Some c => c | None => "A"%char end.

(** [base64.StdEncoding.EncodeToString]. *)
Fixpoint base64 (s : string) : string :=
  match s with
  | EmptyString => EmptyString
  | String a s1 =>
      let x := byteZ a in
      match s1 with
      | EmptyString =>
          String (base64_char (Z.shiftr x 2)) (String (base64_char (Z.shiftl x 4)) "==")
      | String b s2 =>
          let y := byteZ b in
          match s2 with
          | EmptyString =>
              String (base64_char (Z.shiftr x 2))
                (String (base64_char (Z.lor (Z.shiftl x 4) (Z.shiftr y 4)))
                   (String (base64_char (Z.shiftl y 2)) "="))
          | String c s3 =>
              let z := byteZ c in
              String (base64_char (Z.shiftr x 2))
                (String (base64_char (Z.lor (Z.shiftl x 4) (Z.shiftr y 4)))
                   (String (base64_char (Z.lor (Z.shiftl y 2) (Z.shiftr z 6)))
                      (String (base64_char z) (base64 s3))))
          end
      end
  end.

(** A [[]byte] is its base64, nil is null. *)
Definition JBytes (o : option string) : json :=
  match o with None => JNull | Some b => JStr (base64 b) end.

Example base64_example : base64 "light work" = "bGlnaHQgd29yaw=="%string.
Proof. vm_compute. reflexivity. Qed.

Example encode_example :
  encode (JObj [("n", JArr [JNum (-5); JBool true; JNull])])%string
  = String "{" (quoted "n" +:+ ":[-5,true,null]}").
Proof. vm_compute. reflexivity. Qed.

Example escape_example : escape (String "010" (String "034" "x")) = ("\n" +:+ String "092" (String "034" "x"))%string.
Proof. vm_compute. reflexivity. Qed.

(** ** Lengths *)

Definition len (s : string) : Z := Z.of_nat (String.length s).

Lemma len_app s t : len (s +:+ t)%string = len s + len t.
Proof. unfold len. rewrite string_length_app. lia. Qed.

Lemma len_nonneg s : 0 ≤ len s.
Proof. unfold len. lia. Qed.

(** The sum of the lengths with a comma each. *)
Fixpoint comma_len (l : list Z) : Z :=
  match l with [] => 0 | n :: l' => n + 1 + comma_len l' end.

Lemma comma_len_app l1 l2 : comma_len (l1 ++ l2) = comma_len l1 + comma_len l2.
Proof. induction l1 as [|n l1 IH]; cbn [app comma_len]; lia. Qed.

Lemma len_commas l : l ≠ [] → len (commas l) + 1 = comma_len (len <$> l).
Proof.
  induction l as [|s [|t l] IH]; [done|cbn; lia|]. intros _.
  change (commas (s :: t :: l)) with (s +:+ "," +:+ commas (t :: l))%string.
  rewrite !len_app, fmap_cons. cbn [comma_len]. rewrite <- IH by done.
  change (len ",") with 1. lia.
Qed.

Lemma encode_arr l : encode (JArr l) = ("[" +:+ commas (encode <$> l) +:+ "]")%string.
Proof. reflexivity. Qed.

Definition encode_field (f : string * json) : string :=
  (encode_string f.1 +:+ ":" +:+ encode f.2)%string.

Lemma encode_obj l : encode (JObj l) = ("{" +:+ commas (encode_field <$> l) +:+ "}")%string.
Proof.
  cbn [encode]. do 3 f_equal. induction l as [|[k x] l IH]; [done|]. rewrite fmap_cons. by f_equal.
Qed.

Lemma len_arr l : l ≠ [] → len (encode (JArr l)) = 1 + comma_len ((λ x, len (encode x)) <$> l).
Proof.
  intros Hl. rewrite encode_arr, !len_app. change (len "[") with 1. change (len "]") with 1.
  pose proof (len_commas (encode <$> l)) as H. rewrite <- list_fmap_compose in H.
  unfold compose in H. rewrite <- H; [lia|]. by destruct l.
Qed.

Lemma len_obj l : l ≠ [] → len (encode (JObj l)) = 1 + comma_len ((λ f, len (encode_field f)) <$> l).
Proof.
  intros Hl. rewrite encode_obj, !len_app. change (len "{") with 1. change (len "}") with 1.
  pose proof (len_commas (encode_field <$> l)) as H. rewrite <- list_fmap_compose in H.
  unfold compose in H. rewrite <- H; [lia|]. by destruct l.
Qed.

Lemma len_field k x : len (encode_field (k, x)) = len (encode_string k) + 1 + len (encode x).
Proof. unfold encode_field. cbn [fst snd]. rewrite !len_app. change (len ":") with 1. lia. Qed.

(** ** Numbers *)

Lemma pretty_N_go_len k x s :
  (x < 10 ^ N.of_nat k)%N → (String.length (pretty_N_go x s) ≤ String.length s + k)%nat.
Proof.
  revert x s. induction k as [|k IH]; intros x s Hx.
  { change (10 ^ N.of_nat 0)%N with 1%N in Hx. assert (x = 0%N) as -> by lia. rewrite pretty_N_go_0. lia. }
  destruct (decide (x = 0%N)) as [->|Hne]; [rewrite pretty_N_go_0; lia|].
  rewrite pretty_N_go_step by lia. etrans; [apply IH|cbn; lia].
  rewrite Nat2N.inj_succ, N.pow_succ_r in Hx by lia. apply N.Div0.div_lt_upper_bound. lia.
Qed.

Lemma len_pretty k z : 0 ≤ z < 10 ^ Z.of_nat k → (0 < k)%nat → len (pretty z) ≤ Z.of_nat k.
Proof.
  intros Hz Hk. unfold len. apply Nat2Z.inj_le.
  destruct z as [|p|p]; [|change (pretty (Z.pos p)) with (pretty (N.pos p))|lia].
  { change (pretty 0) with "0"%string. cbn. lia. }
  unfold pretty, pretty_N. rewrite decide_False by done. etrans; [apply (pretty_N_go_len k)|cbn; lia].
  apply N2Z.inj_lt. rewrite N2Z.inj_pow, nat_N_Z. apply Hz.
Qed.

(** ** Times *)

(** A [time.Time] as it is written: the instant and its zone's offset, in
    minutes east of UTC. *)
Record Stamp := MkStamp { stamp_time : Time; stamp_zone : Z }.

Fixpoint trim_zeros (s : string) : string :=
  match s with
  | EmptyString => EmptyString
  | String c s' =>
      match trim_zeros s' with
      | EmptyString => if Ascii.eqb c "0" then EmptyString else String c ""
      | t => String c t
      end
  end.

Definition fraction (nanos : Z) : string :=
  if nanos =? 0 then "" else ("." +:+ trim_zeros (padded 9 nanos))%string.

Definition zone_text (minutes : Z) : string :=
  let sign := if minutes <? 0 then "-"%string else "+"%string in
  if minutes =? 0 then "Z"
  else (sign +:+ padded 2 (Z.abs minutes / 60) +:+ ":" +:+ padded 2 (Z.abs minutes mod 60))%string.

(** [Time.MarshalJSON]: RFC 3339 with nanoseconds; an error for a year of
    other than four digits or an offset of a day or more. *)
Definition marshal_time (s : Stamp) : option json :=
  let local := stamp_time s + stamp_zone s * Minute in
  let secs := local / Second in
  let '(y, m, d) := civil (secs / 86400) in
  let r := secs mod 86400 in
  if (0 <=? y) && (y <=? 9999) && (Z.abs (stamp_zone s) <? 24 * 60) then
    Some (JStr (padded 4 y +:+ "-" +:+ padded 2 m +:+ "-" +:+ padded 2 d +:+ "T"
      +:+ padded 2 (r / 3600) +:+ ":" +:+ padded 2 (r / 60 mod 60) +:+ ":" +:+ padded 2 (r mod 60)
      +:+ fraction (local mod Second) +:+ zone_text (stamp_zone s))%string)
  else None.

Example marshal_time_example :
  encode <$> marshal_time (MkStamp (63844761600 * Second + 5000000) 90)
  = Some (quoted "2024-02-29T01:30:00.005+01:30").
Proof. vm_compute. reflexivity. Qed.

Lemma zeros_len n : len (zeros n) = Z.of_nat n.
Proof. induction n as [|n IH]; [done|]. unfold len in *. cbn [zeros String.length]. lia. Qed.

Lemma padded_len n z : 0 ≤ z < 10 ^ Z.of_nat n → (0 < n)%nat → len (padded n z) = Z.of_nat n.
Proof.
  intros Hz Hn. pose proof (len_pretty n z Hz Hn). unfold padded. cbv zeta.
  rewrite len_app, zeros_len. unfold len in *. lia.
Qed.

(** The day of the year, in years that begin in March. *)
Lemma day_of_year_range doe :
  0 ≤ doe < 146097 →
  let yoe := (doe - doe / 1460 + doe / 36524 - doe / 146096) / 365 in
  0 ≤ doe - (365 * yoe + yoe / 4 - yoe / 100) ≤ 366.
Proof. intros H yoe. unfold yoe. Z.to_euclidean_division_equations; lia. Qed.

Lemma civil_range days y m d : civil days = (y, m, d) → 1 ≤ m ≤ 12 ∧ 1 ≤ d ≤ 31.
Proof.
  unfold civil. pose proof (Z.mod_pos_bound (days + 306) 146097 ltac:(lia)) as Hd.
  apply day_of_year_range in Hd. cbv zeta in Hd |- *. revert Hd.
  generalize ((days + 306) mod 146097). intros doe.
  generalize ((doe - doe / 1460 + doe / 36524 - doe / 146096) / 365). intros yoe.
  generalize (doe - (365 * yoe + yoe / 4 - yoe / 100)). intros doy Hd [= _ <- <-].
  destruct (Z.ltb_spec ((5 * doy + 2) / 153) 10); Z.to_euclidean_division_equations; lia.
Qed.

Lemma trim_zeros_len s : len (trim_zeros s) ≤ len s.
Proof.
  unfold len. induction s as [|c s IH]; [done|]. cbn [trim_zeros].
  destruct (trim_zeros s) as [|d t]; [destruct (Ascii.eqb c "0")|]; cbn [String.length] in *; lia.
Qed.

(** Digits and the punctuation of a time need no escape: its JSON is its text
    in quotes, of at most 37 bytes. *)
Definition plain (s : string) : bool :=
  string_forallb (λ c, ascii_byte c && String.eqb (escape_byte c) (String c "")) s.

Lemma plain_app s t : plain (s +:+ t)%string = plain s && plain t.
Proof.
  unfold plain. induction s as [|c s IH]; [done|]. rewrite app_String.
  cbn [string_forallb]. by rewrite IH, andb_assoc.
Qed.

Lemma plain_escape s : plain s = true → escape s = s.
Proof.
  unfold plain, escape. induction s as [|c s IH]; [done|]. cbn [string_forallb chunks].
  intros [[Hc He]%andb_true_iff Hs]%andb_true_iff. rewrite Hc, fmap_cons. cbn [joined escape_chunk].
  apply String.eqb_eq in He. by rewrite He, IH.
Qed.

Lemma plain_len s : plain s = true → len (encode_string s) = len s + 2.
Proof.
  intros H. unfold encode_string. rewrite (plain_escape _ H).
  unfold len. cbn [String.length]. rewrite string_length_app. cbn. lia.
Qed.

Lemma pretty_N_char_plain x : plain (String (pretty_N_char x) "") = true.
Proof. unfold pretty_N_char. by repeat case_match. Qed.

Lemma pretty_N_go_plain k x s :
  (x < 10 ^ N.of_nat k)%N → plain s = true → plain (pretty_N_go x s) = true.
Proof.
  revert x s. induction k as [|k IH]; intros x s Hx Hs.
  { change (10 ^ N.of_nat 0)%N with 1%N in Hx. assert (x = 0%N) as -> by lia. by rewrite pretty_N_go_0. }
  destruct (decide (x = 0%N)) as [->|Hne]; [by rewrite pretty_N_go_0|].
  rewrite pretty_N_go_step by lia. apply IH.
  - rewrite Nat2N.inj_succ, N.pow_succ_r in Hx by lia. apply N.Div0.div_lt_upper_bound. lia.
  - change (String ?c s) with (String c "" +:+ s)%string. by rewrite plain_app, pretty_N_char_plain.
Qed.

Lemma pretty_plain k z : 0 ≤ z < 10 ^ Z.of_nat k → plain (pretty z) = true.
Proof.
  intros Hz. destruct z as [|p|p]; [done| |lia]. change (pretty (Z.pos p)) with (pretty (N.pos p)).
  unfold pretty, pretty_N. rewrite decide_False by done. apply (pretty_N_go_plain k); [|done].
  apply N2Z.inj_lt. rewrite N2Z.inj_pow, nat_N_Z. apply Hz.
Qed.

Lemma zeros_plain n : plain (zeros n) = true.
Proof. by induction n. Qed.

Lemma padded_plain n z : 0 ≤ z < 10 ^ Z.of_nat n → plain (padded n z) = true.
Proof. intros Hz. unfold padded. cbv zeta. rewrite plain_app, zeros_plain. by eapply pretty_plain. Qed.

Lemma trim_zeros_plain s : plain s = true → plain (trim_zeros s) = true.
Proof.
  induction s as [|c s IH]; [done|].
  change (String c s) with (String c "" +:+ s)%string at 1. rewrite plain_app.
  intros [Hc Hs]%andb_true_iff. specialize (IH Hs). cbn [trim_zeros].
  destruct (trim_zeros s) as [|d t]; [destruct (Ascii.eqb c "0"); done|].
  change (String c ?u) with (String c "" +:+ u)%string. by rewrite plain_app, Hc, IH.
Qed.

Lemma fraction_spec n : 0 ≤ n < Second → plain (fraction n) = true ∧ len (fraction n) ≤ 10.
Proof.
  intros Hn. unfold fraction. destruct (n =? 0); [done|]. split.
  - rewrite plain_app. apply trim_zeros_plain, padded_plain. unfold Second in Hn. cbn. lia.
  - rewrite len_app. change (len ".") with 1. pose proof (trim_zeros_len (padded 9 n)) as H.
    rewrite padded_len in H; [lia| |lia]. unfold Second in Hn. cbn. lia.
Qed.

Lemma zone_spec z : Z.abs z < 24 * 60 → plain (zone_text z) = true ∧ len (zone_text z) ≤ 6.
Proof.
  intros Hz. unfold zone_text. cbv zeta. destruct (z =? 0); [done|].
  assert (0 ≤ Z.abs z / 60 < 10 ^ Z.of_nat 2 ∧ 0 ≤ Z.abs z mod 60 < 10 ^ Z.of_nat 2) as [H1 H2]
    by (change (10 ^ Z.of_nat 2) with 100; Z.to_euclidean_division_equations; lia).
  rewrite !plain_app, !padded_plain, !len_app, !padded_len by (done || lia).
  by destruct (z <? 0).
Qed.

Lemma marshal_time_len s j : marshal_time s = Some j → len (encode j) ≤ 37.
Proof.
  unfold marshal_time. cbv zeta. destruct (civil _) as [[y m] d] eqn:Ec.
  destruct (_ && _ && _) eqn:Eb; [|done]. intros [= <-]. reflect_tests. apply civil_range in Ec.
  set (local := stamp_time s + stamp_zone s * Minute) in *. set (r := (local / Second) mod 86400).
  assert (Hr : 0 ≤ r < 86400) by (apply Z.mod_pos_bound; lia).
  destruct (fraction_spec (local mod Second)) as [Hf1 Hf2]; [apply Z.mod_pos_bound; done|].
  destruct (zone_spec (stamp_zone s)) as [Hz1 Hz2]; [lia|].
  assert (Hp : ∀ z, 0 ≤ z < 100 → plain (padded 2 z) = true ∧ len (padded 2 z) = 2)
    by (intros z Hz; split; [by apply padded_plain|apply padded_len; [done|lia]]).
  assert (Hh : 0 ≤ r / 3600 < 100 ∧ 0 ≤ r / 60 mod 60 < 100 ∧ 0 ≤ r mod 60 < 100)
    by (Z.to_euclidean_division_equations; lia).
  destruct (Hp m ltac:(lia)), (Hp d ltac:(lia)), (Hp (r / 3600) ltac:(lia)),
    (Hp (r / 60 mod 60) ltac:(lia)), (Hp (r mod 60) ltac:(lia)).
  assert (Hy : plain (padded 4 y) = true ∧ len (padded 4 y) = 4)
    by (split; [apply padded_plain|apply padded_len; [|lia]]; change (10 ^ Z.of_nat 4) with 10000; lia).
  cbn [encode]. rewrite plain_len; rewrite ?plain_app, ?len_app.
  - change (len "-") with 1. change (len "T") with 1. change (len ":") with 1. lia.
  - by repeat match goal with H : plain _ = true |- _ => rewrite H | H : _ ∧ _ |- _ => destruct H end.
Qed.
