(* ===== verification/Wire.v ===== *)
(** * The Sync stream's messages (ingress/wire)

    What ferund streams to an ingress: tables of environments, whole or as
    deltas (messages.go), cut into parts that fit a message (split.go), and
    the state an ingress builds of them (state.go).  Proved: the parts of a
    table have the effect of the table, they fit, and a message that is
    refused or incomplete changes nothing of the table. *)

From S2P Require Import Prelude Text Json.

(** ** The messages (messages.go)

    A slice or map of the JSON messages is an option, nil being [None]. *)

Record Challenge := MkChallenge { ch_Token : string; ch_Host : string; ch_KeyAuth : string }.

Record Peer := MkPeer {
  wp_Name : string; wp_PublicKey : option string; wp_Endpoint : string; wp_Prefix : string
}.

Record Mesh := MkMesh { wm_Version : Z; wm_Peers : option (list Peer) }.

Record Self := MkSelf {
  ws_Name : string; ws_Address : string; ws_AppsZone : string; ws_TenantZone : string;
  ws_AdmittedVersion : Z
}.

Record Domain := MkDomain {
  wd_Name : string; wd_Chain : option (list (option string)); wd_Key : option string
}.

Record Route := MkRoute {
  wr_Name : string; wr_Path : string; wr_Service : string; wr_Port : string; wr_Strip : bool;
  wr_Door : bool
}.

Record Endpoint := MkEndpoint {
  we_Instance : string; we_Address : string; we_Node : string; we_Ports : option (gmap string Z);
  we_GroupVersion : Z
}.

Record Service := MkService {
  wv_Name : string; wv_Idle : bool; wv_Endpoints : option (list Endpoint); wv_Asleep : Z;
  wv_Waking : Z; wv_Pending : Z
}.

Record Env := MkEnv {
  env_ID : string; env_Tenant : string; env_Name : string; env_Hosts : option (list string);
  env_Deployment : Z; env_Hash : string; env_Routes : option (list Route);
  env_Services : option (list Service); env_Domains : option (list Domain)
}.

(** [Table]: one message of the stream. *)
Record Table := MkTable {
  tb_Seq : Z;
  tb_Whole : bool;
  tb_More : bool;
  tb_Envs : list Env;
  tb_Removed : list string;
  tb_Mesh : option Mesh;
  tb_Self : option Self;
  tb_Challenges : option (option (list Challenge));
  tb_SentAt : Stamp
}.

#[export] Instance eta_Table : Eta Table := λ t,
  MkTable (tb_Seq t) (tb_Whole t) (tb_More t) (tb_Envs t) (tb_Removed t) (tb_Mesh t) (tb_Self t)
    (tb_Challenges t) (tb_SentAt t).

(** ** Their JSON *)

Definition json_challenge (c : Challenge) : json :=
  JObj [("token", JStr (ch_Token c)); ("host", JStr (ch_Host c)); ("keyAuth", JStr (ch_KeyAuth c))].

Definition json_challenges (items : option (list Challenge)) : json :=
  JObj [("items", JSlice json_challenge items)].

Definition json_peer (p : Peer) : json :=
  JObj [("name", JStr (wp_Name p)); ("publicKey", JBytes (wp_PublicKey p));
        ("endpoint", JStr (wp_Endpoint p)); ("prefix", JStr (wp_Prefix p))].

Definition json_mesh (m : Mesh) : json :=
  JObj [("version", JNum (wm_Version m)); ("peers", JSlice json_peer (wm_Peers m))].

Definition json_self (s : Self) : json :=
  JObj ([("name", JStr (ws_Name s)); ("address", JStr (ws_Address s)); ("appsZone", JStr (ws_AppsZone s))]
    ++ (if String.eqb (ws_TenantZone s) "" then [] else [("tenantZone", JStr (ws_TenantZone s))])
    ++ [("admittedVersion", JNum (ws_AdmittedVersion s))]).

Definition json_domain (d : Domain) : json :=
  JObj [("name", JStr (wd_Name d)); ("chain", JSlice JBytes (wd_Chain d)); ("key", JBytes (wd_Key d))].

Definition json_route (r : Route) : json :=
  JObj [("name", JStr (wr_Name r)); ("path", JStr (wr_Path r)); ("service", JStr (wr_Service r));
        ("port", JStr (wr_Port r)); ("strip", JBool (wr_Strip r)); ("door", JBool (wr_Door r))].

(** A map's keys are sorted. *)
Definition json_ports (ports : option (gmap string Z)) : json :=
  match ports with
  | None => JNull
  | Some m => JObj ((λ kv, (kv.1, JNum kv.2)) <$>
      sort_by (λ a b, String.leb a.1 b.1) (map_to_list m))
  end.

Definition json_endpoint (e : Endpoint) : json :=
  JObj [("instance", JStr (we_Instance e)); ("address", JStr (we_Address e)); ("node", JStr (we_Node e));
        ("ports", json_ports (we_Ports e)); ("groupVersion", JNum (we_GroupVersion e))].

Definition json_service (s : Service) : json :=
  JObj [("name", JStr (wv_Name s)); ("idle", JBool (wv_Idle s));
        ("endpoints", JSlice json_endpoint (wv_Endpoints s)); ("asleep", JNum (wv_Asleep s));
        ("waking", JNum (wv_Waking s)); ("pending", JNum (wv_Pending s))].

Definition json_env (e : Env) : json :=
  JObj ([("id", JStr (env_ID e)); ("tenant", JStr (env_Tenant e)); ("name", JStr (env_Name e));
         ("hosts", JSlice JStr (env_Hosts e)); ("deployment", JNum (env_Deployment e));
         ("hash", JStr (env_Hash e)); ("routes", JSlice json_route (env_Routes e));
         ("services", JSlice json_service (env_Services e))]
    ++ match env_Domains e with
       | None | Some [] => []
       | Some ds => [("domains", JArr (json_domain <$> ds))]
       end).

(** A field that is left out when it is empty. *)
Definition field_if (b : bool) (k : string) (j : json) : list (string * json) :=
  if b then [(k, j)] else [].

Definition field_opt {A} (k : string) (f : A → json) (o : option A) : list (string * json) :=
  match o with None => [] | Some a => [(k, f a)] end.

Definition table_fields (t : Table) (sentAt : json) : list (string * json) :=
  [("seq", JNum (tb_Seq t))]
  ++ field_if (tb_Whole t) "whole" (JBool true)
  ++ field_if (tb_More t) "more" (JBool true)
  ++ field_if (negb (bool_decide (tb_Envs t = []))) "envs" (JArr (json_env <$> tb_Envs t))
  ++ field_if (negb (bool_decide (tb_Removed t = []))) "removed" (JArr (JStr <$> tb_Removed t))
  ++ field_opt "mesh" json_mesh (tb_Mesh t)
  ++ field_opt "self" json_self (tb_Self t)
  ++ field_opt "challenges" json_challenges (tb_Challenges t)
  ++ [("sentAt", sentAt)].

(** The JSON of a table; its only part that may not encode is its time. *)
Definition json_table (t : Table) : option json :=
  JObj ∘ table_fields t <$> marshal_time (tb_SentAt t).

(** [Size]: the bytes of a coded value. *)
Definition Size (j : json) : Z := len (encode j).

(** ** Parts (split.go) *)

Definition MaxMessageBytes : Z := Z.shiftl 32 20.
Definition PartBytes : Z := Z.shiftl 4 20.

(** What a part takes beside its environments, removals, mesh, self and
    challenges. *)
Definition partFrame : Z := 160.

(** [s[from:to]]. *)
Definition window {A} (s : list A) (from to : nat) : list A := drop from (take to s).

(** The size of an optional field with its key, [n] bytes with the comma. *)
Definition opt_size {A} (f : A → json) (n : Z) (o : option A) : Z :=
  match o with None => 0 | Some a => Size (f a) + n end.

Definition base_size (t : Table) : Z :=
  partFrame + opt_size json_mesh 8 (tb_Mesh t) + opt_size json_self 8 (tb_Self t)
  + opt_size json_challenges 14 (tb_Challenges t).

(** Each item with the comma before it. *)
Definition env_sizes (t : Table) : list Z := (λ e, Size (json_env e) + 1) <$> tb_Envs t.
Definition id_sizes (t : Table) : list Z := (λ id, Size (JStr id) + 1) <$> tb_Removed t.

Definition total_size (t : Table) : Z :=
  foldl Z.add (foldl Z.add (base_size t) (env_sizes t)) (id_sizes t).

(** The parts made so far, the last of them apart, and the loops' variables. *)
Record splitting := MkSplitting {
  sp_parts : list Table;
  sp_cur : Table;
  sp_used : Z;
  sp_items : Z;
  sp_envFrom : nat;
  sp_idFrom : nat
}.

#[export] Instance eta_splitting : Eta splitting := λ s,
  MkSplitting (sp_parts s) (sp_cur s) (sp_used s) (sp_items s) (sp_envFrom s) (sp_idFrom s).

(** [Seq + 1] of a uint64. *)
Definition seq_next (seq : Z) : Z := wrapu64 (seq + 1).

(** [cut] and [next] of [Split]. *)
Definition cut (t : Table) (envTo idTo : nat) (s : splitting) : splitting :=
  s <| sp_cur := (sp_cur s) <| tb_Envs := window (tb_Envs t) (sp_envFrom s) envTo |>
                            <| tb_Removed := window (tb_Removed t) (sp_idFrom s) idTo |> |>
    <| sp_envFrom := envTo |> <| sp_idFrom := idTo |>.

Definition next (t : Table) (s : splitting) : splitting :=
  let p := (sp_cur s) <| tb_More := true |> in
  MkSplitting (sp_parts s ++ [p])
    (MkTable (seq_next (tb_Seq p)) false false [] [] None None None (tb_SentAt t))
    partFrame 0 (sp_envFrom s) (sp_idFrom s).

(** One item of [n] bytes; [envTo] and [idTo] end the current part when it
    does not fit. *)
Definition split_item (t : Table) (limit : Z) (envTo idTo : nat) (n : Z) (s : splitting) : splitting :=
  let s := if (0 <? sp_items s) && (limit <? sp_used s + n) then next t (cut t envTo idTo s) else s in
  s <| sp_used ::= Z.add n |> <| sp_items ::= Z.add 1 |>.

Fixpoint split_envs (t : Table) (limit : Z) (i : nat) (sizes : list Z) (s : splitting) : splitting :=
  match sizes with
  | [] => s
  | n :: sizes' => split_envs t limit (S i) sizes' (split_item t limit i 0 n s)
  end.

Fixpoint split_ids (t : Table) (limit : Z) (i : nat) (sizes : list Z) (s : splitting) : splitting :=
  match sizes with
  | [] => s
  | n :: sizes' =>
      split_ids t limit (S i) sizes' (split_item t limit (length (tb_Envs t)) i n s)
  end.

Definition first_part (t : Table) : Table :=
  MkTable (tb_Seq t) (tb_Whole t) false [] [] (tb_Mesh t) (tb_Self t) (tb_Challenges t) (tb_SentAt t).

(** [Split]: the messages that carry [t].  [Size] fails on none of them:
    they are strings, numbers, lists and maps. *)
Definition Split (t : Table) (limit : Z) : list Table :=
  if total_size t <=? limit then [t]
  else
    let s := MkSplitting [] (first_part t) (base_size t) 0 0 0 in
    let s := split_envs t limit 0 (env_sizes t) s in
    let s := split_ids t limit 0 (id_sizes t) s in
    let s := cut t (length (tb_Envs t)) (length (tb_Removed t)) s in
    sp_parts s ++ [sp_cur s].

(** ** The state of an ingress (state.go) *)

Record State := MkState {
  s_Seq : Z;
  s_Envs : gmap string Env;
  s_Mesh : Mesh;
  s_Self : Self;
  s_Challenges : option (list Challenge);
  s_parts : option Table
}.

#[export] Instance eta_State : Eta State := λ s,
  MkState (s_Seq s) (s_Envs s) (s_Mesh s) (s_Self s) (s_Challenges s) (s_parts s).

Definition NewState : State :=
  MkState 0 ∅ (MkMesh 0 None) (MkSelf "" "" "" "" 0) None None.

Inductive wire_error : Type :=
| NoTable
| ErrSequencePart (seq last : Z)
| ErrSequenceMessage (seq last : Z).

(** [join]: the next part [n] joined to the parts [t]. *)
Definition or_else {A} (o p : option A) : option A := match o with Some _ => o | None => p end.

Definition join (t n : Table) : Table :=
  MkTable (tb_Seq n) (tb_Whole t) (tb_More n) (tb_Envs t ++ tb_Envs n) (tb_Removed t ++ tb_Removed n)
    (or_else (tb_Mesh n) (tb_Mesh t)) (or_else (tb_Self n) (tb_Self t))
    (or_else (tb_Challenges n) (tb_Challenges t)) (tb_SentAt t).

(** The effect of a message whose parts have all arrived. *)
Definition apply_message (s : State) (m : Table) : State :=
  let envs := if tb_Whole m then ∅ else s_Envs s in
  MkState (tb_Seq m)
    (foldl (λ es id, delete id es) (foldl (λ es e, <[env_ID e := e]> es) envs (tb_Envs m))
       (tb_Removed m))
    (default (s_Mesh s) (tb_Mesh m)) (default (s_Self s) (tb_Self m))
    (match tb_Challenges m with
     | Some items => items
     | None => if tb_Whole m then None else s_Challenges s
     end)
    None.

(** [Apply]: the message applied, if any, and the state. *)
Definition Apply (s : State) (o : option Table) : result wire_error (option Table) * State :=
  match o with
  | None => (Err NoTable, s)
  | Some t =>
      let go (m : Table) (s : State) :=
        if tb_More m then (Ok None, s <| s_parts := Some m |>)
        else (Ok (Some m), apply_message s m) in
      if tb_Whole t then go t (s <| s_parts := None |>)
      else
        match s_parts s with
        | Some ps =>
            if negb (tb_Seq t =? seq_next (tb_Seq ps))
            then (Err (ErrSequencePart (tb_Seq t) (tb_Seq ps)), s <| s_parts := None |>)
            else go (join ps t) s
        | None =>
            if negb (tb_Seq t =? seq_next (s_Seq s))
            then (Err (ErrSequenceMessage (tb_Seq t) (s_Seq s)), s)
            else go t s
        end
  end.

(** A stream of messages applied one after the other, as long as each is
    accepted. *)
Fixpoint apply_all (s : State) (ts : list Table) : result wire_error State :=
  match ts with
  | [] => Ok s
  | t :: ts' => match Apply s (Some t) with (Ok _, s') => apply_all s' ts' | (Err e, _) => Err e end
  end.

(** ** The parts of a table, as the windows they carry

    Part [k] of a table with the environments and removals of window [w]. *)

Definition seq_at (t : Table) (k : nat) : Z := Nat.iter k seq_next (tb_Seq t).

Definition on_first {A} (k : nat) (x y : A) : A := match k with O => x | S _ => y end.

Definition part (t : Table) (more : bool) (k : nat) (w : list Env * list string) : Table :=
  MkTable (seq_at t k) (on_first k (tb_Whole t) false) more w.1 w.2 (on_first k (tb_Mesh t) None)
    (on_first k (tb_Self t) None) (on_first k (tb_Challenges t) None) (tb_SentAt t).

Definition part_base (t : Table) (k : nat) : Z := on_first k (base_size t) partFrame.

Definition window_size (w : list Env * list string) : Z :=
  comma_len ((λ e, Size (json_env e)) <$> w.1) + comma_len ((λ id, Size (JStr id)) <$> w.2).

Definition window_items (w : list Env * list string) : nat := (length w.1 + length w.2)%nat.

(** The part is within the limit, or carries a single item. *)
Definition fits (t : Table) (limit : Z) (k : nat) (w : list Env * list string) : Prop :=
  part_base t k + window_size w ≤ limit ∨ (window_items w ≤ 1)%nat.

#[local] Arguments window : simpl never.
#[local] Arguments window_size : simpl never.
#[local] Arguments window_items : simpl never.
#[local] Arguments fits : simpl never.

(** The loops' invariant, with [i] environments and [j] removals seen. *)
Record split_inv (t : Table) (limit : Z) (i j : nat) (s : splitting)
    (ws : list (list Env * list string)) : Prop := {
  si_parts : sp_parts s = imap (part t true) ws;
  si_cur : sp_cur s = part t false (length ws) ([], []);
  si_envs : concat ws.*1 = take (sp_envFrom s) (tb_Envs t);
  si_ids : concat ws.*2 = take (sp_idFrom s) (tb_Removed t);
  si_from : (sp_envFrom s ≤ i)%nat ∧ (sp_idFrom s ≤ j)%nat;
  si_used : sp_used s = part_base t (length ws)
    + window_size (window (tb_Envs t) (sp_envFrom s) i, window (tb_Removed t) (sp_idFrom s) j);
  si_items : sp_items s = Z.of_nat (window_items
    (window (tb_Envs t) (sp_envFrom s) i, window (tb_Removed t) (sp_idFrom s) j));
  si_fits : ∀ k w, ws !! k = Some w → fits t limit k w;
  si_room : fits t limit (length ws)
    (window (tb_Envs t) (sp_envFrom s) i, window (tb_Removed t) (sp_idFrom s) j)
}.

Lemma window_self {A} (l : list A) n : window l n n = [].
Proof. unfold window. rewrite drop_ge; [done|]. rewrite length_take. lia. Qed.

Lemma window_snoc {A} (l : list A) from i x :
  (from ≤ i)%nat → l !! i = Some x → window l from (S i) = window l from i ++ [x].
Proof.
  intros Hf Hx. unfold window. rewrite (take_S_r l i x Hx), drop_app_le; [done|].
  rewrite length_take. apply lookup_lt_Some in Hx. lia.
Qed.

Lemma take_window {A} (l : list A) from i :
  (from ≤ i)%nat → take from l ++ window l from i = take i l.
Proof.
  intros Hf. unfold window. rewrite <- (take_drop from (take i l)) at 2.
  by rewrite take_take, Nat.min_l by done.
Qed.

(** The state after [next (cut i j)]. *)
Lemma cut_next_inv t limit i j s ws :
  split_inv t limit i j s ws →
  split_inv t limit i j (next t (cut t i j s))
    (ws ++ [(window (tb_Envs t) (sp_envFrom s) i, window (tb_Removed t) (sp_idFrom s) j)]).
Proof.
  intros [Hp Hc He Hi [Hf1 Hf2] Hu Hn Hfits Hroom].
  set (w := (window (tb_Envs t) (sp_envFrom s) i, window (tb_Removed t) (sp_idFrom s) j)) in *.
  assert (Hlen : length (ws ++ [w]) = S (length ws)) by (rewrite length_app; cbn; lia).
  split; cbn.
  - rewrite Hp, imap_app. f_equal. cbn. rewrite Hc, Nat.add_0_r. done.
  - rewrite Hc, Hlen. done.
  - rewrite fmap_app, concat_app, He. cbn. rewrite app_nil_r. by apply take_window.
  - rewrite fmap_app, concat_app, Hi. cbn. rewrite app_nil_r. by apply take_window.
  - lia.
  - rewrite Hlen, !window_self. change (window_size ([], [])) with 0. cbn. lia.
  - rewrite !window_self. done.
  - intros k v. destruct (decide (k < length ws)%nat) as [Hlt|Hge].
    + rewrite lookup_app_l by done. apply Hfits.
    + rewrite lookup_app_r by lia. intros [Hk <-]%list_lookup_singleton_Some.
      replace k with (length ws) by lia. done.
  - right. rewrite !window_self. change (window_items ([], [])) with 0%nat. lia.
Qed.

(** One more environment or removal in the current part's window. *)
Lemma window_size_app w1 w2 v1 v2 :
  window_size (w1 ++ v1, w2 ++ v2) = window_size (w1, w2) + window_size (v1, v2).
Proof. unfold window_size. cbn [fst snd]. rewrite !fmap_app, !comma_len_app. lia. Qed.

Lemma window_items_app w1 w2 v1 v2 :
  window_items (w1 ++ v1, w2 ++ v2) = (window_items (w1, w2) + window_items (v1, v2))%nat.
Proof. unfold window_items. cbn [fst snd]. rewrite !length_app. lia. Qed.

Section item.
Context (t : Table) (limit : Z) (i j : nat) (n : Z) (i' j' : nat) (v : list Env * list string).

(** The item that follows [i] environments and [j] removals. *)
Hypothesis Hgrow : ∀ from from', (from ≤ i)%nat → (from' ≤ j)%nat →
  window (tb_Envs t) from i' = window (tb_Envs t) from i ++ v.1
  ∧ window (tb_Removed t) from' j' = window (tb_Removed t) from' j ++ v.2.
Hypothesis Hsize : window_size v = n.
Hypothesis Hone : window_items v = 1%nat.
Hypothesis Hle : (i ≤ i')%nat ∧ (j ≤ j')%nat.

Lemma split_item_inv s ws :
  split_inv t limit i j s ws → ∃ ws', split_inv t limit i' j' (split_item t limit i j n s) ws'.
Proof.
  intros Hinv. unfold split_item.
  set (full := (0 <? sp_items s) && (limit <? sp_used s + n)).
  set (s1 := if full then next t (cut t i j s) else s).
  assert (∃ ws1, split_inv t limit i j s1 ws1
    ∧ (sp_used s1 + n ≤ limit ∨ sp_items s1 = 0)) as (ws1 & H1 & Hfit).
  { destruct full eqn:Ef; unfold s1.
    - eexists. split; [by apply cut_next_inv|by right].
    - exists ws. split; [done|]. apply andb_false_iff in Ef as [Ef|Ef]; reflect_tests; [|by left].
      right. destruct Hinv. lia. }
  clearbody s1. clear full Hinv s. destruct H1 as [Hp Hc He Hi [Hf1 Hf2] Hu Hn Hfits Hroom].
  destruct (Hgrow _ _ Hf1 Hf2) as [G1 G2]. destruct v as [v1 v2]. cbn [fst snd] in G1, G2.
  exists ws1. split; cbn; rewrite ?G1, ?G2, ?window_size_app, ?window_items_app; try done; try lia.
  unfold fits. rewrite window_size_app, window_items_app.
  destruct Hfit as [Hfit|Hfit]; [left|right]; lia.
Qed.
End item.

Lemma drop_cons_lookup {A} (l : list A) i x l' : drop i l = x :: l' → l !! i = Some x ∧ drop (S i) l = l'.
Proof.
  intros H. split.
  - rewrite <- (take_drop i l), H, lookup_app_r; [|rewrite length_take; lia].
    apply (f_equal length) in H. rewrite length_drop in H. cbn in H.
    by rewrite length_take, Nat.min_l, Nat.sub_diag by lia.
  - change (S i) with (1 + i)%nat. rewrite Nat.add_comm, <- drop_drop, H. done.
Qed.

Lemma split_envs_inv t limit sizes i s ws :
  sizes = drop i (env_sizes t) → split_inv t limit i 0 s ws →
  ∃ ws', split_inv t limit (i + length sizes) 0 (split_envs t limit i sizes s) ws'.
Proof.
  revert i s ws. induction sizes as [|n sizes IH]; intros i s ws Hs Hinv; cbn.
  { exists ws. by rewrite Nat.add_0_r. }
  symmetry in Hs. apply drop_cons_lookup in Hs as [Hn Hs]. unfold env_sizes in Hn.
  rewrite list_lookup_fmap in Hn. destruct (tb_Envs t !! i) as [e|] eqn:He; [|done].
  injection Hn as <-.
  destruct (split_item_inv t limit i 0 (Size (json_env e) + 1) (S i) 0 ([e], [])) with (s := s) (ws := ws)
    as [ws1 H1]; [| |done|lia|done|].
  - intros from from' Hf _. split; [by apply window_snoc|by rewrite app_nil_r].
  - unfold window_size. cbn. lia.
  - destruct (IH (S i) _ _ (eq_sym Hs) H1) as [ws' H']. exists ws'. by rewrite Nat.add_succ_r.
Qed.

Lemma split_ids_inv t limit sizes i s ws :
  sizes = drop i (id_sizes t) → split_inv t limit (length (tb_Envs t)) i s ws →
  ∃ ws', split_inv t limit (length (tb_Envs t)) (i + length sizes) (split_ids t limit i sizes s) ws'.
Proof.
  revert i s ws. induction sizes as [|n sizes IH]; intros i s ws Hs Hinv; cbn.
  { exists ws. by rewrite Nat.add_0_r. }
  symmetry in Hs. apply drop_cons_lookup in Hs as [Hn Hs]. unfold id_sizes in Hn.
  rewrite list_lookup_fmap in Hn. destruct (tb_Removed t !! i) as [e|] eqn:He; [|done].
  injection Hn as <-.
  destruct (split_item_inv t limit (length (tb_Envs t)) i (Size (JStr e) + 1) (length (tb_Envs t)) (S i)
    ([], [e])) with (s := s) (ws := ws) as [ws1 H1]; [| |done|lia|done|].
  - intros from from' _ Hf. split; [by rewrite app_nil_r|by apply window_snoc].
  - unfold window_size. cbn. lia.
  - destruct (IH (S i) _ _ (eq_sym Hs) H1) as [ws' H']. exists ws'. by rewrite Nat.add_succ_r.
Qed.

(** The parts of a table: windows that put together are its environments and
    removals, each within the limit or of a single item. *)
Lemma Split_parts t limit :
  Split t limit = [t] ∧ total_size t ≤ limit ∨
  ∃ ws w, Split t limit = imap (part t true) ws ++ [part t false (length ws) w]
    ∧ concat (ws ++ [w]).*1 = tb_Envs t ∧ concat (ws ++ [w]).*2 = tb_Removed t
    ∧ ∀ k v, (ws ++ [w]) !! k = Some v → fits t limit k v.
Proof.
  unfold Split. destruct (Z.leb_spec (total_size t) limit); [by left|right]. cbv zeta.
  destruct (split_envs_inv t limit (env_sizes t) 0 (MkSplitting [] (first_part t) (base_size t) 0 0 0) [])
    as [ws1 H1]; [done| |].
  { split; cbn; try done; rewrite ?window_self; try lia; [change (window_size ([], [])) with 0; lia|].
    right. change (window_items ([], [])) with 0%nat. lia. }
  unfold env_sizes in H1 at 1. rewrite length_fmap in H1. cbn [Nat.add] in H1.
  destruct (split_ids_inv t limit (id_sizes t) 0 _ _ eq_refl H1) as [ws H2].
  unfold id_sizes in H2 at 1. rewrite length_fmap in H2. cbn [Nat.add] in H2.
  revert H2. generalize (split_ids t limit 0 (id_sizes t)
    (split_envs t limit 0 (env_sizes t) (MkSplitting [] (first_part t) (base_size t) 0 0 0))).
  intros s [Hp Hc He Hi [Hf1 Hf2] _ _ Hfits Hroom]. 
  exists ws, (window (tb_Envs t) (sp_envFrom s) (length (tb_Envs t)),
    window (tb_Removed t) (sp_idFrom s) (length (tb_Removed t))).
  repeat split.
  - cbn. rewrite Hp, Hc. done.
  - rewrite fmap_app, concat_app, He. cbn. rewrite app_nil_r, take_window by done. by apply take_ge.
  - rewrite fmap_app, concat_app, Hi. cbn. rewrite app_nil_r, take_window by done. by apply take_ge.
  - intros k v. destruct (decide (k < length ws)%nat) as [Hlt|Hge].
    + rewrite lookup_app_l by done. apply Hfits.
    + rewrite lookup_app_r by lia. intros [Hk <-]%list_lookup_singleton_Some.
      replace k with (length ws) by lia. done.
Qed.

(** ** Applying the parts *)

(** The table with the items and the sequence number of part [k]. *)
Definition upto (t : Table) (more : bool) (k : nat) (es : list Env) (ids : list string) : Table :=
  MkTable (seq_at t k) (tb_Whole t) more es ids (tb_Mesh t) (tb_Self t) (tb_Challenges t) (tb_SentAt t).

Lemma apply_message_parts s o m : apply_message (s <| s_parts := o |>) m = apply_message s m.
Proof. reflexivity. Qed.

Lemma apply_later t k w more es ids s :
  s_parts s = Some (upto t true k es ids) →
  Apply s (Some (part t more (S k) w)) =
    let m := upto t more (S k) (es ++ w.1) (ids ++ w.2) in
    if more then (Ok None, s <| s_parts := Some m |>) else (Ok (Some m), apply_message s m).
Proof.
  intros Hs. unfold Apply. cbn [tb_Whole part on_first]. rewrite Hs. cbn [tb_Seq part upto].
  change (seq_at t (S k)) with (seq_next (seq_at t k)). rewrite Z.eqb_refl. by destruct more.
Qed.

Lemma apply_later_parts t ws w k es ids s :
  s_parts s = Some (upto t true k es ids) →
  apply_all s (imap (λ n, part t true (S k + n)) ws ++ [part t false (S k + length ws) w])
  = Ok (apply_message s (upto t false (S k + length ws) (es ++ concat (ws ++ [w]).*1)
          (ids ++ concat (ws ++ [w]).*2))).
Proof.
  revert k es ids s. induction ws as [|v ws IH]; intros k es ids s Hs.
  - cbn [imap app length]. rewrite Nat.add_0_r. cbn [apply_all].
    rewrite (apply_later t k w false es ids s Hs). cbn. by rewrite !app_nil_r.
  - rewrite imap_cons. cbn [app apply_all]. rewrite Nat.add_0_r.
    rewrite (apply_later t k v true es ids s Hs). cbv zeta iota.
    replace (imap ((λ n, part t true (S k + n)) ∘ S) ws)
      with (imap (λ n, part t true (S (S k) + n)) ws)
      by (apply imap_ext; intros; cbn; by rewrite Nat.add_succ_r).
    replace (S k + length (v :: ws))%nat with (S (S k) + length ws)%nat by (cbn; lia).
    rewrite (IH (S k) (es ++ v.1) (ids ++ v.2)) by done. rewrite apply_message_parts.
    cbn. by rewrite !app_assoc.
Qed.

Lemma apply_parts t ws w s :
  (tb_Whole t = true ∨ s_parts s = None ∧ tb_Seq t = seq_next (s_Seq s)) →
  apply_all s (imap (part t true) ws ++ [part t false (length ws) w])
  = Ok (apply_message s (upto t false (length ws) (concat (ws ++ [w]).*1) (concat (ws ++ [w]).*2))).
Proof.
  intros Hseq.
  assert (Hfirst : ∀ more v, Apply s (Some (part t more 0 v)) =
    let m := upto t more 0 v.1 v.2 in
    if more then (Ok None, s <| s_parts := Some m |>) else (Ok (Some m), apply_message s m)).
  { intros more v. unfold Apply. change (part t more 0 v) with (upto t more 0 v.1 v.2).
    cbn [tb_Whole upto]. destruct (tb_Whole t) eqn:Ew; [by destruct more|].
    destruct Hseq as [?|[Hp Hseq]]; [done|]. rewrite Hp. cbn [tb_Seq upto].
    change (seq_at t 0) with (tb_Seq t). rewrite Hseq, Z.eqb_refl. by destruct more. }
  destruct ws as [|v ws].
  - cbn [imap app length apply_all]. rewrite Hfirst. cbn. by rewrite !app_nil_r.
  - rewrite imap_cons. cbn [app apply_all]. rewrite Hfirst. cbv zeta iota.
    pose proof (apply_later_parts t ws w 0 v.1 v.2
      (s <| s_parts := Some (upto t true 0 v.1 v.2) |>) eq_refl) as H.
    rewrite apply_message_parts in H. cbn [Nat.add] in H. exact H.
Qed.

(** ** The size of a coded table *)

(** The length of an object's fields with a comma each. *)
Definition fields_len (l : list (string * json)) : Z := comma_len ((λ f, len (encode_field f)) <$> l).

Lemma fields_len_app l1 l2 : fields_len (l1 ++ l2) = fields_len l1 + fields_len l2.
Proof. unfold fields_len. by rewrite fmap_app, comma_len_app. Qed.

Lemma fields_len_one k j : fields_len [(k, j)] = len (encode_string k) + 2 + len (encode j).
Proof. unfold fields_len. cbn [fmap list_fmap comma_len]. rewrite len_field. lia. Qed.

Lemma comma_len_nonneg l : Forall (λ n, 0 ≤ n) l → 0 ≤ comma_len l.
Proof. induction 1; cbn; lia. Qed.

Lemma field_list_len {A} (f : A → json) k (l : list A) (b : Z) :
  len (encode_string k) + 3 ≤ b →
  fields_len (field_if (negb (bool_decide (l = []))) k (JArr (f <$> l)))
  ≤ b + comma_len ((λ x, Size (f x)) <$> l).
Proof.
  intros Hb. pose proof (len_nonneg (encode_string k)). destruct l as [|x l].
  - rewrite bool_decide_eq_true_2 by done. unfold fields_len. cbn. lia.
  - rewrite bool_decide_eq_false_2 by done. cbn [negb field_if]. rewrite fields_len_one, len_arr by done.
    rewrite <- list_fmap_compose. unfold compose, Size. lia.
Qed.

Lemma field_opt_len {A} (f : A → json) k (o : option A) (n : Z) :
  len (encode_string k) + 2 = n → fields_len (field_opt k f o) = opt_size f n o.
Proof.
  intros Hn. destruct o as [a|]; [|done]. cbn [field_opt opt_size]. rewrite fields_len_one. unfold Size. lia.
Qed.

Lemma field_if_len (b : bool) k j : fields_len (field_if b k j) ≤ len (encode_string k) + 2 + len (encode j).
Proof.
  destruct b; cbn [field_if]; [by rewrite fields_len_one|]. unfold fields_len. cbn.
  pose proof (len_nonneg (encode_string k)). pose proof (len_nonneg (encode j)). lia.
Qed.

(** The frame of 160 bytes is enough. *)
Lemma table_size p j :
  0 ≤ tb_Seq p < 2 ^ 64 → json_table p = Some j →
  Size j ≤ base_size p + window_size (tb_Envs p, tb_Removed p).
Proof.
  intros Hseq Hj. unfold json_table in Hj.
  destruct (marshal_time (tb_SentAt p)) as [at_|] eqn:Et; [|done].
  assert (j = JObj (table_fields p at_)) as -> by (by injection Hj as <-). clear Hj.
  unfold Size. rewrite len_obj by done. fold (fields_len (table_fields p at_)). unfold table_fields.
  rewrite !fields_len_app, !fields_len_one.
  pose proof (len_pretty 20 (tb_Seq p) ltac:(cbn; lia) ltac:(lia)) as Hnum.
  pose proof (marshal_time_len _ _ Et) as Htime.
  pose proof (field_if_len (tb_Whole p) "whole" (JBool true)) as Hwhole.
  pose proof (field_if_len (tb_More p) "more" (JBool true)) as Hmore.
  pose proof (field_list_len json_env "envs" (tb_Envs p) 9 ltac:(by vm_compute)) as Henvs.
  pose proof (field_list_len JStr "removed" (tb_Removed p) 12 ltac:(by vm_compute)) as Hids.
  rewrite (field_opt_len json_mesh "mesh" (tb_Mesh p) 8), (field_opt_len json_self "self" (tb_Self p) 8),
    (field_opt_len json_challenges "challenges" (tb_Challenges p) 14) by reflexivity.
  change (len (encode_string "whole") + 2 + len (encode (JBool true))) with 13 in Hwhole.
  change (len (encode_string "more") + 2 + len (encode (JBool true))) with 12 in Hmore.
  change (len (encode_string "seq")) with 5. change (len (encode_string "sentAt")) with 8.
  change (encode (JNum (tb_Seq p))) with (pretty (tb_Seq p)).
  unfold base_size, window_size, partFrame. cbn [fst snd]. lia.
Qed.

Lemma foldl_sizes {A} (f : A → Z) (l : list A) z :
  foldl Z.add z ((λ x, f x + 1) <$> l) = z + comma_len (f <$> l).
Proof. revert z. induction l as [|x l IH]; intros z; cbn; [lia|]. rewrite IH. lia. Qed.

Lemma total_size_eq t : total_size t = base_size t + window_size (tb_Envs t, tb_Removed t).
Proof.
  unfold total_size, env_sizes, id_sizes, window_size. cbn [fst snd].
  rewrite (foldl_sizes (λ e, Size (json_env e))), (foldl_sizes (λ id, Size (JStr id))). lia.
Qed.

Lemma seq_at_range t k : 0 ≤ tb_Seq t < 2 ^ 64 → 0 ≤ seq_at t k < 2 ^ 64.
Proof.
  intros H. destruct k as [|k]; [done|]. change (seq_at t (S k)) with (seq_next (seq_at t k)).
  unfold seq_next, wrapu64. apply Z.mod_pos_bound. lia.
Qed.

(** A table is accepted whole, or as the next message. *)
Lemma apply_split s t limit :
  tb_More t = false → (tb_Whole t = true ∨ s_parts s = None ∧ tb_Seq t = seq_next (s_Seq s)) →
  apply_all s (Split t limit)
  = Ok ((apply_message s t) <| s_Seq := seq_at t (length (Split t limit) - 1) |>).
Proof.
  intros Hm Hseq. destruct (Split_parts t limit) as [[-> _]|(ws & w & -> & He & Hi & _)].
  - cbn [apply_all length Nat.sub]. unfold Apply. rewrite Hm.
    destruct (tb_Whole t); [done|]. destruct Hseq as [?|[Hp Hseq]]; [done|].
    by rewrite Hp, Hseq, Z.eqb_refl.
  - rewrite apply_parts, He, Hi by done. rewrite length_app, length_imap. cbn [length].
    rewrite Nat.add_sub. done.
Qed.

Lemma Split_last t limit :
  tb_Seq (default t (last (Split t limit))) = seq_at t (length (Split t limit) - 1).
Proof.
  destruct (Split_parts t limit) as [[-> _]|(ws & w & -> & _)]; [done|].
  rewrite last_snoc, length_app, length_imap. cbn [length default]. by rewrite Nat.add_sub.
Qed.

(** ** Properties *)

(** C20: An ingress that applies the parts of a table, one message after the
    other, ends in the state it has after the whole table, at the sequence
    number of the last part: splitting is invisible. *)
Theorem split_apply s t limit s' :
  s_parts s = None → tb_More t = false → Apply s (Some t) = (Ok (Some t), s') →
  apply_all s (Split t limit) = Ok (s' <| s_Seq := seq_at t (length (Split t limit) - 1) |>).
Proof.
  intros Hp Hm Ha.
  assert (s' = apply_message s t ∧ (tb_Whole t = true ∨ tb_Seq t = seq_next (s_Seq s))) as [-> Hseq].
  { revert Ha. unfold Apply. rewrite Hp, Hm. destruct (tb_Whole t); [intros [= <-]; by split; [|left]|].
    destruct (Z.eqb_spec (tb_Seq t) (seq_next (s_Seq s))); [|done]. intros [= <-]. by split; [|right]. }
  apply apply_split; [done|]. destruct Hseq; auto.
Qed.

(** A part has the table's frame or the plain one, items of the table, and a
    size within the limit or a single item. *)
Lemma Split_part t limit p :
  0 ≤ tb_Seq t < 2 ^ 64 → p ∈ Split t limit →
  0 ≤ tb_Seq p < 2 ^ 64 ∧ (base_size p = base_size t ∨ base_size p = partFrame) ∧
  tb_Envs p ⊆ tb_Envs t ∧ tb_Removed p ⊆ tb_Removed t ∧
  (base_size p + window_size (tb_Envs p, tb_Removed p) ≤ limit ∨ (length (tb_Envs p) + length (tb_Removed p) ≤ 1)%nat).
Proof.
  intros Hseq Hp. destruct (Split_parts t limit) as [[E Ht]|(ws & w & E & He & Hi & Hfits)]; rewrite E in Hp.
  - apply list_elem_of_singleton in Hp as ->. rewrite total_size_eq in Ht. repeat split; auto; try lia; set_solver.
  - assert (∃ more k v, (ws ++ [w]) !! k = Some v ∧ p = part t more k v) as (more & k & v & Hk & ->).
    { apply elem_of_app in Hp as [Hp|Hp].
      - apply list_elem_of_lookup in Hp as [k Hk]. rewrite list_lookup_imap in Hk.
        destruct (ws !! k) as [v|] eqn:Ev; [|done]. injection Hk as <-.
        exists true, k, v. split; [by apply lookup_app_l_Some|done].
      - apply list_elem_of_singleton in Hp as ->. exists false, (length ws), w.
        split; [by apply list_lookup_middle|done]. }
    assert (Hv : v ∈ ws ++ [w]) by (by eapply list_elem_of_lookup_2). destruct v as [es ids].
    assert (Hb : base_size (part t more k (es, ids)) = part_base t k) by (by destruct k).
    split; [by apply seq_at_range|]. split; [rewrite Hb; destruct k; [by left|by right]|]. split; [|split].
    + intros x Hx. rewrite <- He. apply list_elem_of_In, in_concat. exists es.
      split; apply list_elem_of_In; [by apply (list_elem_of_fmap_2 fst _ (es, ids))|done].
    + intros x Hx. rewrite <- Hi. apply list_elem_of_In, in_concat. exists ids.
      split; apply list_elem_of_In; [by apply (list_elem_of_fmap_2 snd _ (es, ids))|done].
    + destruct (Hfits k _ Hk) as [H|H]; [left; cbn; rewrite Hb; lia|by right].
Qed.

(** Every part of a table, as it goes over the wire, is within the limit
    or carries a single environment or removal; the sizes [Split] adds up
    bound what encoding/json writes. *)
Theorem split_parts_fit t limit p j :
  0 ≤ tb_Seq t < 2 ^ 64 → p ∈ Split t limit → json_table p = Some j →
  Size j ≤ limit ∨ (length (tb_Envs p) + length (tb_Removed p) ≤ 1)%nat.
Proof.
  intros Hseq Hp Hj. destruct (Split_part t limit p Hseq Hp) as (Hs & _ & _ & _ & [H|H]); [left|by right].
  apply table_size in Hj; [lia|done].
Qed.

(** A message that is refused, or that is not the last part of its table,
    changes nothing of an ingress's table; any other is applied as one
    message, the parts that came before it included. *)
Theorem apply_all_or_nothing s o :
  match Apply s o with
  | (Ok (Some m), s') => s' = apply_message s m ∧ tb_More m = false
  | (_, s') => s' <| s_parts := s_parts s |> = s
  end.
Proof.
  destruct s as [seq envs mesh self chs ps], o as [t|]; [|done]. unfold Apply. cbn [s_parts s_Seq].
  destruct (tb_Whole t); [destruct (tb_More t) eqn:Em; by rewrite ?Em|].
  destruct ps as [ps|]; (destruct (negb _); [done|]);
    match goal with |- context [tb_More ?m] => destruct (tb_More m) eqn:Em end; by rewrite ?Em.
Qed.

(** ** Witnesses *)

Definition ex_env (id : string) : Env :=
  MkEnv id "acme" "web" (Some ["web.example"]) 3 ("h" +:+ id) (Some []) (Some []) None.

Definition ex_table : Table :=
  MkTable 1 true false [ex_env "e1"; ex_env "e2"; ex_env "e3"] ["e9"; "e2"] (Some (MkMesh 4 (Some [])))
    (Some (MkSelf "i" "fd00::1" "apps" "" 2)) (Some (Some [])) (MkStamp (63844761600 * Second) 60).

Lemma split_apply_witness :
  length (Split ex_table 400) = 3%nat
  ∧ apply_all NewState (Split ex_table 400)
    = Ok ((apply_message NewState ex_table) <| s_Seq := seq_at ex_table (length (Split ex_table 400) - 1) |>).
Proof.
  split; [vm_compute; reflexivity|].
  apply (split_apply NewState ex_table 400); vm_compute; reflexivity.
Defined.

Lemma split_parts_fit_witness :
  ∃ p j, p ∈ Split ex_table 400 ∧ json_table p = Some j
    ∧ (Size j ≤ 400 ∨ (length (tb_Envs p) + length (tb_Removed p) ≤ 1)%nat).
Proof.
  set (p := part ex_table true 0 ([ex_env "e1"], [])). exists p, (default JNull (json_table p)).
  assert (Hin : p ∈ Split ex_table 400) by (apply list_elem_of_In; vm_compute; auto).
  assert (Hj : json_table p = Some (default JNull (json_table p))) by (vm_compute; reflexivity).
  split; [done|]. split; [done|].
  eapply (split_parts_fit ex_table 400); [vm_compute; split; [discriminate|reflexivity]|exact Hin|exact Hj].
Defined.
