(* ===== verification/Sync.v ===== *)
(** * The Sync stream (ingress/service/sync.go, ingress/table/diff.go)

    ferund keeps, per ingress, what its stream sent ([syncState]); on a change
    of its table it sends the difference, in parts, and every heartbeat an
    empty message.  The ingress applies what arrives ([Wire]).  Proved: what
    the ingress has is what ferund's table was when it last sent, however
    often it changed in between, and no message is ever out of sequence. *)

From S2P Require Import Prelude Text Json Wire.

(** ** The table and its differences *)

(** [table.Snapshot], what the stream reads of it. *)
Record Snapshot := MkSnapshot {
  sn_Envs : gmap string Env; sn_Mesh : Mesh; sn_Challenges : option (list Challenge)
}.

Definition env_leb (a b : Env) : bool := String.leb (env_ID a) (env_ID b).

(** [Diff]: the environments that are new or have another hash, and the IDs
    that are gone, each sorted. *)
Definition Diff (sent : gmap string string) (cur : Snapshot) : list Env * list string :=
  (sort_by env_leb
     (filter (λ kv, sent !! kv.1 ≠ Some (env_Hash kv.2)) (map_to_list (sn_Envs cur))).*2,
   sort_by String.leb (filter (λ id, sn_Envs cur !! id = None) (map_to_list sent).*1)).

(** [Hashes]. *)
Definition Hashes (envs : gmap string Env) : gmap string string := env_Hash <$> envs.

(** ** What a stream sent *)

Record syncState := MkSyncState {
  sy_seq : Z;
  sy_sent : gmap string string;
  sy_mesh : Z;
  sy_self : Self;
  sy_challenges : option (list Challenge)
}.

#[export] Instance Challenge_eq_dec : EqDecision Challenge.
Proof. solve_decision. Defined.
#[export] Instance Self_eq_dec : EqDecision Self.
Proof. solve_decision. Defined.

(** [slices.Equal]: nil and empty are equal. *)
Definition same_challenges (a b : option (list Challenge)) : bool :=
  bool_decide (default [] a = default [] b).

(** [delta]: the next message, at [now]; [None] when nothing changed. *)
Definition delta (st : syncState) (cur : Snapshot) (self : Self) (now : Stamp) : option Table :=
  let '(puts, removed) := Diff (sy_sent st) cur in
  let mesh := if wm_Version (sn_Mesh cur) =? sy_mesh st then None else Some (sn_Mesh cur) in
  let self' := if bool_decide (self = sy_self st) then None else Some self in
  let chs := if same_challenges (sn_Challenges cur) (sy_challenges st) then None
             else Some (sn_Challenges cur) in
  if bool_decide (puts = []) && bool_decide (removed = []) && bool_decide (mesh = None)
     && bool_decide (self' = None) && bool_decide (chs = None)
  then None
  else Some (MkTable (seq_next (sy_seq st)) false false puts removed mesh self' chs now).

(** [record]: the message was sent, its last part with [last]. *)
Definition record (st : syncState) (t : Table) (last : Z) : syncState :=
  MkSyncState last
    (foldl (λ m id, delete id m) (foldl (λ m e, <[env_ID e := env_Hash e]> m) (sy_sent st) (tb_Envs t))
       (tb_Removed t))
    (match tb_Mesh t with Some m => wm_Version m | None => sy_mesh st end)
    (match tb_Self t with Some s => s | None => sy_self st end)
    (match tb_Challenges t with Some c => c | None => sy_challenges st end).

(** ** The stream, both ends of it

    The messages ferund sends and what the ingress, in state [s], makes of
    them. *)

Section stream.
Context (partBytes : Z).

(** [send]: the parts, and the sequence number of the last. *)
Definition send (t : Table) (s : State) : result wire_error (Z * State) :=
  let parts := Split t partBytes in
  match apply_all s parts with
  | Err e => Err e
  | Ok s' => Ok (tb_Seq (default t (last parts)), s')
  end.

(** The first message of a stream is whole. *)
Definition first_table (cur : Snapshot) (self : Self) (now : Stamp) : Table :=
  MkTable 1 true false (Diff ∅ cur).1 [] (Some (sn_Mesh cur)) (Some self) (Some (sn_Challenges cur)) now.

Definition open_stream (cur : Snapshot) (self : Self) (now : Stamp) (s : State)
    : result wire_error (syncState * State) :=
  match send (first_table cur self now) s with
  | Err e => Err e
  | Ok (seq, s') =>
      Ok (MkSyncState seq (Hashes (sn_Envs cur)) (wm_Version (sn_Mesh cur)) self (sn_Challenges cur), s')
  end.

(** What the stream's loop wakes up for: a change of the table or of the
    ingress's own row, and the heartbeat. *)
Inductive event : Type :=
| Changed (cur : Snapshot) (self : Self) (now : Stamp)
| Heartbeat (now : Stamp).

Definition serve (ev : event) (st : syncState) (s : State) : result wire_error (syncState * State) :=
  match ev with
  | Changed cur self now =>
      match delta st cur self now with
      | None => Ok (st, s)
      | Some t =>
          match send t s with Err e => Err e | Ok (seq, s') => Ok (record st t seq, s') end
      end
  | Heartbeat now =>
      let seq := seq_next (sy_seq st) in
      match Apply s (Some (MkTable seq false false [] [] None None None now)) with
      | (Err e, _) => Err e
      | (Ok _, s') => Ok (MkSyncState seq (sy_sent st) (sy_mesh st) (sy_self st) (sy_challenges st), s')
      end
  end.

Fixpoint serveSync (evs : list event) (st : syncState) (s : State)
    : result wire_error (syncState * State) :=
  match evs with
  | [] => Ok (st, s)
  | ev :: evs' =>
      match serve ev st s with Err e => Err e | Ok (st', s') => serveSync evs' st' s' end
  end.
End stream.

(** ** The contract: the ingress shows ferund's table *)

(** What an ingress serves of its state. *)
Record View := MkView {
  v_envs : gmap string Env; v_mesh : Mesh; v_self : Self; v_challenges : list Challenge
}.

Definition shown (s : State) : View :=
  MkView (s_Envs s) (s_Mesh s) (s_Self s) (default [] (s_Challenges s)).

Definition table_view (cur : Snapshot) (self : Self) : View :=
  MkView (sn_Envs cur) (sn_Mesh cur) self (default [] (sn_Challenges cur)).

(** The abstract ingress: a change shows the table, a heartbeat nothing new. *)
Definition shows (v : View) (ev : event) : View :=
  match ev with Changed cur self _ => table_view cur self | Heartbeat _ => v end.

(** ** Lists of changes on maps *)

Lemma foldl_insert_out (m : gmap string Env) es i :
  (∀ e, e ∈ es → env_ID e ≠ i) → foldl (λ m e, <[env_ID e := e]> m) m es !! i = m !! i.
Proof.
  revert m. induction es as [|e es IH]; intros m H; cbn; [done|].
  rewrite IH by (intros; apply H; by constructor). apply lookup_insert_ne. apply H. constructor.
Qed.

Lemma foldl_insert_in (m : gmap string Env) es x :
  x ∈ es → (∀ e, e ∈ es → env_ID e = env_ID x → e = x) →
  foldl (λ m e, <[env_ID e := e]> m) m es !! env_ID x = Some x.
Proof.
  revert m. induction es as [|e es IH]; intros m Hx Hu; [by apply elem_of_nil in Hx|]. cbn.
  destruct (decide (env_ID x ∈ env_ID <$> es)) as [Hin|Hout].
  - apply list_elem_of_fmap in Hin as (e' & Hid & He'). assert (e' = x) as -> by (apply Hu; [by constructor|done]).
    apply IH; [done|]. intros; apply Hu; [by constructor|done].
  - assert (x = e) as ->.
    { apply elem_of_cons in Hx as [?|Hx]; [done|]. destruct Hout. apply list_elem_of_fmap. eauto. }
    rewrite foldl_insert_out, lookup_insert_eq; [done|].
    intros e' He' Hid. apply Hout, list_elem_of_fmap. eauto.
Qed.

Lemma foldl_delete_lookup {A} (m : gmap string A) ids i :
  foldl (λ m id, delete id m) m ids !! i = if decide (i ∈ ids) then None else m !! i.
Proof.
  revert m. induction ids as [|id ids IH]; intros m; cbn.
  { rewrite decide_False; [done|apply not_elem_of_nil]. }
  rewrite IH. destruct (decide (i ∈ ids)) as [Hi|Hi].
  { by rewrite decide_True by by constructor. }
  destruct (decide (i = id)) as [->|Hne].
  - rewrite lookup_delete_eq, decide_True by constructor. done.
  - rewrite lookup_delete_ne, decide_False; [done| |done].
    rewrite elem_of_cons. naive_solver.
Qed.

(** The hashes recorded are those of what was sent. *)
Lemma Hashes_changes m es ids :
  Hashes (foldl (λ m id, delete id m) (foldl (λ m e, <[env_ID e := e]> m) m es) ids)
  = foldl (λ m id, delete id m) (foldl (λ m e, <[env_ID e := env_Hash e]> m) (Hashes m) es) ids.
Proof.
  assert (Hd : ∀ (m : gmap string Env), Hashes (foldl (λ m id, delete id m) m ids)
    = foldl (λ m id, delete id m) (Hashes m) ids).
  { induction ids as [|id ids IH]; intros n; cbn; [done|]. rewrite IH. unfold Hashes.
    by rewrite fmap_delete. }
  rewrite Hd. f_equal. clear. revert m. induction es as [|e es IH]; intros m; cbn; [done|].
  rewrite IH. unfold Hashes. by rewrite fmap_insert.
Qed.

(** ** Differences *)

(** A table has its environments under their IDs. *)
Definition keyed (envs : gmap string Env) : Prop := ∀ id e, envs !! id = Some e → env_ID e = id.

Lemma Diff_puts sent cur e :
  keyed (sn_Envs cur) →
  e ∈ (Diff sent cur).1 ↔
    sn_Envs cur !! env_ID e = Some e ∧ sent !! env_ID e ≠ Some (env_Hash e).
Proof.
  intros Hk. unfold Diff. cbn [fst]. rewrite sort_by_perm, list_elem_of_fmap. split.
  - intros ([id x] & -> & [Hs Hin]%list_elem_of_filter). apply elem_of_map_to_list in Hin. cbn in *.
    by rewrite (Hk _ _ Hin).
  - intros [He Hs]. exists (env_ID e, e). split; [done|]. apply list_elem_of_filter.
    split; [done|]. by apply elem_of_map_to_list.
Qed.

Lemma Diff_removed sent cur id :
  id ∈ (Diff sent cur).2 ↔ is_Some (sent !! id) ∧ sn_Envs cur !! id = None.
Proof.
  unfold Diff. cbn [snd]. rewrite sort_by_perm, list_elem_of_filter, list_elem_of_fmap. split.
  - intros [Hn ([k h] & -> & Hin)]. apply elem_of_map_to_list in Hin. eauto.
  - intros [[h Hh] Hn]. split; [done|]. exists (id, h). split; [done|]. by apply elem_of_map_to_list.
Qed.

(** Putting and removing what differs gives the table, as long as an
    environment of the same ID and hash is the same environment. *)
Lemma Diff_applied (old : gmap string Env) cur :
  keyed (sn_Envs cur) →
  (∀ id e e', old !! id = Some e → sn_Envs cur !! id = Some e' → env_Hash e = env_Hash e' → e = e') →
  foldl (λ m id, delete id m) (foldl (λ m e, <[env_ID e := e]> m) old (Diff (Hashes old) cur).1)
    (Diff (Hashes old) cur).2 = sn_Envs cur.
Proof.
  intros Hk Hhash. apply map_eq. intros i. rewrite foldl_delete_lookup.
  destruct (sn_Envs cur !! i) as [e|] eqn:He.
  - rewrite decide_False by (rewrite Diff_removed; naive_solver).
    pose proof (Hk _ _ He) as Hid.
    destruct (decide (Hashes old !! i = Some (env_Hash e))) as [Hsame|Hdiff].
    + rewrite foldl_insert_out.
      * unfold Hashes in Hsame. rewrite lookup_fmap in Hsame.
        destruct (old !! i) as [e0|] eqn:E0; [|done]. injection Hsame as Hh.
        f_equal. by eapply Hhash.
      * intros e' [He' Hn]%Diff_puts Hi; [|done]. rewrite Hi in He', Hn. congruence.
    + rewrite <- Hid. apply foldl_insert_in.
      * apply Diff_puts; [done|]. by rewrite Hid.
      * intros e' [He' _]%Diff_puts Hi; [|done]. rewrite Hi, Hid in He'. congruence.
  - destruct (old !! i) as [e0|] eqn:E0.
    + rewrite decide_True; [done|]. apply Diff_removed. unfold Hashes. rewrite lookup_fmap, E0. eauto.
    + case_decide; [done|]. rewrite foldl_insert_out; [done|].
      intros e' [He' _]%Diff_puts Hi; [|done]. rewrite Hi in He'. congruence.
Qed.

(** ** The stream refines the contract *)

Section refinement.
(** The tables ferund has had: each has its environments under their IDs;
    an environment's hash identifies its content and the mesh's version its
    peers. *)
Context (partBytes : Z) (published : Snapshot → Prop).
Hypothesis published_keyed : ∀ c, published c → keyed (sn_Envs c).
Hypothesis hash_identifies : ∀ c c' id e e', published c → published c' →
  sn_Envs c !! id = Some e → sn_Envs c' !! id = Some e' → env_Hash e = env_Hash e' → e = e'.
Hypothesis version_identifies : ∀ c c', published c → published c' →
  wm_Version (sn_Mesh c) = wm_Version (sn_Mesh c') → sn_Mesh c = sn_Mesh c'.

(** Both ends of the stream, after table [cur] with [self] was sent. *)
Record in_sync (cur : Snapshot) (self : Self) (st : syncState) (s : State) : Prop := {
  is_parts : s_parts s = None;
  is_seq : sy_seq st = s_Seq s;
  is_shown : shown s = table_view cur self;
  is_sent : sy_sent st = Hashes (sn_Envs cur);
  is_mesh : sy_mesh st = wm_Version (sn_Mesh cur);
  is_self : sy_self st = self;
  is_challenges : default [] (sy_challenges st) = default [] (sn_Challenges cur)
}.

Lemma send_ok t s :
  tb_More t = false → (tb_Whole t = true ∨ s_parts s = None ∧ tb_Seq t = seq_next (s_Seq s)) →
  ∃ seq, send partBytes t s = Ok (seq, (apply_message s t) <| s_Seq := seq |>).
Proof.
  intros Hm Hseq. unfold send. cbv zeta. rewrite apply_split by done.
  eexists. by rewrite Split_last.
Qed.

Lemma open_stream_ok cur self now s :
  published cur →
  ∃ st s', open_stream partBytes cur self now s = Ok (st, s') ∧ in_sync cur self st s'.
Proof.
  intros Hc. unfold open_stream.
  destruct (send_ok (first_table cur self now) s) as [seq ->]; [done|by left|].
  eexists _, _. split; [done|]. split; try done. unfold shown, table_view. cbn. f_equal.
  pose proof (Diff_applied ∅ cur (published_keyed _ Hc)
    ltac:(intros ??? Hx; by rewrite lookup_empty in Hx)) as H.
  unfold Hashes in H. rewrite fmap_empty in H. rewrite <- H at 2.
  replace (Diff ∅ cur).2 with (@nil string); [done|].
  symmetry. apply elem_of_nil_inv. intros id [[? Hx] _]%Diff_removed. by rewrite lookup_empty in Hx.
Qed.

Lemma delta_ok cur self now st s cur' self' t :
  published cur → published cur' → in_sync cur self st s →
  delta st cur' self' now = Some t →
  tb_Whole t = false ∧ tb_More t = false ∧ tb_Seq t = seq_next (s_Seq s)
  ∧ ∀ seq, in_sync cur' self' (record st t seq) ((apply_message s t) <| s_Seq := seq |>).
Proof.
  intros Hc Hc' [Hp Hseq Hv Hs Hm Hself Hch] Ht. injection Hv as Hve Hvm Hvs Hvc.
  unfold delta in Ht. rewrite Hs in Ht.
  assert (Hd := Diff_applied (sn_Envs cur) cur' (published_keyed _ Hc')
    ltac:(intros; by eapply (hash_identifies cur cur'))).
  destruct (Diff (Hashes (sn_Envs cur)) cur') as [puts removed]. cbn [fst snd] in Hd.
  destruct (_ && _); [done|]. injection Ht as <-. rewrite Hseq. repeat split; cbn; try done.
  - unfold shown, table_view, apply_message. cbn. rewrite Hve, Hd. f_equal.
    + destruct (Z.eqb_spec (wm_Version (sn_Mesh cur')) (sy_mesh st)) as [E|E]; cbn; [|done].
      rewrite Hvm. apply version_identifies; [done..|]. congruence.
    + case_bool_decide; cbn; congruence.
    + unfold same_challenges. case_bool_decide; cbn; congruence.
  - rewrite Hs, <- Hashes_changes. by rewrite Hd.
  - destruct (Z.eqb_spec (wm_Version (sn_Mesh cur')) (sy_mesh st)); cbn; congruence.
  - case_bool_decide; cbn; congruence.
  - unfold same_challenges. case_bool_decide; cbn; congruence.
Qed.

(** A table that did not change is not sent. *)
Lemma delta_quiet cur self now st s cur' self' :
  published cur → published cur' → in_sync cur self st s →
  delta st cur' self' now = None → in_sync cur' self' st s.
Proof.
  intros Hc Hc' [Hp Hseq Hv Hs Hm Hself Hch] Ht. injection Hv as Hve Hvm Hvs Hvc.
  unfold delta in Ht. rewrite Hs in Ht.
  assert (Hd := Diff_applied (sn_Envs cur) cur' (published_keyed _ Hc')
    ltac:(intros; by eapply (hash_identifies cur cur'))).
  destruct (Diff (Hashes (sn_Envs cur)) cur') as [puts removed]. cbn [fst snd] in Hd.
  destruct (_ && _) eqn:E; [|done]. reflect_tests. subst puts removed. cbn in Hd.
  assert (Em : wm_Version (sn_Mesh cur') = sy_mesh st)
    by (destruct (Z.eqb_spec (wm_Version (sn_Mesh cur')) (sy_mesh st)); done).
  assert (Es : self' = sy_self st) by (case_bool_decide; done).
  assert (Ec : default [] (sn_Challenges cur') = default [] (sy_challenges st)).
  { unfold same_challenges in *. case_bool_decide; done. }
  assert (Emesh : sn_Mesh cur = sn_Mesh cur') by (apply version_identifies; congruence).
  split; try done; try congruence. unfold shown, table_view. congruence.
Qed.

Lemma serve_ok ev cur self st s :
  published cur → in_sync cur self st s →
  (∀ c f n, ev = Changed c f n → published c) →
  ∃ st' s' cur' self', serve partBytes ev st s = Ok (st', s') ∧ published cur'
    ∧ in_sync cur' self' st' s' ∧ shown s' = shows (table_view cur self) ev.
Proof.
  intros Hc Hin Hev. destruct ev as [cur' self' now|now]; cbn [serve].
  - specialize (Hev _ _ _ eq_refl). destruct (delta st cur' self' now) as [t|] eqn:Ed.
    + destruct (delta_ok _ _ _ _ _ _ _ _ Hc Hev Hin Ed) as (_ & Hm & Hseq & Hok).
      destruct (send_ok t s) as [seq ->]; [done|right; split; [apply Hin|done]|].
      eexists _, _, cur', self'. split; [done|]. split; [done|]. split; [apply Hok|]. apply Hok.
    + eexists _, _, cur', self'. split; [done|]. split; [done|].
      assert (Hq := delta_quiet _ _ _ _ _ _ _ Hc Hev Hin Ed). split; [done|apply Hq].
  - destruct Hin as [Hp Hseq Hv Hs Hm Hself Hch]. unfold Apply. cbn [tb_Whole tb_Seq tb_More].
    rewrite Hp, Hseq, Z.eqb_refl. cbn. eexists _, _, cur, self. split; [done|]. split; [done|].
    split; [|exact Hv]. split; try done.
Qed.

Lemma serveSync_ok evs cur self st s :
  published cur → in_sync cur self st s →
  Forall (λ ev, ∀ c f n, ev = Changed c f n → published c) evs →
  ∃ st' s', serveSync partBytes evs st s = Ok (st', s')
    ∧ shown s' = foldl shows (shown s) evs.
Proof.
  intros Hc Hin Hevs. revert cur self st s Hc Hin.
  induction Hevs as [|ev evs Hev _ IH]; intros cur self st s Hc Hin; cbn; [eauto|].
  destruct (serve_ok ev cur self st s Hc Hin Hev) as (st1 & s1 & c1 & f1 & -> & Hc1 & Hin1 & Hsh).
  destruct (IH c1 f1 st1 s1 Hc1 Hin1) as (st' & s' & -> & E). rewrite Hsh in E.
  assert (Hs : shown s = table_view cur self) by apply Hin. rewrite Hs. eauto.
Qed.

(** C13: An ingress, in whatever state it was, that opens a stream and
    applies what ferund sends on every change of its table and every
    heartbeat never meets a message out of sequence, and after every message
    shows exactly the table, the mesh, its own entry and the challenges
    ferund had when it last looked. *)
Theorem ingress_shows_table cur self now s evs :
  published cur →
  Forall (λ ev, ∀ c f n, ev = Changed c f n → published c) evs →
  ∃ st0 s0 st s', open_stream partBytes cur self now s = Ok (st0, s0)
    ∧ serveSync partBytes evs st0 s0 = Ok (st, s')
    ∧ shown s' = foldl shows (table_view cur self) evs.
Proof.
  intros Hc Hevs. destruct (open_stream_ok cur self now s Hc) as (st0 & s0 & E0 & Hin).
  destruct (serveSync_ok evs cur self st0 s0 Hc Hin Hevs) as (st & s' & E & Hsh).
  exists st0, s0, st, s'. repeat split; [done..|]. rewrite Hsh. f_equal. apply Hin.
Qed.
End refinement.

(** ** A witness: two tables, the second of which changes, adds and removes *)

Definition ex_self : Self := MkSelf "i" "fd00::1" "apps" "" 2.

Definition ex_snap1 : Snapshot :=
  MkSnapshot {[ "e1" := ex_env "e1"; "e2" := ex_env "e2" ]} (MkMesh 4 (Some [])) None.

Definition ex_env1' : Env := MkEnv "e1" "acme" "web" (Some []) 4 "other" (Some []) (Some []) None.

Definition ex_snap2 : Snapshot :=
  MkSnapshot {[ "e1" := ex_env1'; "e3" := ex_env "e3" ]} (MkMesh 5 (Some []))
    (Some [MkChallenge "t" "h" "k"]).

Definition ex_published (c : Snapshot) : Prop := c = ex_snap1 ∨ c = ex_snap2.

Lemma ex_env_at c id e :
  ex_published c → sn_Envs c !! id = Some e →
  id = "e1" ∧ (c = ex_snap1 ∧ e = ex_env "e1" ∨ c = ex_snap2 ∧ e = ex_env1')
  ∨ id = "e2" ∧ e = ex_env "e2" ∨ id = "e3" ∧ e = ex_env "e3".
Proof.
  intros [-> | ->]; cbn; rewrite lookup_insert_Some, lookup_singleton_Some; naive_solver.
Qed.

Lemma ingress_shows_table_witness :
  ∃ st0 s0 st s', open_stream 400 ex_snap1 ex_self (MkStamp 0 0) NewState = Ok (st0, s0)
    ∧ serveSync 400 [Heartbeat (MkStamp 1 0); Changed ex_snap2 ex_self (MkStamp 2 0)] st0 s0 = Ok (st, s')
    ∧ shown s' = table_view ex_snap2 ex_self.
Proof.
  eapply (ingress_shows_table 400 ex_published).
  - intros c Hc id e He. destruct (ex_env_at c id e Hc He) as [[-> [[_ ->]|[_ ->]]]|[[-> ->]|[-> ->]]]; done.
  - intros c c' id e e' Hc Hc' He He' Hh.
    destruct (ex_env_at c id e Hc He) as [[-> [[_ ->]|[_ ->]]]|[[-> ->]|[-> ->]]];
      destruct (ex_env_at c' _ e' Hc' He') as [[? [[_ ->]|[_ ->]]]|[[? ->]|[? ->]]]; done.
  - intros c c' [-> | ->] [-> | ->]; done.
  - by left.
  - apply Forall_cons. split; [intros c f n [=]|].
    apply Forall_cons. split; [intros c f n [= <- _ _]; by right|constructor].
Defined.
