(* ===== verification/Leader.v ===== *)
(** * The leader lease (store/leases.go, leader/elector.go)

    Instances compete for one lease row of the database; the one that holds
    it leads.  The row's times are the database's, the step-down deadline of a
    leader its own clock's: the margin between them is what the clocks may
    lose against each other.  The cluster is a step relation in which calls
    to the database are sent, executed and answered apart, and answers may be
    lost.  Proved: no two instances lead at the same time, and a cluster whose
    leader died gets a new one within the lease's TTL. *)

From stdpp Require Import functions relations.
From S2P Require Import Prelude.

(** ** The lease row (store/leases.go) *)

Record LeaseRow := MkLease {
  ls_Holder : string; ls_Epoch : Z; ls_AcquiredAt : Time; ls_RenewedAt : Time; ls_ExpiresAt : Time
}.

#[export] Instance eta_LeaseRow : Eta LeaseRow := λ l,
  MkLease (ls_Holder l) (ls_Epoch l) (ls_AcquiredAt l) (ls_RenewedAt l) (ls_ExpiresAt l).

(** [ReadLease]: the row, and whether it is valid at the read. *)
Definition ReadLease (now : Time) (row : option LeaseRow) : option (LeaseRow * bool) :=
  (λ l, (l, now <? ls_ExpiresAt l)) <$> row.

(** [AcquireLease]: the epoch of the new term, and the row. *)
Definition AcquireLease (holder : string) (ttl : Duration) (now : Time) (row : option LeaseRow)
    : option Z * option LeaseRow :=
  let take epoch := MkLease holder epoch now now (now + interval ttl) in
  match row with
  | None => (Some 1, Some (take 1))
  | Some l =>
      if ls_ExpiresAt l <? now then (Some (ls_Epoch l + 1), Some (take (ls_Epoch l + 1)))
      else (None, row)
  end.

(** Whether the row is [holder]'s in [epoch]. *)
Definition holds (holder : string) (epoch : Z) (l : LeaseRow) : bool :=
  String.eqb (ls_Holder l) holder && (ls_Epoch l =? epoch).

Definition RenewLease (holder : string) (epoch : Z) (ttl : Duration) (now : Time)
    (row : option LeaseRow) : bool * option LeaseRow :=
  match row with
  | Some l =>
      if holds holder epoch l && (now <? ls_ExpiresAt l)
      then (true, Some (l <| ls_RenewedAt := now |> <| ls_ExpiresAt := now + interval ttl |>))
      else (false, row)
  | None => (false, row)
  end.

Definition FenceLease (holder : string) (epoch : Z) (now : Time) (row : option LeaseRow) : bool :=
  match row with Some l => holds holder epoch l && (now <? ls_ExpiresAt l) | None => false end.

Definition ReleaseLease (holder : string) (epoch : Z) (now : Time) (row : option LeaseRow)
    : bool * option LeaseRow :=
  match row with
  | Some l => if holds holder epoch l then (true, Some (l <| ls_ExpiresAt := now |>)) else (false, row)
  | None => (false, row)
  end.

(** ** An instance's elector (leader/elector.go) *)

Definition LeaseTTL : Duration := 15 * Second.
Definition StepDownMargin : Duration := 2 * Second.

(** [term]: one tenure. *)
Record term := MkTerm { tm_epoch : Z; tm_since : Time; tm_deadline : Time }.

(** A call to the database, with the time of its send by the database's
    clock and, once the database has executed it, its answer.  An instance has
    at most one of the first three in flight. *)
Inductive call : Type :=
| CallRead (sent : Time) (answer : option (option (LeaseRow * bool)))
| CallAcquire (sent : Time) (answer : option (option Z))
| CallRenew (epoch : Z) (sent : Time) (answer : option bool)
| CallRelease (epoch : Z) (sent : Time).

Definition call_sent (k : call) : Time :=
  match k with CallRead t _ | CallAcquire t _ | CallRenew _ t _ | CallRelease _ t => t end.

Record Elector := MkElector {
  el_term : option term;
  el_last : option term;
  el_resigned : bool;
  el_call : option call
}.

#[export] Instance eta_Elector : Eta Elector := λ e,
  MkElector (el_term e) (el_last e) (el_resigned e) (el_call e).

Definition NewElector : Elector := MkElector None None false None.

(** [IsLeader], at the local time. *)
Definition IsLeader (local : Time) (e : Elector) : bool :=
  match el_term e with Some t => local <? tm_deadline t | None => false end.

(** [Fence], in a transaction at the database's [now]; [false] is
    [ErrNotLeader]. *)
Definition Fence (id : string) (local now : Time) (row : option LeaseRow) (e : Elector) : bool :=
  match el_term e with
  | Some t => (local <? tm_deadline t) && FenceLease id (tm_epoch t) now row
  | None => false
  end.

(** [Leader]: the holder of the lease, its epoch and when it acquired it. *)
Definition Leader (now : Time) (row : option LeaseRow) : string * Z * Time :=
  match ReadLease now row with
  | Some (l, true) => (ls_Holder l, ls_Epoch l, ls_AcquiredAt l)
  | _ => (""%string, 0, zeroTime)
  end.

Section elector.
Context (ttl margin : Duration).

(** [tryAcquire] after its read: it sends the acquisition when there is no
    lease or it has expired. *)
Definition tryAcquire (now : Time) (read : option (LeaseRow * bool)) (e : Elector) : Elector :=
  match read with
  | Some (_, true) => e <| el_call := None |>
  | _ => e <| el_call := Some (CallAcquire now None) |>
  end.

(** [lead]'s start, with the answer of an acquisition: the term, or, when the
    instance resigned meanwhile, the epoch to release. *)
Definition lead (epoch : Z) (sent : Time) (e : Elector) : Elector * option Z :=
  if el_resigned e then (e <| el_call := None |>, Some epoch)
  else
    let t := MkTerm epoch sent (sent + (ttl - margin)) in
    (e <| el_term := Some t |> <| el_last := Some t |> <| el_call := None |>, None).

(** [renewLoop] after a renewal that succeeded; the term is the last one. *)
Definition renewed (sent : Time) (e : Elector) : Elector :=
  let move t := MkTerm (tm_epoch t) (tm_since t) (sent + (ttl - margin)) in
  e <| el_term ::= option_map move |> <| el_call := None |>.

(** [renewLoop] and [lead] at the end of a term: a renewal failed or found
    the lease lost, the deadline passed, or the term was cancelled. *)
Definition stepDown (e : Elector) : Elector := e <| el_term := None |> <| el_call := None |>.

(** [Resign] up to its wait: the term it waits for and releases. *)
Definition Resign (e : Elector) : Elector * option term :=
  (e <| el_resigned := true |>, match el_term e with Some t => Some t | None => el_last e end).

(** ** The cluster *)

(** What the database does with a call, in a transaction that started [at]:
    the call with its answer, and the row. *)
Definition execute (i : string) (at_ : Time) (k : call) (row : option LeaseRow)
    : call * option LeaseRow :=
  match k with
  | CallRead t None => (CallRead t (Some (ReadLease at_ row)), row)
  | CallAcquire t None =>
      let '(epoch, row) := AcquireLease i ttl at_ row in (CallAcquire t (Some epoch), row)
  | CallRenew e t None =>
      let '(ok, row) := RenewLease i e ttl at_ row in (CallRenew e t (Some ok), row)
  | CallRelease e _ => (k, (ReleaseLease i e at_ row).2)
  | _ => (k, row)
  end.

(** Each instance's clock, as a function of the database's. *)
Context (clock : string → Time → Time).

(** An answer arrives: the instance, and the epoch it has to release. *)
Definition receive (i : string) (now : Time) (e : Elector) : Elector * option Z :=
  match el_call e with
  | Some (CallRead _ (Some read)) => (tryAcquire now read e, None)
  | Some (CallAcquire t (Some (Some epoch))) => lead epoch (clock i t) e
  | Some (CallAcquire _ (Some None)) => (e <| el_call := None |>, None)
  | Some (CallRenew _ t (Some true)) => (renewed (clock i t) e, None)
  | Some (CallRenew _ _ (Some false)) => (stepDown e, None)
  | _ => (e, None)
  end.

(** The database's clock, the row, the instances, and the calls in flight
    nobody waits for: those whose term or attempt ended first, and releases. *)
Record Cluster := MkCluster {
  cl_now : Time;
  cl_row : option LeaseRow;
  cl_node : string → Elector;
  cl_late : list (string * call)
}.

Definition abandoned (i : string) (e : Elector) : list (string * call) :=
  match el_call e with Some k => [(i, k)] | None => [] end.

Definition releases (i : string) (now : Time) (epoch : option Z) : list (string * call) :=
  match epoch with Some e => [(i, CallRelease e now)] | None => [] end.

Inductive step : Cluster → Cluster → Prop :=
| Step_tick c now' :
    cl_now c ≤ now' →
    step c (MkCluster now' (cl_row c) (cl_node c) (cl_late c))
| Step_read c i e :
    cl_node c i = e → el_term e = None → el_call e = None → el_resigned e = false →
    step c (MkCluster (cl_now c) (cl_row c)
              (<[i := e <| el_call := Some (CallRead (cl_now c) None) |>]> (cl_node c)) (cl_late c))
| Step_renew c i e t :
    cl_node c i = e → el_term e = Some t → el_call e = None →
    step c (MkCluster (cl_now c) (cl_row c)
              (<[i := e <| el_call := Some (CallRenew (tm_epoch t) (cl_now c) None) |>]> (cl_node c))
              (cl_late c))
| Step_execute c i e k at_ k' row' :
    cl_node c i = e → el_call e = Some k → call_sent k ≤ at_ ≤ cl_now c →
    execute i at_ k (cl_row c) = (k', row') →
    step c (MkCluster (cl_now c) row' (<[i := e <| el_call := Some k' |>]> (cl_node c)) (cl_late c))
| Step_receive c i e e' epoch :
    cl_node c i = e → receive i (cl_now c) e = (e', epoch) →
    step c (MkCluster (cl_now c) (cl_row c) (<[i := e']> (cl_node c))
              (releases i (cl_now c) epoch ++ cl_late c))
| Step_stepDown c i e :
    cl_node c i = e →
    step c (MkCluster (cl_now c) (cl_row c) (<[i := stepDown e]> (cl_node c))
              (abandoned i e ++ cl_late c))
| Step_resign c i e :
    cl_node c i = e →
    step c (MkCluster (cl_now c) (cl_row c) (<[i := (Resign e).1]> (cl_node c)) (cl_late c))
| Step_release c i e t :
    cl_node c i = e → el_resigned e = true → el_term e = None → (Resign e).2 = Some t →
    step c (MkCluster (cl_now c) (cl_row c) (cl_node c)
              ((i, CallRelease (tm_epoch t) (cl_now c)) :: cl_late c))
| Step_late c l1 i k l2 at_ k' row' :
    cl_late c = l1 ++ (i, k) :: l2 → call_sent k ≤ at_ ≤ cl_now c →
    execute i at_ k (cl_row c) = (k', row') →
    step c (MkCluster (cl_now c) row' (cl_node c) (l1 ++ l2)).

(** A cluster starts without a lease, its instances new. *)
Definition started (now : Time) : Cluster := MkCluster now None (λ _, NewElector) [].

Definition reachable (c : Cluster) : Prop := ∃ now, rtc step (started now) c.

Definition leads (c : Cluster) (i : string) : bool := IsLeader (clock i (cl_now c)) (cl_node c i).
End elector.


(** ** No two leaders *)

Definition lease_epoch (row : option LeaseRow) : Z := from_option ls_Epoch 0 row.

Section safety.
Context (ttl margin : Duration) (clock : string → Time → Time).

(** The TTL is a whole number of microseconds, above the margin; no clock runs backwards, and
    over a TTL of the database none loses more than the margin. *)
Hypothesis ttl_whole : interval ttl = ttl.
Hypothesis margin_below : 0 ≤ margin < ttl.
Hypothesis clock_mono : ∀ i s t, s ≤ t → clock i s ≤ clock i t.
Hypothesis clock_rate : ∀ i s, clock i s + (ttl - margin) ≤ clock i (s + ttl).

Notation execute := (execute ttl).
Notation step := (step ttl margin clock).

(** From [now] until instance [i]'s deadline for a call sent at [s], the
    lease is [i]'s in the epoch [ep]. *)
Definition covers (now : Time) (row : option LeaseRow) (i : string) (ep : Z) (s : Time) : Prop :=
  ∀ t, now ≤ t → clock i t < clock i s + (ttl - margin) →
  ∃ l, row = Some l ∧ ls_Holder l = i ∧ ls_Epoch l = ep ∧ t < ls_ExpiresAt l.

Definition node_ok (now : Time) (row : option LeaseRow) (i : string) (e : Elector) : Prop :=
  (∀ t, el_term e = Some t →
     tm_epoch t ≤ lease_epoch row ∧
     ∃ s, s ≤ now ∧ tm_deadline t = clock i s + (ttl - margin) ∧ covers now row i (tm_epoch t) s ∧
          ∀ ep s' a, el_call e = Some (CallRenew ep s' a) → s ≤ s') ∧
  match el_call e with
  | None => True
  | Some (CallRead s _) => el_term e = None ∧ s ≤ now
  | Some (CallAcquire s a) =>
      el_term e = None ∧ s ≤ now ∧
      match a with
      | Some (Some ep) => ep ≤ lease_epoch row ∧ (el_resigned e = false → covers now row i ep s)
      | _ => True
      end
  | Some (CallRenew ep s a) =>
      s ≤ now ∧ (∃ t, el_term e = Some t ∧ tm_epoch t = ep) ∧ (a = Some true → covers now row i ep s)
  | Some (CallRelease _ _) => False
  end.

Definition late_ok (row : option LeaseRow) (e : Elector) (k : call) : Prop :=
  match k with
  | CallRelease _ _ => el_resigned e = true ∧ el_term e = None
  | CallRenew ep _ _ =>
      ep ≤ lease_epoch row ∧ (∀ t, el_term e = Some t → ep < tm_epoch t) ∧
      ∀ s ep', el_call e = Some (CallAcquire s (Some (Some ep'))) → ep < ep'
  | _ => True
  end.

Definition lease_inv (c : Cluster) : Prop :=
  (∀ i, node_ok (cl_now c) (cl_row c) i (cl_node c i)) ∧
  Forall (λ x, late_ok (cl_row c) (cl_node c x.1) x.2) (cl_late c) ∧
  (∀ l, cl_row c = Some l → ls_ExpiresAt l ≤ cl_now c + ttl).

Lemma deadline_in_ttl i s t : clock i t < clock i s + (ttl - margin) → t < s + ttl.
Proof.
  intros H. destruct (Z.lt_ge_cases t (s + ttl)) as [?|Hge]; [done|].
  pose proof (clock_mono i _ _ Hge). pose proof (clock_rate i s). lia.
Qed.

Lemma covers_later now now' row i ep s : now ≤ now' → covers now row i ep s → covers now' row i ep s.
Proof. intros ? Hc t ?. apply Hc. lia. Qed.

Lemma covers_fresh now i ep s l :
  ls_Holder l = i → ls_Epoch l = ep → s + ttl ≤ ls_ExpiresAt l → covers now (Some l) i ep s.
Proof. intros ??? t _ Ht%deadline_in_ttl. exists l. repeat split; [done..|lia]. Qed.

Lemma covers_lost now row i ep s :
  covers now row i ep s →
  (∀ l, row = Some l → ls_Holder l = i → ls_Epoch l = ep → ls_ExpiresAt l ≤ now) →
  ∀ row', covers now row' i ep s.
Proof.
  intros Hc Hno row' t Ht Hd.
  destruct (Hc now) as (l & Hl & Hh & He & Hx); [lia| |].
  - pose proof (clock_mono i _ _ Ht). lia.
  - specialize (Hno l Hl Hh He). lia.
Qed.

Lemma holds_spec i ep l : holds i ep l = true ↔ ls_Holder l = i ∧ ls_Epoch l = ep.
Proof. unfold holds. rewrite andb_true_iff, String.eqb_eq, Z.eqb_eq. done. Qed.

(** The answers of a call that did not change the row. *)
Definition unmoved (k k' : call) : Prop :=
  match k with
  | CallRead s None => ∃ a, k' = CallRead s a
  | CallAcquire s None => k' = CallAcquire s (Some None)
  | CallRenew ep s None => k' = CallRenew ep s (Some false)
  | _ => k' = k
  end.

(** What executing a call does to the row. *)
Lemma execute_row j at_ k row k' row' :
  execute j at_ k row = (k', row') →
  row' = row ∧ unmoved k k' ∨
  (∃ s l, k = CallAcquire s None ∧ row' = Some l ∧ k' = CallAcquire s (Some (Some (ls_Epoch l))) ∧
     ls_Holder l = j ∧ ls_Epoch l = lease_epoch row + 1 ∧ ls_ExpiresAt l = at_ + ttl ∧
     ∀ l0, row = Some l0 → ls_ExpiresAt l0 < at_) ∨
  (∃ ep s l0 l, k = CallRenew ep s None ∧ row = Some l0 ∧ row' = Some l ∧ k' = CallRenew ep s (Some true) ∧
     ls_Holder l0 = j ∧ ls_Epoch l0 = ep ∧ ls_Holder l = j ∧ ls_Epoch l = ep ∧
     ls_ExpiresAt l = at_ + ttl) ∨
  (∃ ep s l0 l, k = CallRelease ep s ∧ row = Some l0 ∧ row' = Some l ∧
     ls_Holder l0 = j ∧ ls_Epoch l0 = ep ∧ ls_Holder l = j ∧ ls_Epoch l = ep ∧ ls_ExpiresAt l = at_ ∧ k' = k).
Proof.
  destruct k as [s [a|]|s [a|]|ep s [a|]|ep s]; cbn; intros H; simplify_eq; try (by left; eauto).
  - unfold AcquireLease in H. rewrite ttl_whole in H. destruct row as [l0|]; [|simplify_eq].
    + destruct (_ <? _) eqn:Hx; simplify_eq; [|by left].
      right; left. eexists _, _. repeat split; intros ? [= <-]. lia.
    + right; left. eexists _, _. repeat split. done.
  - unfold RenewLease in H. rewrite ttl_whole in H.
    destruct row as [l0|]; [destruct (holds j ep l0 && _) eqn:Hh|]; simplify_eq; try by left.
    apply andb_true_iff in Hh as [Hh _]. apply holds_spec in Hh as [??].
    do 2 right; left. eexists _, _, _, _. repeat split; done.
  - unfold ReleaseLease. destruct row as [l0|]; [destruct (holds j ep l0) eqn:Hh|]; try by left.
    apply holds_spec in Hh as [??]. do 3 right. eexists _, _, _, _. repeat split; done.
Qed.

Lemma execute_epoch j at_ k row k' row' :
  execute j at_ k row = (k', row') → lease_epoch row ≤ lease_epoch row'.
Proof.
  intros [[-> _]|[(s&l&->&->&_&_&He&_)|[(ep&s&l0&l&->&->&->&_&_&He&_&He'&_)|(ep&s&l0&l&->&->&->&_&He&_&He'&_)]]]%execute_row;
    cbn in *; lia.
Qed.

(** What an instance is sure of survives every call but its own release, and
    its own renewal of a call sent before. *)
Lemma execute_covers now i ep s j at_ k row k' row' :
  covers now row i ep s → call_sent k ≤ at_ ≤ now →
  (j = i → match k with
           | CallRelease e _ => e ≠ ep
           | CallRenew e t _ => e = ep → s ≤ t
           | _ => True
           end) →
  execute j at_ k row = (k', row') → covers now row' i ep s.
Proof.
  intros Hc Hat Hk Hx. apply execute_row in Hx as
    [[-> _]|[(s'&l&->&->&_&_&_&_&Hold)|[(e&s'&l0&l&->&->&->&_&Hj&He&?&?&Hexp)|(e&s'&l0&l&->&->&->&Hj&He&_)]]]; [done|..].
  - eapply covers_lost; [done|]. intros l0 Hl0 _ _. specialize (Hold l0 Hl0). lia.
  - destruct (decide (j = i ∧ e = ep)) as [[-> ->]|Hne].
    + specialize (Hk eq_refl eq_refl). cbn in Hat. apply covers_fresh; [done..|]. lia.
    + eapply covers_lost; [done|]. intros ? [= <-] ??. subst. tauto.
  - eapply covers_lost; [done|]. intros ? [= <-] ??. subst. by destruct (Hk eq_refl).
Qed.

Lemma node_ok_tick now now' row i e : now ≤ now' → node_ok now row i e → node_ok now' row i e.
Proof.
  intros Hle [Ht Hc]. split.
  - intros t Et. destruct (Ht t Et) as (? & s & ? & ? & ? & ?). split; [done|].
    exists s. repeat split; [lia|done|by eapply covers_later|done].
  - destruct (el_call e) as [[s a|s [[ep|]|]|ep s a|]|]; [..|done].
    + destruct Hc. split; [done|lia].
    + destruct Hc as (? & ? & ? & Hcov). repeat split; [done|lia|done|]. intros ?. eapply covers_later; eauto.
    + destruct Hc as (? & ? & _). repeat split; [done|lia].
    + destruct Hc as (? & ? & _). repeat split; [done|lia].
    + destruct Hc as (? & ? & Hcov). repeat split; [lia|done|]. intros ?. eapply covers_later; eauto.
    + done.
Qed.

(** A call an instance does not wait for, another's or an abandoned one. *)
Lemma node_ok_execute now row i e j at_ k k' row' :
  node_ok now row i e → call_sent k ≤ at_ ≤ now → (j = i → late_ok row e k) →
  execute j at_ k row = (k', row') → node_ok now row' i e.
Proof.
  intros [Ht Hc] Hat Hl Hx. pose proof (execute_epoch _ _ _ _ _ _ Hx) as Hep.
  split.
  - intros t Et. destruct (Ht t Et) as (? & s & ? & ? & Hcov & ?). split; [lia|].
    exists s. repeat split; [done..| |done]. eapply execute_covers; [done..| |done].
    intros ->. specialize (Hl eq_refl). destruct k as [| |e' t' a'|]; [done..| |].
    + destruct Hl as (_ & Hlt & _). specialize (Hlt t Et). cbn. intros. lia.
    + destruct Hl as [_ Hl]. congruence.
  - destruct (el_call e) as [[s a|s [[ep|]|]|ep s a|]|] eqn:Ec; [done| |done..| |done|done].
    + destruct Hc as (? & ? & ? & Hcov). repeat split; [done..|lia|]. intros Hr.
      eapply execute_covers; [by apply Hcov|done| |done].
      intros ->. specialize (Hl eq_refl). destruct k as [| |e' t' a'|]; [done..| |].
      * destruct Hl as (_ & _ & Hlt). specialize (Hlt _ _ Ec). intros. lia.
      * destruct Hl. congruence.
    + destruct Hc as (? & (t & Et & <-) & Hcov). repeat split; [done|eauto|]. intros Ha.
      eapply execute_covers; [by apply Hcov|done| |done].
      intros ->. specialize (Hl eq_refl). destruct k as [| |e' t' a'|]; [done..| |].
      * destruct Hl as (_ & Hlt & _). specialize (Hlt t Et). intros. lia.
      * destruct Hl. congruence.
Qed.

Lemma node_ok_own now row i e at_ k k' row' :
  node_ok now row i e → el_call e = Some k → call_sent k ≤ at_ ≤ now →
  execute i at_ k row = (k', row') → node_ok now row' i (e <| el_call := Some k' |>).
Proof.
  intros [Ht Hc] Ek Hat Hx. rewrite Ek in Hc. pose proof (execute_epoch _ _ _ _ _ _ Hx) as Hep.
  destruct (execute_row _ _ _ _ _ _ Hx) as
    [[-> Hu]|[(s'&l&->&->&->&Hh&He&Hexp&Hold)|[(ep&s'&l0&l&->&->&->&->&Hj&He&Hj'&He'&Hexp)|(ep&s'&l0&l&->&_)]]].
  - split.
    + intros t Et. destruct (Ht t Et) as (? & s & ? & ? & ? & Hr). split; [done|].
      exists s. repeat split; [done..|]. cbn. intros ep s' a [= ->].
      destruct k as [s1 [a1|]|s1 [a1|]|ep1 s1 [a1|]|ep1 s1]; cbn in Hu; simplify_eq; try by eapply Hr.
    + destruct k as [s1 [a1|]|s1 [a1|]|ep1 s1 [a1|]|ep1 s1]; cbn in Hu |- *; subst; cbn; try done.
      * destruct Hu as [a ->]. done.
      * destruct Hc as (? & ? & _). repeat split; done.
  - destruct Hc as (Hn & Hs & _). split; [cbn; congruence|].
    cbn. repeat split; [done..|]. intros _. apply covers_fresh; [done..|]. cbn in Hat. lia.
  - destruct Hc as (Hs & (t & Et & Hte) & _). destruct (Ht t Et) as (Hle & s & ? & Hd & Hcov & Hr).
    specialize (Hr _ _ _ Ek). cbn in Hat. split.
    + cbn. intros t' Et'. assert (t' = t) as -> by congruence. split; [cbn in Hep; lia|].
      exists s. repeat split; [done..| |].
      * apply covers_fresh; [done|congruence|lia].
      * intros ??? [= _ <- _]. done.
    + cbn. repeat split; [done|eauto|]. intros _. apply covers_fresh; [done..|lia].
  - done.
Qed.

(** The answer of an instance's call. *)
Lemma node_ok_receive now row i e e' epoch :
  node_ok now row i e → receive ttl margin clock i now e = (e', epoch) → node_ok now row i e'.
Proof.
  intros [Ht Hc]. unfold receive.
  destruct (el_call e) as [[s [[[l [|]]|]|]|s [[ep|]|]|ep s [[|]|]|ep s]|] eqn:Ek; cbn; intros H;
    try (injection H as <- <-; unfold node_ok; rewrite Ek; by split);
    unfold tryAcquire in H; try (injection H as <- <-; destruct Hc as (Hn & _); split; cbn; [congruence|done]).
  - destruct Hc as (Hn & Hs & Hep & Hcov). unfold lead in H. destruct (el_resigned e); injection H as <- <-.
    + split; cbn; [congruence|done].
    + split; cbn; [|done]. intros t [= <-]. cbn. split; [done|]. exists s. repeat split; [done|by apply Hcov|done].
  - destruct Hc as (Hs & (t & Et & Hte) & Hcov). injection H as <- <-. split; cbn; [|done].
    rewrite Et. cbn. intros t' [= <-]. cbn. destruct (Ht t Et) as [? _]. split; [done|].
    exists s. rewrite Hte. repeat split; [done|by apply Hcov|done].
Qed.

Lemma late_ok_row row row' e k : lease_epoch row ≤ lease_epoch row' → late_ok row e k → late_ok row' e k.
Proof. destruct k; [done..| |done]. cbn. intros ? (? & ? & ?). repeat split; [lia|done..]. Qed.

Lemma late_update row row' (node : string → Elector) i e' late :
  lease_epoch row ≤ lease_epoch row' → (∀ k, late_ok row (node i) k → late_ok row' e' k) →
  Forall (λ x, late_ok row (node x.1) x.2) late →
  Forall (λ x, late_ok row' (<[i := e']> node x.1) x.2) late.
Proof.
  intros Hr He Hl. eapply Forall_impl; [exact Hl|]. intros [j k]; cbn. destruct (decide (i = j)) as [<-|Hne].
  - rewrite fn_lookup_insert. apply He.
  - rewrite fn_lookup_insert_ne by done. by apply late_ok_row.
Qed.

Lemma nodes_update now row row' (node : string → Elector) i e' :
  node_ok now row' i e' → (∀ j, j ≠ i → node_ok now row j (node j) → node_ok now row' j (node j)) →
  (∀ j, node_ok now row j (node j)) → ∀ j, node_ok now row' j (<[i := e']> node j).
Proof.
  intros He Ho Hn j. destruct (decide (i = j)) as [<-|Hne].
  - by rewrite fn_lookup_insert.
  - rewrite fn_lookup_insert_ne by done. auto.
Qed.

Lemma late_ok_own row row' i e at_ k k' k0 :
  el_call e = Some k → execute i at_ k row = (k', row') →
  late_ok row e k0 → late_ok row' (e <| el_call := Some k' |>) k0.
Proof.
  intros Ek Hx Hl. pose proof (execute_epoch _ _ _ _ _ _ Hx).
  destruct k0 as [| |ep0 s0 a0|]; [done..| |done]. destruct Hl as (Hep & Ht & Hc). cbn.
  repeat split; [lia|done|]. intros s ep' [= ->].
  apply execute_row in Hx as
    [[-> Hu]|[(s'&l&_&_&[= -> ->]&_&?&_)|[(?&?&?&?&_&_&_&[=]&_)|(?&?&?&?&->&_&_&_&_&_&_&_&[=])]]]; [|lia].
  destruct k as [? [?|]|? [?|]|? ? [?|]|]; cbn in Hu; simplify_eq; [by destruct Hu|by eapply Hc].
Qed.

Lemma late_ok_nocall row e e' k :
  el_term e' = el_term e ∨ el_term e' = None → (el_resigned e = true → el_resigned e' = true) →
  (∀ s ep, el_call e' ≠ Some (CallAcquire s (Some (Some ep)))) →
  late_ok row e k → late_ok row e' k.
Proof.
  intros Ht Hr Hc. destruct k as [| |ep s a|]; [done..| |]; cbn.
  - intros (? & Hlt & _). repeat split; [done| |].
    + destruct Ht as [->| ->]; [done|]. intros ? [=].
    + intros s' ep' Hq. by destruct (Hc s' ep').
  - intros [? Hn]. split; [auto|]. destruct Ht as [->| ->]; done.
Qed.

Lemma late_ok_receive now row i e e' epoch k :
  receive ttl margin clock i now e = (e', epoch) → node_ok now row i e →
  late_ok row e k → late_ok row e' k.
Proof.
  unfold receive, tryAcquire, lead. intros H [_ Hc] Hl.
  destruct (el_call e) as [[s [[[l [|]]|]|]|s [[ep|]|]|ep s [[|]|]|ep s]|] eqn:Ek; cbn in H;
    try (injection H as <- <-; first [exact Hl|by eapply late_ok_nocall; cbn; eauto]).
  - destruct (el_resigned e) eqn:Er; injection H as <- <-; [by eapply late_ok_nocall; cbn; eauto|].
    destruct k as [| |ep0 s0 a0|]; [done..| |]; cbn.
    + destruct Hl as (? & _ & Hq). repeat split; [done| |done]. intros t [= <-]. by apply (Hq s).
    + destruct Hl. congruence.
  - injection H as <- <-. destruct k as [| |ep0 s0 a0|]; [done..| |]; cbn.
    + destruct Hl as (? & Ht & _). repeat split; [done| |done].
      destruct (el_term e) as [t0|]; [|done]. intros t [= <-]. by apply (Ht t0).
    + destruct Hl as [? Hn]. by rewrite Hn.
Qed.

(** A step of one instance that does not touch the row. *)
Lemma lease_inv_local c i e' extra :
  lease_inv c → node_ok (cl_now c) (cl_row c) i e' →
  (∀ k, late_ok (cl_row c) (cl_node c i) k → late_ok (cl_row c) e' k) →
  Forall (λ x, x.1 = i ∧ late_ok (cl_row c) e' x.2) extra →
  lease_inv (MkCluster (cl_now c) (cl_row c) (<[i := e']> (cl_node c)) (extra ++ cl_late c)).
Proof.
  intros (Hn & Hl & Hr) He Hk Hx. split; [|split; [|done]]; cbn.
  - eapply nodes_update; [done|auto|done].
  - apply Forall_app. split; [|by eapply late_update].
    eapply Forall_impl; [exact Hx|]. intros [j k] [-> ?]; cbn. by rewrite fn_lookup_insert.
Qed.

Lemma row_bound at_ now k row k' row' j :
  at_ ≤ now → execute j at_ k row = (k', row') →
  (∀ l, row = Some l → ls_ExpiresAt l ≤ now + ttl) →
  ∀ l, row' = Some l → ls_ExpiresAt l ≤ now + ttl.
Proof.
  intros Hat [[-> _]|[(?&?&_&->&_&_&_&?&_)|[(?&?&?&?&_&_&->&_&_&_&_&_&?)|(?&?&?&?&_&_&->&_&_&_&_&?&_)]]]%execute_row Hr l Hl;
    [by apply Hr|injection Hl as <-; lia..].
Qed.

Lemma lease_inv_execute c i k at_ k' row' :
  lease_inv c → el_call (cl_node c i) = Some k → call_sent k ≤ at_ ≤ cl_now c →
  execute i at_ k (cl_row c) = (k', row') →
  lease_inv (MkCluster (cl_now c) row'
               (<[i := (cl_node c i) <| el_call := Some k' |>]> (cl_node c)) (cl_late c)).
Proof.
  intros (Hn & Hl & Hr) Hk Hat Hx. split; [|split]; cbn [cl_now cl_row cl_node cl_late].
  - eapply nodes_update; [by eapply node_ok_own| |exact Hn].
    intros j Hne Hj. eapply node_ok_execute; [done..| |done]. congruence.
  - eapply late_update; [by eapply execute_epoch| |done]. intros k0. by eapply late_ok_own.
  - eapply row_bound; [|done..]. lia.
Qed.

Lemma lease_inv_late c l1 i k l2 at_ k' row' :
  lease_inv c → cl_late c = l1 ++ (i, k) :: l2 → call_sent k ≤ at_ ≤ cl_now c →
  execute i at_ k (cl_row c) = (k', row') →
  lease_inv (MkCluster (cl_now c) row' (cl_node c) (l1 ++ l2)).
Proof.
  intros (Hn & Hl & Hr) Hlate Hat Hx. rewrite Hlate in Hl.
  apply Forall_app in Hl as [Hl1 [Hk Hl2]%Forall_cons].
  split; [|split]; cbn [cl_now cl_row cl_node cl_late].
  - intros j. eapply node_ok_execute; [done..| |done]. by intros <-.
  - apply Forall_app; split; (eapply Forall_impl; [eassumption|]); intros [j k0];
      by apply late_ok_row, (execute_epoch _ _ _ _ _ _ Hx).
  - eapply row_bound; [|done..]. lia.
Qed.

Lemma node_ok_stepDown now row i e : node_ok now row i (stepDown e).
Proof. split; cbn; done. Qed.

Lemma late_ok_abandoned now row i e :
  node_ok now row i e → Forall (λ x, x.1 = i ∧ late_ok row (stepDown e) x.2) (abandoned i e).
Proof.
  intros [Ht Hc]. unfold abandoned. destruct (el_call e) as [k|]; constructor; [|constructor].
  split; [done|]. destruct k as [| |ep s a|]; cbn; [done..| |done].
  destruct Hc as (_ & (t & Et & <-) & _). destruct (Ht t Et). repeat split; [done..|]. naive_solver.
Qed.

Lemma late_ok_releases now row i e e' epoch :
  node_ok now row i e → receive ttl margin clock i now e = (e', epoch) →
  Forall (λ x, x.1 = i ∧ late_ok row e' x.2) (releases i now epoch).
Proof.
  intros [_ Hc]. unfold receive, tryAcquire, lead.
  destruct (el_call e) as [[s [[[l [|]]|]|]|s [[ep|]|]|ep s [[|]|]|ep s]|] eqn:Ek; cbn;
    try (intros [= <- <-]; constructor).
  destruct (el_resigned e) eqn:Er; intros [= <- <-]; constructor; [|constructor]. cbn. tauto.
Qed.

Lemma lease_inv_step c c' : lease_inv c → step c c' → lease_inv c'.
Proof.
  intros Hc Hs. pose proof Hc as (Hn & Hl & Hr). destruct Hs as
    [c now' Hle|c i e <- Ht Hk Hres|c i e t <- Ht Hk|c i e k at_ k' row' <- Hk Hat Hx|c i e e' epoch <- Hx
    |c i e <-|c i e <-|c i e t <- Hres Ht Hlast|c l1 i k l2 at_ k' row' Hlate Hat Hx].
  - split; [|split]; cbn; [intros i; by eapply node_ok_tick|done|].
    intros l Hlr. specialize (Hr l Hlr). lia.
  - apply (lease_inv_local c i _ []); [done|..|constructor].
    + split; cbn; [congruence|]. split; [done|lia].
    + intros k. apply late_ok_nocall; cbn; auto.
  - apply (lease_inv_local c i _ []); [done|..|constructor].
    + destruct (Hn i) as [Hn' _]. destruct (Hn' t Ht) as (? & s & ? & ? & ? & _). split; cbn.
      * intros t' Ht'. assert (t' = t) as -> by congruence. split; [done|]. exists s. naive_solver.
      * repeat split; [lia|eauto|done].
    + intros k. apply late_ok_nocall; cbn; auto.
  - by eapply lease_inv_execute.
  - eapply lease_inv_local; [done|by eapply node_ok_receive| |by eapply late_ok_releases].
    intros k. by eapply late_ok_receive.
  - eapply lease_inv_local; [done|apply node_ok_stepDown| |by eapply late_ok_abandoned].
    intros k. apply late_ok_nocall; cbn; auto.
  - apply (lease_inv_local c i _ []); [done|..|constructor].
    + destruct (Hn i) as [Hn1 Hn2]. split; [exact Hn1|]. cbn.
      destruct (el_call _) as [[s a|s [[ep|]|]|ep s a|]|]; naive_solver.
    + intros [| |ep s a|]; cbn; naive_solver.
  - split; [done|split; [|done]]. constructor; [|done]. cbn. done.
  - by eapply lease_inv_late.
Qed.

Lemma lease_inv_reachable c : reachable ttl margin clock c → lease_inv c.
Proof.
  intros [now Hr]. assert (lease_inv (started now)) as H0 by (repeat split; cbn; done).
  induction Hr; eauto using lease_inv_step.
Qed.

Lemma leads_covered c i :
  lease_inv c → leads clock c i = true →
  ∃ l, cl_row c = Some l ∧ ls_Holder l = i ∧ cl_now c < ls_ExpiresAt l.
Proof.
  intros (Hn & _) Hi. destruct (Hn i) as [Ht _]. unfold leads, IsLeader in Hi.
  destruct (el_term _) as [t|]; [|done]. destruct (Ht t eq_refl) as (_ & s & _ & Hd & Hc & _).
  destruct (Hc (cl_now c)) as (l & ? & ? & _ & ?); [lia..|]. eauto.
Qed.

(** C3: No two instances lead at the same time: whatever calls are in
    flight, answered, lost or executed after their instance gave up, at any
    moment at most one instance's [IsLeader] says yes, and the lease row then
    names it and has not expired. *)
Theorem one_leader c i j :
  reachable ttl margin clock c → leads clock c i = true → leads clock c j = true →
  i = j ∧ ∃ l, cl_row c = Some l ∧ ls_Holder l = i ∧ cl_now c < ls_ExpiresAt l.
Proof.
  intros Hc%lease_inv_reachable Hi Hj.
  destruct (leads_covered c i Hc Hi) as (l & Hl & <- & ?). destruct (leads_covered c j Hc Hj) as (l' & Hl' & <- & _).
  split; [congruence|eauto].
Qed.

(** What the steps of one instance look at. *)
Definition seen (c : Cluster) (i : string) : Time * option LeaseRow * Elector :=
  (cl_now c, cl_row c, cl_node c i).

Lemma seen_read c i now row e :
  seen c i = (now, row, e) → el_term e = None → el_call e = None → el_resigned e = false →
  ∃ c', step c c' ∧ seen c' i = (now, row, e <| el_call := Some (CallRead now None) |>).
Proof.
  intros [= <- <- <-] ???. eexists. split; [by apply Step_read|].
  unfold seen; cbn. by rewrite fn_lookup_insert.
Qed.

Lemma seen_execute c i now row e k :
  seen c i = (now, row, e) → el_call e = Some k → call_sent k = now →
  ∃ c', step c c' ∧
    seen c' i = (now, (execute i now k row).2, e <| el_call := Some (execute i now k row).1 |>).
Proof.
  intros [= <- <- <-] Hk Hs. eexists. split.
  - apply (Step_execute _ _ _ c i (cl_node c i) k (cl_now c)); [done|done|lia|apply surjective_pairing].
  - unfold seen; cbn. by rewrite fn_lookup_insert.
Qed.

Lemma seen_receive c i now row e :
  seen c i = (now, row, e) →
  ∃ c', step c c' ∧ seen c' i = (now, row, (receive ttl margin clock i now e).1).
Proof.
  intros [= <- <- <-]. eexists. split.
  - eapply Step_receive; [done|apply surjective_pairing].
  - unfold seen; cbn. by rewrite fn_lookup_insert.
Qed.

Lemma tryAcquire_expired now row e :
  (∀ l, row = Some l → ls_ExpiresAt l < now) →
  tryAcquire now (ReadLease now row) e = e <| el_call := Some (CallAcquire now None) |>.
Proof.
  intros Hrow. unfold tryAcquire, ReadLease. destruct row as [l|]; cbn; [|done].
  specialize (Hrow l eq_refl). by replace (now <? ls_ExpiresAt l) with false by lia.
Qed.

(** The attempt of an instance at a lease that expired: the read, the
    acquisition and the term's start. *)
Lemma attempt_leads c i :
  el_term (cl_node c i) = None → el_call (cl_node c i) = None → el_resigned (cl_node c i) = false →
  (∀ l, cl_row c = Some l → ls_ExpiresAt l < cl_now c) →
  ∃ c', rtc step c c' ∧ cl_now c' = cl_now c ∧ leads clock c' i = true.
Proof.
  intros Ht Hk Hres Hrow.
  destruct (seen_read c i _ _ _ eq_refl Ht Hk Hres) as (c1 & S1 & E1).
  destruct (seen_execute c1 i _ _ _ _ E1 eq_refl eq_refl) as (c2 & S2 & E2).
  destruct (seen_receive c2 i _ _ _ E2) as (c3 & S3 & E3).
  cbn -[tryAcquire] in E3. rewrite tryAcquire_expired in E3 by done.
  destruct (seen_execute c3 i _ _ _ _ E3 eq_refl eq_refl) as (c4 & S4 & E4).
  destruct (seen_receive c4 i _ _ _ E4) as (c5 & S5 & E5).
  exists c5. split; [by eauto 6 using rtc_l, rtc_refl|].
  assert (∃ ep l, AcquireLease i ttl (cl_now c) (cl_row c) = (Some ep, Some l)) as (ep & l & Hacq).
  { unfold AcquireLease. destruct (cl_row c) as [l|]; [|eauto]. specialize (Hrow l eq_refl).
    replace (ls_ExpiresAt l <? cl_now c) with true by lia. eauto. }
  cbn in E5. rewrite Hacq in E5. cbn in E5. unfold lead in E5. cbn in E5. rewrite Hres in E5.
  injection E5 as En Er Ee. split; [done|]. unfold leads. rewrite Ee, En. cbn. lia.
Qed.

End safety.

(** ** Witnesses *)

(** Every instance's clock is the database's. *)
Definition exact_clock (i : string) (t : Time) : Time := t.

Lemma lease_ttl_whole : interval LeaseTTL = LeaseTTL.
Proof. reflexivity. Qed.

Lemma lease_margin_below : 0 ≤ StepDownMargin < LeaseTTL.
Proof. vm_compute. split; [done|reflexivity]. Qed.

Lemma exact_clock_mono i s t : s ≤ t → exact_clock i s ≤ exact_clock i t.
Proof. done. Qed.

Lemma exact_clock_rate i s :
  exact_clock i s + (LeaseTTL - StepDownMargin) ≤ exact_clock i (s + LeaseTTL).
Proof. unfold exact_clock, LeaseTTL, StepDownMargin, Second. lia. Qed.

Lemma one_leader_witness :
  ∃ c, leads exact_clock c "a" = true ∧
       ∃ l, cl_row c = Some l ∧ ls_Holder l = "a"%string ∧ cl_now c < ls_ExpiresAt l.
Proof.
  destruct (attempt_leads LeaseTTL StepDownMargin exact_clock lease_margin_below (started 0) "a")
    as (c & Hr & _ & Hl); [done..|].
  exists c. split; [exact Hl|].
  exact (proj2 (one_leader LeaseTTL StepDownMargin exact_clock lease_ttl_whole lease_margin_below
                  exact_clock_mono exact_clock_rate c "a" "a" (ex_intro _ 0 Hr) Hl Hl)).
Defined.

