(* ===== verification/Nodelink.v ===== *)
(** * The connections of the nodes (nodelink/registry.go, budget.go, recheck.go, grpc.go, started.go)

    An instance's registry of the nodes' connections: node connections, over
    which it calls a node, and uplinks, over which a node calls it.  Links are
    shared objects: the registry, the timers and the calls in flight hold the
    same one, so they live in a heap.  One connection of a node is current and
    takes new calls; the others drain.  Every handler below is one critical
    section of [Server.mu]; timers are events that may fire at any time, as
    the handlers check themselves whether they are still due. *)

From S2P Require Import Prelude.

Inductive linkKind : Type := nodeLink | uplinkLink.
Inductive callKind : Type := callPlain | callLifecycle | callTool | callLong.

#[export] Instance linkKind_eq_dec : EqDecision linkKind.
Proof. solve_decision. Defined.
#[export] Instance callKind_eq_dec : EqDecision callKind.
Proof. solve_decision. Defined.

(** ** Links *)

Record link := MkLink {
  l_kind : linkKind; l_node : string; l_serial : string; l_notBefore : Time; l_notAfter : Time;
  l_seq : Z; l_closed : bool; l_notReady : bool; l_retired : bool; l_superseded : bool;
  l_revokeAt : Time; l_revokeGen : Z; l_revokeBackoff : Duration; l_revokeTimer : bool;
  l_draining : bool; l_forceDrain : bool;
  l_active : Z; l_lifecycle : Z; l_long : Z; l_tools : Z;
  l_streamSeq : Z; l_streams : list Z
}.

#[export] Instance eta_link : Eta link := λ l,
  MkLink (l_kind l) (l_node l) (l_serial l) (l_notBefore l) (l_notAfter l)
    (l_seq l) (l_closed l) (l_notReady l) (l_retired l) (l_superseded l)
    (l_revokeAt l) (l_revokeGen l) (l_revokeBackoff l) (l_revokeTimer l)
    (l_draining l) (l_forceDrain l) (l_active l) (l_lifecycle l) (l_long l) (l_tools l)
    (l_streamSeq l) (l_streams l).

(** A connection as the accept path makes it. *)
Definition newLink (kind : linkKind) (node serial : string) (notBefore notAfter : Time) : link :=
  MkLink kind node serial notBefore notAfter 0 false false false false zeroTime 0 0 false
    false false 0 0 0 0 0 [].

(** [newer]: the order of node connections for currency. *)
Definition newer (a b : link) : bool :=
  if bool_decide (l_superseded a = l_superseded b) then
    if l_notBefore a =? l_notBefore b then l_seq b <? l_seq a else l_notBefore b <? l_notBefore a
  else negb (l_superseded a).

(** Whether a connection can be current. *)
Definition eligible (l : link) : bool :=
  negb (l_closed l || l_notReady l || l_retired l || l_forceDrain l).

Section revoke.
Context (recheckMinBackoff recheckMaxBackoff : Duration).

(** [applyRevokeLocked]: the revocation time of a check. *)
Definition applyRevokeLocked (now revokeAt : Time) (l : link) : link :=
  if IsZero revokeAt then
    if l_superseded l then
      l <| l_superseded := false |> <| l_revokeAt := zeroTime |> <| l_revokeBackoff := 0 |>
        <| l_revokeGen ::= Z.add 1 |> <| l_revokeTimer := false |>
    else l
  else
    let ahead := 0 <? revokeAt - now in
    if ahead && (l_revokeAt l =? revokeAt) && l_revokeTimer l then l <| l_superseded := true |>
    else
      l <| l_superseded := true |>
        <| l_revokeBackoff ::= λ b, if ahead then 0
             else Z.min (Z.max (2 * b) recheckMinBackoff) recheckMaxBackoff |>
        <| l_revokeAt := revokeAt |> <| l_revokeGen ::= Z.add 1 |> <| l_revokeTimer := true |>.
End revoke.

(** ** The registry *)

Record nodeState := MkNodeState {
  ns_links : list nat; ns_uplinks : list nat; ns_current : option nat;
  ns_waiters : Z; ns_stoppingUntil : Time; ns_checking : bool
}.

#[export] Instance eta_nodeState : Eta nodeState := λ st,
  MkNodeState (ns_links st) (ns_uplinks st) (ns_current st) (ns_waiters st) (ns_stoppingUntil st)
    (ns_checking st).

Definition newNodeState : nodeState := MkNodeState [] [] None 0 zeroTime false.

(** [ConnEvent]. *)
Record ConnEvent := MkConnEvent { ce_Node : string; ce_Connected : bool }.

(** The heap of links, the nodes, and what left the critical sections: the
    events emitted and the streams cancelled. *)
Record Server := MkServer {
  sv_link : gmap nat link; sv_nodes : gmap string nodeState; sv_seq : Z; sv_shut : bool;
  sv_gens : gmap string Z; sv_allGen : Z;
  sv_events : list ConnEvent; sv_cancelled : list (nat * Z)
}.

#[export] Instance eta_Server : Eta Server := λ s,
  MkServer (sv_link s) (sv_nodes s) (sv_seq s) (sv_shut s) (sv_gens s) (sv_allGen s)
    (sv_events s) (sv_cancelled s).

Definition emptyServer : Server := MkServer ∅ ∅ 0 false ∅ 0 [] [].

(** [nodeLocked]: the node's state, made when there is none. *)
Definition nodeLocked (name : string) (s : Server) : nodeState :=
  default newNodeState (sv_nodes s !! name).

Definition put_node (name : string) (st : nodeState) (s : Server) : Server :=
  s <| sv_nodes ::= insert name st |>.

Definition change (id : nat) (f : link → link) (s : Server) : Server := s <| sv_link ::= alter f id |>.

Definition emitLocked (ev : ConnEvent) (s : Server) : Server := s <| sv_events ::= λ l, l ++ [ev] |>.

(** [remove]: the list without the first occurrence of the link. *)
Fixpoint remove (ls : list nat) (id : nat) : list nat :=
  match ls with
  | [] => []
  | x :: r => if decide (x = id) then r else x :: remove r id
  end.

(** [dropIdleLocked]: forgets a node that has nothing left here. *)
Definition dropIdleLocked (now : Time) (name : string) (s : Server) : Server :=
  match sv_nodes s !! name with
  | Some st =>
      if negb (bool_decide (ns_links st = [])) || negb (bool_decide (ns_uplinks st = []))
         || (0 <? ns_waiters st) || negb (bool_decide (ns_current st = None)) || ns_checking st
         || (now <? ns_stoppingUntil st)
      then s else s <| sv_nodes ::= delete name |>
  | None => s
  end.

(** The best of the links, as the first loop of [updateCurrentLocked] finds
    it. *)
Definition best_of (h : gmap nat link) (ls : list nat) : option nat :=
  foldl (λ best id,
    match h !! id with
    | Some l =>
        if eligible l then
          match best ≫= λ b, h !! b with
          | Some b => if newer l b then Some id else best
          | None => Some id
          end
        else best
    | None => best
    end) None ls.

Definition set_draining (best : option nat) (ls : list nat) (h : gmap nat link) : gmap nat link :=
  foldl (λ h id, alter (λ l, l <| l_draining := negb (bool_decide (best = Some id)) |>) id h) h ls.

Definition idle_of (best : option nat) (ls : list nat) (h : gmap nat link) : list nat :=
  filter (λ id, best ≠ Some id ∧ from_option l_active 1 (h !! id) = 0) ls.

Definition conn_event (name : string) (prev best : option nat) (s : Server) : Server :=
  match prev, best with
  | None, Some _ => emitLocked (MkConnEvent name true) s
  | Some _, None => emitLocked (MkConnEvent name false) s
  | _, _ => s
  end.

(** [updateCurrentLocked], over the closing of a link, with which it is
    mutually recursive. *)
Definition updateCurrentWith (close : nat → Server → Server) (name : string) (s : Server) : Server :=
  match sv_nodes s !! name with
  | Some st =>
      let best := best_of (sv_link s) (ns_links st) in
      let idle := idle_of best (ns_links st) (sv_link s) in
      let s := s <| sv_link ::= set_draining best (ns_links st) |> in
      let s := put_node name (st <| ns_current := best |>) s in
      let s := foldl (λ s id, close id s) s idle in
      conn_event name (ns_current st) best s
  | None => s
  end.

(** [closeLinkLocked].  Closing the current connection chooses another and
    closes the idle rest, which are not current: the recursion is two deep. *)
Fixpoint closeLinkFuel (fuel : nat) (now : Time) (id : nat) (s : Server) : Server :=
  match fuel, sv_link s !! id with
  | S fuel, Some l =>
      if l_closed l then s else
      let s := change id (λ l, l <| l_closed := true |> <| l_streams := [] |>) s in
      let s := s <| sv_cancelled ::= λ c, c ++ ((λ n, (id, n)) <$> l_streams l) |> in
      match sv_nodes s !! l_node l with
      | Some st =>
          let st := st <| ns_links ::= λ ls, remove ls id |> <| ns_uplinks ::= λ ls, remove ls id |> in
          let s := put_node (l_node l) st s in
          let s := if decide (ns_current st = Some id)
                   then updateCurrentWith (closeLinkFuel fuel now) (l_node l) s else s in
          dropIdleLocked now (l_node l) s
      | None => s
      end
  | _, _ => s
  end.

Definition closeLinkLocked (now : Time) (id : nat) (s : Server) : Server := closeLinkFuel 2 now id s.
Definition updateCurrentLocked (now : Time) (name : string) (s : Server) : Server :=
  updateCurrentWith (closeLinkLocked now) name s.

(** ** The handlers *)

(** What a check of a certificate answered: the revocation time, refusals,
    or an error that says nothing. *)
Inductive answer : Type :=
| CheckOk (revokeAt : Time)
| NodeRefused
| CertSuperseded
| Transient.

(** A call or stream in flight: its link, what it was reserved as, and its
    number among the link's registered streams; or a call on an uplink. *)
Inductive flight : Type :=
| Call (id : nat) (kind : callKind) (stream : option Z)
| Uplink (id : nat).

(** [unaryKind] and [streamKind], over the names the generated code gives. *)
Section kinds.
Context (lifecycleMethods : gset string) (streamPodEvents : string).

Definition toolServicePrefix : string := "/feos.tool.v1.ToolService/".

Definition unaryKind (method : string) : callKind :=
  if decide (method ∈ lifecycleMethods) then callLifecycle
  else if HasPrefix method toolServicePrefix then callTool
  else callPlain.

Definition streamKind (method : string) : callKind :=
  if String.eqb method streamPodEvents then callPlain else callLong.
End kinds.

Section handlers.
Context (maxStreams maxUplinks : Z) (recheckMinBackoff recheckMaxBackoff : Duration).

Notation applyRevokeLocked := (applyRevokeLocked recheckMinBackoff recheckMaxBackoff).

Definition longBudget : Z := Z.max 1 (Z.quot maxStreams 2).
Definition toolBudget : Z := Z.max 1 (Z.quot maxStreams 4).

(** [registerNode]; [gen] is the checks' count before the accept check, and
    the answer whether the connection has to be checked again. *)
Definition genLocked (node : string) (s : Server) : Z * Z :=
  (default 0 (sv_gens s !! node), sv_allGen s).

Definition registerNode (now : Time) (l : link) (revokeAt : Time) (gen : Z * Z) (s : Server)
    : Server * bool :=
  if sv_shut s then (s, false) else
  let id := fresh (dom (sv_link s)) in
  let st := nodeLocked (l_node l) s in
  let seq := sv_seq s + 1 in
  let l := applyRevokeLocked now revokeAt (l <| l_seq := seq |>) in
  let s := s <| sv_seq := seq |> <| sv_link ::= insert id l |> in
  let s := put_node (l_node l) (st <| ns_links ::= λ ls, ls ++ [id] |>) s in
  (updateCurrentLocked now (l_node l) s, negb (bool_decide (genLocked (l_node l) s = gen))).

(** The uplinks that count towards the maximum. *)
Definition counted (h : gmap nat link) (id : nat) : bool :=
  match h !! id with Some u => negb (l_superseded u) && negb (l_closed u) | None => false end.

(** [registerUplink]: whether the uplink is taken. *)
Definition registerUplink (now : Time) (l : link) (revokeAt : Time) (gen : Z * Z) (s : Server)
    : Server * bool :=
  if sv_shut s then (s, false) else
  let st := nodeLocked (l_node l) s in
  let n := Z.of_nat (length (filter (λ id, counted (sv_link s) id = true) (ns_uplinks st))) in
  if IsZero revokeAt && (maxUplinks <=? n)
  then (dropIdleLocked now (l_node l) (put_node (l_node l) st s), false)
  else
    let id := fresh (dom (sv_link s)) in
    let seq := sv_seq s + 1 in
    let l := applyRevokeLocked now revokeAt (l <| l_seq := seq |>) in
    let s := s <| sv_seq := seq |> <| sv_link ::= insert id l |> in
    (put_node (l_node l) (st <| ns_uplinks ::= λ ls, ls ++ [id] |>) s, true).

(** [reserveLocked]: the call counted on its link, or nothing when its budget
    is exhausted. *)
Definition exhausted (kind : callKind) (l : link) : bool :=
  match kind with
  | callLong => longBudget <=? l_long l
  | callTool => toolBudget <=? l_tools l
  | callLifecycle | callPlain => false
  end.

Definition count_call (kind : callKind) (l : link) : link :=
  let l := match kind with
           | callLong => l <| l_long ::= Z.succ |>
           | callTool => l <| l_tools ::= Z.succ |>
           | callLifecycle => l <| l_lifecycle ::= Z.succ |>
           | callPlain => l
           end in
  l <| l_active ::= Z.succ |>.

Definition reserveLocked (kind : callKind) (id : nat) (s : Server) : option Server :=
  match sv_link s !! id with
  | Some l => if exhausted kind l then None else Some (change id (count_call kind) s)
  | None => None
  end.

(** [waitCurrent] with a reservation, when it does not have to wait: the
    link of the call. *)
Definition reserve (node : string) (kind : callKind) (s : Server) : Server * option nat :=
  match ns_current (nodeLocked node s) with
  | Some id =>
      match reserveLocked kind id s with
      | Some s => (s, Some id)
      | None => (s, None)
      end
  | None => (s, None)
  end.

Definition uncount (kind : callKind) (l : link) : link :=
  let l := match kind with
           | callLong => l <| l_long ::= Z.pred |>
           | callTool => l <| l_tools ::= Z.pred |>
           | callLifecycle => l <| l_lifecycle ::= Z.pred |>
           | callPlain => l
           end in
  l <| l_active ::= Z.pred |>.

(** [release]. *)
Definition release (now : Time) (id : nat) (kind : callKind) (s : Server) : Server :=
  let s := change id (uncount kind) s in
  match sv_link s !! id with
  | Some l =>
      if l_closed l then s
      else if l_forceDrain l && (l_lifecycle l =? 0) then closeLinkLocked now id s
      else if l_draining l && (l_active l =? 0) then closeLinkLocked now id s
      else s
  | None => s
  end.

(** [newStream] once its slot is reserved: the stream's number, or nothing
    when the connection is closing. *)
Definition openStream (id : nat) (s : Server) : Server * option Z :=
  match sv_link s !! id with
  | Some l =>
      if l_closed l || l_forceDrain l then (s, None)
      else
        let n := l_streamSeq l + 1 in
        (change id (λ l, l <| l_streamSeq := n |> <| l_streams ::= λ ls, ls ++ [n] |>) s, Some n)
  | None => (s, None)
  end.

(** The end of a counted stream. *)
Definition endStream (id : nat) (n : option Z) (s : Server) : Server :=
  match n with
  | Some n => change id (λ l, l <| l_streams ::= filter (λ m, m ≠ n) |>) s
  | None => s
  end.

(** [forceDrainLocked]. *)
Definition forceDrainLocked (now : Time) (id : nat) (s : Server) : Server :=
  match sv_link s !! id with
  | Some l =>
      if l_lifecycle l =? 0 then closeLinkLocked now id s
      else
        let s := change id (λ l, l <| l_forceDrain := true |> <| l_streams := [] |>) s in
        s <| sv_cancelled ::= λ c, c ++ ((λ n, (id, n)) <$> l_streams l) |>
  | None => s
  end.

Definition is_open (id : nat) (s : Server) : bool :=
  match sv_link s !! id with Some l => negb (l_closed l) | None => false end.

Definition is_uplink (id : nat) (s : Server) : bool :=
  match sv_link s !! id with Some l => bool_decide (l_kind l = uplinkLink) | None => false end.

(** [drainTimeout]. *)
Definition drainTimeout (now : Time) (id : nat) (s : Server) : Server :=
  match sv_link s !! id with
  | Some l => if negb (l_closed l) && l_draining l then forceDrainLocked now id s else s
  | None => s
  end.

(** [updateCurrentLocked] of the node of a link, as its callers run it. *)
Definition updateCurrentOf (now : Time) (id : nat) (s : Server) : Server :=
  match sv_link s !! id with
  | Some l => updateCurrentLocked now (l_node l) s
  | None => s
  end.

(** [retireLocked]. *)
Definition retireLocked (now : Time) (id : nat) (s : Server) : Server :=
  if is_open id s then
    let s := updateCurrentOf now id (change id (λ l, l <| l_retired := true |>) s) in
    if is_open id s then forceDrainLocked now id s else s
  else s.

(** [markNotReady]. *)
Definition markNotReady (now : Time) (id : nat) (s : Server) : Server :=
  match sv_link s !! id with
  | Some l =>
      if negb (l_closed l) && negb (l_notReady l)
      then updateCurrentOf now id (change id (λ l, l <| l_notReady := true |>) s) else s
  | None => s
  end.

(** [apply]: the answer of a re-check. *)
Definition apply (now : Time) (id : nat) (a : answer) (s : Server) : Server :=
  match sv_link s !! id with
  | Some l =>
      if l_closed l then s else
      match a with
      | CheckOk revokeAt =>
          let s := change id (applyRevokeLocked now revokeAt) s in
          match l_kind l with
          | uplinkLink =>
              match sv_link s !! id with
              | Some l => if l_superseded l && (l_active l =? 0) then closeLinkLocked now id s else s
              | None => s
              end
          | nodeLink => updateCurrentOf now id s
          end
      | NodeRefused => closeLinkLocked now id s
      | CertSuperseded =>
          match l_kind l with
          | uplinkLink => closeLinkLocked now id s
          | nodeLink => retireLocked now id s
          end
      | Transient => s
      end
  | None => s
  end.

(** [revocationDue]: a node connection is re-checked, an uplink closed. *)
Definition revocationDue (now : Time) (id : nat) (gen : Z) (s : Server) : Server :=
  match sv_link s !! id with
  | Some l =>
      if negb (l_closed l) && l_superseded l && (l_revokeGen l =? gen)
         && bool_decide (l_kind l = uplinkLink)
      then closeLinkLocked now id s else s
  | None => s
  end.

(** [closeIfIdle]. *)
Definition closeIfIdle (now : Time) (id : nat) (s : Server) : Server :=
  match sv_link s !! id with
  | Some l => if negb (l_closed l) && (l_active l =? 0) then closeLinkLocked now id s else s
  | None => s
  end.

(** [uplinkCall] on an uplink: whether the call is admitted. *)
Definition uplinkCall (id : nat) (s : Server) : Server * bool :=
  match sv_link s !! id with
  | Some l =>
      if l_closed l || l_superseded l then (s, false)
      else (change id (λ l, l <| l_active ::= Z.succ |>) s, true)
  | None => (s, false)
  end.

(** [uplinkDone]. *)
Definition uplinkDone (now : Time) (id : nat) (s : Server) : Server :=
  let s := change id (λ l, l <| l_active ::= Z.pred |>) s in
  match sv_link s !! id with
  | Some l =>
      if negb (l_closed l) && l_superseded l && (l_active l =? 0) then closeLinkLocked now id s else s
  | None => s
  end.

(** [SetStoppingUntil]. *)
Definition SetStoppingUntil (now : Time) (node : string) (until : Time) (s : Server) : Server :=
  if bool_decide (sv_nodes s !! node = None) && negb (now <? until) then s
  else dropIdleLocked now node (put_node node ((nodeLocked node s) <| ns_stoppingUntil := until |>) s).

(** [Shutdown]: the node connections are closed at once; the nodes are
    visited in some order. *)
Definition Shutdown (now : Time) (s : Server) : Server :=
  if sv_shut s then s else
  foldl (λ s id, closeLinkLocked now id s) (s <| sv_shut := true |>)
    (concat (ns_links ∘ snd <$> map_to_list (sv_nodes s))).

Definition Connected (node : string) (s : Server) : bool :=
  match sv_nodes s !! node with Some st => negb (bool_decide (ns_current st = None)) | None => false end.

Definition Connections (node : string) (s : Server) : Z :=
  match sv_nodes s !! node with Some st => Z.of_nat (length (ns_links st)) | None => 0 end.

Definition Nodes (s : Server) : list string :=
  sort_by String.leb (fst <$> filter (λ x, ns_current x.2 ≠ None) (map_to_list (sv_nodes s))).

(** ** Runs

    The registry and the calls in flight, and what can happen to them: each
    event is handled under the lock, at a time of its own. *)

Record World := MkWorld { w_server : Server; w_calls : list flight }.

Inductive event : Type :=
| EvNode (node serial : string) (notBefore notAfter revokeAt : Time) (gen : Z * Z)
| EvUplink (node serial : string) (notBefore notAfter revokeAt : Time) (gen : Z * Z)
| EvReserve (node : string) (kind : callKind)
| EvOpenStream (k : nat)
| EvEnd (k : nat)
| EvUplinkCall (id : nat)
| EvDrainTimeout (id : nat)
| EvExpire (id : nat)
| EvUplinkClosed (id : nat)
| EvNotReady (id : nat)
| EvAnswer (id : nat) (a : answer)
| EvRevocationDue (id : nat) (gen : Z)
| EvCloseIfIdle (id : nat)
| EvStopping (node : string) (until : Time)
| EvWait (node : string)
| EvWoken (node : string)
| EvShutdown.

(** Calls end in any order: the [k]th is the one that ends.  Only uplinks take
    calls from the node, close by themselves and have an idle timer. *)
Definition handle (now : Time) (ev : event) (w : World) : World :=
  let s := w_server w in
  let cs := w_calls w in
  match ev with
  | EvNode node serial notBefore notAfter revokeAt gen =>
      MkWorld (registerNode now (newLink nodeLink node serial notBefore notAfter) revokeAt gen s).1 cs
  | EvUplink node serial notBefore notAfter revokeAt gen =>
      MkWorld (registerUplink now (newLink uplinkLink node serial notBefore notAfter) revokeAt gen s).1 cs
  | EvReserve node kind =>
      match reserve node kind s with
      | (s, Some id) => MkWorld s (Call id kind None :: cs)
      | (s, None) => MkWorld s cs
      end
  | EvOpenStream k =>
      match cs !! k with
      | Some (Call id callLong None) =>
          match openStream id s with
          | (s, Some n) => MkWorld s (<[k := Call id callLong (Some n)]> cs)
          | (s, None) => MkWorld (release now id callLong s) (delete k cs)
          end
      | _ => w
      end
  | EvEnd k =>
      match cs !! k with
      | Some (Call id kind n) => MkWorld (release now id kind (endStream id n s)) (delete k cs)
      | Some (Uplink id) => MkWorld (uplinkDone now id s) (delete k cs)
      | None => w
      end
  | EvUplinkCall id =>
      if is_uplink id s then
        match uplinkCall id s with
        | (s, true) => MkWorld s (Uplink id :: cs)
        | (s, false) => MkWorld s cs
        end
      else w
  | EvDrainTimeout id => MkWorld (drainTimeout now id s) cs
  | EvExpire id => MkWorld (closeLinkLocked now id s) cs
  | EvUplinkClosed id => if is_uplink id s then MkWorld (closeLinkLocked now id s) cs else w
  | EvNotReady id => MkWorld (markNotReady now id s) cs
  | EvAnswer id a => MkWorld (apply now id a s) cs
  | EvRevocationDue id gen => MkWorld (revocationDue now id gen s) cs
  | EvCloseIfIdle id => if is_uplink id s then MkWorld (closeIfIdle now id s) cs else w
  | EvStopping node until => MkWorld (SetStoppingUntil now node until s) cs
  | EvWait node =>
      MkWorld (put_node node ((nodeLocked node s) <| ns_waiters ::= Z.add 1 |>) s) cs
  | EvWoken node => MkWorld (s <| sv_nodes ::= alter (λ st, st <| ns_waiters ::= Z.pred |>) node |>) cs
  | EvShutdown => MkWorld (Shutdown now s) cs
  end.

Definition run (evs : list (Time * event)) : World :=
  foldl (λ w e, handle e.1 e.2 w) (MkWorld emptyServer []) evs.
End handlers.
