(* ===== verification/NodelinkSafety.v ===== *)
(** * What the registry of the nodes' connections keeps

    The proofs about [Nodelink]: a node's current connection is its best one
    and every other drains, draining cuts no lifecycle call, the counters are
    the calls in flight and stay within their budgets, and closing a connection
    ends.  [frame] says what closing and choosing touch, [good] is the
    registry's invariant, [calls_ok] the counters'. *)

From S2P Require Import Prelude Nodelink.

(** ** What closing a connection touches *)

(** The fields of a link that only calls change, with some that closing
    links and choosing the current one leave alone. *)
Definition stat (l : link) : linkKind * string * Time * Z * (Z * Z * Z * Z) :=
  (l_kind l, l_node l, l_notBefore l, l_seq l, (l_active l, l_lifecycle l, l_long l, l_tools l)).

(** From [s] to [s'] links are only marked, and closed only when [P] holds or
    they were idle. *)
Record frame (P : nat → Prop) (s s' : Server) : Prop := {
  frame_stat : stat <$> sv_link s' = stat <$> sv_link s;
  frame_closed i l' : sv_link s' !! i = Some l' → l_closed l' = true →
    ∃ l, sv_link s !! i = Some l ∧ (l_closed l = true ∨ P i ∨ l_active l = 0);
  frame_retired i l l' : sv_link s !! i = Some l → sv_link s' !! i = Some l' →
    l_retired l = true → l_retired l' = true
}.

Lemma fmap_alter_same {K} `{Countable K} {A B} (g : A → B) (f : A → A) (i : K) (m : gmap K A) :
  (∀ x, g (f x) = g x) → g <$> alter f i m = g <$> m.
Proof.
  intros Hg. apply map_eq. intros j. rewrite !lookup_fmap.
  destruct (decide (i = j)) as [<-|Hne].
  - rewrite lookup_alter_eq. destruct (m !! i); cbn; [by rewrite Hg|done].
  - by rewrite lookup_alter_ne by done.
Qed.

Lemma stat_lookup s s' i l' :
  stat <$> sv_link s' = stat <$> sv_link s → sv_link s' !! i = Some l' →
  ∃ l, sv_link s !! i = Some l ∧ stat l' = stat l.
Proof.
  intros E H. apply (f_equal (lookup i)) in E. rewrite !lookup_fmap, H in E.
  destruct (sv_link s !! i) as [l|]; [|done]. apply (inj Some) in E. eauto.
Qed.

Lemma frame_refl P s s' : sv_link s' = sv_link s → frame P s s'.
Proof. intros E. split; rewrite E; [done|eauto|congruence]. Qed.

Lemma frame_link P s s' s'' : sv_link s'' = sv_link s' → frame P s s' → frame P s s''.
Proof. intros E [Es Ec Er]. split; rewrite E; done. Qed.

Lemma frame_trans P s s1 s2 : frame P s s1 → frame P s1 s2 → frame P s s2.
Proof.
  intros [E1 C1 R1] [E2 C2 R2]. split; [congruence| |].
  2:{ intros i l l2 Hl Hl2 Hr. destruct (stat_lookup _ _ _ _ E2 Hl2) as (l1 & Hl1 & _). eauto. }
  intros i l2 Hl2 Hc2. destruct (C2 i l2 Hl2 Hc2) as (l1 & Hl1 & [Hc|[Hp|Ha]]); [by apply (C1 i l1)|..].
  - destruct (stat_lookup _ _ _ _ E1 Hl1) as (l & Hl & _). eauto.
  - destruct (stat_lookup _ _ _ _ E1 Hl1) as (l & Hl & [= _ _ _ _ E _ _ _]). exists l. split; [done|].
    right; right. congruence.
Qed.

Lemma frame_change P id f s :
  (∀ l, stat (f l) = stat l) → (∀ l, l_closed (f l) = true → l_closed l = true ∨ P id) →
  (∀ l, l_retired l = true → l_retired (f l) = true) → frame P s (change id f s).
Proof.
  intros Hs Hc Hr. split; cbn; [by apply fmap_alter_same| |].
  2:{ intros i l l' Hl. destruct (decide (id = i)) as [<-|]; [|rewrite lookup_alter_ne by done; congruence].
      rewrite lookup_alter_eq, Hl. intros [= <-]. apply Hr. }
  intros i l' Hl' Hcl. destruct (decide (id = i)) as [<-|Hne].
  - rewrite lookup_alter_eq in Hl'. destruct (sv_link s !! id) as [l|]; [|done].
    injection Hl' as <-. exists l. split; [done|]. destruct (Hc l Hcl); auto.
  - rewrite lookup_alter_ne in Hl' by done. eauto.
Qed.

Lemma frame_draining_link P best ls s s' :
  sv_link s' = set_draining best ls (sv_link s) → frame P s s'.
Proof.
  unfold set_draining. revert s. induction ls as [|id ls IH]; intros s E; [by apply frame_refl|].
  eapply frame_trans;
    [|apply (IH (change id (λ l, l <| l_draining := negb (bool_decide (best = Some id)) |>) s)); exact E].
  apply frame_change; cbn; auto.
Qed.

Lemma frame_drop P now name s : frame P s (dropIdleLocked now name s).
Proof. unfold dropIdleLocked. repeat case_match; by apply frame_refl. Qed.

Lemma frame_conn_event P name a b s : frame P s (conn_event name a b s).
Proof. destruct a, b; by apply frame_refl. Qed.

Lemma frame_weaken P Q s s' : (∀ i l, sv_link s !! i = Some l → P i → Q i ∨ l_active l = 0) → frame P s s' → frame Q s s'.
Proof.
  intros HPQ [E C R]. split; [done| |done]. intros i l' Hl' Hc.
  destruct (C i l' Hl' Hc) as (l & Hl & [?|[Hp|?]]); eauto.
Qed.

(** Closing the links of a list, each idle. *)
Lemma frame_fold P (close : nat → Server → Server) ls s :
  (∀ i s, frame (λ j, j = i) s (close i s)) →
  (∀ i l, i ∈ ls → sv_link s !! i = Some l → P i ∨ l_active l = 0) →
  frame P s (foldl (λ s id, close id s) s ls).
Proof.
  intros Hclose. revert s. induction ls as [|i ls IH]; intros s Hidle; [by apply frame_refl|]. cbn.
  assert (frame P s (close i s)) as H1.
  { eapply frame_weaken; [|apply Hclose]. cbn. intros j l Hl ->. apply (Hidle i l); [by left|done]. }
  eapply frame_trans; [exact H1|]. apply IH. intros j l' Hj Hl'.
  destruct (stat_lookup _ _ _ _ (frame_stat _ _ _ H1) Hl') as (l & Hl & [= _ _ _ _ E _ _ _]).
  rewrite E. apply (Hidle j l); [by right|done].
Qed.

Lemma idle_of_spec best ls h i l : i ∈ idle_of best ls h → h !! i = Some l → l_active l = 0.
Proof. intros [[_ Ha] _]%list_elem_of_filter Hl. by rewrite Hl in Ha. Qed.

Lemma frame_update P close name s :
  (∀ i s, frame (λ j, j = i) s (close i s)) → frame P s (updateCurrentWith close name s).
Proof.
  intros Hclose. unfold updateCurrentWith. destruct (sv_nodes s !! name) as [st|]; [|by apply frame_refl].
  eapply frame_trans; [|apply frame_conn_event].
  match goal with |- frame _ _ (foldl _ ?s1 _) => set (s1' := s1) end.
  assert (frame P s s1') as H1 by (by eapply frame_draining_link).
  eapply frame_trans; [exact H1|]. apply frame_fold; [done|].
  intros i l' Hi Hl'. right.
  destruct (stat_lookup _ _ _ _ (frame_stat _ _ _ H1) Hl') as (l & Hl & [= _ _ _ _ E _ _ _]).
  rewrite E. by eapply idle_of_spec.
Qed.

Lemma frame_close_fuel n now id s : frame (λ i, i = id) s (closeLinkFuel n now id s).
Proof.
  revert id s. induction n as [|n IH]; intros id s; cbn; [by apply frame_refl|].
  destruct (sv_link s !! id) as [l|]; [|by apply frame_refl].
  destruct (l_closed l); [by apply frame_refl|].
  eapply frame_trans; [apply (frame_change _ id (λ l, l <| l_closed := true |> <| l_streams := [] |>)); cbn; auto|].
  eapply frame_trans; [by apply frame_refl|].
  destruct (_ !! l_node l) as [st|]; [|by apply frame_refl].
  eapply frame_trans; [|apply frame_drop]. case_decide; [|by apply frame_refl].
  eapply frame_trans; [|by apply frame_update]. by apply frame_refl.
Qed.

Lemma frame_close now id s : frame (λ i, i = id) s (closeLinkLocked now id s).
Proof. apply frame_close_fuel. Qed.

Lemma frame_updateCurrent P now name s : frame P s (updateCurrentLocked now name s).
Proof. apply frame_update. intros. apply frame_close. Qed.

(** ** The registry's invariant *)

Definition is_best (h : gmap nat link) (ls : list nat) (best : option nat) : Prop :=
  match best with
  | Some b =>
      b ∈ ls ∧ ∃ lb, h !! b = Some lb ∧ eligible lb = true ∧
        ∀ id l, id ∈ ls → id ≠ b → h !! id = Some l → eligible l = true → newer lb l = true
  | None => ∀ id l, id ∈ ls → h !! id = Some l → eligible l = false
  end.

(** A node's lists hold its open connections, ... *)
Record node_weak (h : gmap nat link) (name : string) (st : nodeState) : Prop := {
  nw_nodup : NoDup (ns_links st);
  nw_nodup_up : NoDup (ns_uplinks st);
  nw_link id : id ∈ ns_links st →
    ∃ l, h !! id = Some l ∧ l_kind l = nodeLink ∧ l_node l = name ∧ l_closed l = false;
  nw_uplink id : id ∈ ns_uplinks st →
    ∃ l, h !! id = Some l ∧ l_kind l = uplinkLink ∧ l_node l = name ∧ l_closed l = false
}.

(** ... the best one is current and the others drain; those not about to be
    closed ([X]) have calls in flight. *)
Record node_settled (X : nat → Prop) (h : gmap nat link) (st : nodeState) : Prop := {
  nt_drain id l : id ∈ ns_links st → h !! id = Some l →
    l_draining l = negb (bool_decide (ns_current st = Some id)) ∧
    (ns_current st ≠ Some id → ¬ X id → l_active l ≠ 0);
  nt_best : is_best h (ns_links st) (ns_current st)
}.

Record registry (s : Server) : Prop := {
  rg_weak name st : sv_nodes s !! name = Some st → node_weak (sv_link s) name st;
  rg_open id l : sv_link s !! id = Some l → l_closed l = false →
    ∃ st, sv_nodes s !! l_node l = Some st ∧
          id ∈ (match l_kind l with nodeLink => ns_links st | uplinkLink => ns_uplinks st end);
  rg_seq i j li lj : sv_link s !! i = Some li → sv_link s !! j = Some lj → l_seq li = l_seq lj → i = j;
  rg_bound i l : sv_link s !! i = Some l → l_seq l ≤ sv_seq s
}.

(** Every node but [bad] is settled. *)
Definition settled (X : nat → Prop) (bad : option string) (s : Server) : Prop :=
  ∀ name st, sv_nodes s !! name = Some st → bad ≠ Some name → node_settled X (sv_link s) st.

Definition nothing (i : nat) : Prop := False.

(** *** The order of connections *)

Lemma newer_spec a b :
  newer a b = true ↔
  l_superseded a = l_superseded b ∧
    (l_notBefore b < l_notBefore a ∨ l_notBefore a = l_notBefore b ∧ l_seq b < l_seq a) ∨
  l_superseded a = false ∧ l_superseded b = true.
Proof.
  unfold newer. case_bool_decide as E; [|destruct (l_superseded a), (l_superseded b); naive_solver].
  destruct (Z.eqb_spec (l_notBefore a) (l_notBefore b)); rewrite Z.ltb_lt; split;
    try (intros; left; split; [done|lia]); intros [[_ ?]|[??]]; first [lia|congruence].
Qed.

Lemma newer_trans a b c : newer a b = true → newer b c = true → newer a c = true.
Proof.
  rewrite !newer_spec. intros [[E1 H1]|[E1 E1']] [[E2 H2]|[E2 E2']].
  - left. split; [congruence|lia].
  - right. split; congruence.
  - right. split; congruence.
  - congruence.
Qed.

Lemma newer_total a b : l_seq a ≠ l_seq b → newer a b = false → newer b a = true.
Proof.
  intros Hs Hn%not_true_iff_false. rewrite newer_spec in *.
  assert (l_superseded a = l_superseded b ∨ l_superseded b = false ∧ l_superseded a = true) as [E|?]
    by (destruct (l_superseded a), (l_superseded b); tauto); [left|by right].
  split; [done|]. destruct (Z.lt_trichotomy (l_notBefore a) (l_notBefore b)) as [?|[?|?]]; [auto| |tauto].
  destruct (Z.lt_trichotomy (l_seq a) (l_seq b)) as [?|[?|?]]; tauto || auto.
Qed.

Lemma best_of_snoc h ls x :
  best_of h (ls ++ [x]) =
  match h !! x with
  | Some l =>
      if eligible l then
        match best_of h ls ≫= λ b, h !! b with
        | Some b => if newer l b then Some x else best_of h ls
        | None => Some x
        end
      else best_of h ls
  | None => best_of h ls
  end.
Proof. unfold best_of. by rewrite foldl_app. Qed.

Lemma elem_of_snoc {A} (x y : A) l : y ∈ l ++ [x] ↔ y ∈ l ∨ y = x.
Proof. by rewrite elem_of_app, list_elem_of_singleton. Qed.

Lemma is_best_skip h ls best x :
  is_best h ls best → (∀ l, h !! x = Some l → eligible l = false) → is_best h (ls ++ [x]) best.
Proof.
  intros Hb Hx. destruct best as [b|]; cbn in *.
  - destruct Hb as (Hb & lb & Hlb & He & Hall). split; [apply elem_of_app; auto|].
    exists lb. repeat split; [done..|]. intros id l [Hid| ->]%elem_of_snoc ? Hl Hel; [eauto|].
    by rewrite (Hx l Hl) in Hel.
  - intros id l [Hid| ->]%elem_of_snoc Hl; eauto.
Qed.

Lemma best_of_spec h ls :
  NoDup ls → (∀ i j li lj, h !! i = Some li → h !! j = Some lj → l_seq li = l_seq lj → i = j) →
  is_best h ls (best_of h ls).
Proof.
  intros Hnd Hseq. induction ls as [|x ls IH] using rev_ind; [intros ?? []%not_elem_of_nil|].
  apply NoDup_app in Hnd as (Hnd & Hx & _). specialize (IH Hnd). rewrite best_of_snoc.
  destruct (h !! x) as [l|] eqn:Hl; [|apply is_best_skip; [done|congruence]].
  destruct (eligible l) eqn:He; [|apply is_best_skip; [done|congruence]].
  destruct (best_of h ls) as [b|]; cbn in *.
  - destruct IH as (Hb & lb & Hlb & Heb & Hall). rewrite Hlb. destruct (newer l lb) eqn:Hn.
    + split; [apply elem_of_app; right; by left|]. exists l. repeat split; [done..|].
      intros id l' [Hid| ->]%elem_of_snoc ? Hl' Hel'; [|done].
      destruct (decide (id = b)) as [->|]; [congruence|]. eapply newer_trans; eauto.
    + split; [apply elem_of_app; auto|]. exists lb. repeat split; [done..|].
      intros id l' [Hid| ->]%elem_of_snoc Hne Hl' Hel'; [eauto|].
      assert (l' = l) as -> by congruence. apply newer_total; [|done]. intros E. eauto.
  - split; [apply elem_of_app; right; by left|]. exists l. repeat split; [done..|].
    intros id l' [Hid| ->]%elem_of_snoc ? Hl' Hel'; [|done].
    by rewrite (IH id l' Hid Hl') in Hel'.
Qed.

(** *** Marking links *)

Definition core (l : link) : linkKind * string * bool * Z := (l_kind l, l_node l, l_closed l, l_seq l).

Lemma core_lookup (h h' : gmap nat link) i l' :
  core <$> h' = core <$> h → h' !! i = Some l' → ∃ l, h !! i = Some l ∧ core l' = core l.
Proof.
  intros E H. apply (f_equal (lookup i)) in E. rewrite !lookup_fmap, H in E.
  destruct (h !! i) as [l|]; [|done]. apply (inj Some) in E. eauto.
Qed.

Lemma node_weak_core h h' name st : core <$> h' = core <$> h → node_weak h name st → node_weak h' name st.
Proof.
  intros E [? ? Hl Hu]. symmetry in E. split; [done..| |]; intros id Hid.
  - destruct (Hl id Hid) as (l & H & ? & ? & ?). destruct (core_lookup _ _ _ _ E H) as (l' & H' & [= E1 E2 E3 E4]).
    exists l'. repeat split; congruence.
  - destruct (Hu id Hid) as (l & H & ? & ? & ?). destruct (core_lookup _ _ _ _ E H) as (l' & H' & [= E1 E2 E3 E4]).
    exists l'. repeat split; congruence.
Qed.

Lemma registry_core s s' :
  core <$> sv_link s' = core <$> sv_link s → sv_nodes s' = sv_nodes s → sv_seq s' = sv_seq s →
  registry s → registry s'.
Proof.
  intros E En Es [Hw Ho Hq Hb]. split.
  - rewrite En. intros. eapply node_weak_core; eauto.
  - intros id l' Hl'. destruct (core_lookup _ _ _ _ E Hl') as (l & Hl & [= E1 E2 E3 _]).
    rewrite E1, E2, E3, En. by apply Ho.
  - intros i j li' lj' Hi Hj. destruct (core_lookup _ _ _ _ E Hi) as (li & ? & [= _ _ _ ->]).
    destruct (core_lookup _ _ _ _ E Hj) as (lj & ? & [= _ _ _ ->]). eauto.
  - intros i l' Hl'. destruct (core_lookup _ _ _ _ E Hl') as (l & Hl & [= _ _ _ ->]). rewrite Es. eauto.
Qed.

Lemma registry_change id f s : (∀ l, core (f l) = core l) → registry s → registry (change id f s).
Proof. intros Hf. apply registry_core; [|done..]. by apply fmap_alter_same. Qed.

(** A change of a link that decides neither currency nor draining. *)
Definition settle_view (l : link) : bool * bool * Time * Z * bool * Z :=
  (eligible l, l_superseded l, l_notBefore l, l_seq l, l_draining l, l_active l).

Lemma newer_view a a' b b' :
  settle_view a' = settle_view a → settle_view b' = settle_view b → newer a' b' = newer a b.
Proof. unfold newer. intros [= _ -> -> -> _ _] [= _ -> -> -> _ _]. done. Qed.

Lemma is_best_view h h' ls best :
  (∀ id l', id ∈ ls → h' !! id = Some l' → ∃ l, h !! id = Some l ∧ settle_view l' = settle_view l) →
  (∀ id l, id ∈ ls → h !! id = Some l → ∃ l', h' !! id = Some l' ∧ settle_view l' = settle_view l) →
  is_best h ls best → is_best h' ls best.
Proof.
  intros Hb Hf. destruct best as [b|]; cbn.
  - intros (Hin & lb & Hlb & He & Hall). destruct (Hf b lb Hin Hlb) as (lb' & Hlb' & Eb).
    split; [done|]. exists lb'. split; [done|]. pose proof Eb as [= Ee _ _ _ _ _]. split; [congruence|].
    intros id l' Hid Hne Hl' Hel'. destruct (Hb id l' Hid Hl') as (l & Hl & El).
    rewrite (newer_view lb lb' l l' Eb El). pose proof El as [= Ee' _ _ _ _ _]. eapply Hall; [done|done|done|congruence].
  - intros Hall id l' Hid Hl'. destruct (Hb id l' Hid Hl') as (l & Hl & [= -> _ _ _ _ _]). eauto.
Qed.

Lemma node_settled_view X h h' st :
  (∀ id, id ∈ ns_links st → settle_view <$> h' !! id = settle_view <$> h !! id) →
  (∀ id, id ∈ ns_links st → ∃ l, h !! id = Some l) →
  node_settled X h st → node_settled X h' st.
Proof.
  intros E Hall [Hd Hbest].
  assert (∀ id l', id ∈ ns_links st → h' !! id = Some l' →
            ∃ l, h !! id = Some l ∧ settle_view l' = settle_view l) as Hb.
  { intros id l' Hid Hl'. specialize (E id Hid). rewrite Hl' in E. destruct (Hall id Hid) as [l Hl].
    rewrite Hl in E. apply (inj Some) in E. eauto. }
  split.
  - intros id l' Hid Hl'. destruct (Hb id l' Hid Hl') as (l & Hl & [= _ _ _ _ -> ->]). eauto.
  - eapply is_best_view; [exact Hb| |done].
    intros id l Hid Hl. specialize (E id Hid). rewrite Hl in E.
    destruct (h' !! id) as [l'|]; [|done]. apply (inj Some) in E. eauto.
Qed.

(** *** Taking a link out *)

Lemma elem_of_remove ls id x : NoDup ls → x ∈ remove ls id ↔ x ∈ ls ∧ x ≠ id.
Proof.
  intros Hnd. induction Hnd as [|y ls Hy Hnd IH]; cbn.
  - split; [intros []%not_elem_of_nil|intros [[]%not_elem_of_nil _]].
  - rewrite elem_of_cons. destruct (decide (y = id)) as [->|Hne].
    + split; [intros Hx; split; [by right|congruence]|intros [[?|?] ?]; done].
    + rewrite elem_of_cons, IH. split; [intros [->|[??]]; auto|intros [[->|?] ?]; auto].
Qed.

Lemma NoDup_remove ls id : NoDup ls → NoDup (remove ls id).
Proof.
  intros Hnd. induction Hnd as [|y ls Hy Hnd IH]; cbn; [constructor|].
  destruct (decide (y = id)); [done|]. constructor; [|done].
  rewrite elem_of_remove by done. tauto.
Qed.

(** The registry with an open link closed and taken out of its node's lists. *)
Definition taken_out (id : nat) (l : link) (st : nodeState) (s : Server) : Server :=
  put_node (l_node l) (st <| ns_links ::= λ ls, remove ls id |> <| ns_uplinks ::= λ ls, remove ls id |>)
    ((change id (λ l, l <| l_closed := true |> <| l_streams := [] |>) s)
       <| sv_cancelled ::= λ c, c ++ ((λ n, (id, n)) <$> l_streams l) |>).

Lemma taken_out_link id l st s i :
  sv_link (taken_out id l st s) !! i =
  if decide (i = id) then (λ l, l <| l_closed := true |> <| l_streams := [] |>) <$> sv_link s !! id
  else sv_link s !! i.
Proof.
  cbn. case_decide as E; [subst; by rewrite lookup_alter_eq|]. by rewrite lookup_alter_ne by done.
Qed.

Lemma registry_taken_out id l st s :
  registry s → sv_link s !! id = Some l → l_closed l = false → sv_nodes s !! l_node l = Some st →
  registry (taken_out id l st s).
Proof.
  intros [Hw Ho Hq Hb] Hl Hc Hst. split.
  - intros name st' Hst'. cbn in Hst'. destruct (decide (l_node l = name)) as [<-|Hne].
    + rewrite lookup_insert_eq in Hst'. injection Hst' as <-. destruct (Hw _ _ Hst) as [? ? Hlk Hup].
      split; [by apply NoDup_remove..| |]; intros i Hi; cbn in Hi; apply elem_of_remove in Hi as [Hi Hne]; try done;
        rewrite taken_out_link, decide_False by done; auto.
    + rewrite lookup_insert_ne in Hst' by done. destruct (Hw _ _ Hst') as [? ? Hlk Hup].
      split; [done..| |]; intros i Hi; rewrite taken_out_link, decide_False; eauto.
      * intros ->. destruct (Hlk id Hi) as (l' & ? & _ & ? & _). congruence.
      * intros ->. destruct (Hup id Hi) as (l' & ? & _ & ? & _). congruence.
  - intros i l'. rewrite taken_out_link. case_decide as E; [rewrite Hl; cbn; by intros [= <-]|].
    intros Hl' Hc'. destruct (Ho i l' Hl' Hc') as (st' & Hst' & Hi). cbn.
    destruct (decide (l_node l = l_node l')) as [E'|Hne].
    + rewrite <- E', lookup_insert_eq. assert (st' = st) as -> by congruence. eexists. split; [done|].
      destruct (Hw _ _ Hst). destruct (l_kind l'); cbn; by apply elem_of_remove.
    + rewrite lookup_insert_ne by done. eauto.
  - intros i j li lj. rewrite !taken_out_link. repeat case_decide; subst; rewrite ?Hl; cbn;
      intros; simplify_eq; cbn in *; eauto.
  - intros i li. rewrite taken_out_link. case_decide; subst; rewrite ?Hl; cbn; intros; simplify_eq; cbn; eauto.
Qed.

Lemma is_best_remove h h' ls best id :
  NoDup ls → best ≠ Some id → (∀ i, i ≠ id → h' !! i = h !! i) →
  is_best h ls best → is_best h' (remove ls id) best.
Proof.
  intros Hnd Hne Hh. destruct best as [b|]; cbn.
  - intros (Hb & lb & Hlb & He & Hall). assert (b ≠ id) by congruence.
    split; [by apply elem_of_remove|]. exists lb. rewrite Hh by done. split; [done|]. split; [done|].
    intros i l [Hi Hi']%elem_of_remove ? Hl Hel; [|done]. rewrite Hh in Hl by done. eauto.
  - intros Hall i l [Hi Hi']%elem_of_remove Hl; [|done]. rewrite Hh in Hl by done. eauto.
Qed.

(** The nodes that are settled stay so, the link's own unless it was
    current. *)
Lemma settled_taken_out (X Y : nat → Prop) bad bad' id l st s :
  registry s → settled X bad s → sv_link s !! id = Some l → sv_nodes s !! l_node l = Some st →
  (bad = None ∨ bad' = bad) → (∀ i, i ≠ id → X i → Y i) →
  (bad' = Some (l_node l) ∨ ns_current st ≠ Some id) →
  settled Y bad' (taken_out id l st s).
Proof.
  intros Hr Hs Hl Hst Hbad HXY Hcur name st' Hst' Hb. cbn in Hst'.
  assert (∀ i, i ≠ id → sv_link (taken_out id l st s) !! i = sv_link s !! i) as Hh.
  { intros i Hi. by rewrite taken_out_link, decide_False. }
  destruct (decide (l_node l = name)) as [<-|Hne].
  - rewrite lookup_insert_eq in Hst'. injection Hst' as <-. destruct Hcur as [?|Hcur]; [done|].
    destruct (Hs _ _ Hst) as [Hd Hbest]; [destruct Hbad; congruence|]. destruct (rg_weak s Hr _ _ Hst) as [Hnd _ _ _].
    split.
    + intros i li Hi Hli. cbn in Hi |- *. apply elem_of_remove in Hi as [Hi Hi']; [|done].
      rewrite Hh in Hli by done. destruct (Hd i li Hi Hli) as [? Hact]. split; [done|]. eauto.
    + by eapply is_best_remove.
  - rewrite lookup_insert_ne in Hst' by done. destruct (rg_weak s Hr _ _ Hst') as [_ _ Hlk _].
    assert (id ∉ ns_links st') as Hnin.
    { intros Hi. destruct (Hlk id Hi) as (l' & ? & _ & ? & _). congruence. }
    destruct (Hs _ _ Hst') as [Hd Hbest]; [destruct Hbad; congruence|]. split.
    + intros i li Hi Hli. assert (i ≠ id) by congruence. rewrite Hh in Hli by done.
      destruct (Hd i li Hi Hli) as [? Hact]. split; [done|]. eauto.
    + eapply is_best_view; [..|exact Hbest]; intros i li Hi; assert (i ≠ id) by congruence; rewrite Hh by done; eauto.
Qed.

Definition not_current (id : nat) (s : Server) : Prop :=
  ∀ name st, sv_nodes s !! name = Some st → ns_current st ≠ Some id.

Lemma drop_nodes now name s n st :
  sv_nodes (dropIdleLocked now name s) !! n = Some st → sv_nodes s !! n = Some st.
Proof.
  unfold dropIdleLocked. destruct (sv_nodes s !! name) as [st'|] eqn:E; [|done].
  destruct (_ || _); [done|]. cbn. by intros [_ ?]%lookup_delete_Some.
Qed.

Lemma drop_link now name s : sv_link (dropIdleLocked now name s) = sv_link s.
Proof. unfold dropIdleLocked. by repeat case_match. Qed.

Lemma drop_seq now name s : sv_seq (dropIdleLocked now name s) = sv_seq s.
Proof. unfold dropIdleLocked. by repeat case_match. Qed.

Lemma registry_drop now name s : registry s → registry (dropIdleLocked now name s).
Proof.
  intros [Hw Ho Hq Hb]. split; rewrite ?drop_link, ?drop_seq; [|..|done|done].
  - intros n st Hst%drop_nodes. auto.
  - intros id l Hl Hc. destruct (Ho id l Hl Hc) as (st & Hst & Hi). exists st. split; [|done].
    unfold dropIdleLocked. destruct (sv_nodes s !! name) as [st'|] eqn:E; [|done].
    destruct (_ || _) eqn:Eb; [done|]. cbn. rewrite lookup_delete_ne; [done|]. intros ->.
    assert (st' = st) as -> by congruence. rewrite !orb_false_iff, !negb_false_iff, !bool_decide_eq_true in Eb.
    destruct Eb as (((((E1 & E2) & _) & _) & _) & _). destruct (l_kind l); rewrite ?E1, ?E2 in Hi;
      by apply not_elem_of_nil in Hi.
Qed.

Lemma settled_drop X bad now name s : settled X bad s → settled X bad (dropIdleLocked now name s).
Proof. intros Hs n st Hst%drop_nodes Hb. rewrite drop_link. eauto. Qed.

Lemma closeLinkFuel_open n now id s l st :
  sv_link s !! id = Some l → l_closed l = false → sv_nodes s !! l_node l = Some st →
  closeLinkFuel (S n) now id s =
  dropIdleLocked now (l_node l)
    (if decide (ns_current st = Some id)
     then updateCurrentWith (closeLinkFuel n now) (l_node l) (taken_out id l st s)
     else taken_out id l st s).
Proof. intros Hl Hc Hst. cbn. rewrite Hl, Hc. cbn. rewrite Hst. cbn. case_decide; done. Qed.

Lemma settled_weaken (X Y : nat → Prop) bad id s :
  registry s → settled X bad s → (∀ l, sv_link s !! id = Some l → l_closed l = true) →
  (∀ i, i ≠ id → X i → Y i) → settled Y bad s.
Proof.
  intros Hr Hs Hid HXY name st Hst Hb. destruct (Hs _ _ Hst Hb) as [Hd Hbest]. split; [|done].
  intros i l Hi Hl. destruct (Hd i l Hi Hl) as [? Hact]. split; [done|]. intros Hc Hy. apply Hact; [done|].
  intros Hx. apply Hy, HXY; [|done]. intros ->.
  destruct (nw_link _ _ _ (rg_weak s Hr _ _ Hst) id Hi) as (l' & Hl' & _ & _ & Ho).
  by rewrite (Hid l' Hl') in Ho.
Qed.

(** Closing a link that is not current. *)
Lemma close_other (X Y : nat → Prop) bad n now id s :
  registry s → settled X bad s → not_current id s → (∀ i, i ≠ id → X i → Y i) →
  let s' := closeLinkFuel (S n) now id s in
  registry s' ∧ settled Y bad s' ∧ (∀ i, not_current i s → not_current i s').
Proof.
  intros Hr Hs Hn HXY. cbv zeta. destruct (sv_link s !! id) as [l|] eqn:Hl.
  2:{ cbn. rewrite Hl. split; [done|]. split; [|done]. eapply settled_weaken; eauto. congruence. }
  destruct (l_closed l) eqn:Hc.
  { cbn. rewrite Hl, Hc. split; [done|]. split; [|done]. eapply settled_weaken; eauto. congruence. }
  destruct (rg_open s Hr id l Hl Hc) as (st & Hst & _).
  rewrite (closeLinkFuel_open _ _ _ _ _ _ Hl Hc Hst), decide_False by eauto.
  split; [by apply registry_drop, registry_taken_out|]. split.
  - apply settled_drop. eapply settled_taken_out; eauto.
  - intros i Hi name st' Hst'%drop_nodes. cbn in Hst'. destruct (decide (l_node l = name)) as [<-|Hne].
    + rewrite lookup_insert_eq in Hst'. injection Hst' as <-. cbn. eauto.
    + rewrite lookup_insert_ne in Hst' by done. eauto.
Qed.

Lemma close_others n now ls s :
  registry s → settled (λ i, i ∈ ls) None s → (∀ i, i ∈ ls → not_current i s) →
  let s' := foldl (λ s id, closeLinkFuel (S n) now id s) s ls in
  registry s' ∧ settled nothing None s'.
Proof.
  revert s. induction ls as [|id ls IH]; intros s Hr Hs Hn; cbv zeta.
  - split; [done|]. intros name st Hst Hb. destruct (Hs name st Hst Hb) as [Hd ?]. split; [|done].
    intros i l Hi Hl. destruct (Hd i l Hi Hl). split; [done|]. intros ? _. by apply H0; [|apply not_elem_of_nil].
  - cbn [foldl]. destruct (close_other (λ i, i ∈ id :: ls) (λ i, i ∈ ls) None n now id s) as (Hr' & Hs' & Hn');
      [done|done|apply Hn; by left|intros i ? [?|?]%elem_of_cons; done|].
    apply IH; [done..|]. intros i Hi. apply Hn', Hn. by right.
Qed.

(** *** Choosing the current connection *)

Lemma set_draining_lookup best ls h i :
  NoDup ls →
  set_draining best ls h !! i =
  if decide (i ∈ ls) then (λ l, l <| l_draining := negb (bool_decide (best = Some i)) |>) <$> h !! i
  else h !! i.
Proof.
  intros Hnd. unfold set_draining. revert h. induction Hnd as [|x ls Hx Hnd IH]; intros h; cbn.
  { by rewrite decide_False by apply not_elem_of_nil. }
  rewrite IH. destruct (decide (i = x)) as [->|Hne].
  - rewrite decide_False by done. rewrite decide_True by (by left). by rewrite lookup_alter_eq.
  - rewrite lookup_alter_ne by done. destruct (decide (i ∈ ls)) as [Hi|Hi].
    + by rewrite decide_True by (by right).
    + rewrite decide_False; [done|]. rewrite elem_of_cons. tauto.
Qed.

Lemma set_draining_core best ls h : core <$> set_draining best ls h = core <$> h.
Proof.
  unfold set_draining. revert h. induction ls as [|x ls IH]; intros h; cbn; [done|].
  rewrite IH. by apply fmap_alter_same.
Qed.

Lemma is_best_draining h ls best :
  NoDup ls → is_best h ls best → is_best (set_draining best ls h) ls best.
Proof.
  intros Hnd. destruct best as [b|]; cbn.
  - intros (Hb & lb & Hlb & He & Hall). split; [done|].
    exists (lb <| l_draining := negb (bool_decide (Some b = Some b)) |>).
    rewrite set_draining_lookup, decide_True, Hlb by done. split; [done|]. split; [done|].
    intros id l Hid Hne. rewrite set_draining_lookup, decide_True by done.
    destruct (h !! id) as [l0|] eqn:Hl0; [|done]. intros [= <-] Hel. by apply (Hall id l0).
  - intros Hall id l Hid. rewrite set_draining_lookup, decide_True by done.
    destruct (h !! id) as [l0|] eqn:Hl0; [|done]. intros [= <-]. by apply (Hall id l0).
Qed.

(** The registry with a node's current connection chosen. *)
Definition chosen (name : string) (st : nodeState) (best : option nat) (s : Server) : Server :=
  put_node name (st <| ns_current := best |>) (s <| sv_link ::= set_draining best (ns_links st) |>).

Lemma updateCurrentWith_some close name s st :
  sv_nodes s !! name = Some st →
  let best := best_of (sv_link s) (ns_links st) in
  updateCurrentWith close name s =
  conn_event name (ns_current st) best
    (foldl (λ s id, close id s) (chosen name st best s) (idle_of best (ns_links st) (sv_link s))).
Proof. intros Hst. unfold updateCurrentWith. by rewrite Hst. Qed.

Lemma registry_put_node name st st' s :
  sv_nodes s !! name = Some st → ns_links st' = ns_links st → ns_uplinks st' = ns_uplinks st →
  registry s → registry (put_node name st' s).
Proof.
  intros Hst El Eu [Hw Ho Hq Hb]. split; [..|done|done].
  - intros name' st''. cbn. rewrite lookup_insert_Some. intros [[<- <-]|[_ Hst']]; [|by apply Hw].
    destruct (Hw _ _ Hst) as [????]. split; rewrite ?El, ?Eu; done.
  - intros id l Hl Hc. destruct (Ho id l Hl Hc) as (st'' & Hst'' & Hi). cbn.
    destruct (decide (name = l_node l)) as [E|Hne]; [subst name|rewrite lookup_insert_ne by done; eauto].
    rewrite lookup_insert_eq. eexists. split; [done|]. rewrite El, Eu. assert (st'' = st) as -> by congruence. done.
Qed.

Lemma registry_chosen name st best s :
  sv_nodes s !! name = Some st → registry s → registry (chosen name st best s).
Proof.
  intros Hst Hr. eapply registry_put_node; [exact Hst|done..|].
  apply (registry_core s); [|done..]. apply set_draining_core.
Qed.

Lemma settled_chosen name st s :
  registry s → settled nothing (Some name) s → sv_nodes s !! name = Some st →
  let best := best_of (sv_link s) (ns_links st) in
  settled (λ i, i ∈ idle_of best (ns_links st) (sv_link s)) None (chosen name st best s).
Proof.
  intros Hr Hs Hst best. pose proof (rg_weak s Hr _ _ Hst) as [Hnd _ Hlk _].
  intros name' st'. cbn. rewrite lookup_insert_Some. intros [[<- <-]|[Hne Hst']] _.
  - split; cbn; [|apply is_best_draining; [done|]; apply best_of_spec; [done|apply Hr]].
    intros i l Hi. rewrite set_draining_lookup, decide_True by done.
    destruct (sv_link s !! i) as [l0|] eqn:Hl0; [|done]. intros [= <-]. split; [done|].
    intros Hb Hidle Ha. apply Hidle. apply list_elem_of_filter. rewrite Hl0. done.
  - pose proof (rg_weak s Hr _ _ Hst') as [_ _ Hlk' _].
    assert (∀ i, i ∈ ns_links st' → i ∉ ns_links st) as Hdis.
    { intros i (l1 & ? & _ & ? & _)%Hlk' (l2 & ? & _ & ? & _)%Hlk. congruence. }
    destruct (Hs name' st' Hst') as [Hd Hb']; [congruence|]. split.
    + intros i l Hi. rewrite set_draining_lookup, decide_False by auto. intros Hl.
      destruct (Hd i l Hi Hl) as [? Hact]. split; [done|]. intros ? _. apply Hact; [done|by intros []].
    + eapply is_best_view; [..|exact Hb']; intros i l Hi;
        rewrite set_draining_lookup, decide_False by auto; eauto.
Qed.

Lemma conn_event_same name a b s :
  sv_link (conn_event name a b s) = sv_link s ∧ sv_nodes (conn_event name a b s) = sv_nodes s ∧
  sv_seq (conn_event name a b s) = sv_seq s.
Proof. by destruct a, b. Qed.

Lemma current_unique name st id s :
  registry s → settled nothing (Some name) s → sv_nodes s !! name = Some st → id ∈ ns_links st →
  ∀ name' st', sv_nodes s !! name' = Some st' → name' ≠ name → ns_current st' ≠ Some id.
Proof.
  intros Hr Hs Hst Hid name' st' Hst' Hne Hc.
  destruct (Hs name' st' Hst') as [_ Hb]; [congruence|]. rewrite Hc in Hb. destruct Hb as [Hid' _].
  destruct (nw_link _ _ _ (rg_weak s Hr _ _ Hst) id Hid) as (l & ? & _ & ? & _).
  destruct (nw_link _ _ _ (rg_weak s Hr _ _ Hst') id Hid') as (l' & ? & _ & ? & _). congruence.
Qed.

Lemma idle_not_current name st s :
  registry s → settled nothing (Some name) s → sv_nodes s !! name = Some st →
  let best := best_of (sv_link s) (ns_links st) in
  ∀ i, i ∈ idle_of best (ns_links st) (sv_link s) → not_current i (chosen name st best s).
Proof.
  intros Hr Hs Hst best i [[Hb _] Hi]%list_elem_of_filter name' st'. cbn. rewrite lookup_insert_Some.
  intros [[<- <-]|[Hne Hst']]; [done|]. by eapply current_unique.
Qed.

(** Once a node's connections are right but not the choice among them, the
    choice makes the node settled. *)
Lemma update_settles n now name s :
  registry s → settled nothing (Some name) s →
  let s' := updateCurrentWith (closeLinkFuel (S n) now) name s in
  registry s' ∧ settled nothing None s'.
Proof.
  intros Hr Hs. cbv zeta. destruct (sv_nodes s !! name) as [st|] eqn:Hst.
  2:{ unfold updateCurrentWith. rewrite Hst. split; [done|].
      intros name' st' Hst' _. apply (Hs name' st' Hst'). congruence. }
  rewrite (updateCurrentWith_some _ _ _ _ Hst). set (best := best_of _ _).
  destruct (close_others n now (idle_of best (ns_links st) (sv_link s)) (chosen name st best s)) as [Hr' Hs'].
  - by apply registry_chosen.
  - by apply settled_chosen.
  - by apply idle_not_current.
  - destruct (conn_event_same name (ns_current st) best
        (foldl (λ s id, closeLinkFuel (S n) now id s) (chosen name st best s)
           (idle_of best (ns_links st) (sv_link s)))) as (El & En & Eq).
    split; [eapply registry_core; [|exact En|exact Eq|exact Hr']; by rewrite El|].
    intros name' st'. rewrite En, El. apply Hs'.
Qed.

(** Closing any link of a settled registry, its own node's idleness aside. *)
Lemma close_settles n now id s :
  registry s → settled (λ i, i = id) None s →
  let s' := closeLinkFuel (S (S n)) now id s in
  registry s' ∧ settled nothing None s'.
Proof.
  intros Hr Hs. cbv zeta. destruct (sv_link s !! id) as [l|] eqn:Hl.
  2:{ cbn. rewrite Hl. split; [done|]. apply (settled_weaken (λ i, i = id) nothing None id); [exact Hr|exact Hs|intros; congruence|intros; congruence]. }
  destruct (l_closed l) eqn:Hc.
  { cbn. rewrite Hl, Hc. split; [done|]. apply (settled_weaken (λ i, i = id) nothing None id); [exact Hr|exact Hs|intros; congruence|intros; congruence]. }
  destruct (rg_open s Hr id l Hl Hc) as (st & Hst & _).
  rewrite (closeLinkFuel_open _ _ _ _ _ _ Hl Hc Hst). case_decide as Hcur.
  - destruct (update_settles n now (l_node l) (taken_out id l st s)) as [Hr' Hs'].
    + by apply registry_taken_out.
    + eapply settled_taken_out; eauto; intros; congruence.
    + split; [by apply registry_drop|by apply settled_drop].
  - split; [by apply registry_drop, registry_taken_out|]. apply settled_drop.
    eapply settled_taken_out; eauto; intros; congruence.
Qed.

Definition good (s : Server) : Prop := registry s ∧ settled nothing None s.

Lemma settled_mono (X Y : nat → Prop) bad s : (∀ i, X i → Y i) → settled X bad s → settled Y bad s.
Proof.
  intros HXY Hs name st Hst Hb. destruct (Hs name st Hst Hb) as [Hd ?]. split; [|done].
  intros i l Hi Hl. destruct (Hd i l Hi Hl). split; [done|]. auto.
Qed.

Lemma good_close now id s : good s → good (closeLinkLocked now id s).
Proof. intros [Hr Hs]. apply close_settles; [done|]. eapply settled_mono; [|exact Hs]. by intros ? []. Qed.

Lemma good_closes now ls s : good s → good (foldl (λ s id, closeLinkLocked now id s) s ls).
Proof. revert s. induction ls as [|id ls IH]; intros s Hs; [done|]. apply IH, good_close, Hs. Qed.

Lemma good_same s s' :
  sv_link s' = sv_link s → sv_nodes s' = sv_nodes s → sv_seq s' = sv_seq s → good s → good s'.
Proof.
  intros El En Eq [Hr Hs]. split; [eapply registry_core; [by rewrite El|done..]|].
  intros name st. rewrite En, El. apply Hs.
Qed.

(** *** How much fuel closing takes *)

Lemma close_other_fuel n m now id s :
  registry s → not_current id s → closeLinkFuel (S n) now id s = closeLinkFuel (S m) now id s.
Proof.
  intros Hr Hn. destruct (sv_link s !! id) as [l|] eqn:Hl; [|cbn; by rewrite Hl].
  destruct (l_closed l) eqn:Hc; [cbn; by rewrite Hl, Hc|].
  destruct (rg_open s Hr id l Hl Hc) as (st & Hst & _).
  by rewrite !(closeLinkFuel_open _ _ _ _ _ _ Hl Hc Hst), !decide_False by eauto.
Qed.

Lemma close_others_fuel n m now ls s :
  registry s → settled (λ i, i ∈ ls) None s → (∀ i, i ∈ ls → not_current i s) →
  foldl (λ s id, closeLinkFuel (S n) now id s) s ls = foldl (λ s id, closeLinkFuel (S m) now id s) s ls.
Proof.
  revert s. induction ls as [|id ls IH]; intros s Hr Hs Hn; [done|]. cbn [foldl].
  rewrite (close_other_fuel n m now id s) by (try done; apply Hn; by left).
  destruct (close_other (λ i, i ∈ id :: ls) (λ i, i ∈ ls) None m now id s) as (Hr' & Hs' & Hn');
    [done|done|apply Hn; by left|intros i ? [?|?]%elem_of_cons; done|].
  apply IH; [done..|]. intros i Hi. apply Hn', Hn. by right.
Qed.

Lemma update_fuel n m now name s :
  registry s → settled nothing (Some name) s →
  updateCurrentWith (closeLinkFuel (S n) now) name s = updateCurrentWith (closeLinkFuel (S m) now) name s.
Proof.
  intros Hr Hs. destruct (sv_nodes s !! name) as [st|] eqn:Hst; [|unfold updateCurrentWith; by rewrite Hst].
  rewrite !(updateCurrentWith_some _ _ _ _ Hst). f_equal.
  apply close_others_fuel; [by apply registry_chosen|by apply settled_chosen|by apply idle_not_current].
Qed.

Lemma close_fuel n now id s :
  good s → closeLinkFuel (S (S n)) now id s = closeLinkLocked now id s.
Proof.
  intros [Hr Hs]. unfold closeLinkLocked. destruct (sv_link s !! id) as [l|] eqn:Hl; [|cbn; by rewrite Hl].
  destruct (l_closed l) eqn:Hc; [cbn; by rewrite Hl, Hc|].
  destruct (rg_open s Hr id l Hl Hc) as (st & Hst & _).
  rewrite !(closeLinkFuel_open _ _ _ _ _ _ Hl Hc Hst). case_decide as Hcur; [|done]. f_equal.
  apply update_fuel; [by apply registry_taken_out|].
  eapply settled_taken_out; eauto.
Qed.

(** *** Every handler keeps the registry settled *)

Lemma change_lookup id f s i :
  sv_link (change id f s) !! i = if decide (i = id) then f <$> sv_link s !! id else sv_link s !! i.
Proof. cbn. case_decide; [subst; by rewrite lookup_alter_eq|by rewrite lookup_alter_ne]. Qed.

(** The node a link is listed at. *)
Lemma listed_node id l name st s :
  registry s → sv_link s !! id = Some l → sv_nodes s !! name = Some st → id ∈ ns_links st → l_node l = name.
Proof.
  intros Hr Hl Hst Hi. destruct (nw_link _ _ _ (rg_weak s Hr _ _ Hst) id Hi) as (l' & ? & _ & ? & _). congruence.
Qed.

(** A mark on a link unsettles its own node at most. *)
Lemma settled_mark id l f s :
  registry s → settled nothing None s → sv_link s !! id = Some l →
  settled nothing (Some (l_node l)) (change id f s).
Proof.
  intros Hr Hs Hl name st Hst Hb. eapply node_settled_view; [| |by apply (Hs name st)].
  - intros i Hi. rewrite change_lookup, decide_False; [done|]. intros ->.
    apply Hb. by rewrite (listed_node id l name st s).
  - intros i Hi. destruct (nw_link _ _ _ (rg_weak s Hr _ _ Hst) i Hi) as (l' & ? & _). eauto.
Qed.

Lemma good_mark now id f s :
  (∀ l, core (f l) = core l) → good s → good (updateCurrentOf now id (change id f s)).
Proof.
  intros Hf [Hr Hs]. unfold updateCurrentOf. rewrite change_lookup, decide_True by done.
  destruct (sv_link s !! id) as [l|] eqn:Hl; cbn [fmap option_fmap option_map].
  - replace (l_node (f l)) with (l_node l) by (pose proof (Hf l) as [= _ -> _ _]; done).
    apply update_settles; [by apply registry_change|by apply settled_mark].
  - apply (good_same s); [cbn|done|done|by split]. apply map_eq. intros i.
    destruct (decide (i = id)) as [->|]; [by rewrite lookup_alter_eq, Hl|by rewrite lookup_alter_ne].
Qed.

(** A change of a link's calls leaves its node settled, its idleness aside. *)
Lemma settled_count id f s :
  registry s → (∀ l, eligible (f l) = eligible l ∧ l_superseded (f l) = l_superseded l ∧
                     l_notBefore (f l) = l_notBefore l ∧ l_seq (f l) = l_seq l ∧ l_draining (f l) = l_draining l) →
  settled nothing None s → settled (λ i, i = id) None (change id f s).
Proof.
  intros Hr Hf Hs name st Hst _. destruct (Hs name st Hst) as [Hd Hb]; [done|].
  assert (∀ i l', sv_link (change id f s) !! i = Some l' →
            ∃ l, sv_link s !! i = Some l ∧ (l' = l ∨ i = id ∧ l' = f l)) as Hback.
  { intros i l'. rewrite change_lookup. case_decide as E; [|eauto]. subst.
    destruct (sv_link s !! id) as [l|]; [|done]. intros [= <-]. eauto. }
  split.
  - intros i l' Hi Hl'. destruct (Hback i l' Hl') as (l & Hl & [->|[-> ->]]).
    + destruct (Hd i l Hi Hl). split; [done|]. intros ? ?. apply H0; [done|by intros []].
    + destruct (Hd id l Hi Hl) as [? _]. destruct (Hf l) as (_ & _ & _ & _ & ->). done.
  - assert (∀ i l', sv_link (change id f s) !! i = Some l' →
        ∃ l, sv_link s !! i = Some l ∧ eligible l' = eligible l ∧ ∀ l2, newer l' l2 = newer l l2 ∧ newer l2 l' = newer l2 l) as Hback'.
    { intros i l' Hl'. destruct (Hback i l' Hl') as (l & Hl & [->|[-> ->]]); [eauto|].
      destruct (Hf l) as (He & Es & En & Eq & _). exists l. split; [done|]. split; [done|].
      intros l2. unfold newer. by rewrite Es, En, Eq. }
    destruct (ns_current st) as [b|]; cbn in *.
    + destruct Hb as (Hin & lb & Hlb & He & Hall). split; [done|].
      assert (∃ lb', sv_link (change id f s) !! b = Some lb') as [lb' Hlb'].
      { rewrite change_lookup. case_decide; subst; rewrite Hlb; eauto. }
      destruct (Hback' b lb' Hlb') as (lb0 & ? & E & N). assert (lb0 = lb) as -> by congruence.
      exists lb'. split; [done|]. split; [congruence|]. intros i l' Hi Hne Hl' Hel'.
      destruct (Hback' i l' Hl') as (l & Hl & E' & N'). rewrite (proj1 (N l')), (proj2 (N' lb)).
      apply (Hall i l); congruence.
    + intros i l' Hi Hl'. destruct (Hback' i l' Hl') as (l & Hl & -> & _). eauto.
Qed.

(** A link that is not an idle draining one counts as settled. *)
Lemma settled_busy id s :
  settled (λ i, i = id) None s →
  (∀ l, sv_link s !! id = Some l → l_draining l = true → l_active l ≠ 0) → settled nothing None s.
Proof.
  intros Hs Hid name st Hst _. destruct (Hs name st Hst) as [Hd Hb]; [done|]. split; [|done].
  intros i l Hi Hl. destruct (Hd i l Hi Hl) as [Hdr Ha]. split; [done|]. intros Hc _.
  destruct (decide (i = id)) as [->|?]; [|by apply Ha]. apply (Hid l Hl). by rewrite Hdr, bool_decide_false.
Qed.

Lemma good_view id f s :
  (∀ l, core (f l) = core l) → (∀ l, settle_view (f l) = settle_view l) → good s → good (change id f s).
Proof.
  intros Hc Hv [Hr Hs]. split; [by apply registry_change|]. intros name st Hst Hb.
  eapply node_settled_view; [| |by apply (Hs name st)].
  - intros i Hi. rewrite change_lookup. case_decide; [|done]. subst.
    destruct (sv_link s !! id); cbn; [by rewrite Hv|done].
  - intros i Hi. destruct (nw_link _ _ _ (rg_weak s Hr _ _ Hst) i Hi) as (l' & ? & _). eauto.
Qed.

Lemma settled_uplink id l s :
  registry s → sv_link s !! id = Some l → l_kind l = uplinkLink →
  settled (λ i, i = id) None s → settled nothing None s.
Proof.
  intros Hr Hl Hk Hs name st Hst _. destruct (Hs name st Hst) as [Hd Hb]; [done|]. split; [|done].
  intros i li Hi Hli. destruct (Hd i li Hi Hli) as [? Ha]. split; [done|]. intros ? _. apply Ha; [done|]. intros ->.
  destruct (nw_link _ _ _ (rg_weak s Hr _ _ Hst) id Hi) as (l' & ? & ? & _). congruence.
Qed.

Lemma good_release now id kind s : good s → good (release now id kind s).
Proof.
  intros [Hr Hs]. unfold release.
  assert (registry (change id (uncount kind) s)) as Hr' by (apply registry_change; [by destruct kind|done]).
  assert (settled (λ i, i = id) None (change id (uncount kind) s)) as Hs'
    by (apply settled_count; [done|by destruct kind|done]).
  generalize dependent (change id (uncount kind) s). clear s Hr Hs. intros s Hr Hs.
  destruct (sv_link s !! id) as [l|] eqn:Hl.
  2:{ split; [done|]. apply (settled_weaken (λ i, i = id) nothing None id); [exact Hr|exact Hs|intros; congruence|intros; congruence]. }
  destruct (l_closed l) eqn:Hc.
  { split; [done|]. apply (settled_weaken (λ i, i = id) nothing None id); [exact Hr|exact Hs|intros; congruence|intros; congruence]. }
  destruct (l_forceDrain l && _); [by apply close_settles|].
  destruct (l_draining l && (l_active l =? 0)) eqn:Ea; [by apply close_settles|].
  split; [done|]. apply (settled_busy id); [done|]. intros l' Hl' Hd. assert (l' = l) as -> by congruence.
  rewrite Hd in Ea. cbn in Ea. lia.
Qed.

Lemma good_uplinkDone now id l s :
  sv_link s !! id = Some l → l_kind l = uplinkLink → good s → good (uplinkDone now id s).
Proof.
  intros Hl Hk [Hr Hs]. unfold uplinkDone.
  assert (registry (change id (λ l, l <| l_active ::= Z.pred |>) s)) as Hr' by by apply registry_change.
  assert (settled (λ i, i = id) None (change id (λ l, l <| l_active ::= Z.pred |>) s)) as Hs'
    by by apply settled_count.
  rewrite change_lookup, decide_True, Hl by done. cbn [fmap option_fmap option_map].
  case_match; [by apply close_settles|]. split; [done|].
  eapply (settled_uplink id); [done| | |done]; [by rewrite change_lookup, decide_True, Hl|done].
Qed.

Lemma good_uplinkCall id s : is_uplink id s = true → good s → good (uplinkCall id s).1.
Proof.
  intros Hu [Hr Hs]. unfold uplinkCall, is_uplink in *. destruct (sv_link s !! id) as [l|] eqn:Hl; [|done].
  case_match; [done|]. cbn [fst]. split; [by apply registry_change|].
  eapply (settled_uplink id); [by apply registry_change| | |by apply settled_count].
  - by rewrite change_lookup, decide_True, Hl.
  - by apply bool_decide_eq_true in Hu.
Qed.

(** A call is reserved on a current connection, which is not draining. *)
Lemma good_reserve maxStreams node kind s : good s → good (reserve maxStreams node kind s).1.
Proof.
  intros Hg. pose proof Hg as [Hr Hs]. unfold reserve, reserveLocked, nodeLocked.
  destruct (sv_nodes s !! node) as [st|] eqn:Hst; [|done]. cbn [default from_option id].
  destruct (ns_current st) as [id|] eqn:Hcur; [|done].
  destruct (sv_link s !! id) as [l|] eqn:Hl; [|done]. destruct (exhausted _ _ _); [done|]. cbn [fst].
  split; [apply registry_change; [by destruct kind|done]|].
  apply (settled_busy id); [apply settled_count; [done|by destruct kind|done]|].
  intros l'. rewrite change_lookup, decide_True, Hl by done. intros [= <-].
  destruct (Hs node st Hst) as [Hd Hb]; [done|]. rewrite Hcur in Hb, Hd. destruct Hb as (Hin & _).
  destruct (Hd id l Hin Hl) as [Hdr _]. rewrite bool_decide_true in Hdr by done. cbn in Hdr.
  destruct kind; cbn; congruence.
Qed.

Lemma good_openStream id s : good s → good (openStream id s).1.
Proof. intros Hs. unfold openStream. repeat case_match; [done| |done]. by apply good_view. Qed.

Lemma good_endStream id n s : good s → good (endStream id n s).
Proof. intros Hs. destruct n; [|done]. by apply good_view. Qed.

(** Giving up on a connection that is not current. *)
Lemma settled_force id f s :
  registry s → settled nothing None s → not_current id s →
  (∀ l, eligible (f l) = false ∧ l_draining (f l) = l_draining l ∧ l_active (f l) = l_active l) →
  settled nothing None (change id f s).
Proof.
  intros Hr Hs Hn Hf name st Hst _. destruct (Hs name st Hst) as [Hd Hb]; [done|]. split.
  - intros i l' Hi. rewrite change_lookup. case_decide; [subst|by apply Hd].
    destruct (sv_link s !! id) as [l|] eqn:Hl; [|done]. intros [= <-]. destruct (Hf l) as (_ & -> & ->). by apply Hd.
  - specialize (Hn name st Hst). destruct (ns_current st) as [b|]; cbn in *.
    + destruct Hb as (Hin & lb & Hlb & He & Hall). assert (b ≠ id) by congruence. split; [done|].
      exists lb. rewrite lookup_alter_ne by done. split; [done|]. split; [done|].
      intros i l' Hi Hne Hl' Hel'. destruct (decide (id = i)) as [<-|].
      * rewrite lookup_alter_eq in Hl'. destruct (sv_link s !! id) as [l|]; [|done].
        injection Hl' as <-. destruct (Hf l). congruence.
      * rewrite lookup_alter_ne in Hl' by done. eauto.
    + intros i l' Hi. destruct (decide (id = i)) as [<-|]; [|rewrite lookup_alter_ne by done; eauto].
      rewrite lookup_alter_eq. destruct (sv_link s !! id) as [l|]; [|done]. intros [= <-]. by destruct (Hf l).
Qed.

Lemma eligible_force l : eligible (l <| l_forceDrain := true |> <| l_streams := [] |>) = false.
Proof. unfold eligible. cbn. by rewrite !orb_true_r. Qed.

Lemma good_forceDrain now id s : not_current id s → good s → good (forceDrainLocked now id s).
Proof.
  intros Hn [Hr Hs]. unfold forceDrainLocked. destruct (sv_link s !! id) as [l|]; [|done].
  destruct (_ =? _); [by apply good_close|].
  apply (good_same (change id (λ l, l <| l_forceDrain := true |> <| l_streams := [] |>) s)); [done..|].
  split; [by apply registry_change|]. apply settled_force; [done..|]. intros l0. by rewrite eligible_force.
Qed.

(** The links that are not eligible, and those that drain, are not current. *)
Lemma ineligible_not_current id l s :
  good s → sv_link s !! id = Some l → eligible l = false → not_current id s.
Proof.
  intros [Hr Hs] Hl He name st Hst Hc. destruct (Hs name st Hst) as [_ Hb]; [done|].
  rewrite Hc in Hb. destruct Hb as (_ & lb & Hlb & Heb & _). congruence.
Qed.

Lemma draining_not_current id l s :
  good s → sv_link s !! id = Some l → l_draining l = true → not_current id s.
Proof.
  intros [Hr Hs] Hl He name st Hst Hc. destruct (Hs name st Hst) as [Hd Hb]; [done|].
  rewrite Hc in Hb, Hd. destruct Hb as (Hin & _). destruct (Hd id l Hin Hl) as [Hdr _].
  rewrite bool_decide_true in Hdr by done. cbn in Hdr. congruence.
Qed.

Lemma good_drainTimeout now id s : good s → good (drainTimeout now id s).
Proof.
  intros Hs. unfold drainTimeout. destruct (sv_link s !! id) as [l|] eqn:Hl; [|done].
  destruct (negb _ && _) eqn:E; [|done]. apply andb_true_iff in E as [_ Hd].
  apply good_forceDrain; [by eapply draining_not_current|done].
Qed.

Lemma good_markNotReady now id s : good s → good (markNotReady now id s).
Proof. intros Hs. unfold markNotReady. repeat case_match; [|done..]. by apply good_mark. Qed.

Lemma frame_updateCurrentOf P now id s : frame P s (updateCurrentOf now id s).
Proof. unfold updateCurrentOf. case_match; [apply frame_updateCurrent|by apply frame_refl]. Qed.

Lemma good_retire now id s : good s → good (retireLocked now id s).
Proof.
  intros Hs. unfold retireLocked. case_match; [|done].
  set (s1 := change id _ s). assert (good (updateCurrentOf now id s1)) as Hg by by apply good_mark.
  case_match eqn:Ho; [|done]. apply good_forceDrain; [|done].
  unfold is_open in Ho. destruct (sv_link (updateCurrentOf now id s1) !! id) as [l'|] eqn:Hl'; [|done].
  eapply ineligible_not_current; [done..|].
  pose proof (frame_updateCurrentOf nothing now id s1) as Hf.
  destruct (stat_lookup _ _ _ _ (frame_stat _ _ _ Hf) Hl') as (l1 & Hl1 & _).
  unfold eligible. rewrite (frame_retired _ _ _ Hf id l1 l' Hl1 Hl'); [by rewrite !orb_true_r|].
  unfold s1 in Hl1. rewrite change_lookup, decide_True in Hl1 by done.
  destruct (sv_link s !! id); [|done]. by injection Hl1 as <-.
Qed.

Lemma applyRevoke_core b B now t l : core (applyRevokeLocked b B now t l) = core l.
Proof. unfold applyRevokeLocked. by repeat case_match. Qed.

Lemma good_apply b B now id a s : good s → good (apply b B now id a s).
Proof.
  intros Hs. unfold apply. destruct (sv_link s !! id) as [l|] eqn:Hl; [|done].
  destruct (l_closed l); [done|]. destruct a as [t| | |]; [|by apply good_close| |done].
  - destruct (l_kind l) eqn:Hk; [apply good_mark; [apply applyRevoke_core|done]|].
    assert (good (change id (applyRevokeLocked b B now t) s)) as Hg.
    { destruct Hs as [Hr Hs]. split; [apply registry_change; [apply applyRevoke_core|done]|].
      intros name st Hst _. eapply node_settled_view; [| |by apply (Hs name st)].
      - intros i Hi. rewrite change_lookup, decide_False; [done|]. intros ->.
        destruct (nw_link _ _ _ (rg_weak s Hr _ _ Hst) id Hi) as (l' & ? & ? & _). congruence.
      - intros i Hi. destruct (nw_link _ _ _ (rg_weak s Hr _ _ Hst) i Hi) as (l' & ? & _). eauto. }
    repeat case_match; try done. by apply good_close.
  - destruct (l_kind l); [by apply good_retire|by apply good_close].
Qed.

Lemma good_revocationDue now id gen s : good s → good (revocationDue now id gen s).
Proof. intros Hs. unfold revocationDue. repeat case_match; [by apply good_close|done..]. Qed.

Lemma good_closeIfIdle now id s : good s → good (closeIfIdle now id s).
Proof. intros Hs. unfold closeIfIdle. repeat case_match; [by apply good_close|done..]. Qed.

Lemma good_Shutdown now s : good s → good (Shutdown now s).
Proof.
  intros Hs. unfold Shutdown. destruct (sv_shut s); [done|]. apply good_closes. by apply (good_same s).
Qed.

(** A node's state with the same connections, or one made new. *)
Lemma good_put_node name st s :
  ns_links st = ns_links (nodeLocked name s) → ns_uplinks st = ns_uplinks (nodeLocked name s) →
  ns_current st = ns_current (nodeLocked name s) → good s → good (put_node name st s).
Proof.
  unfold nodeLocked. intros El Eu Ec [Hr Hs]. destruct (sv_nodes s !! name) as [st0|] eqn:Hst; cbn in *.
  - split; [by eapply registry_put_node|]. intros name' st'. cbn. rewrite lookup_insert_Some.
    intros [[<- <-]|[_ Hst']]; [|by apply Hs]. destruct (Hs name st0 Hst) as [Hd Hb]; [done|].
    split; rewrite El, Ec; done.
  - split.
    + destruct Hr as [Hw Ho Hq Hb]. split; [..|done|done]; cbn.
      * intros name' st'. rewrite lookup_insert_Some. intros [[<- <-]|[_ Hst']]; [|by apply Hw].
        split; rewrite ?El, ?Eu; [constructor|constructor|intros ? []%not_elem_of_nil|intros ? []%not_elem_of_nil].
      * intros id l Hl Hc. destruct (Ho id l Hl Hc) as (st' & Hst' & Hi). exists st'.
        rewrite lookup_insert_ne; [done|]. intros ->. congruence.
    + intros name' st'. cbn. rewrite lookup_insert_Some. intros [[<- <-]|[_ Hst']]; [|by apply Hs].
      intros _. split; rewrite El, ?Ec; [intros ?? []%not_elem_of_nil|intros ?? []%not_elem_of_nil].
Qed.

Lemma good_drop now name s : good s → good (dropIdleLocked now name s).
Proof. intros [??]. split; [by apply registry_drop|by apply settled_drop]. Qed.

Lemma good_SetStoppingUntil now node until s : good s → good (SetStoppingUntil now node until s).
Proof. intros Hs. unfold SetStoppingUntil. case_match; [done|]. by apply good_drop, good_put_node. Qed.

Lemma good_woken node s :
  good s → good (s <| sv_nodes ::= alter (λ st, st <| ns_waiters ::= Z.pred |>) node |>).
Proof.
  intros Hs. destruct (sv_nodes s !! node) as [st|] eqn:Hst.
  - apply (good_same (put_node node (st <| ns_waiters ::= Z.pred |>) s)); [done| |done|].
    + cbn. apply map_eq. intros n. destruct (decide (n = node)) as [->|].
      * by rewrite lookup_alter_eq, lookup_insert_eq, Hst.
      * by rewrite lookup_alter_ne, lookup_insert_ne.
    + apply good_put_node; unfold nodeLocked; rewrite ?Hst; done.
  - apply (good_same s); [done| |done..]. cbn. apply map_eq. intros n. destruct (decide (n = node)) as [->|].
    + by rewrite lookup_alter_eq, Hst.
    + by rewrite lookup_alter_ne.
Qed.

(** The registry with a new link, listed at its node. *)
Definition added (id : nat) (l : link) (st : nodeState) (s : Server) : Server :=
  put_node (l_node l) st (s <| sv_seq := l_seq l |> <| sv_link ::= insert id l |>).

Definition listing (kind : linkKind) (id : nat) (st st' : nodeState) : Prop :=
  match kind with
  | nodeLink => ns_links st' = ns_links st ++ [id] ∧ ns_uplinks st' = ns_uplinks st
  | uplinkLink => ns_links st' = ns_links st ∧ ns_uplinks st' = ns_uplinks st ++ [id]
  end.

Lemma listing_elem kind id st st' i :
  listing kind id st st' →
  (i ∈ ns_links st' ↔ i ∈ ns_links st ∨ kind = nodeLink ∧ i = id) ∧
  (i ∈ ns_uplinks st' ↔ i ∈ ns_uplinks st ∨ kind = uplinkLink ∧ i = id).
Proof. destruct kind; intros [-> ->]; rewrite elem_of_snoc; split; naive_solver. Qed.

Lemma NoDup_snoc {A} (x : A) l : NoDup l → x ∉ l → NoDup (l ++ [x]).
Proof.
  intros Hl Hx. apply NoDup_app. split; [done|]. split; [|apply NoDup_singleton].
  intros y Hy ->%list_elem_of_singleton. done.
Qed.

Lemma node_weak_fresh h id l name st : h !! id = None → node_weak h name st → node_weak (<[id := l]> h) name st.
Proof.
  intros Hid [? ? Hlk Hup]. split; [done..| |]; intros i Hi.
  - destruct (Hlk i Hi) as (l' & ? & ?). exists l'. rewrite lookup_insert_ne by congruence. done.
  - destruct (Hup i Hi) as (l' & ? & ?). exists l'. rewrite lookup_insert_ne by congruence. done.
Qed.

Lemma registry_added id l st st' s :
  registry s → sv_link s !! id = None → l_closed l = false → l_seq l = sv_seq s + 1 →
  sv_nodes s !! l_node l = Some st → listing (l_kind l) id st st' → registry (added id l st' s).
Proof.
  intros [Hw Ho Hq Hb] Hid Hc Hseq Hst Hls.
  assert (id ∉ ns_links st ∧ id ∉ ns_uplinks st) as [Hn1 Hn2].
  { destruct (Hw _ _ Hst) as [_ _ Hlk Hup]. split; intros Hi; [destruct (Hlk id Hi)|destruct (Hup id Hi)];
      naive_solver congruence. }
  split; cbn.
  - intros name st''. rewrite lookup_insert_Some. intros [[<- <-]|[Hne Hst'']]; [|by apply node_weak_fresh, Hw].
    destruct (node_weak_fresh _ id l _ _ Hid (Hw _ _ Hst)) as [? ? Hlk Hup]. split.
    + destruct (l_kind l); destruct Hls as [E1 E2]; rewrite E1; [by apply NoDup_snoc|done].
    + destruct (l_kind l); destruct Hls as [E1 E2]; rewrite E2; [done|by apply NoDup_snoc].
    + intros i [Hi|[Hk ->]]%(listing_elem _ _ _ _ i Hls); [by apply Hlk|]. exists l. rewrite lookup_insert_eq. done.
    + intros i [Hi|[Hk ->]]%(listing_elem _ _ _ _ i Hls); [by apply Hup|]. exists l. rewrite lookup_insert_eq. done.
  - intros i li. rewrite lookup_insert_Some. intros [[<- <-]|[Hne Hli]] Hci.
    + rewrite lookup_insert_eq. eexists. split; [done|]. pose proof (listing_elem _ _ _ _ id Hls).
      destruct (l_kind l); naive_solver.
    + destruct (Ho i li Hli Hci) as (sti & Hsti & Hi). destruct (decide (l_node l = l_node li)) as [E|Hn].
      * rewrite <- E, lookup_insert_eq. eexists. split; [done|]. assert (sti = st) as -> by congruence.
        pose proof (listing_elem _ _ _ _ i Hls). destruct (l_kind li); naive_solver.
      * rewrite lookup_insert_ne by done. eauto.
  - intros i j li lj. rewrite !lookup_insert_Some.
    intros [[<- <-]|[? Hi]] [[<- <-]|[? Hj]] E; [done| | |by eapply Hq].
    + specialize (Hb j lj Hj). lia.
    + specialize (Hb i li Hi). lia.
  - intros i li. rewrite lookup_insert_Some. intros [[<- <-]|[? Hi]]; [lia|]. specialize (Hb i li Hi). lia.
Qed.

Lemma settled_added bad id l st st' s :
  registry s → settled nothing None s → sv_link s !! id = None → sv_nodes s !! l_node l = Some st →
  (bad = Some (l_node l) ∨ ns_links st' = ns_links st ∧ ns_current st' = ns_current st) →
  settled nothing bad (added id l st' s).
Proof.
  intros Hr Hs Hid Hst Hbad name st'' Hst'' Hb. cbn in Hst''.
  assert (∀ name st, sv_nodes s !! name = Some st →
            node_settled nothing (<[id := l]> (sv_link s)) st) as Hall.
  { intros name0 st0 Hst0. destruct (rg_weak s Hr _ _ Hst0) as [_ _ Hlk _].
    eapply node_settled_view; [| |by apply (Hs name0 st0)].
    - intros i Hi. destruct (Hlk i Hi) as (l' & ? & _). by rewrite lookup_insert_ne by congruence.
    - intros i Hi. destruct (Hlk i Hi) as (l' & ? & _). eauto. }
  rewrite lookup_insert_Some in Hst''. destruct Hst'' as [[<- <-]|[_ Hst'']]; [|by apply (Hall name)].
  destruct Hbad as [->|[El Ec]]; [done|]. destruct (Hall _ _ Hst) as [Hd Hbst]. split; rewrite El, Ec; done.
Qed.

(** The nodes a registration starts from have a state, made when missing. *)
Lemma good_nodeLocked name s :
  good s → good (put_node name (nodeLocked name s) s) ∧
  sv_nodes (put_node name (nodeLocked name s) s) !! name = Some (nodeLocked name s).
Proof. intros Hs. split; [by apply good_put_node|]. cbn. by rewrite lookup_insert_eq. Qed.

(** A registration of a link, as both handlers make it. *)
Lemma good_added id l st' s :
  good s → sv_link s !! id = None → l_closed l = false → l_seq l = sv_seq s + 1 →
  listing (l_kind l) id (nodeLocked (l_node l) s) st' →
  registry (added id l st' s) ∧
  ∀ bad, (bad = Some (l_node l) ∨
           ns_links st' = ns_links (nodeLocked (l_node l) s) ∧ ns_current st' = ns_current (nodeLocked (l_node l) s)) →
    settled nothing bad (added id l st' s).
Proof.
  intros Hs Hid Hc Hseq Hls. destruct (good_nodeLocked (l_node l) s Hs) as [[Hr0 Hs0] Hst0].
  assert (sv_nodes (added id l st' s) =
          sv_nodes (added id l st' (put_node (l_node l) (nodeLocked (l_node l) s) s))) as En.
  { cbn. by rewrite insert_insert_eq. }
  split.
  - eapply registry_core; [| exact En | |eapply registry_added; [exact Hr0|exact Hid|done|exact Hseq|exact Hst0|exact Hls]]; done.
  - intros bad Hbad name st Hst. rewrite En in Hst.
    by apply (settled_added bad id l _ _ _ Hr0 Hs0 Hid Hst0 Hbad name st).
Qed.

Lemma good_registerNode b B now l revokeAt gen s :
  l_kind l = nodeLink → l_closed l = false → good s → good (registerNode b B now l revokeAt gen s).1.
Proof.
  intros Hk Hc Hs. unfold registerNode. destruct (sv_shut s); [done|]. cbn [fst].
  set (l' := applyRevokeLocked _ _ _ _ _).
  assert (core l' = core (l <| l_seq := sv_seq s + 1 |>)) as [= Ek En Ec Eq] by apply applyRevoke_core.
  cbn in Ek, En, Ec, Eq. set (id := fresh (dom (sv_link s))).
  assert (sv_link s !! id = None) as Hid by (apply not_elem_of_dom, is_fresh).
  set (st' := (nodeLocked (l_node l) s) <| ns_links ::= λ ls, ls ++ [id] |>).
  destruct (good_added id l' st' s) as [Hr1 Hs1]; [done..|congruence|done| |].
  - rewrite Ek, Hk, En. done.
  - unfold added in Hr1, Hs1. rewrite Eq in Hr1, Hs1. apply update_settles; [done|]. apply Hs1. by left.
Qed.

Lemma good_registerUplink m b B now l revokeAt gen s :
  l_kind l = uplinkLink → l_closed l = false → good s → good (registerUplink m b B now l revokeAt gen s).1.
Proof.
  intros Hk Hc Hs. unfold registerUplink. destruct (sv_shut s); [done|].
  destruct (IsZero revokeAt && _); [by apply good_drop, good_nodeLocked|]. cbn [fst].
  set (l' := applyRevokeLocked _ _ _ _ _).
  assert (core l' = core (l <| l_seq := sv_seq s + 1 |>)) as [= Ek En Ec Eq] by apply applyRevoke_core.
  cbn in Ek, En, Ec, Eq. set (id := fresh (dom (sv_link s))).
  assert (sv_link s !! id = None) as Hid by (apply not_elem_of_dom, is_fresh).
  set (st' := (nodeLocked (l_node l) s) <| ns_uplinks ::= λ ls, ls ++ [id] |>).
  destruct (good_added id l' st' s) as [Hr1 Hs1]; [done..|congruence|done| |].
  - rewrite Ek, Hk, En. done.
  - unfold added in Hr1, Hs1. rewrite Eq in Hr1, Hs1. split; [done|]. apply Hs1. right. by rewrite En.
Qed.

(** ** Calls in flight *)

Definition flight_link (f : flight) : nat := match f with Call id _ _ => id | Uplink id => id end.

Definition on (id : nat) (f : flight) : bool := bool_decide (flight_link f = id).

Definition kind_on (kind : callKind) (id : nat) (f : flight) : bool :=
  match f with Call i k _ => bool_decide (i = id) && bool_decide (k = kind) | Uplink _ => false end.

Definition count (p : flight → bool) (cs : list flight) : Z :=
  Z.of_nat (length (filter (λ f, p f = true) cs)).

Definition tally (id : nat) (cs : list flight) : Z * Z * Z * Z :=
  (count (on id) cs, count (kind_on callLifecycle id) cs, count (kind_on callLong id) cs,
   count (kind_on callTool id) cs).

Definition tallies (l : link) : Z * Z * Z * Z := (l_active l, l_lifecycle l, l_long l, l_tools l).

Definition flight_ok (h : gmap nat link) (f : flight) : Prop :=
  match f with
  | Call id _ _ => ∃ l, h !! id = Some l ∧ l_kind l = nodeLink
  | Uplink id => ∃ l, h !! id = Some l ∧ l_kind l = uplinkLink
  end.

Lemma count_cons p f cs : count p (f :: cs) = (if p f then 1 else 0) + count p cs.
Proof.
  unfold count. rewrite filter_cons. destruct (p f); [rewrite decide_True by done|rewrite decide_False by done]; cbn; lia.
Qed.

Lemma count_app p cs cs' : count p (cs ++ cs') = count p cs + count p cs'.
Proof. unfold count. rewrite filter_app, length_app. lia. Qed.

Lemma count_nonneg p cs : 0 ≤ count p cs.
Proof. unfold count. lia. Qed.

Lemma count_mono p q cs : (∀ f, p f = true → q f = true) → count p cs ≤ count q cs.
Proof.
  intros Hpq. induction cs as [|f cs IH]; [done|]. rewrite !count_cons.
  destruct (p f) eqn:Hp; [rewrite (Hpq f Hp); lia|]. destruct (q f); lia.
Qed.

Lemma count_none p cs : Forall (λ f, p f = false) cs → count p cs = 0.
Proof. induction 1 as [|f cs Hf _ IH]; [done|]. by rewrite count_cons, Hf, IH. Qed.

Lemma count_elem p f cs : f ∈ cs → p f = true → 0 < count p cs.
Proof.
  intros (a & b & ->)%list_elem_of_split Hp. rewrite count_app, count_cons, Hp.
  pose proof (count_nonneg p a). pose proof (count_nonneg p b). lia.
Qed.

Lemma count_delete p cs k f :
  cs !! k = Some f → count p cs = (if p f then 1 else 0) + count p (delete k cs).
Proof.
  intros Hk. rewrite <- (take_drop_middle cs k f Hk) at 1. rewrite delete_take_drop.
  rewrite !count_app, count_cons. lia.
Qed.

Lemma count_insert p cs k f f' :
  cs !! k = Some f → p f' = p f → count p (<[k := f']> cs) = count p cs.
Proof.
  intros Hk Hp. assert (k < length cs)%nat by by apply lookup_lt_is_Some_1; eauto.
  rewrite insert_take_drop by done. rewrite <- (take_drop_middle cs k f Hk) at 3.
  by rewrite !count_app, !count_cons, Hp.
Qed.

#[local] Arguments count : simpl never.

Section calls.
Context (maxStreams maxUplinks : Z) (recheckMinBackoff recheckMaxBackoff : Duration).

Definition calls_ok (s : Server) (cs : list flight) : Prop :=
  (∀ id l, sv_link s !! id = Some l →
     tallies l = tally id cs ∧ l_long l ≤ longBudget maxStreams ∧ l_tools l ≤ toolBudget maxStreams) ∧
  Forall (flight_ok (sv_link s)) cs.

Lemma flight_ok_stat s s' f :
  stat <$> sv_link s' = stat <$> sv_link s → flight_ok (sv_link s) f → flight_ok (sv_link s') f.
Proof.
  intros E. symmetry in E. destruct f as [id k n|id]; intros (l & Hl & Hk);
    destruct (stat_lookup _ _ _ _ E Hl) as (l' & Hl' & [= Ek _ _ _ _ _ _ _]); exists l'; split; congruence.
Qed.

Lemma calls_frame P s s' cs : frame P s s' → calls_ok s cs → calls_ok s' cs.
Proof.
  intros [E _ _] [Ht Hf]. split.
  - intros id l' Hl'. destruct (stat_lookup _ _ _ _ E Hl') as (l & Hl & [= _ _ _ _ E1 E2 E3 E4]).
    unfold tallies. rewrite E1, E2, E3, E4. by apply Ht.
  - eapply Forall_impl; [exact Hf|]. intros f. by apply flight_ok_stat.
Qed.

(** A link's counters move by one with the calls. *)
Lemma calls_move s cs cs' id f :
  calls_ok s cs → (∀ l, l_kind (f l) = l_kind l) →
  (∀ l, sv_link s !! id = Some l → tallies l = tally id cs →
     tallies (f l) = tally id cs' ∧ l_long (f l) ≤ longBudget maxStreams ∧ l_tools (f l) ≤ toolBudget maxStreams) →
  (∀ i, i ≠ id → tally i cs' = tally i cs) → Forall (flight_ok (sv_link s)) cs' →
  calls_ok (change id f s) cs'.
Proof.
  intros [Ht Hf] Hk Hid Hother Hf'. split.
  - intros i l'. rewrite change_lookup. case_decide as E; [subst|intros Hl'; rewrite Hother by done; by apply Ht].
    destruct (sv_link s !! id) as [l|] eqn:Hl; [|done]. intros [= <-]. apply Hid; [done|by apply (Ht id l)].
  - eapply Forall_impl; [exact Hf'|]. intros [i k n|i] (l & Hl & Hkl); cbn [flight_ok]; rewrite change_lookup;
      case_decide; subst; rewrite ?Hl; cbn; eauto; eexists; (split; [done|by rewrite Hk]).
Qed.

Lemma tally_cons_other f cs i : flight_link f ≠ i → tally i (f :: cs) = tally i cs.
Proof.
  intros Hi. unfold tally. rewrite !count_cons. unfold on, kind_on. rewrite bool_decide_false by done.
  destruct f; cbn in *; rewrite ?(bool_decide_false (id = i)) by done; done.
Qed.

Lemma tally_delete_other f cs k i : cs !! k = Some f → flight_link f ≠ i → tally i (delete k cs) = tally i cs.
Proof.
  intros Hk Hi. unfold tally. rewrite !(fun p => count_delete p cs k f Hk). unfold on, kind_on.
  rewrite bool_decide_false by done.
  destruct f; cbn in *; rewrite ?(bool_decide_false (id = i)) by done; done.
Qed.

(** What a call adds to its link's tally. *)
Lemma tally_cons id kind n cs :
  tally id (Call id kind n :: cs) =
  let one k := if decide (kind = k) then 1 else 0 in
  (1 + count (on id) cs, one callLifecycle + count (kind_on callLifecycle id) cs,
   one callLong + count (kind_on callLong id) cs, one callTool + count (kind_on callTool id) cs).
Proof.
  unfold tally. rewrite !count_cons. unfold on at 1, kind_on at 1 3 5. cbn [flight_link].
  rewrite !(bool_decide_true (id = id)) by done. by destruct kind.
Qed.

Lemma tally_delete id kind n cs k :
  cs !! k = Some (Call id kind n) → tally id cs = tally id (Call id kind n :: delete k cs).
Proof. intros Hk. unfold tally. by rewrite !(fun p => count_delete p cs k _ Hk), !count_cons. Qed.

Lemma calls_reserve node kind s cs :
  good s → calls_ok s cs →
  match reserve maxStreams node kind s with
  | (s', Some id) => calls_ok s' (Call id kind None :: cs)
  | (s', None) => s' = s
  end.
Proof.
  intros [Hr Hs] Hc. unfold reserve, reserveLocked, nodeLocked.
  destruct (sv_nodes s !! node) as [st|] eqn:Hst; [|done]. cbn [default from_option id].
  destruct (ns_current st) as [id|] eqn:Hcur; [|done].
  destruct (sv_link s !! id) as [l|] eqn:Hl; [|done]. destruct (exhausted _ _ _) eqn:Ex; [done|].
  apply (calls_move s cs); [done|by intros; destruct kind| |by intros; apply tally_cons_other|].
  - intros l' Hl' Hta. assert (l' = l) as -> by congruence. destruct (proj1 Hc id l Hl) as (_ & HL & HT).
    rewrite tally_cons. unfold tallies, tally in *. injection Hta as E1 E2 E3 E4. unfold exhausted in Ex.
    destruct kind; cbn -[longBudget toolBudget] in *; (split; [repeat f_equal; repeat case_decide; congruence || lia|lia]).
  - constructor; [|by apply Hc]. destruct (Hs node st Hst) as [_ Hb]; [done|]. rewrite Hcur in Hb.
    destruct Hb as (Hin & _). destruct (nw_link _ _ _ (rg_weak s Hr _ _ Hst) id Hin) as (l' & ? & ? & _). cbn. eauto.
Qed.

(** A connection that may be closed without cutting a lifecycle call. *)
Definition spare (s : Server) (i : nat) : Prop :=
  ∃ l, sv_link s !! i = Some l ∧ (l_lifecycle l = 0 ∨ l_active l = 0).

Lemma frame_close_spare now id l s :
  sv_link s !! id = Some l → l_lifecycle l = 0 ∨ l_active l = 0 → frame (spare s) s (closeLinkLocked now id s).
Proof.
  intros Hl Hc. eapply frame_weaken; [|apply frame_close]. cbn. intros i l' Hl' ->. left. exists l. done.
Qed.

Lemma frame_spare s s1 s2 : frame (spare s) s s1 → frame (spare s1) s1 s2 → frame (spare s) s s2.
Proof.
  intros H1 H2. eapply frame_trans; [exact H1|]. eapply frame_weaken; [|exact H2].
  intros i l1 Hl1 (l1' & Hl1' & Hc). left.
  destruct (stat_lookup _ _ _ _ (frame_stat _ _ _ H1) Hl1') as (l & Hl & [= _ _ _ _ E1 E2 _ _]).
  exists l. split; [done|]. by rewrite <- E1, <- E2.
Qed.

Lemma frame_forceDrain now id s : frame (spare s) s (forceDrainLocked now id s).
Proof.
  unfold forceDrainLocked. destruct (sv_link s !! id) as [l|] eqn:Hl; [|by apply frame_refl].
  destruct (l_lifecycle l =? 0) eqn:E; [eapply frame_close_spare; [done|lia]|].
  eapply frame_link; [|apply (frame_change _ id (λ l, l <| l_forceDrain := true |> <| l_streams := [] |>)); cbn; auto].
  done.
Qed.

Lemma frame_drainTimeout now id s : frame (spare s) s (drainTimeout now id s).
Proof. unfold drainTimeout. repeat case_match; try by apply frame_refl. apply frame_forceDrain. Qed.

Lemma frame_markNotReady now id s : frame (spare s) s (markNotReady now id s).
Proof.
  unfold markNotReady. repeat case_match; try by apply frame_refl.
  eapply frame_trans; [|apply frame_updateCurrentOf]. apply frame_change; cbn; auto.
Qed.

Lemma frame_retire now id s : frame (spare s) s (retireLocked now id s).
Proof.
  unfold retireLocked. destruct (is_open id s); [|by apply frame_refl].
  assert (frame (spare s) s (updateCurrentOf now id (change id (λ l, l <| l_retired := true |>) s))) as H1.
  { eapply frame_trans; [|apply frame_updateCurrentOf]. apply frame_change; cbn; auto. }
  destruct (is_open id _); [|done]. eapply frame_spare; [exact H1|apply frame_forceDrain].
Qed.

Lemma uplink_spare s cs id l :
  calls_ok s cs → sv_link s !! id = Some l → l_kind l = uplinkLink → l_lifecycle l = 0.
Proof.
  intros [Ht Hf] Hl Hk. destruct (Ht id l Hl) as ([= _ -> _ _] & _).
  apply count_none. eapply Forall_impl; [exact Hf|]. intros [i k n|i]; cbn; [|done].
  intros (l' & Hl' & Hk'). destruct (decide (i = id)) as [->|]; [congruence|]. by rewrite bool_decide_false.
Qed.

Lemma applyRevoke_stat b B now t l : stat (applyRevokeLocked b B now t l) = stat l.
Proof. unfold applyRevokeLocked. by repeat case_match. Qed.

Lemma frame_applyRevoke P b B now t id s : frame P s (change id (applyRevokeLocked b B now t) s).
Proof.
  apply frame_change; [apply applyRevoke_stat|..]; intros l; unfold applyRevokeLocked; repeat case_match; cbn; auto.
Qed.

Notation apply := (apply recheckMinBackoff recheckMaxBackoff).

(** Only a refused node's connection is closed with its calls. *)
Lemma frame_apply now id a s cs :
  calls_ok s cs → frame (λ i, spare s i ∨ a = NodeRefused ∧ i = id) s (apply now id a s).
Proof.
  intros Hc. unfold Nodelink.apply. destruct (sv_link s !! id) as [l|] eqn:Hl; [|by apply frame_refl].
  destruct (l_closed l); [by apply frame_refl|].
  assert (∀ s', frame (spare s) s s' → frame (λ i, spare s i ∨ a = NodeRefused ∧ i = id) s s') as Hw
    by (intros s' H; eapply frame_weaken; [|exact H]; tauto).
  destruct a as [t| | |]; [| | |by apply frame_refl].
  - apply Hw. destruct (l_kind l); [eapply frame_trans; [apply frame_applyRevoke|apply frame_updateCurrentOf]|].
    pose proof (frame_applyRevoke (spare s) recheckMinBackoff recheckMaxBackoff now t id s) as H1.
    destruct (sv_link (change id _ s) !! id) as [l1|] eqn:Hl1; [|exact H1].
    destruct (l_superseded l1 && _) eqn:E; [|exact H1]. eapply frame_spare; [exact H1|].
    eapply frame_close_spare; [exact Hl1|]. lia.
  - eapply frame_weaken; [|apply frame_close]. cbn. intros i l' _ ->. auto.
  - apply Hw. destruct (l_kind l) eqn:Hk; [apply frame_retire|].
    eapply frame_close_spare; [done|]. left. by eapply uplink_spare.
Qed.

Lemma frame_revocationDue now id gen s cs : calls_ok s cs → frame (spare s) s (revocationDue now id gen s).
Proof.
  intros Hc. unfold revocationDue. destruct (sv_link s !! id) as [l|] eqn:Hl; [|by apply frame_refl].
  destruct (_ && bool_decide _) eqn:E; [|by apply frame_refl].
  apply andb_true_iff in E as [_ Hk%bool_decide_eq_true].
  eapply frame_close_spare; [done|]. left. by eapply uplink_spare.
Qed.

Lemma frame_closeIfIdle now id s : frame (spare s) s (closeIfIdle now id s).
Proof.
  unfold closeIfIdle. destruct (sv_link s !! id) as [l|] eqn:Hl; [|by apply frame_refl].
  destruct (negb _ && _) eqn:E; [|by apply frame_refl]. eapply frame_close_spare; [done|]. lia.
Qed.

Lemma frame_uplinkClosed now id s cs :
  calls_ok s cs → is_uplink id s = true → frame (spare s) s (closeLinkLocked now id s).
Proof.
  unfold is_uplink. intros Hc. destruct (sv_link s !! id) as [l|] eqn:Hl; [|done].
  intros Hk%bool_decide_eq_true. eapply frame_close_spare; [done|]. left. by eapply uplink_spare.
Qed.

Lemma frame_Shutdown now s : frame (λ _, True) s (Shutdown now s).
Proof.
  unfold Shutdown. destruct (sv_shut s); [by apply frame_refl|].
  eapply (frame_trans _ _ (s <| sv_shut := true |>)); [by apply frame_refl|].
  apply frame_fold; [intros; apply frame_close|auto].
Qed.

Lemma frame_SetStoppingUntil now node until s : frame (spare s) s (SetStoppingUntil now node until s).
Proof.
  unfold SetStoppingUntil. case_match; [by apply frame_refl|].
  eapply frame_link; [apply drop_link|]. by apply frame_refl.
Qed.

(** The end of a call: its link without it, and what that closes. *)
Lemma frame_release now id kind s :
  frame (spare (change id (uncount kind) s)) (change id (uncount kind) s) (release now id kind s).
Proof.
  unfold release. destruct (sv_link (change id (uncount kind) s) !! id) as [l|] eqn:Hl; [|by apply frame_refl].
  destruct (l_closed l); [by apply frame_refl|].
  destruct (l_forceDrain l && _) eqn:E; [eapply frame_close_spare; [done|lia]|].
  destruct (l_draining l && _) eqn:E'; [eapply frame_close_spare; [done|lia]|]. by apply frame_refl.
Qed.

Lemma frame_uplinkDone now id s :
  let s1 := change id (λ l, l <| l_active ::= Z.pred |>) s in frame (spare s1) s1 (uplinkDone now id s).
Proof.
  cbv zeta. unfold uplinkDone. destruct (sv_link (change _ _ s) !! id) as [l|] eqn:Hl; [|by apply frame_refl].
  destruct (negb _ && _ && _) eqn:E; [eapply frame_close_spare; [done|lia]|]. by apply frame_refl.
Qed.

Lemma Forall_delete_flight {A} (P : A → Prop) l k : Forall P l → Forall P (delete k l).
Proof. rewrite delete_take_drop. intros H. apply Forall_app. by eauto using Forall_take, Forall_drop. Qed.

Lemma calls_uncount s cs k id kind n :
  cs !! k = Some (Call id kind n) → calls_ok s cs → calls_ok (change id (uncount kind) s) (delete k cs).
Proof.
  intros Hk Hc. apply (calls_move s cs); [done|by intros; destruct kind| |by intros; eapply tally_delete_other; eauto|].
  - intros l Hl Hta. destruct (proj1 Hc id l Hl) as (_ & HL & HT).
    rewrite (tally_delete id kind n cs k Hk), tally_cons in Hta.
    unfold tallies, tally in *. injection Hta as E1 E2 E3 E4.
    destruct kind; cbn -[longBudget toolBudget] in *; repeat case_decide; try congruence;
      (split; [repeat f_equal; lia|lia]).
  - by apply Forall_delete_flight, Hc.
Qed.

Lemma calls_uplink_done s cs k id :
  cs !! k = Some (Uplink id) → calls_ok s cs →
  calls_ok (change id (λ l, l <| l_active ::= Z.pred |>) s) (delete k cs).
Proof.
  intros Hk Hc. apply (calls_move s cs); [done|done| |by intros; eapply tally_delete_other; eauto|].
  - intros l Hl Hta. destruct (proj1 Hc id l Hl) as (_ & HL & HT). unfold tallies, tally in *.
    rewrite !(fun p => count_delete p cs k _ Hk) in Hta. injection Hta as E1 E2 E3 E4.
    unfold on in E1 at 1. rewrite bool_decide_true in E1 by done. cbn in *. split; [repeat f_equal; lia|lia].
  - by apply Forall_delete_flight, Hc.
Qed.

Lemma calls_uplink s cs id l :
  sv_link s !! id = Some l → l_kind l = uplinkLink → calls_ok s cs →
  calls_ok (change id (λ l, l <| l_active ::= Z.succ |>) s) (Uplink id :: cs).
Proof.
  intros Hl Hk Hc. apply (calls_move s cs); [done|done| |by intros; apply tally_cons_other|].
  - intros l' Hl' Hta. destruct (proj1 Hc id l' Hl') as (_ & HL & HT). unfold tallies, tally in *.
    rewrite !count_cons. injection Hta as E1 E2 E3 E4.
    unfold on at 1. rewrite bool_decide_true by done. cbn in *. split; [repeat f_equal; lia|lia].
  - constructor; [|apply Hc]. cbn. eauto.
Qed.

Lemma calls_stream s cs k id m :
  cs !! k = Some (Call id callLong None) → calls_ok s cs → calls_ok s (<[k := Call id callLong (Some m)]> cs).
Proof.
  intros Hk [Ht Hf]. split.
  - intros i l Hl. destruct (Ht i l Hl) as [-> ?]. split; [|done]. unfold tally.
    by rewrite !(fun p => count_insert p cs k _ (Call id callLong (Some m)) Hk).
  - apply Forall_insert; [done|]. eapply Forall_lookup in Hf; [|exact Hk]. done.
Qed.

Lemma tally_none id cs : Forall (λ f, flight_link f ≠ id) cs → tally id cs = (0, 0, 0, 0).
Proof.
  intros Hf. unfold tally. rewrite !count_none; [done|..]; (eapply Forall_impl; [exact Hf|]);
    intros [i k n|i] Hi; cbn in *; unfold on; cbn; rewrite ?(bool_decide_false (i = id)) by done; done.
Qed.

(** A new link has no calls. *)
Lemma calls_insert s s' cs id l :
  sv_link s !! id = None → sv_link s' = <[id := l]> (sv_link s) → tallies l = (0, 0, 0, 0) →
  calls_ok s cs → calls_ok s' cs.
Proof.
  intros Hid E Hl [Ht Hf]. split; rewrite E.
  - intros i li. rewrite lookup_insert_Some. intros [[<- <-]|[_ Hli]]; [|by apply Ht].
    rewrite tally_none; [split; [done|]; injection Hl as _ _ -> ->; unfold longBudget, toolBudget; lia|].
    eapply Forall_impl; [exact Hf|]. intros [i k n|i] (l' & Hl' & _) <-; cbn in *; congruence.
  - eapply Forall_impl; [exact Hf|]. intros [i k n|i] (l' & Hl' & ?); cbn; rewrite lookup_insert_ne by congruence; eauto.
Qed.

Definition world_ok (w : World) : Prop := good (w_server w) ∧ calls_ok (w_server w) (w_calls w).

Lemma fresh_link (s : Server) : sv_link s !! fresh (dom (sv_link s)) = None.
Proof. apply not_elem_of_dom, is_fresh. Qed.

Lemma calls_registerNode now node serial nb na t gen s cs :
  calls_ok s cs →
  calls_ok (registerNode recheckMinBackoff recheckMaxBackoff now (newLink nodeLink node serial nb na) t gen s).1 cs.
Proof.
  intros Hc. unfold registerNode. destruct (sv_shut s); [done|]. cbn [fst].
  eapply calls_frame; [apply (frame_updateCurrent nothing)|].
  eapply (calls_insert s); [apply fresh_link|reflexivity| |exact Hc]. unfold tallies, applyRevokeLocked. by repeat case_match.
Qed.

Lemma calls_registerUplink now node serial nb na t gen s cs :
  calls_ok s cs →
  calls_ok (registerUplink maxUplinks recheckMinBackoff recheckMaxBackoff now
              (newLink uplinkLink node serial nb na) t gen s).1 cs.
Proof.
  intros Hc. unfold registerUplink. destruct (sv_shut s); [done|]. destruct (_ && _); cbn [fst].
  - eapply (calls_frame nothing); [|exact Hc]. eapply frame_link; [apply drop_link|]. by apply frame_refl.
  - eapply (calls_insert s); [apply fresh_link|reflexivity| |exact Hc]. unfold tallies, applyRevokeLocked. by repeat case_match.
Qed.

Notation handle := (handle maxStreams maxUplinks recheckMinBackoff recheckMaxBackoff).

(** The events that close a link with its calls. *)
Definition cuts (ev : event) (id : nat) : Prop :=
  ev = EvExpire id ∨ ev = EvAnswer id NodeRefused ∨ ev = EvShutdown.

(** From [s] to [s'] a link is closed only by an event that cuts it, or when
    it has no lifecycle call. *)
Definition gentle (ev : event) (s s' : Server) : Prop :=
  ∀ i l', sv_link s' !! i = Some l' → l_closed l' = true →
  (∃ l, sv_link s !! i = Some l ∧ l_closed l = true) ∨ cuts ev i ∨ l_lifecycle l' = 0 ∨ l_active l' = 0.

Lemma gentle_frame ev P s s1 s' :
  (∀ i l, sv_link s1 !! i = Some l → l_closed l = true → ∃ l0, sv_link s !! i = Some l0 ∧ l_closed l0 = true) →
  frame P s1 s' → (∀ i, P i → spare s1 i ∨ cuts ev i) → gentle ev s s'.
Proof.
  intros H1 Hf HP i l' Hl' Hc. destruct (frame_closed _ _ _ Hf i l' Hl' Hc) as (l & Hl & Hor).
  destruct (stat_lookup _ _ _ _ (frame_stat _ _ _ Hf) Hl') as (l0 & Hl0 & [= _ _ _ _ E1 E2 _ _]).
  assert (l0 = l) as -> by congruence. rewrite E1, E2. destruct Hor as [Hcl|[Hp|Ha]]; [by eauto| |by auto].
  destruct (HP i Hp) as [(l2 & Hl2 & Hs)|?]; [|by auto]. assert (l2 = l) as -> by congruence. tauto.
Qed.

Lemma gentle_spare ev s s' : frame (spare s) s s' → gentle ev s s'.
Proof. intros Hf. eapply gentle_frame; [|exact Hf|]; eauto. Qed.

Lemma closed_change id f s :
  (∀ l, l_closed (f l) = l_closed l) →
  ∀ i l, sv_link (change id f s) !! i = Some l → l_closed l = true → ∃ l0, sv_link s !! i = Some l0 ∧ l_closed l0 = true.
Proof.
  intros Hf i l. rewrite change_lookup. case_decide; [subst|eauto].
  destruct (sv_link s !! id) as [l0|]; [|done]. intros [= <-]. rewrite Hf. eauto.
Qed.

Lemma gentle_insert ev P s s1 s' id l :
  sv_link s1 = <[id := l]> (sv_link s) → l_closed l = false → frame P s1 s' → (∀ i, P i → False) → gentle ev s s'.
Proof.
  intros E Hl Hf HP. eapply gentle_frame; [|exact Hf|by intros i []%HP].
  intros i li. rewrite E, lookup_insert_Some. intros [[<- <-]|[_ ?]]; [congruence|eauto].
Qed.

Definition step_ok (ev : event) (w w' : World) : Prop :=
  world_ok w' ∧ gentle ev (w_server w) (w_server w').

Lemma step_refl ev w : world_ok w → step_ok ev w w.
Proof. intros Hw. split; [done|]. intros i l Hl Hc. left. eauto. Qed.

Lemma step_spare ev s s' cs :
  world_ok (MkWorld s cs) → good s' → frame (spare s) s s' → step_ok ev (MkWorld s cs) (MkWorld s' cs).
Proof. intros [_ Hc] Hg Hf. split; [split; [done|by eapply calls_frame]|by apply gentle_spare]. Qed.

Lemma step_end ev now s cs k :
  world_ok (MkWorld s cs) → step_ok ev (MkWorld s cs) (handle now (EvEnd k) (MkWorld s cs)).
Proof.
  intros Hw. cbn. destruct (cs !! k) as [[id kind n|id]|] eqn:Hk; [| |by apply step_refl]; destruct Hw as [Hg Hc].
  - set (s1 := endStream id n s).
    assert (frame nothing s s1) as H1.
    { unfold s1, endStream. destruct n; [|by apply frame_refl]. apply frame_change; cbn; auto. }
    split; [split|]; cbn.
    + by apply good_release, good_endStream.
    + eapply calls_frame; [apply frame_release|]. eapply calls_uncount; [done|]. by eapply calls_frame.
    + eapply gentle_frame; [|apply frame_release|eauto]. intros i l Hl Hcl.
      destruct (closed_change id (uncount kind) s1) with (i := i) (l := l) as (l0 & Hl0 & Hcl0); [by destruct kind|done..|].
      unfold s1, endStream in Hl0. destruct n; [|eauto]. by eapply closed_change in Hl0.
  - destruct (proj1 (Forall_lookup _ _) (proj2 Hc) k _ Hk) as (l & Hl & Hkl).
    split; [split|]; cbn.
    + by eapply good_uplinkDone.
    + eapply calls_frame; [apply frame_uplinkDone|]. by apply calls_uplink_done.
    + eapply gentle_frame; [|apply frame_uplinkDone|eauto]. by apply closed_change.
Qed.

Lemma step_open ev now s cs k :
  world_ok (MkWorld s cs) → step_ok ev (MkWorld s cs) (handle now (EvOpenStream k) (MkWorld s cs)).
Proof.
  intros Hw. cbn. destruct (cs !! k) as [[id [| | |] [m|]|]|] eqn:Hk; try by apply step_refl. destruct Hw as [Hg Hc].
  pose proof (good_openStream id s Hg) as Ho. unfold openStream in *.
  destruct (sv_link s !! id) as [l|] eqn:Hl; [destruct (_ || _)|].
  1,3: split; [split|]; cbn; [by apply good_release|
    eapply calls_frame; [apply frame_release|by eapply calls_uncount]|
    eapply gentle_frame; [|apply frame_release|eauto]; by apply closed_change].
  cbn in Ho. split; [split|]; cbn; [done| |].
  - eapply calls_frame; [|by eapply calls_stream]. apply (frame_change nothing); cbn; auto.
  - apply gentle_spare, frame_change; cbn; auto.
Qed.

Lemma step_registerNode ev now node serial nb na t gen s cs :
  world_ok (MkWorld s cs) →
  step_ok ev (MkWorld s cs) (handle now (EvNode node serial nb na t gen) (MkWorld s cs)).
Proof.
  intros [Hg Hc]. split; [split|]; cbn; [by apply good_registerNode|by apply calls_registerNode|].
  unfold registerNode. destruct (sv_shut s); [apply gentle_spare; by apply frame_refl|]. cbn [fst].
  eapply (gentle_insert _ nothing); [| |apply frame_updateCurrent|by intros ? []]; [reflexivity|].
  unfold applyRevokeLocked. by repeat case_match.
Qed.

Lemma step_registerUplink ev now node serial nb na t gen s cs :
  world_ok (MkWorld s cs) →
  step_ok ev (MkWorld s cs) (handle now (EvUplink node serial nb na t gen) (MkWorld s cs)).
Proof.
  intros [Hg Hc]. split; [split|]; cbn; [by apply good_registerUplink|by apply calls_registerUplink|].
  unfold registerUplink. destruct (sv_shut s); [apply gentle_spare; by apply frame_refl|].
  destruct (_ && _); cbn [fst].
  - apply gentle_spare. eapply frame_link; [apply drop_link|]. by apply frame_refl.
  - eapply (gentle_insert _ nothing); [| |by apply frame_refl|by intros ? []]; [reflexivity|].
    unfold applyRevokeLocked. by repeat case_match.
Qed.

Lemma step_reserve ev now node kind s cs :
  world_ok (MkWorld s cs) → step_ok ev (MkWorld s cs) (handle now (EvReserve node kind) (MkWorld s cs)).
Proof.
  intros Hw. pose proof Hw as [Hg Hc]. cbn in Hg, Hc |- *.
  pose proof (calls_reserve node kind s cs Hg Hc) as Hr. pose proof (good_reserve maxStreams node kind s Hg) as Hgr.
  assert (∀ i l, sv_link (reserve maxStreams node kind s).1 !! i = Some l → l_closed l = true →
            ∃ l0, sv_link s !! i = Some l0 ∧ l_closed l0 = true) as Hcl.
  { unfold reserve, reserveLocked. destruct (ns_current _) as [id|]; [|eauto].
    destruct (sv_link s !! id); [|eauto]. destruct (exhausted _ _ _); [eauto|].
    apply closed_change. by destruct kind. }
  destruct (reserve maxStreams node kind s) as [s' [id|]]; cbn in *; [|by subst; apply step_refl].
  split; [by split|]. intros i l Hl Hcl'. left. eauto.
Qed.

Lemma step_uplinkCall ev now id s cs :
  world_ok (MkWorld s cs) → step_ok ev (MkWorld s cs) (handle now (EvUplinkCall id) (MkWorld s cs)).
Proof.
  intros Hw. pose proof Hw as [Hg Hc]. cbn in Hg, Hc |- *.
  destruct (is_uplink id s) eqn:Hu; [|by apply step_refl]. pose proof (good_uplinkCall id s Hu Hg) as Hgu.
  unfold uplinkCall, is_uplink in *. destruct (sv_link s !! id) as [l|] eqn:Hl; [|done].
  destruct (_ || _); [by apply step_refl|]. apply bool_decide_eq_true in Hu.
  split; [split; [done|by eapply calls_uplink]|]. intros i l' Hl' Hcl. left.
  by eapply (closed_change id (λ l, l <| l_active ::= Z.succ |>)).
Qed.

Lemma step_cut ev P s s' cs :
  world_ok (MkWorld s cs) → good s' → frame P s s' → (∀ i, P i → spare s i ∨ cuts ev i) →
  step_ok ev (MkWorld s cs) (MkWorld s' cs).
Proof.
  intros [_ Hc] Hg Hf HP. split; [split; [done|by eapply calls_frame]|]. eapply gentle_frame; [|exact Hf|done]. eauto.
Qed.

Lemma handle_ok now ev w : world_ok w → step_ok ev w (handle now ev w).
Proof.
  destruct w as [s cs]. intros Hw. pose proof Hw as [Hg Hc]. cbn in Hg, Hc.
  destruct ev as [node serial nb na t gen|node serial nb na t gen|node kind|k|k|id|id|id|id|id|id a|id gen|id|node until|node|node|].
  - by apply step_registerNode.
  - by apply step_registerUplink.
  - by apply step_reserve.
  - by apply step_open.
  - by apply step_end.
  - by apply step_uplinkCall.
  - apply step_spare; [done|by apply good_drainTimeout|apply frame_drainTimeout].
  - eapply step_cut; [done|by apply good_close|apply frame_close|]. intros i ->. right. by left.
  - cbn. destruct (is_uplink id s) eqn:Hu; [|by apply step_refl].
    apply step_spare; [done|by apply good_close|by eapply frame_uplinkClosed].
  - apply step_spare; [done|by apply good_markNotReady|apply frame_markNotReady].
  - eapply step_cut; [done|by apply good_apply|by eapply frame_apply|]. cbn. unfold cuts. intros i [?|[-> ->]]; auto.
  - apply step_spare; [done|by apply good_revocationDue|by eapply frame_revocationDue].
  - cbn. destruct (is_uplink id s); [|by apply step_refl].
    apply step_spare; [done|by apply good_closeIfIdle|apply frame_closeIfIdle].
  - apply step_spare; [done|by apply good_SetStoppingUntil|apply frame_SetStoppingUntil].
  - apply step_spare; [done|by apply good_put_node|by apply frame_refl].
  - apply step_spare; [done|by apply good_woken|by apply frame_refl].
  - eapply step_cut; [done|by apply good_Shutdown|apply frame_Shutdown|]. intros i _. right. right. by right.
Qed.

Lemma empty_ok : world_ok (MkWorld emptyServer []).
Proof.
  split; [split; [split|]|split]; cbn; try done; intros ??; by rewrite ?lookup_empty.
Qed.

Notation run := (run maxStreams maxUplinks recheckMinBackoff recheckMaxBackoff).

Lemma run_ok evs : world_ok (run evs).
Proof.
  induction evs as [|[now ev] evs IH] using rev_ind; [apply empty_ok|].
  unfold Nodelink.run in *. rewrite foldl_app. cbn. by apply handle_ok.
Qed.

(** C14: Whatever connects, calls, drains, expires, is re-checked or shut down
    in whatever order, a node's current connection is open and usable and
    better than every other such connection of the node; while it has none,
    none is usable; and every other connection of the node drains with calls
    still in flight. *)
Theorem current_connection_best evs node st :
  let s := w_server (run evs) in
  sv_nodes s !! node = Some st →
  is_best (sv_link s) (ns_links st) (ns_current st) ∧
  ∀ id l, sv_link s !! id = Some l → l_kind l = nodeLink → l_node l = node → l_closed l = false →
    id ∈ ns_links st ∧ (ns_current st ≠ Some id → l_draining l = true ∧ 0 < count (on id) (w_calls (run evs))).
Proof.
  intros s Hst. destruct (run_ok evs) as [[Hr Hs] [Ht _]]. fold s in Hr, Hs, Ht.
  destruct (Hs node st Hst) as [Hd Hb]; [done|]. split; [done|]. intros id l Hl Hk Hn Hc.
  destruct (rg_open s Hr id l Hl Hc) as (st' & Hst' & Hi). rewrite Hk in Hi. rewrite Hn in Hst'.
  assert (st' = st) as -> by congruence. split; [done|]. intros Hcur.
  destruct (Hd id l Hi Hl) as [Hdr Ha]. rewrite Hdr, bool_decide_false by done. split; [done|].
  destruct (Ht id l Hl) as ([= E _ _ _] & _). specialize (Ha Hcur ltac:(intros [])).
  pose proof (count_nonneg (on id) (w_calls (run evs))). lia.
Qed.

(** C19: Draining never cuts a lifecycle call: an event that closes a
    connection leaves no lifecycle call in flight on it, unless it is the
    expiry of the connection's certificate, the refusal of the node, or the
    instance's shutdown. *)
Theorem drain_spares_lifecycle evs now ev id l l' n :
  sv_link (w_server (run evs)) !! id = Some l → l_closed l = false →
  let w := handle now ev (run evs) in
  sv_link (w_server w) !! id = Some l' → l_closed l' = true → Call id callLifecycle n ∈ w_calls w →
  cuts ev id.
Proof.
  intros Hl Hc w Hl' Hc' Hin. destruct (handle_ok now ev (run evs) (run_ok evs)) as [[_ [Ht _]] Hg].
  fold w in Ht, Hg. destruct (Hg id l' Hl' Hc') as [(l0 & ? & ?)|[?|Hz]]; [congruence|done|].
  destruct (Ht id l' Hl') as ([= Ea El _ _] & _).
  pose proof (count_elem (kind_on callLifecycle id) _ _ Hin ltac:(cbn; by rewrite !bool_decide_true)).
  pose proof (count_elem (on id) _ _ Hin ltac:(unfold on; by rewrite bool_decide_true)). lia.
Qed.

(** The counters of every connection are the calls in flight on it, and
    neither its streams nor its tool calls exceed their budgets. *)
Theorem calls_within_budgets evs id l :
  let w := run evs in
  sv_link (w_server w) !! id = Some l →
  tallies l = tally id (w_calls w) ∧
  count (kind_on callLong id) (w_calls w) ≤ longBudget maxStreams ∧
  count (kind_on callTool id) (w_calls w) ≤ toolBudget maxStreams.
Proof.
  intros w Hl. destruct (run_ok evs) as [_ [Ht _]]. destruct (Ht id l Hl) as (E & HL & HT). fold w in E.
  pose proof E as [= _ _ E3 E4]. split; [done|]. lia.
Qed.

(** Closing a connection ends: choosing a new current connection closes
    only idle ones that are not current, so the mutual recursion of the two is
    two calls deep, and more fuel changes nothing. *)
Theorem close_terminates evs n now id :
  closeLinkFuel (S (S n)) now id (w_server (run evs)) = closeLinkLocked now id (w_server (run evs)).
Proof. apply close_fuel, run_ok. Qed.
End calls.

(** ** Witnesses *)

(** A node connects, a lifecycle call starts, and the node connects again
    with a newer certificate: the first connection drains. *)
Definition ex_events : list (Time * event) :=
  [(1, EvNode "n" "s1" 10 1000 0 (0, 0)); (2, EvReserve "n" callLifecycle);
   (3, EvNode "n" "s2" 20 1000 0 (0, 0))].

Definition ex_world : World := run 16 4 Second (30 * Second) ex_events.

Definition ex_node : nodeState := nodeLocked "n" (w_server ex_world).

Definition ex_link (w : World) : link :=
  default (newLink uplinkLink "" "" 0 0) (sv_link (w_server w) !! 0%nat).

Definition ex_expired : World := handle 16 4 Second (30 * Second) 5 (EvExpire 0) ex_world.

Lemma current_connection_best_witness :
  ns_current ex_node = Some 1%nat ∧ is_best (sv_link (w_server ex_world)) (ns_links ex_node) (ns_current ex_node).
Proof.
  split; [vm_compute; reflexivity|].
  refine (proj1 (current_connection_best 16 4 Second (30 * Second) ex_events "n" ex_node _)).
  vm_compute. reflexivity.
Defined.

Lemma drain_spares_lifecycle_witness : cuts (EvExpire 0) 0.
Proof.
  apply (drain_spares_lifecycle 16 4 Second (30 * Second) ex_events 5 (EvExpire 0) 0
           (ex_link ex_world) (ex_link ex_expired) None); try (vm_compute; reflexivity).
  assert (E : w_calls ex_expired = [Call 0 callLifecycle None]) by (vm_compute; reflexivity).
  unfold ex_expired, ex_world in E. rewrite E. by left.
Defined.

Lemma calls_within_budgets_witness :
  tallies (ex_link ex_world) = tally 0 (w_calls ex_world) ∧ l_lifecycle (ex_link ex_world) = 1.
Proof.
  split; [|vm_compute; reflexivity].
  refine (proj1 (calls_within_budgets 16 4 Second (30 * Second) ex_events 0 (ex_link ex_world) _)).
  vm_compute. reflexivity.
Defined.
