(* ===== verification/Budget.v ===== *)
(** * The request budgets of the ingress proxy (ingress/proxy/limits.go)

    A budget counts requests per environment, per tenant and in all; each
    request has a slot of its own that remembers whether it is counted.  The
    requests enter and leave in any order.  Proved: the counters are exactly
    the counted slots, so no cap is ever exceeded, nothing is leaked, and a
    request is turned away only when a cap is taken. *)

From S2P Require Import Prelude.

Inductive full : Type := fits | envFull | tenantFull | allFull.

Record budget := MkBudget {
  bg_perEnv : Z; bg_perTenant : Z; bg_total : Z;
  bg_envs : gmap string Z; bg_tenants : gmap string Z; bg_n : Z
}.

#[export] Instance eta_budget : Eta budget := λ b,
  MkBudget (bg_perEnv b) (bg_perTenant b) (bg_total b) (bg_envs b) (bg_tenants b) (bg_n b).

Definition newBudget (perEnv perTenant total : Z) : budget := MkBudget perEnv perTenant total ∅ ∅ 0.

Record slot := MkSlot { sl_tenant : string; sl_env : string; sl_counted : bool }.

(** A missing key of a Go map reads as zero. *)
Definition at_key (m : gmap string Z) (k : string) : Z := default 0 (m !! k).

Definition enter (b : budget) (s : slot) (tenant env : string) : full * budget * slot :=
  if sl_counted s then (fits, b, s)
  else if bg_perEnv b <=? at_key (bg_envs b) env then (envFull, b, s)
  else if bg_perTenant b <=? at_key (bg_tenants b) tenant then (tenantFull, b, s)
  else if bg_total b <=? bg_n b then (allFull, b, s)
  else
    (fits,
     b <| bg_envs ::= λ m, <[env := at_key m env + 1]> m |>
       <| bg_tenants ::= λ m, <[tenant := at_key m tenant + 1]> m |>
       <| bg_n ::= Z.succ |>,
     MkSlot tenant env true).

(** One less at a key, which goes when nothing is left. *)
Definition drop_one (k : string) (m : gmap string Z) : gmap string Z :=
  let n := at_key m k - 1 in
  if n <=? 0 then delete k (<[k := n]> m) else <[k := n]> m.

Definition leave (b : budget) (s : slot) : budget * slot :=
  if sl_counted s then
    (b <| bg_n ::= Z.pred |> <| bg_envs ::= drop_one (sl_env s) |>
       <| bg_tenants ::= drop_one (sl_tenant s) |>,
     MkSlot (sl_tenant s) (sl_env s) false)
  else (b, s).

(** [count], [of] and [ofTenant]. *)
Definition Count (b : budget) : Z := bg_n b.
Definition Of (b : budget) (env : string) : Z := at_key (bg_envs b) env.
Definition OfTenant (b : budget) (tenant : string) : Z := at_key (bg_tenants b) tenant.

(** ** Requests

    Each request has its slot; it enters the budgets of whatever environment
    it is for, and leaves. *)

Inductive act : Type := Enter (r : nat) (tenant env : string) | Leave (r : nat).

Definition newSlot : slot := MkSlot "" "" false.

Definition perform (a : act) (w : budget * gmap nat slot) : budget * gmap nat slot :=
  let '(b, ss) := w in
  match a with
  | Enter r tenant env =>
      let '(_, b, s) := enter b (default newSlot (ss !! r)) tenant env in (b, <[r := s]> ss)
  | Leave r => let '(b, s) := leave b (default newSlot (ss !! r)) in (b, <[r := s]> ss)
  end.

Definition perform_all (perEnv perTenant total : Z) (acts : list act) : budget * gmap nat slot :=
  foldl (λ w a, perform a w) (newBudget perEnv perTenant total, ∅) acts.

(** The counted slots with a property. *)
Definition tally_of (p : slot → bool) (ss : gmap nat slot) : Z :=
  Z.of_nat (size (filter (λ x, (sl_counted x.2 && p x.2) = true) ss)).

Definition any (s : slot) : bool := true.
Definition of_env (env : string) (s : slot) : bool := String.eqb (sl_env s) env.
Definition of_tenant (tenant : string) (s : slot) : bool := String.eqb (sl_tenant s) tenant.

Definition weigh (p : slot → bool) (s : slot) : Z := if sl_counted s && p s then 1 else 0.

Lemma tally_insert p ss r s :
  tally_of p (<[r := s]> ss) = tally_of p ss - weigh p (default newSlot (ss !! r)) + weigh p s.
Proof.
  unfold tally_of, weigh. set (P := λ x : nat * slot, (sl_counted x.2 && p x.2) = true).
  set (F := filter P ss).
  assert (F !! r = if sl_counted (default newSlot (ss !! r)) && p (default newSlot (ss !! r)) then ss !! r else None) as HF.
  { unfold F. rewrite map_lookup_filter. destruct (ss !! r) as [s0|]; cbn; [|done].
    case_guard as G; unfold P in G; cbn in G |- *; [by rewrite G|]. by destruct (sl_counted s0 && p s0). }
  rewrite map_filter_insert. fold F. destruct (sl_counted s && p s) eqn:E.
  - rewrite decide_True by done. rewrite map_size_insert, HF.
    destruct (ss !! r) as [s0|]; cbn; [|lia]. destruct (sl_counted s0 && p s0); cbn; lia.
  - rewrite decide_False by (unfold P; cbn; congruence). rewrite map_filter_delete. fold F. rewrite map_size_delete, HF.
    destruct (ss !! r) as [s0|]; cbn; [|lia]. destruct (sl_counted s0 && p s0) eqn:E0; cbn; [|lia].
    assert (size F ≠ 0%nat); [|lia]. intros H0%map_size_empty_inv. rewrite H0, lookup_empty in HF. cbn in HF. by rewrite E0 in HF.
Qed.

Lemma tally_nonneg p ss : 0 ≤ tally_of p ss.
Proof. unfold tally_of. lia. Qed.

Lemma at_key_insert m k n k' : at_key (<[k := n]> m) k' = if String.eqb k k' then n else at_key m k'.
Proof.
  unfold at_key. destruct (String.eqb_spec k k') as [<-|]; [by rewrite lookup_insert_eq|by rewrite lookup_insert_ne].
Qed.

Lemma at_key_drop m k k' :
  1 ≤ at_key m k → at_key (drop_one k m) k' = at_key m k' - (if String.eqb k k' then 1 else 0).
Proof.
  intros Hk. unfold drop_one. destruct (_ <=? 0) eqn:E.
  - unfold at_key at 1. destruct (String.eqb_spec k k') as [<-|].
    + rewrite lookup_delete_eq. cbn. lia.
    + rewrite lookup_delete_ne, lookup_insert_ne by done. fold (at_key m k'). lia.
  - rewrite at_key_insert. destruct (String.eqb_spec k k') as [<-|]; lia.
Qed.

(** Only keys with something counted are kept. *)
Definition no_leak (m : gmap string Z) : Prop := map_Forall (λ _ n, 0 < n) m.

Lemma no_leak_drop k m : no_leak m → no_leak (drop_one k m).
Proof.
  intros Hm. unfold drop_one. destruct (_ <=? 0) eqn:E.
  - intros k' n [Hne Hl]%lookup_delete_Some. rewrite lookup_insert_ne in Hl by done. by apply (Hm k').
  - apply map_Forall_insert_2; [lia|done].
Qed.

(** The counters of a map are the slots counted with each key. *)
Definition counts (m : gmap string Z) (p : string → slot → bool) (cap : Z) (ss : gmap nat slot) : Prop :=
  no_leak m ∧ ∀ k, at_key m k = tally_of (p k) ss ∧ at_key m k ≤ Z.max 0 cap.

Record budget_inv (w : budget * gmap nat slot) : Prop := {
  bi_envs : counts (bg_envs w.1) of_env (bg_perEnv w.1) w.2;
  bi_tenants : counts (bg_tenants w.1) of_tenant (bg_perTenant w.1) w.2;
  bi_n : bg_n w.1 = tally_of any w.2 ∧ bg_n w.1 ≤ Z.max 0 (bg_total w.1)
}.

(** A slot set to what it says already changes no count. *)
Lemma counts_same m p cap ss r : counts m p cap ss → counts m p cap (<[r := default newSlot (ss !! r)]> ss).
Proof. intros [Hl Hm]. split; [done|]. intros k. rewrite tally_insert. destruct (Hm k). lia. Qed.

Lemma counts_enter m p cap ss r k s :
  counts m p cap ss → at_key m k < cap → sl_counted (default newSlot (ss !! r)) = false →
  (∀ k', weigh (p k') s = if String.eqb k k' then 1 else 0) →
  counts (<[k := at_key m k + 1]> m) p cap (<[r := s]> ss).
Proof.
  intros [Hl Hm] Hcap Hc Hs. split.
  - apply map_Forall_insert_2; [|done]. destruct (Hm k) as [-> _]. pose proof (tally_nonneg (p k) ss). lia.
  - intros k'. rewrite at_key_insert, tally_insert, Hs. unfold weigh. rewrite Hc. cbn.
    destruct (Hm k'). destruct (String.eqb_spec k k') as [<-|]; lia.
Qed.

Lemma counts_leave m p cap ss r k :
  counts m p cap ss → (∀ k', weigh (p k') (default newSlot (ss !! r)) = if String.eqb k k' then 1 else 0) →
  counts (drop_one k m) p cap (<[r := MkSlot (sl_tenant (default newSlot (ss !! r))) (sl_env (default newSlot (ss !! r))) false]> ss).
Proof.
  intros [Hl Hm] Hs. split; [by apply no_leak_drop|]. intros k'. rewrite tally_insert.
  assert (1 ≤ at_key m k) as H1.
  { destruct (Hm k) as [-> _]. specialize (Hs k). rewrite String.eqb_refl in Hs.
    pose proof (tally_insert (p k) ss r newSlot) as H. unfold weigh at 2 in H. cbn in H.
    pose proof (tally_nonneg (p k) (<[r := newSlot]> ss)). lia. }
  rewrite at_key_drop, Hs by done. unfold weigh. cbn. destruct (Hm k').
  destruct (String.eqb k k'); lia.
Qed.

Lemma perform_inv a w : budget_inv w → budget_inv (perform a w).
Proof.
  destruct w as [b ss]. intros [He Ht [Hn Hcap]]. cbn in *. destruct a as [r tenant env|r]; cbn.
  - unfold enter. set (s := default newSlot (ss !! r)) in *.
    assert (budget_inv (b, <[r := s]> ss)) as Hsame.
    { split; cbn; [by apply counts_same..|]. rewrite tally_insert. fold s. lia. }
    destruct (sl_counted s) eqn:Hc; [done|].
    destruct (_ <=? _) eqn:E1; [done|]. destruct (_ <=? _) eqn:E2 in |- *; [done|].
    destruct (_ <=? _) eqn:E3 in |- *; [done|]. split; cbn.
    + apply counts_enter; [done|lia|done|]. intros k. done.
    + apply counts_enter; [done|lia|done|]. intros k. done.
    + rewrite tally_insert. fold s. unfold weigh. rewrite Hc. cbn. lia.
  - unfold leave. set (s := default newSlot (ss !! r)) in *. destruct (sl_counted s) eqn:Hc.
    + split; cbn; [apply counts_leave; [done|]; intros k; fold s; unfold weigh; rewrite Hc; done..|].
      rewrite tally_insert. fold s. unfold weigh. rewrite Hc. cbn. lia.
    + split; cbn; [by apply counts_same..|]. rewrite tally_insert. fold s. lia.
Qed.

Lemma perform_all_inv perEnv perTenant total acts : budget_inv (perform_all perEnv perTenant total acts).
Proof.
  induction acts as [|a acts IH] using rev_ind.
  - assert (∀ p, tally_of p ∅ = 0) as H0 by (intros p; unfold tally_of; by rewrite map_filter_empty).
    split; [split; [apply map_Forall_empty|]..|]; cbn; try (intros k; unfold at_key; rewrite lookup_empty; cbn);
      rewrite H0; lia.
  - unfold perform_all in *. rewrite foldl_app. cbn. by apply perform_inv.
Qed.

Lemma perform_caps a w :
  bg_perEnv (perform a w).1 = bg_perEnv w.1 ∧ bg_perTenant (perform a w).1 = bg_perTenant w.1 ∧
  bg_total (perform a w).1 = bg_total w.1.
Proof. destruct w as [b ss], a; cbn; unfold enter, leave; repeat case_match; simplify_eq; done. Qed.

Lemma perform_all_caps perEnv perTenant total acts :
  let b := (perform_all perEnv perTenant total acts).1 in
  bg_perEnv b = perEnv ∧ bg_perTenant b = perTenant ∧ bg_total b = total.
Proof.
  induction acts as [|a acts IH] using rev_ind; [done|]. unfold perform_all in *. rewrite foldl_app. cbn in *.
  destruct (perform_caps a (foldl (λ w a, perform a w) (newBudget perEnv perTenant total, ∅) acts)) as (-> & -> & ->).
  done.
Qed.

(** C36: However requests enter and leave, a budget's counts are exactly the
    requests counted, per environment, per tenant and in all, none exceeds its
    cap, and no key stays without a request; so a request that does not fit
    finds that many requests of its environment, its tenant or the instance
    still counted. *)
Theorem budget_counts_requests perEnv perTenant total acts :
  let '(b, ss) := perform_all perEnv perTenant total acts in
  (∀ env, Of b env = tally_of (of_env env) ss ∧ Of b env ≤ Z.max 0 perEnv) ∧
  (∀ tenant, OfTenant b tenant = tally_of (of_tenant tenant) ss ∧ OfTenant b tenant ≤ Z.max 0 perTenant) ∧
  (Count b = tally_of any ss ∧ Count b ≤ Z.max 0 total) ∧
  no_leak (bg_envs b) ∧ no_leak (bg_tenants b) ∧
  ∀ s tenant env,
    match (enter b s tenant env).1.1 with
    | fits => True
    | envFull => perEnv ≤ tally_of (of_env env) ss
    | tenantFull => perTenant ≤ tally_of (of_tenant tenant) ss
    | allFull => total ≤ tally_of any ss
    end.
Proof.
  pose proof (perform_all_inv perEnv perTenant total acts) as [He Ht Hn].
  pose proof (perform_all_caps perEnv perTenant total acts) as (E1 & E2 & E3).
  destruct (perform_all perEnv perTenant total acts) as [b ss]. cbn in *. rewrite E1 in He. rewrite E2 in Ht. rewrite E3 in Hn.
  destruct He as [Hl He], Ht as [Hl' Ht]. repeat split; try done; try apply He; try apply Ht; try apply Hn.
  intros s tenant env. unfold enter. rewrite E1, E2, E3.
  destruct (He env) as [He1 _], (Ht tenant) as [Ht1 _], Hn as [Hn1 _]. repeat case_match; cbn in *; simplify_eq; lia || done.
Qed.
