(* ===== verification/Mesh.v ===== *)
(** * The arithmetic of the pods' mesh (mesh/mesh.go)

    The cluster's ULA is a /64; every node and ingress instance has a /96 of
    it, its ID in bits 64 to 95 of the address.  An address is its number; a
    prefix is an address and a length.  Proved: different IDs have disjoint
    prefixes inside the ULA, each with its own host address; and the delta of
    two versions of the mesh turns a node's peers of the one into those of the
    other. *)

From S2P Require Import Prelude.

(** ** Addresses and prefixes ([netip]) *)

(** [netip.Addr] without zones: the zero address, an IPv4 or an IPv6 one. *)
Inductive Addr : Type := NoAddr | Addr4 (a : Z) | Addr6 (a : Z).

Record Prefix := MkPrefix { pf_Addr : Addr; pf_Bits : Z }.

Definition BitLen (a : Addr) : Z := match a with NoAddr => 0 | Addr4 _ => 32 | Addr6 _ => 128 end.

Definition is_addr (a : Addr) : bool :=
  match a with
  | NoAddr => false
  | Addr4 z => (0 <=? z) && (z <? 2 ^ 32)
  | Addr6 z => (0 <=? z) && (z <? 2 ^ 128)
  end.

(** [Prefix.IsValid]. *)
Definition IsValid (p : Prefix) : bool :=
  match pf_Addr p with
  | NoAddr => false
  | a => (0 <=? pf_Bits p) && (pf_Bits p <=? BitLen a)
  end.

(** The number of an address with its last [n] bits cleared. *)
Definition clear_low (n a : Z) : Z := Z.shiftl (Z.shiftr a n) n.

(** [Prefix.Masked], its address. *)
Definition masked_addr (p : Prefix) : Addr :=
  if IsValid p then
    match pf_Addr p with
    | NoAddr => NoAddr
    | Addr4 a => Addr4 (clear_low (32 - pf_Bits p) a)
    | Addr6 a => Addr6 (clear_low (128 - pf_Bits p) a)
    end
  else NoAddr.

(** [Addr.As16]: an IPv4 address is mapped into IPv6. *)
Definition As16 (a : Addr) : Z :=
  match a with NoAddr => 0 | Addr4 z => Z.lor (Z.shiftl 65535 32) z | Addr6 z => z end.

(** [Prefix.Contains]. *)
Definition Contains (p : Prefix) (a : Addr) : bool :=
  IsValid p &&
  match pf_Addr p, a with
  | Addr4 x, Addr4 y => Z.shiftr x (32 - pf_Bits p) =? Z.shiftr y (32 - pf_Bits p)
  | Addr6 x, Addr6 y => Z.shiftr x (128 - pf_Bits p) =? Z.shiftr y (128 - pf_Bits p)
  | _, _ => false
  end.

(** [byte(z)]. *)
Definition byte (z : Z) : Z := Z.land z 255.

(** Byte [i] of the sixteen of an address set to [b]. *)
Definition set_byte (i : Z) (b : Z) (a : Z) : Z :=
  let k := 8 * (15 - i) in Z.lor (Z.ldiff a (Z.shiftl 255 k)) (Z.shiftl b k).

(** ** Prefixes of nodes *)

Definition FirstSubnet : Z := 1.
Definition LastSubnet : Z := Z.shiftl 1 32 - 1.
Definition NetworkBits : Z := 64.
Definition PrefixBits : Z := 96.

(** [Draw], over the five random bytes. *)
Definition Draw (r1 r2 r3 r4 r5 : Z) : Prefix :=
  MkPrefix
    (Addr6 (set_byte 5 r5 (set_byte 4 r4 (set_byte 3 r3 (set_byte 2 r2 (set_byte 1 r1 (set_byte 0 253 0)))))))
    NetworkBits.

Definition FromLegacy (ula48 : Prefix) : Prefix := MkPrefix (masked_addr ula48) NetworkBits.

Definition NodePrefix (ula : Prefix) (id : Z) : Prefix :=
  let a := As16 (masked_addr ula) in
  let a := set_byte 8 (byte (Z.shiftr id 24)) a in
  let a := set_byte 9 (byte (Z.shiftr id 16)) a in
  let a := set_byte 10 (byte (Z.shiftr id 8)) a in
  let a := set_byte 11 (byte id) a in
  MkPrefix (Addr6 a) PrefixBits.

Definition HostAddress (p : Prefix) : Addr :=
  if IsValid p then
    match masked_addr p with
    | Addr4 a => Addr4 (Z.lor (Z.ldiff a 255) 1)
    | a => Addr6 (set_byte 15 1 (As16 a))
    end
  else NoAddr.

(** ** Peers *)

Definition ingressPeerPrefix : string := "ingress.".
Definition IngressPeerName (name : string) : string := (ingressPeerPrefix +:+ name)%string.
Definition IsIngressPeer (key : string) : bool := HasPrefix key ingressPeerPrefix.

Record Peer := MkPeer { pe_Node : string; pe_PublicKey : list Z; pe_Endpoint : string; pe_PodPrefix : string }.

#[export] Instance Peer_eq_dec : EqDecision Peer.
Proof. solve_decision. Defined.

(** [Peer.Equal]. *)
Definition Peer_Equal (p q : Peer) : bool :=
  String.eqb (pe_Node p) (pe_Node q) && bool_decide (pe_PublicKey p = pe_PublicKey q) &&
  String.eqb (pe_Endpoint p) (pe_Endpoint q) && String.eqb (pe_PodPrefix p) (pe_PodPrefix q).

Record Peers := MkPeers { ps_Version : Z; ps_Nodes : gmap string Peer }.

Definition peer_leb (a b : Peer) : bool := String.leb (pe_Node a) (pe_Node b).

(** [Peers.For]. *)
Definition For (p : Peers) (node : string) : list Peer :=
  sort_by peer_leb (omap (λ '(name, peer), if String.eqb name node then None else Some peer)
                      (map_to_list (ps_Nodes p))).

(** [Delta]: the peers to put and the names to remove. *)
Definition Delta (from to : Peers) (node : string) : list Peer * list string :=
  (sort_by peer_leb
     (omap (λ '(name, peer),
        if String.eqb name node then None
        else match ps_Nodes from !! name with
             | Some old => if Peer_Equal old peer then None else Some peer
             | None => Some peer
             end) (map_to_list (ps_Nodes to))),
   sort_by String.leb
     (omap (λ '(name, _),
        if String.eqb name node then None
        else match ps_Nodes to !! name with Some _ => None | None => Some name end)
        (map_to_list (ps_Nodes from)))).

(** ** Bits *)

Lemma testbit_255 n : 0 ≤ n → Z.testbit 255 n = (n <? 8).
Proof. intros Hn. change 255 with (Z.ones 8). by rewrite Z.testbit_ones_nonneg. Qed.

Lemma testbit_byte z n : 0 ≤ n → Z.testbit (byte z) n = (n <? 8) && Z.testbit z n.
Proof. intros Hn. unfold byte. rewrite Z.land_spec, testbit_255 by done. apply andb_comm. Qed.

Lemma testbit_set_byte i b a n :
  0 ≤ i ≤ 15 → 0 ≤ n →
  Z.testbit (set_byte i (byte b) a) n =
  let k := 8 * (15 - i) in if (k <=? n) && (n <? k + 8) then Z.testbit b (n - k) else Z.testbit a n.
Proof.
  intros Hi Hn. unfold set_byte. cbv zeta. set (k := 8 * (15 - i)).
  rewrite Z.lor_spec, Z.ldiff_spec, !Z.shiftl_spec by done.
  destruct (Z.leb_spec k n) as [Hk|Hk]; cbn [andb].
  - rewrite testbit_255, testbit_byte by lia. destruct (Z.ltb_spec n (k + 8)).
    + replace (n - k <? 8) with true by lia. by rewrite andb_false_r.
    + replace (n - k <? 8) with false by lia. by rewrite andb_true_r, orb_false_r.
  - rewrite !(Z.testbit_neg_r _ (n - k)) by lia. by rewrite andb_true_r, orb_false_r.
Qed.

Lemma testbit_clear_low k a n : 0 ≤ k → 0 ≤ n → Z.testbit (clear_low k a) n = (k <=? n) && Z.testbit a n.
Proof.
  intros Hk Hn. unfold clear_low. rewrite Z.shiftl_spec by done. destruct (Z.leb_spec k n).
  - rewrite Z.shiftr_spec by lia. by replace (n - k + k) with n by lia.
  - by rewrite Z.testbit_neg_r by lia.
Qed.

(** The number of a node's prefix. *)
Definition node_number (ula : Prefix) (id : Z) : Z := As16 (pf_Addr (NodePrefix ula id)).

(** Its bits: the ID's in bits 32 to 63 from the bottom, the ULA's elsewhere. *)
Lemma testbit_NodePrefix ula id n :
  0 ≤ n →
  Z.testbit (node_number ula id) n =
  if (32 <=? n) && (n <? 64) then Z.testbit id (n - 32) else Z.testbit (As16 (masked_addr ula)) n.
Proof.
  intros Hn. unfold node_number, NodePrefix. cbn [pf_Addr As16]. rewrite !testbit_set_byte by lia. cbv zeta.
  repeat match goal with |- context [if ?b then _ else _] => destruct b eqn:? end;
    try lia; rewrite ?Z.shiftr_spec by lia; f_equal; lia.
Qed.

Lemma shiftr_eq_bits a b k :
  0 ≤ k → Z.shiftr a k = Z.shiftr b k ↔ ∀ n, k ≤ n → Z.testbit a n = Z.testbit b n.
Proof.
  intros Hk. split.
  - intros E n Hn. apply (f_equal (λ z, Z.testbit z (n - k))) in E. rewrite !Z.shiftr_spec in E by lia.
    by replace (n - k + k) with n in E by lia.
  - intros H. apply Z.bits_inj'. intros n Hn. rewrite !Z.shiftr_spec by done. apply H. lia.
Qed.

Definition ula_ok (ula : Prefix) : Prop := ∃ a, ula = MkPrefix (Addr6 a) NetworkBits ∧ 0 ≤ a < 2 ^ 128.

Lemma masked_ula a n :
  0 ≤ n → Z.testbit (As16 (masked_addr (MkPrefix (Addr6 a) NetworkBits))) n = (64 <=? n) && Z.testbit a n.
Proof. intros Hn. cbn -[clear_low]. by rewrite testbit_clear_low. Qed.

(** Two /96s meet only when their first 96 bits agree. *)
Lemma contains_number ula id a :
  Contains (NodePrefix ula id) (Addr6 a) = true ↔
  ∀ n, 32 ≤ n → Z.testbit (node_number ula id) n = Z.testbit a n.
Proof.
  unfold Contains, node_number. cbn -[Z.shiftr set_byte]. rewrite Z.eqb_eq. by apply shiftr_eq_bits.
Qed.

Lemma node_id_bits ula id id' :
  FirstSubnet ≤ id ≤ LastSubnet → FirstSubnet ≤ id' ≤ LastSubnet →
  (∀ n, 32 ≤ n → Z.testbit (node_number ula id) n = Z.testbit (node_number ula id') n) → id = id'.
Proof.
  intros Hid Hid' H.
  assert (∀ z, FirstSubnet ≤ z ≤ LastSubnet → ∀ n, 32 ≤ n → Z.testbit z n = false) as Hhigh.
  { intros z [H1 H2] n Hn. unfold FirstSubnet, LastSubnet in *. change (Z.shiftl 1 32 - 1) with (2 ^ 32 - 1) in H2.
    apply Z.bits_above_log2; [lia|]. apply Z.log2_lt_pow2; [lia|].
    assert (2 ^ 32 ≤ 2 ^ n) by (apply Z.pow_le_mono_r; lia). lia. }
  apply Z.bits_inj'. intros n Hn. destruct (Z.lt_ge_cases n 32).
  - specialize (H (n + 32) ltac:(lia)). rewrite !testbit_NodePrefix in H by lia.
    replace ((32 <=? n + 32) && (n + 32 <? 64)) with true in H by lia. by replace (n + 32 - 32) with n in H by lia.
  - by rewrite !Hhigh.
Qed.

Lemma HostAddress_node ula id :
  HostAddress (NodePrefix ula id) = Addr6 (set_byte 15 (byte 1) (clear_low 32 (node_number ula id))).
Proof. reflexivity. Qed.

(** The nodes' prefixes are disjoint /96s of the cluster's ULA: the ULA
    contains every address of a node's prefix, no address is in the prefixes
    of two different IDs, and a node's host address is in its own. *)
Theorem node_prefixes_disjoint ula id id' a :
  ula_ok ula → FirstSubnet ≤ id ≤ LastSubnet → FirstSubnet ≤ id' ≤ LastSubnet →
  Contains (NodePrefix ula id) a = true →
  Contains ula a = true ∧
  (Contains (NodePrefix ula id') a = true → id = id') ∧
  Contains (NodePrefix ula id) (HostAddress (NodePrefix ula id)) = true.
Proof.
  intros (u & -> & Hu) Hid Hid' Ha. set (ula := MkPrefix (Addr6 u) NetworkBits) in *.
  destruct a as [|z|z]; [done..|]. rewrite contains_number in Ha. split; [|split].
  - unfold Contains. cbn -[Z.shiftr]. rewrite Z.eqb_eq. apply (shiftr_eq_bits _ _ 64); [done|]. intros n Hn.
    rewrite <- Ha, testbit_NodePrefix by lia. replace ((32 <=? n) && (n <? 64)) with false by lia.
    unfold ula. rewrite masked_ula by lia. by replace (64 <=? n) with true by lia.
  - rewrite contains_number. intros Ha'. apply (node_id_bits ula); [done..|]. intros n Hn. by rewrite Ha, Ha'.
  - rewrite HostAddress_node. apply contains_number. intros n Hn. rewrite testbit_set_byte by lia. cbv zeta.
    replace ((8 * (15 - 15) <=? n) && (n <? 8 * (15 - 15) + 8)) with false by lia.
    rewrite testbit_clear_low by lia. by replace (32 <=? n) with true by lia.
Qed.

Lemma node_prefixes_disjoint_witness :
  Contains (Draw 1 2 3 4 5) (HostAddress (NodePrefix (Draw 1 2 3 4 5) 7)) = true ∧
  (Contains (NodePrefix (Draw 1 2 3 4 5) 8) (HostAddress (NodePrefix (Draw 1 2 3 4 5) 7)) = true → 7 = 8) ∧
  Contains (NodePrefix (Draw 1 2 3 4 5) 7) (HostAddress (NodePrefix (Draw 1 2 3 4 5) 7)) = true.
Proof.
  apply (node_prefixes_disjoint (Draw 1 2 3 4 5) 7 8 (HostAddress (NodePrefix (Draw 1 2 3 4 5) 7))).
  - eexists. split; [reflexivity|]. vm_compute. by split.
  - vm_compute. by split.
  - vm_compute. by split.
  - vm_compute. reflexivity.
Defined.

(** ** The delta of two versions *)

(** A node's peers by name, and what a delta does to them. *)
Definition peers_of (p : Peers) (node : string) : gmap string Peer := delete node (ps_Nodes p).

Definition apply_delta (d : list Peer * list string) (m : gmap string Peer) : gmap string Peer :=
  foldr delete (foldr (λ p, <[pe_Node p := p]>) m d.1) d.2.

(** Every peer is kept under its name. *)
Definition named (p : Peers) : Prop := map_Forall (λ name peer, pe_Node peer = name) (ps_Nodes p).

Lemma Peer_Equal_spec p q : Peer_Equal p q = true ↔ p = q.
Proof.
  unfold Peer_Equal. rewrite !andb_true_iff, !String.eqb_eq, bool_decide_eq_true.
  split; [destruct p, q; cbn; intros [[[??]?]?]; congruence|by intros ->].
Qed.

Lemma elem_of_put from to node p :
  named to → p ∈ (Delta from to node).1 ↔
  ps_Nodes to !! pe_Node p = Some p ∧ pe_Node p ≠ node ∧ ps_Nodes from !! pe_Node p ≠ Some p.
Proof.
  intros Hn. unfold Delta. cbn [fst]. rewrite sort_by_perm, list_elem_of_omap. split.
  - intros ([name q] & Hq%elem_of_map_to_list & E). pose proof (Hn name q Hq) as En. cbn in En.
    destruct (String.eqb_spec name node) as [|Hne]; [done|].
    destruct (ps_Nodes from !! name) as [old|] eqn:Ho.
    + destruct (Peer_Equal old q) eqn:Eq; [done|]. injection E as <-. rewrite En. repeat split; [done..|].
      rewrite Ho. intros [= ->]. by rewrite (proj2 (Peer_Equal_spec q q)) in Eq.
    + injection E as <-. rewrite En. repeat split; [done..|]. congruence.
  - intros (Hp & Hne & Hf). exists (pe_Node p, p). split; [by apply elem_of_map_to_list|].
    destruct (String.eqb_spec (pe_Node p) node); [done|]. destruct (ps_Nodes from !! pe_Node p) as [old|]; [|done].
    destruct (Peer_Equal old p) eqn:Eq; [|done]. apply Peer_Equal_spec in Eq. congruence.
Qed.

Lemma elem_of_gone from to node name :
  name ∈ (Delta from to node).2 ↔
  is_Some (ps_Nodes from !! name) ∧ name ≠ node ∧ ps_Nodes to !! name = None.
Proof.
  unfold Delta. cbn [snd]. rewrite sort_by_perm, list_elem_of_omap. split.
  - intros ([name' q] & Hq%elem_of_map_to_list & E). destruct (String.eqb_spec name' node); [done|].
    destruct (ps_Nodes to !! name') eqn:Et; [done|]. injection E as <-. eauto.
  - intros ([q Hq] & Hne & Ht). exists (name, q). split; [by apply elem_of_map_to_list|].
    destruct (String.eqb_spec name node); [done|]. by rewrite Ht.
Qed.

Lemma lookup_put ps (m : gmap string Peer) p :
  p ∈ ps → (∀ q, q ∈ ps → pe_Node q = pe_Node p → q = p) →
  foldr (λ p, <[pe_Node p := p]>) m ps !! pe_Node p = Some p.
Proof.
  induction ps as [|q ps IH]; [intros []%not_elem_of_nil|]. intros Hp Hu. cbn.
  destruct (decide (pe_Node q = pe_Node p)) as [E|Hne].
  - rewrite (Hu q) by (done || by left). by rewrite lookup_insert_eq.
  - rewrite lookup_insert_ne by done. apply IH; [|intros; apply Hu; [by right|done]].
    apply elem_of_cons in Hp as [->|?]; done.
Qed.

Lemma lookup_unput ps (m : gmap string Peer) name :
  (∀ q, q ∈ ps → pe_Node q ≠ name) → foldr (λ p, <[pe_Node p := p]>) m ps !! name = m !! name.
Proof.
  induction ps as [|q ps IH]; intros Hu; [done|]. cbn. rewrite lookup_insert_ne by (apply Hu; by left).
  apply IH. intros. apply Hu. by right.
Qed.

Lemma lookup_gone names (m : gmap string Peer) name :
  foldr delete m names !! name = if decide (name ∈ names) then None else m !! name.
Proof.
  induction names as [|n names IH]; cbn; [by rewrite decide_False by apply not_elem_of_nil|].
  destruct (decide (n = name)) as [->|Hne].
  - by rewrite lookup_delete_eq, decide_True by (by left).
  - rewrite lookup_delete_ne, IH by done. destruct (decide (name ∈ names)) as [Hi|Hi].
    + by rewrite decide_True by (by right).
    + rewrite decide_False; [done|]. rewrite elem_of_cons. intros [?|?]; congruence.
Qed.

(** The delta between two versions of the mesh turns a node's peers of
    the first into its peers of the second, and names the node itself in
    neither list. *)
Theorem delta_turns_peers from to node :
  named from → named to →
  apply_delta (Delta from to node) (peers_of from node) = peers_of to node ∧
  (∀ p, p ∈ (Delta from to node).1 → pe_Node p ≠ node) ∧ node ∉ (Delta from to node).2.
Proof.
  intros Hf Ht. split; [|split; [by intros p (_ & ? & _)%elem_of_put|by intros (_ & ? & _)%elem_of_gone]].
  apply map_eq. intros name. unfold apply_delta. rewrite lookup_gone. case_decide as Hg.
  - apply elem_of_gone in Hg as (_ & Hne & Ht'). unfold peers_of. by rewrite lookup_delete_ne.
  - destruct (decide (name = node)) as [->|Hne].
    { unfold peers_of. rewrite lookup_unput, !lookup_delete_eq; [done|]. by intros q (_ & ? & _)%elem_of_put. }
    unfold peers_of. rewrite lookup_delete_ne by done.
    destruct (ps_Nodes to !! name) as [p|] eqn:Hp.
    + pose proof (Ht name p Hp) as En. cbn in En. destruct (decide (ps_Nodes from !! name = Some p)) as [Hsame|Hdiff].
      * rewrite lookup_unput; [by rewrite lookup_delete_ne|]. intros q (Hq & _ & Hq')%elem_of_put E; [|done]. subst. congruence.
      * subst name. apply lookup_put; [by apply elem_of_put|]. intros q (Hq & _)%elem_of_put E; [congruence|done].
    + rewrite lookup_unput; [|intros q (Hq & _)%elem_of_put E; [congruence|done]].
      rewrite lookup_delete_ne by done. destruct (ps_Nodes from !! name) eqn:E; [|done].
      exfalso. apply Hg, elem_of_gone. eauto.
Qed.

Definition ex_peer (node endpoint : string) : Peer := MkPeer node [1] endpoint "p".

Definition ex_from : Peers := MkPeers 1 (<["a" := ex_peer "a" "e"]> (<["b" := ex_peer "b" "e"]> ∅))%string.
Definition ex_to : Peers := MkPeers 2 (<["b" := ex_peer "b" "f"]> (<["c" := ex_peer "c" "e"]> ∅))%string.

Lemma delta_turns_peers_witness :
  Delta ex_from ex_to "c" = ([ex_peer "b" "f"], ["a"%string]) ∧
  apply_delta (Delta ex_from ex_to "c") (peers_of ex_from "c") = peers_of ex_to "c".
Proof.
  split; [vm_compute; reflexivity|]. apply (delta_turns_peers ex_from ex_to "c").
  - apply map_Forall_insert_2; [done|]. apply map_Forall_insert_2; [done|]. apply map_Forall_empty.
  - apply map_Forall_insert_2; [done|]. apply map_Forall_insert_2; [done|]. apply map_Forall_empty.
Defined.
