(* ===== verification/Wg.v ===== *)
(** * The netlink messages of the WireGuard device (ingress/wg)

    ferun-ingress sets up its WireGuard device in the kernel over netlink:
    requests and answers are byte strings of nested attributes, in the host's
    byte order ([little]).  The writers of attrs.go and encode.go are functions
    on the bytes written so far, the parsers return an error or a value.  What
    the messages mean to their reader is proved in [WgSync]. *)

From S2P Require Import Prelude Mesh.

(** ** Numbers as bytes *)

Fixpoint le_put (n : nat) (z : Z) : list Z :=
  match n with O => [] | S n' => z mod 256 :: le_put n' (z / 256) end.

Fixpoint le_get (b : list Z) : Z :=
  match b with [] => 0 | x :: b' => x + 256 * le_get b' end.

(** [binary.BigEndian]. *)
Definition be_put (n : nat) (z : Z) : list Z := reverse (le_put n z).
Definition be_get (b : list Z) : Z := le_get (reverse b).

Definition len (b : list Z) : Z := Z.of_nat (length b).

(** [b[i:i+n]]. *)
Definition slice (i n : nat) (b : list Z) : list Z := take n (drop i b).

(** A string's bytes, and back. *)
Fixpoint str_bytes (s : string) : list Z :=
  match s with EmptyString => [] | String c s' => byteZ c :: str_bytes s' end.

Fixpoint bytes_str (b : list Z) : string :=
  match b with [] => "" | x :: b' => String (Ascii.ascii_of_N (Z.to_N x)) (bytes_str b') end.

(** ** The kernel's constants *)

Definition nlmsgHdrLen : nat := 16.
Definition nlaHdrLen : nat := 4.
Definition nlmFRequest : Z := 1.
Definition nlmFAck : Z := 4.
Definition nlmFDump : Z := 0x300.
Definition nlmFReplace : Z := 0x100.
Definition nlmFExcl : Z := 0x200.
Definition nlmFCreate : Z := 0x400.
Definition nlmFCapped : Z := 0x100.
Definition nlmFAckTLVs : Z := 0x200.
Definition nlaFNested : Z := 0x8000.
Definition nlaTypeMask : Z := 0x3fff.
Definition nlmsgerrAttrMsg : Z := 1.

Definition afUnspec : Z := 0.
Definition afInet : Z := 2.
Definition afInet6 : Z := 10.

Definition rtmNewLink : Z := 16.
Definition rtmDelLink : Z := 17.
Definition rtmGetLink : Z := 18.
Definition rtmNewAddr : Z := 20.
Definition rtmDelAddr : Z := 21.
Definition rtmGetAddr : Z := 22.
Definition rtmNewRoute : Z := 24.
Definition ifinfomsgLen : nat := 16.
Definition ifaddrmsgLen : nat := 8.
Definition iffUp : Z := 1.
Definition iflaIfname : Z := 3.
Definition iflaMTU : Z := 4.
Definition iflaLinkinfo : Z := 18.
Definition iflaNetNsFD : Z := 28.
Definition iflaInfoKind : Z := 1.
Definition ifaAddress : Z := 1.
Definition ifaLocal : Z := 2.
Definition ifaFlags : Z := 8.
Definition ifaFNodad : Z := 2.
Definition rtaDst : Z := 1.
Definition rtaOif : Z := 4.
Definition rtaPrefsrc : Z := 7.
Definition rtaMetrics : Z := 8.
Definition rtaxMTU : Z := 2.
Definition rtTableMain : Z := 254.
Definition rtprotStatic : Z := 4.
Definition rtScopeUniverse : Z := 0.
Definition rtScopeLink : Z := 253.
Definition rtScopeHost : Z := 254.
Definition rtnUnicast : Z := 1.

Definition genlHdrLen : nat := 4.
Definition genlIDCtrl : Z := 0x10.
Definition genlCtrlVersion : Z := 2.
Definition ctrlCmdGetFamily : Z := 3.
Definition ctrlAttrFamilyID : Z := 1.
Definition ctrlAttrFamilyName : Z := 2.

Definition wgGenlVersion : Z := 1.
Definition wgCmdGetDevice : Z := 0.
Definition wgCmdSetDevice : Z := 1.
Definition wgLinkKind : string := "wireguard".
Definition wgdeviceAIfindex : Z := 1.
Definition wgdeviceAIfname : Z := 2.
Definition wgdeviceAPrivateKey : Z := 3.
Definition wgdeviceAPublicKey : Z := 4.
Definition wgdeviceAListenPort : Z := 6.
Definition wgdeviceAPeers : Z := 8.
Definition wgpeerAPublicKey : Z := 1.
Definition wgpeerAFlags : Z := 3.
Definition wgpeerAEndpoint : Z := 4.
Definition wgpeerAKeepalive : Z := 5.
Definition wgpeerALastHandshakeTime : Z := 6.
Definition wgpeerARxBytes : Z := 7.
Definition wgpeerATxBytes : Z := 8.
Definition wgpeerAAllowedips : Z := 9.
Definition wgpeerFRemoveMe : Z := 1.
Definition wgpeerFReplaceAllowedips : Z := 2.
Definition wgallowedipAFamily : Z := 1.
Definition wgallowedipAIpaddr : Z := 2.
Definition wgallowedipACidrMask : Z := 3.

Definition maxMessage : Z := 32 * 1024.
Definition KeyLen : nat := 32.

(** ** The device's data (types.go) *)

(** A key is its bytes. *)
Definition Key : Type := list Z.

(** [netip.AddrPort]; only an IPv6 address has a zone. *)
Record AddrPort := MkAddrPort { ap_Addr : Addr; ap_Zone : string; ap_Port : Z }.

Definition noAddrPort : AddrPort := MkAddrPort NoAddr "" 0.

Record WgPeer := MkWgPeer {
  wp_PublicKey : Key; wp_Endpoint : AddrPort; wp_AllowedIPs : list Prefix; wp_Keepalive : Duration
}.

Record PeerState := MkPeerState {
  st_Peer : WgPeer; st_LastHandshake : Time; st_RxBytes : Z; st_TxBytes : Z
}.

Record Device := MkDevice {
  dv_Name : string; dv_Index : Z; dv_PublicKey : Key; dv_ListenPort : Z; dv_Peers : list PeerState
}.

Record Link := MkLink { ln_Index : Z; ln_Name : string; ln_Kind : string; ln_MTU : Z; ln_Up : bool }.

Record WgRoute := MkWgRoute { ro_Dst : Prefix; ro_Index : Z; ro_Src : Addr; ro_MTU : Z }.

#[export] Instance eta_WgPeer : Eta WgPeer := λ p,
  MkWgPeer (wp_PublicKey p) (wp_Endpoint p) (wp_AllowedIPs p) (wp_Keepalive p).
#[export] Instance eta_PeerState : Eta PeerState := λ p,
  MkPeerState (st_Peer p) (st_LastHandshake p) (st_RxBytes p) (st_TxBytes p).
#[export] Instance eta_Device : Eta Device := λ d,
  MkDevice (dv_Name d) (dv_Index d) (dv_PublicKey d) (dv_ListenPort d) (dv_Peers d).
#[export] Instance eta_Link : Eta Link := λ l,
  MkLink (ln_Index l) (ln_Name l) (ln_Kind l) (ln_MTU l) (ln_Up l).

#[export] Instance Addr_eq_dec : EqDecision Addr.
Proof. solve_decision. Defined.
#[export] Instance Prefix_eq_dec : EqDecision Prefix.
Proof. solve_decision. Defined.
#[export] Instance AddrPort_eq_dec : EqDecision AddrPort.
Proof. solve_decision. Defined.
#[export] Instance WgPeer_eq_dec : EqDecision WgPeer.
Proof. solve_decision. Defined.

(** ** Addresses (net/netip) *)

Definition is4 (a : Addr) : bool := match a with Addr4 _ => true | _ => false end.
Definition valid_addr (a : Addr) : bool := match a with NoAddr => false | _ => true end.

(** [Addr.Unmap]: an IPv4 address mapped into IPv6 is that IPv4 address. *)
Definition Unmap (a : Addr) : Addr :=
  match a with
  | Addr6 z => if z / 2 ^ 32 =? 0xffff then Addr4 (z mod 2 ^ 32) else a
  | _ => a
  end.

(** [Addr.AsSlice] and [netip.AddrFromSlice]. *)
Definition AsSlice (a : Addr) : list Z :=
  match a with NoAddr => [] | Addr4 z => be_put 4 z | Addr6 z => be_put 16 z end.

Definition AddrFromSlice (b : list Z) : option Addr :=
  if (length b =? 4)%nat then Some (Addr4 (be_get b))
  else if (length b =? 16)%nat then Some (Addr6 (be_get b))
  else None.

(** [netip.PrefixFrom] and [Prefix.Masked]; [Bits] of an invalid prefix is
    -1. *)
Definition PrefixFrom (a : Addr) (bits : Z) : Prefix :=
  MkPrefix a (if valid_addr a && (0 <=? bits) && (bits <=? BitLen a) then bits else -1).

Definition Masked (p : Prefix) : Prefix :=
  if IsValid p then MkPrefix (masked_addr p) (pf_Bits p) else MkPrefix NoAddr (-1).

Definition IsLoopback (a : Addr) : bool :=
  match Unmap a with Addr4 z => z / 2 ^ 24 =? 127 | Addr6 z => z =? 1 | NoAddr => false end.

Definition IsLinkLocalUnicast (a : Addr) : bool :=
  match Unmap a with
  | Addr4 z => z / 2 ^ 16 =? 169 * 256 + 254
  | Addr6 z => z / 2 ^ 118 =? 0xfe80 / 2 ^ 6
  | NoAddr => false
  end.

(** [strconv.ParseUint(s, 10, 32)]. *)
Fixpoint parse_digits (acc : Z) (s : string) : option Z :=
  match s with
  | EmptyString => Some acc
  | String c s' =>
      let d := byteZ c - 48 in
      if (0 <=? d) && (d <=? 9) && (acc * 10 + d <? 2 ^ 32) then parse_digits (acc * 10 + d) s' else None
  end.

Definition ParseUint32 (s : string) : option Z := if String.eqb s "" then None else parse_digits 0 s.

(** ** Errors *)

Inductive wg_error : Type :=
| TruncatedAttr (left : nat) | AttrLength (l : Z) (left : nat)
| TruncatedMessage (left : nat) | MessageLength (l : Z) (left : nat)
| SizeError (typ : Z) (have want : nat) | AddrSize (typ : Z) (have : nat)
| ShortMessage (have : nat) | SockaddrSize (have : nat) | SockaddrFamily (family : Z)
| NotPrefix (p : Prefix) | NotLink (typ : Z) (have : nat) | NoFamily
| PeerTooLarge | BadName (name : string) | ListedTwice (k : Key).

(** A loop that returns at its first error. *)
Fixpoint fold_result {A S E} (f : S → A → result E S) (s : S) (l : list A) : result E S :=
  match l with [] => Ok s | x :: l' => s' ← f s x; fold_result f s' l' end.

Section netlink.
Context (little : bool).

(** [ne], the host's byte order. *)
Definition ne_put (n : nat) (z : Z) : list Z := if little then le_put n z else be_put n z.
Definition ne_get (b : list Z) : Z := if little then le_get b else be_get b.

Definition Uint16 (b : list Z) : Z := ne_get (take 2 b).
Definition Uint32 (b : list Z) : Z := ne_get (take 4 b).
Definition Uint64 (b : list Z) : Z := ne_get (take 8 b).

Definition align (n : Z) : Z := Z.land (n + 3) (Z.lnot 3).

(** ** The writer (attrs.go) *)

(** A writer is the bytes it has written. *)
Definition writer : Type := list Z.

Definition pad (w : writer) : writer := w ++ replicate ((4 - length w mod 4) mod 4) 0.

Definition newMessage (typ flags : Z) (fixed : list Z) : writer :=
  pad (replicate 4 0 ++ ne_put 2 typ ++ ne_put 2 flags ++ replicate 8 0 ++ fixed).

Definition message (w : writer) : list Z := ne_put 4 (len w) ++ drop 4 w.

Definition attr (typ : Z) (v : list Z) (w : writer) : writer :=
  pad (w ++ ne_put 2 (Z.of_nat nlaHdrLen + len v) ++ ne_put 2 typ ++ v).

Definition str (typ : Z) (s : string) (w : writer) : writer := attr typ (str_bytes s ++ [0]) w.
Definition u8 (typ v : Z) (w : writer) : writer := attr typ [v mod 256] w.
Definition u16 (typ v : Z) (w : writer) : writer := attr typ (ne_put 2 v) w.
Definition u32 (typ v : Z) (w : writer) : writer := attr typ (ne_put 4 v) w.
Definition ip (typ : Z) (a : Addr) (w : writer) : writer := attr typ (AsSlice a) w.
Definition raw (b : list Z) (w : writer) : writer := w ++ b.

Definition nest (typ : Z) (fill : writer → writer) (w : writer) : writer :=
  let start := length w in
  let w' := fill (w ++ [0; 0; 0; 0]) in
  take start w' ++ ne_put 2 (len w' - Z.of_nat start) ++ ne_put 2 (Z.lor typ nlaFNested) ++ drop (start + 4) w'.

(** ** The parsers of attributes and messages *)

Record nlattr := MkAttr { at_typ : Z; at_data : list Z }.

(** [parseAttrs]: every attribute takes at least its header, so the bytes'
    length is fuel enough. *)
Fixpoint parse_attrs (fuel : nat) (b : list Z) : result wg_error (list nlattr) :=
  match b, fuel with
  | [], _ => Ok []
  | _, O => Ok []
  | _, S fuel' =>
      if (length b <? nlaHdrLen)%nat then Err (TruncatedAttr (length b)) else
      let l := Uint16 b in
      if (l <? Z.of_nat nlaHdrLen) || (len b <? l) then Err (AttrLength l (length b)) else
      let a := MkAttr (Z.land (Uint16 (drop 2 b)) nlaTypeMask) (slice nlaHdrLen (Z.to_nat l - nlaHdrLen) b) in
      rest ← parse_attrs fuel' (drop (Z.to_nat (Z.min (align l) (len b))) b);
      Ok (a :: rest)
  end.

Definition parseAttrs (b : list Z) : result wg_error (list nlattr) := parse_attrs (length b) b.

Definition sized {A} (n : nat) (get : list Z → A) (a : nlattr) : result wg_error A :=
  if (length (at_data a) =? n)%nat then Ok (get (at_data a))
  else Err (SizeError (at_typ a) (length (at_data a)) n).

Definition attr_u8 : nlattr → result wg_error Z := sized 1 (λ b, nth 0 b 0).
Definition attr_u16 : nlattr → result wg_error Z := sized 2 Uint16.
Definition attr_u32 : nlattr → result wg_error Z := sized 4 Uint32.
Definition attr_u64 : nlattr → result wg_error Z := sized 8 Uint64.
Definition attr_key : nlattr → result wg_error Key := sized KeyLen (λ b, b).

(** A string attribute without its trailing NULs. *)
Fixpoint drop_zeros (b : list Z) : list Z :=
  match b with x :: b' => if x =? 0 then drop_zeros b' else b | [] => [] end.

Definition attr_str (a : nlattr) : string := bytes_str (reverse (drop_zeros (reverse (at_data a)))).

Definition attr_ip (a : nlattr) : result wg_error Addr :=
  match AddrFromSlice (at_data a) with
  | Some addr => Ok addr
  | None => Err (AddrSize (at_typ a) (length (at_data a)))
  end.

Record nlmessage := MkMessage { ms_typ : Z; ms_flags : Z; ms_seq : Z; ms_pid : Z; ms_data : list Z }.

Fixpoint parse_messages (fuel : nat) (b : list Z) : result wg_error (list nlmessage) :=
  match b, fuel with
  | [], _ => Ok []
  | _, O => Ok []
  | _, S fuel' =>
      if (length b <? nlmsgHdrLen)%nat then Err (TruncatedMessage (length b)) else
      let l := Uint32 b in
      if (l <? Z.of_nat nlmsgHdrLen) || (len b <? l) then Err (MessageLength l (length b)) else
      let m := MkMessage (Uint16 (drop 4 b)) (Uint16 (drop 6 b)) (Uint32 (drop 8 b)) (Uint32 (drop 12 b))
                 (slice nlmsgHdrLen (Z.to_nat l - nlmsgHdrLen) b) in
      rest ← parse_messages fuel' (drop (Z.to_nat (Z.min (align l) (len b))) b);
      Ok (m :: rest)
  end.

Definition parseMessages (b : list Z) : result wg_error (list nlmessage) := parse_messages (length b) b.

(** [int32(z)] of a [uint32]. *)
Definition int32 (z : Z) : Z := if z <? 2 ^ 31 then z else z - 2 ^ 32.

(** [parseError]: the code and the text of an acknowledgement. *)
Definition parseError (m : nlmessage) : result wg_error (Z * string) :=
  let data := ms_data m in
  if (length data <? 4 + nlmsgHdrLen)%nat then Err (ShortMessage (length data)) else
  let code := int32 (Uint32 data) in
  if Z.land (ms_flags m) nlmFAckTLVs =? 0 then Ok (code, ""%string) else
  let start := if Z.land (ms_flags m) nlmFCapped =? 0 then align (4 + Uint32 (drop 4 data))
               else 4 + Z.of_nat nlmsgHdrLen in
  if len data <? start then Ok (code, ""%string) else
  match parseAttrs (drop (Z.to_nat start) data) with
  | Err _ => Ok (code, ""%string)
  | Ok attrs =>
      match find (λ a, at_typ a =? nlmsgerrAttrMsg) attrs with
      | Some a => Ok (code, attr_str a)
      | None => Ok (code, ""%string)
      end
  end.

(** ** Socket addresses *)

Definition sockaddr (ep : AddrPort) : list Z :=
  let a := Unmap (ap_Addr ep) in
  let zone := if decide (a = ap_Addr ep) then ap_Zone ep else ""%string in
  if is4 a then ne_put 2 afInet ++ be_put 2 (ap_Port ep) ++ AsSlice a ++ replicate 8 0
  else ne_put 2 afInet6 ++ be_put 2 (ap_Port ep) ++ replicate 4 0 ++ be_put 16 (As16 a)
         ++ match ParseUint32 zone with Some id => ne_put 4 id | None => replicate 4 0 end.

Definition parseSockaddr (b : list Z) : result wg_error AddrPort :=
  if (length b <? 4)%nat then Err (SockaddrSize (length b)) else
  let port := be_get (slice 2 2 b) in
  let family := Uint16 b in
  if family =? afInet then
    if (length b <? 8)%nat then Err (SockaddrSize (length b))
    else Ok (MkAddrPort (Addr4 (be_get (slice 4 4 b))) "" port)
  else if family =? afInet6 then
    if (length b <? 28)%nat then Err (SockaddrSize (length b))
    else
      let id := Uint32 (drop 24 b) in
      Ok (MkAddrPort (Addr6 (be_get (slice 8 16 b))) (if id =? 0 then ""%string else pretty id) port)
  else Err (SockaddrFamily family).

Definition keepaliveSeconds (d : Duration) : Z := Z.min (Z.max (Z.quot d Second) 0) 65535.

(** ** Peers *)

Definition unmap (ep : AddrPort) : AddrPort :=
  let a := Unmap (ap_Addr ep) in
  MkAddrPort a (if decide (a = ap_Addr ep) then ap_Zone ep else ""%string) (ap_Port ep).

Definition prefixSet (ps : list Prefix) : list Prefix := remove_dups (Masked <$> ps).

Definition samePrefixes (a b : list Prefix) : bool :=
  (length (prefixSet a) =? length (prefixSet b))%nat &&
  forallb (λ p, bool_decide (p ∈ prefixSet b)) (prefixSet a).

Definition samePeer (have want : WgPeer) : bool :=
  if valid_addr (ap_Addr (wp_Endpoint want)) && negb (bool_decide (unmap (wp_Endpoint have) = unmap (wp_Endpoint want)))
  then false
  else if negb (keepaliveSeconds (wp_Keepalive have) =? keepaliveSeconds (wp_Keepalive want)) then false
  else samePrefixes (wp_AllowedIPs have) (wp_AllowedIPs want).

Definition differs (current : gmap Key WgPeer) (p : WgPeer) : bool :=
  match current !! wp_PublicKey p with Some h => negb (samePeer h p) | None => true end.

Definition current_peers (have : list PeerState) : gmap Key WgPeer :=
  foldl (λ m p, <[wp_PublicKey (st_Peer p) := st_Peer p]> m) ∅ have.

Definition diffPeers (have : list PeerState) (want : list WgPeer) : list Key * list WgPeer :=
  let wanted := list_to_set (C := gset Key) (wp_PublicKey <$> want) in
  (filter (λ k, k ∉ wanted) ((λ p, wp_PublicKey (st_Peer p)) <$> have),
   filter (λ p, differs (current_peers have) p = true) want).

Definition genlHeader (cmd version : Z) : list Z := [cmd; version; 0; 0].

Definition peersMessage (family : Z) (name : string) (entries : list Z) : list Z :=
  let w := newMessage family (Z.lor nlmFRequest nlmFAck) (genlHeader wgCmdSetDevice wgGenlVersion) in
  message (nest wgdeviceAPeers (raw entries) (str wgdeviceAIfname name w)).

Definition removeEntry (k : Key) : list Z :=
  nest 0 (λ w, u32 wgpeerAFlags wgpeerFRemoveMe (attr wgpeerAPublicKey k w)) [].

(** [family] of an address. *)
Definition addr_family (a : Addr) : Z := if is4 a then afInet else afInet6.

Definition allowedEntry (p : Prefix) : writer → writer :=
  let p := Masked p in
  nest 0 (λ w, u8 wgallowedipACidrMask (pf_Bits p)
                 (ip wgallowedipAIpaddr (pf_Addr p)
                    (u16 wgallowedipAFamily (addr_family (pf_Addr p)) w))).

Definition peerEntry (p : WgPeer) : result wg_error (list Z) :=
  match find (λ pr, negb (IsValid pr)) (wp_AllowedIPs p) with
  | Some pr => Err (NotPrefix pr)
  | None =>
      Ok (nest 0 (λ w,
        let w := attr wgpeerAPublicKey (wp_PublicKey p) w in
        let w := u32 wgpeerAFlags wgpeerFReplaceAllowedips w in
        let w := if valid_addr (ap_Addr (wp_Endpoint p))
                 then attr wgpeerAEndpoint (sockaddr (wp_Endpoint p)) w else w in
        let w := u16 wgpeerAKeepalive (keepaliveSeconds (wp_Keepalive p)) w in
        nest wgpeerAAllowedips (λ w, foldl (λ w pr, allowedEntry pr w) w (wp_AllowedIPs p)) w) [])
  end.

(** The entries of [splitPeerMessages], removals first. *)
Definition peer_entries (remove : list Key) (set : list WgPeer) : result wg_error (list (list Z)) :=
  fold_result (λ es p, e ← peerEntry p; Ok (es ++ [e])) (removeEntry <$> remove) set.

(** One entry of its loop: the messages that are full and the batch. *)
Definition batch_entry (family : Z) (name : string) (s : list (list Z) * list Z) (e : list Z)
    : result wg_error (list (list Z) * list Z) :=
  let empty := len (peersMessage family name []) in
  let '(msgs, batch) := s in
  if maxMessage <? empty + len e then Err PeerTooLarge
  else if (0 <? len batch) && (maxMessage <? empty + len batch + len e)
  then Ok (msgs ++ [peersMessage family name batch], e)
  else Ok (msgs, batch ++ e).

Definition splitPeerMessages (family : Z) (name : string) (remove : list Key) (set : list WgPeer)
    : result wg_error (list (list Z)) :=
  entries ← peer_entries remove set;
  s ← fold_result (batch_entry family name) ([], []) entries;
  let '(msgs, batch) := s in
  Ok (if 0 <? len batch then msgs ++ [peersMessage family name batch] else msgs).

(** ** The requests (encode.go) *)

Definition ifinfomsg (index flags change : Z) : list Z :=
  [afUnspec; 0; 0; 0] ++ ne_put 4 index ++ ne_put 4 flags ++ ne_put 4 change.

Definition ifaddrmsg (fam prefixLen flags scope index : Z) : list Z :=
  [fam; prefixLen; flags; scope] ++ ne_put 4 index.

(** [checkName]: a link's name as the kernel takes it. *)
Definition name_char (c : Ascii.ascii) : bool :=
  negb (Ascii.eqb c "/"%char || Ascii.eqb c ":"%char || (byteZ c <=? 32) || (byteZ c =? 127)).

Definition checkName (name : string) : bool :=
  negb (String.eqb name "") && (String.length name <=? 15)%nat
  && negb (String.eqb name ".") && negb (String.eqb name "..") && string_forallb name_char name.

Definition ack : Z := Z.lor nlmFRequest nlmFAck.

Definition newLinkMessage (name : string) : list Z :=
  let w := newMessage rtmNewLink (Z.lor (Z.lor ack nlmFCreate) nlmFExcl) (ifinfomsg 0 0 0) in
  message (nest iflaLinkinfo (str iflaInfoKind wgLinkKind) (str iflaIfname name w)).

Definition getLinkMessage (name : string) : list Z :=
  message (str iflaIfname name (newMessage rtmGetLink ack (ifinfomsg 0 0 0))).

Definition setMTUMessage (index mtu : Z) : list Z :=
  message (u32 iflaMTU mtu (newMessage rtmNewLink ack (ifinfomsg index 0 0))).

Definition setUpMessage (index : Z) : list Z :=
  message (newMessage rtmNewLink ack (ifinfomsg index iffUp iffUp)).

Definition delLinkMessage (index : Z) : list Z :=
  message (newMessage rtmDelLink ack (ifinfomsg index 0 0)).

Definition moveLinkMessage (index fd : Z) : list Z :=
  message (u32 iflaNetNsFD fd (newMessage rtmNewLink ack (ifinfomsg index 0 0))).

Definition addrScope (a : Addr) : Z :=
  if IsLoopback a then rtScopeHost else if IsLinkLocalUnicast a then rtScopeLink else rtScopeUniverse.

Definition replaceAddrMessage (index : Z) (p : Prefix) : list Z :=
  let a := pf_Addr p in
  let w := newMessage rtmNewAddr (Z.lor (Z.lor ack nlmFCreate) nlmFReplace)
             (ifaddrmsg (addr_family a) (pf_Bits p mod 256) ifaFNodad (addrScope a) index) in
  message (u32 ifaFlags ifaFNodad (ip ifaAddress a (ip ifaLocal a w))).

Definition delAddrMessage (index : Z) (p : Prefix) : list Z :=
  let a := pf_Addr p in
  let w := newMessage rtmDelAddr ack (ifaddrmsg (addr_family a) (pf_Bits p mod 256) 0 0 index) in
  message (ip ifaAddress a (ip ifaLocal a w)).

Definition getAddrMessage (index : Z) : list Z :=
  message (newMessage rtmGetAddr (Z.lor nlmFRequest nlmFDump) (ifaddrmsg afUnspec 0 0 0 index)).

Definition replaceRouteMessage (r : WgRoute) : list Z :=
  let dst := Masked (ro_Dst r) in
  let scope := if is4 (pf_Addr dst) then rtScopeLink else rtScopeUniverse in
  let hdr := [addr_family (pf_Addr dst); pf_Bits dst mod 256; 0; 0;
              rtTableMain; rtprotStatic; scope; rtnUnicast; 0; 0; 0; 0] in
  let w := newMessage rtmNewRoute (Z.lor (Z.lor ack nlmFCreate) nlmFReplace) hdr in
  let w := u32 rtaOif (ro_Index r) (ip rtaDst (pf_Addr dst) w) in
  let w := if valid_addr (ro_Src r) then ip rtaPrefsrc (ro_Src r) w else w in
  let w := if 0 <? ro_MTU r then nest rtaMetrics (u32 rtaxMTU (ro_MTU r)) w else w in
  message w.

Definition getFamilyMessage (name : string) : list Z :=
  message (str ctrlAttrFamilyName name
    (newMessage genlIDCtrl ack (genlHeader ctrlCmdGetFamily genlCtrlVersion))).

Definition setDeviceMessage (family : Z) (name : string) (privateKey : Key) (listenPort : Z) : list Z :=
  let w := newMessage family ack (genlHeader wgCmdSetDevice wgGenlVersion) in
  message (u16 wgdeviceAListenPort listenPort
    (attr wgdeviceAPrivateKey privateKey (str wgdeviceAIfname name w))).

Definition getDeviceMessage (family : Z) (name : string) : list Z :=
  message (str wgdeviceAIfname name
    (newMessage family (Z.lor nlmFRequest nlmFDump) (genlHeader wgCmdGetDevice wgGenlVersion))).

(** ** The answers *)

Definition link_attr (l : Link) (a : nlattr) : result wg_error Link :=
  if at_typ a =? iflaIfname then Ok (l <| ln_Name := attr_str a |>)
  else if at_typ a =? iflaMTU then mtu ← attr_u32 a; Ok (l <| ln_MTU := mtu |>)
  else if at_typ a =? iflaLinkinfo then
    info ← parseAttrs (at_data a);
    Ok (foldl (λ l i, if at_typ i =? iflaInfoKind then l <| ln_Kind := attr_str i |> else l) l info)
  else Ok l.

Definition parseLink (m : nlmessage) : result wg_error Link :=
  let data := ms_data m in
  if negb (ms_typ m =? rtmNewLink) || (length data <? ifinfomsgLen)%nat
  then Err (NotLink (ms_typ m) (length data)) else
  let l := MkLink (int32 (Uint32 (drop 4 data))) "" "" 0 (negb (Z.land (Uint32 (drop 8 data)) iffUp =? 0)) in
  attrs ← parseAttrs (drop ifinfomsgLen data);
  fold_result link_attr l attrs.

(** The local address and the address of an RTM_NEWADDR. *)
Definition addr_attr (s : Addr * Addr) (a : nlattr) : result wg_error (Addr * Addr) :=
  if at_typ a =? ifaLocal then x ← attr_ip a; Ok (x, s.2)
  else if at_typ a =? ifaAddress then x ← attr_ip a; Ok (s.1, x)
  else Ok s.

Definition parse_addr (index : Z) (out : list Prefix) (m : nlmessage) : result wg_error (list Prefix) :=
  let data := ms_data m in
  if negb (ms_typ m =? rtmNewAddr) then Ok out
  else if (length data <? ifaddrmsgLen)%nat then Err (ShortMessage (length data))
  else if negb (Uint32 (drop 4 data) =? index) then Ok out
  else
    attrs ← parseAttrs (drop ifaddrmsgLen data);
    s ← fold_result addr_attr (NoAddr, NoAddr) attrs;
    let local := if valid_addr s.1 then s.1 else s.2 in
    if negb (valid_addr local) then Ok out else
    let p := PrefixFrom local (nth 1 data 0) in
    if IsValid p then Ok (out ++ [p]) else Err (NotPrefix p).

Definition parseAddrs (msgs : list nlmessage) (index : Z) : result wg_error (list Prefix) :=
  fold_result (parse_addr index) [] msgs.

Fixpoint parseFamily (msgs : list nlmessage) : result wg_error Z :=
  match msgs with
  | [] => Err NoFamily
  | m :: rest =>
      let data := ms_data m in
      if negb (ms_typ m =? genlIDCtrl) || (length data <? genlHdrLen)%nat then parseFamily rest else
      attrs ← parseAttrs (drop genlHdrLen data);
      match find (λ a, at_typ a =? ctrlAttrFamilyID) attrs with
      | Some a => attr_u16 a
      | None => parseFamily rest
      end
  end.

Definition allowed_attr (s : Addr * Z) (a : nlattr) : result wg_error (Addr * Z) :=
  if at_typ a =? wgallowedipAIpaddr then x ← attr_ip a; Ok (x, s.2)
  else if at_typ a =? wgallowedipACidrMask then n ← attr_u8 a; Ok (s.1, n)
  else Ok s.

Definition parseAllowedIP (b : list Z) : result wg_error Prefix :=
  attrs ← parseAttrs b;
  s ← fold_result allowed_attr (NoAddr, -1) attrs;
  let p := PrefixFrom s.1 s.2 in
  if IsValid p then Ok p else Err (NotPrefix p).

(** [time.Unix] of a kernel timespec; all zeroes are no time. *)
Definition int64 (z : Z) : Z := wrap64 z.

Definition unix_time (sec nsec : Z) : Time :=
  wrap64 (sec + nsec / Second + 62135596800) * Second + nsec mod Second.

Definition peer_attr (p : PeerState) (a : nlattr) : result wg_error PeerState :=
  let t := at_typ a in
  if t =? wgpeerAPublicKey then k ← attr_key a; Ok (p <| st_Peer ::= λ q, q <| wp_PublicKey := k |> |>)
  else if t =? wgpeerAEndpoint then
    ep ← parseSockaddr (at_data a); Ok (p <| st_Peer ::= λ q, q <| wp_Endpoint := ep |> |>)
  else if t =? wgpeerAKeepalive then
    s ← attr_u16 a; Ok (p <| st_Peer ::= λ q, q <| wp_Keepalive := s * Second |> |>)
  else if t =? wgpeerALastHandshakeTime then
    if negb (length (at_data a) =? 16)%nat then Err (SizeError t (length (at_data a)) 16) else
    let sec := int64 (Uint64 (at_data a)) in
    let nsec := int64 (Uint64 (drop 8 (at_data a))) in
    Ok (if negb (sec =? 0) || negb (nsec =? 0) then p <| st_LastHandshake := unix_time sec nsec |> else p)
  else if t =? wgpeerARxBytes then n ← attr_u64 a; Ok (p <| st_RxBytes := n |>)
  else if t =? wgpeerATxBytes then n ← attr_u64 a; Ok (p <| st_TxBytes := n |>)
  else if t =? wgpeerAAllowedips then
    ips ← parseAttrs (at_data a);
    fold_result (λ p i, pr ← parseAllowedIP (at_data i);
                        Ok (p <| st_Peer ::= λ q, q <| wp_AllowedIPs ::= λ l, l ++ [pr] |> |>)) p ips
  else Ok p.

(** The zero values of a key and of a peer. *)
Definition zeroKey : Key := replicate KeyLen 0.
Definition zeroPeer : PeerState := MkPeerState (MkWgPeer zeroKey noAddrPort [] 0) zeroTime 0 0.

Definition parsePeer (b : list Z) : result wg_error PeerState :=
  attrs ← parseAttrs b;
  fold_result peer_attr zeroPeer attrs.

(** A peer of a dump: a key that was there goes on with its allowed IPs. *)
Fixpoint merge_peer (p : PeerState) (ps : list PeerState) : list PeerState :=
  match ps with
  | [] => [p]
  | q :: ps' =>
      if bool_decide (wp_PublicKey (st_Peer q) = wp_PublicKey (st_Peer p))
      then q <| st_Peer ::= λ x, x <| wp_AllowedIPs ::= λ l, l ++ wp_AllowedIPs (st_Peer p) |> |> :: ps'
      else q :: merge_peer p ps'
  end.

Definition device_attr (d : Device) (a : nlattr) : result wg_error Device :=
  let t := at_typ a in
  if t =? wgdeviceAIfindex then n ← attr_u32 a; Ok (d <| dv_Index := n |>)
  else if t =? wgdeviceAIfname then Ok (d <| dv_Name := attr_str a |>)
  else if t =? wgdeviceAPublicKey then k ← attr_key a; Ok (d <| dv_PublicKey := k |>)
  else if t =? wgdeviceAListenPort then n ← attr_u16 a; Ok (d <| dv_ListenPort := n |>)
  else if t =? wgdeviceAPeers then
    peers ← parseAttrs (at_data a);
    fold_result (λ d pa, p ← parsePeer (at_data pa); Ok (d <| dv_Peers ::= merge_peer p |>)) d peers
  else Ok d.

Definition parseDevice (msgs : list nlmessage) : result wg_error Device :=
  fold_result (λ d m,
    let data := ms_data m in
    if (length data <? genlHdrLen)%nat then Err (ShortMessage (length data)) else
    attrs ← parseAttrs (drop genlHdrLen data);
    fold_result device_attr d attrs) (MkDevice "" 0 zeroKey 0 []) msgs.

(** ** Setting the peers (wg_linux.go) *)

(** The first key that is listed twice. *)
Fixpoint listed_twice (seen : gset Key) (ps : list WgPeer) : option Key :=
  match ps with
  | [] => None
  | p :: ps' =>
      if bool_decide (wp_PublicKey p ∈ seen) then Some (wp_PublicKey p)
      else listed_twice ({[wp_PublicKey p]} ∪ seen) ps'
  end.

(** [SetPeers]: the messages it sends to a device that has the peers [have]. *)
Definition SetPeers (family : Z) (name : string) (have : list PeerState) (peers : list WgPeer)
    : result wg_error (list (list Z)) :=
  if negb (checkName name) then Err (BadName name) else
  match listed_twice ∅ peers with
  | Some k => Err (ListedTwice k)
  | None =>
      let '(remove, set) := diffPeers have peers in
      if (length remove =? 0)%nat && (length set =? 0)%nat then Ok []
      else splitPeerMessages family name remove set
  end.
End netlink.
