(* ===== verification/WgSync.v ===== *)
(** * What the WireGuard messages mean (ingress/wg)

    The proofs about [Wg]: the parsers read back what the writers wrote, the
    messages that set a device's peers are within netlink's limits and say
    exactly what [diffPeers] found, and a device that follows them has the
    wanted peers.  The kernel's WireGuard is an interface, [WireGuard]: what an
    entry does to the peers of a device. *)

From S2P Require Import Prelude Mesh Wg.

(** ** Numbers *)

Definition is_bytes (b : list Z) : Prop := Forall (λ x, 0 ≤ x < 256) b.

Lemma length_le_put n z : length (le_put n z) = n.
Proof. revert z. induction n; intros; cbn; auto. Qed.

Lemma le_put_bytes n z : is_bytes (le_put n z).
Proof. revert z. induction n; intros; constructor; [apply Z.mod_pos_bound; lia|apply IHn]. Qed.

Lemma le_get_put n z : le_get (le_put n z) = z mod 256 ^ Z.of_nat n.
Proof.
  revert z. induction n as [|n IH]; intros z; cbn -[Z.pow Z.of_nat]; [by rewrite Z.mod_1_r|].
  rewrite IH, Nat2Z.inj_succ, Z.pow_succ_r by lia. rewrite (Z.rem_mul_r z 256) by lia. done.
Qed.

Lemma le_put_get b : is_bytes b → le_put (length b) (le_get b) = b.
Proof.
  induction 1 as [|x b Hx Hb IH]; [done|]. cbn.
  replace ((x + 256 * le_get b) mod 256) with x by (Z.div_mod_to_equations; lia).
  replace ((x + 256 * le_get b) / 256) with (le_get b) by (Z.div_mod_to_equations; lia).
  by rewrite IH.
Qed.

Lemma length_be_put n z : length (be_put n z) = n.
Proof. unfold be_put. by rewrite length_reverse, length_le_put. Qed.

Lemma be_get_put n z : be_get (be_put n z) = z mod 256 ^ Z.of_nat n.
Proof. unfold be_get, be_put. by rewrite reverse_involutive, le_get_put. Qed.

Lemma be_get_put_small n z : 0 ≤ z < 256 ^ Z.of_nat n → be_get (be_put n z) = z.
Proof. intros. rewrite be_get_put. by rewrite Z.mod_small. Qed.

Lemma bytes_str_bytes s : bytes_str (str_bytes s) = s.
Proof.
  induction s as [|c s IH]; [done|]. cbn. rewrite IH. f_equal. unfold byteZ. by rewrite N2Z.id, Ascii.ascii_N_embedding.
Qed.

Lemma align_quot n : align n = (n + 3) / 4 * 4.
Proof.
  unfold align. rewrite <- Z.ldiff_land. change 3 with (Z.ones 2) at 2. rewrite Z.ldiff_ones_r by lia.
  by rewrite Z.shiftl_mul_pow2, Z.shiftr_div_pow2 by lia.
Qed.

Lemma align_eq n k : (n + k) mod 4 = 0 → 0 ≤ k < 4 → align n = n + k.
Proof. intros Hk Hk'. rewrite align_quot. Z.div_mod_to_equations. lia. Qed.

Lemma align_le n : n ≤ align n.
Proof. rewrite align_quot. Z.div_mod_to_equations. lia. Qed.

Section order.
Context (little : bool).
#[local] Notation ne_put := (ne_put little).
#[local] Notation ne_get := (ne_get little).
#[local] Notation parse_attrs := (parse_attrs little).
#[local] Notation parseAttrs := (parseAttrs little).

Lemma length_ne_put n z : length (ne_put n z) = n.
Proof. unfold Wg.ne_put. destruct little; [apply length_le_put|apply length_be_put]. Qed.

Lemma ne_get_put n z : ne_get (ne_put n z) = z mod 256 ^ Z.of_nat n.
Proof. unfold Wg.ne_get, Wg.ne_put. destruct little; [apply le_get_put|apply be_get_put]. Qed.

Lemma ne_get_put_small n z : 0 ≤ z < 256 ^ Z.of_nat n → ne_get (ne_put n z) = z.
Proof. intros. rewrite ne_get_put. by rewrite Z.mod_small. Qed.

Lemma Uint16_put z r : 0 ≤ z < 65536 → Uint16 little (ne_put 2 z ++ r) = z.
Proof.
  intros. unfold Uint16. rewrite take_app_length' by by rewrite length_ne_put. by apply ne_get_put_small.
Qed.

Lemma Uint32_put z r : 0 ≤ z < 2 ^ 32 → Uint32 little (ne_put 4 z ++ r) = z.
Proof.
  intros. unfold Uint32. rewrite take_app_length' by by rewrite length_ne_put. by apply ne_get_put_small.
Qed.

(** ** Attributes *)

Definition aligned (b : list Z) : Prop := (length b mod 4 = 0)%nat.

Definition padding (n : nat) : nat := (4 - n mod 4) mod 4.

(** An attribute as it is laid out. *)
Definition chunk (typ : Z) (v : list Z) : list Z :=
  ne_put 2 (4 + len v) ++ ne_put 2 typ ++ v ++ replicate (padding (length v)) 0.

Lemma padding_aligned n : ((n + padding n) mod 4 = 0)%nat.
Proof.
  unfold padding. rewrite Nat.Div0.add_mod. pose proof (Nat.mod_upper_bound n 4).
  rewrite Nat.Div0.mod_mod. by destruct (n mod 4)%nat as [|[|[|[|?]]]]; [..|lia].
Qed.

Lemma padding_add n m : (n mod 4 = 0)%nat → padding (n + m) = padding m.
Proof. intros Hn. unfold padding. by rewrite Nat.Div0.add_mod, Hn, Nat.add_0_l, Nat.Div0.mod_mod. Qed.

Lemma padding_lt n : (padding n < 4)%nat.
Proof. apply Nat.mod_upper_bound. lia. Qed.

Lemma aligned_app a b : aligned a → aligned b → aligned (a ++ b).
Proof. unfold aligned. intros Ha Hb. by rewrite length_app, Nat.Div0.add_mod, Ha, Hb. Qed.

Lemma length_chunk typ v : length (chunk typ v) = (4 + length v + padding (length v))%nat.
Proof. unfold chunk. rewrite !length_app, !length_ne_put, length_replicate. lia. Qed.

Lemma aligned_chunk typ v : aligned (chunk typ v).
Proof.
  unfold aligned. rewrite length_chunk, <- Nat.add_assoc, Nat.Div0.add_mod, padding_aligned. done.
Qed.

Lemma attr_app typ v w : aligned w → attr little typ v w = w ++ chunk typ v.
Proof.
  intros Hw. unfold attr, pad, chunk. rewrite !length_app, !length_ne_put.
  fold (padding (length w + (2 + (2 + length v)))).
  rewrite (padding_add (length w)) by done. change (2 + (2 + length v))%nat with (4 + length v)%nat.
  rewrite (padding_add 4) by done.
  by rewrite <- !app_assoc.
Qed.

(** A fill that only appends. *)
Definition appends (fill : writer → writer) (body : list Z) : Prop :=
  ∀ w, aligned w → fill w = w ++ body.

Lemma nest_app typ fill body w :
  appends fill body → aligned body → aligned w →
  nest little typ fill w = w ++ chunk (Z.lor typ nlaFNested) body.
Proof.
  intros Hf Hb Hw. unfold nest. rewrite Hf by (by apply aligned_app). rewrite <- !app_assoc.
  rewrite take_app_length. f_equal. unfold chunk.
  replace (len (w ++ [0; 0; 0; 0] ++ body) - Z.of_nat (length w)) with (4 + len body)
    by (unfold len; rewrite !length_app; cbn; lia).
  do 2 f_equal. rewrite drop_app_add' by done. change (drop 4 ([0; 0; 0; 0] ++ body)) with body. unfold padding. rewrite Hb. cbn.
  by rewrite app_nil_r.
Qed.

(** ** Reading attributes back *)

(** Fuel of the input's length is enough: more changes nothing. *)
Lemma parse_attrs_fuel n m b : (length b ≤ n)%nat → (length b ≤ m)%nat → parse_attrs n b = parse_attrs m b.
Proof.
  revert m b. induction n as [|n IH]; intros m b Hn Hm; [by destruct b, m; cbn in Hn; try lia|].
  destruct b as [|x b]; [by destruct m|]. destruct m as [|m]; [cbn in Hm; lia|]. cbn [Wg.parse_attrs].
  set (b0 := x :: b) in *. destruct (length b0 <? nlaHdrLen)%nat eqn:E1; [done|].
  destruct (_ || _) eqn:E2; [done|]. apply orb_false_iff in E2 as [E2 E3].
  apply Nat.ltb_ge in E1. change nlaHdrLen with 4%nat in E1.
  apply Z.ltb_ge in E2, E3. change (Z.of_nat nlaHdrLen) with 4 in E2.
  pose proof (align_le (Uint16 little b0)).
  assert (4 ≤ Z.to_nat (Z.min (align (Uint16 little b0)) (len b0)))%nat by (unfold len in *; lia).
  rewrite (IH m); [done|..]; rewrite length_drop; lia.
Qed.

Lemma parseAttrs_nil : parseAttrs [] = Ok [].
Proof. done. Qed.

Lemma parseAttrs_chunk typ v rest :
  0 ≤ typ < 65536 → 4 + len v < 65536 →
  parseAttrs (chunk typ v ++ rest) = (r ← parseAttrs rest; Ok (MkAttr (Z.land typ nlaTypeMask) v :: r)).
Proof.
  intros Ht Hv. unfold Wg.parseAttrs. set (b := chunk typ v ++ rest).
  assert (Hl : length b = (4 + length v + padding (length v) + length rest)%nat)
    by (unfold b; by rewrite length_app, length_chunk).
  rewrite (parse_attrs_fuel (length b) (S (length b))) by lia.
  assert (Hb : b ≠ []) by (intros E; rewrite E in Hl; cbn in Hl; lia). destruct b as [|x b'] eqn:Eb; [done|].
  cbn [Wg.parse_attrs]. rewrite <- Eb in *. clear x b' Eb Hb.
  assert (E0 : b = ne_put 2 (4 + len v) ++ ne_put 2 typ ++ v ++ replicate (padding (length v)) 0 ++ rest)
    by (unfold b, chunk; by rewrite <- !app_assoc).
  rewrite Hl. change nlaHdrLen with 4%nat. replace (_ <? 4)%nat with false by (symmetry; apply Nat.ltb_ge; lia).
  assert (Eu : Uint16 little b = 4 + len v) by (rewrite E0; apply Uint16_put; unfold len in *; lia). rewrite Eu.
  replace (_ || _) with false by (symmetry; apply orb_false_iff; rewrite !Z.ltb_ge; unfold len; lia).
  assert (Et : Uint16 little (drop 2 b) = typ).
  { rewrite E0, drop_app_length' by by rewrite length_ne_put. by apply Uint16_put. }
  rewrite Et. assert (Ed : slice 4 (Z.to_nat (4 + len v) - 4) b = v).
  { rewrite E0. unfold slice. rewrite (app_assoc (ne_put 2 _)), drop_app_length' by by rewrite length_app, !length_ne_put.
    apply take_app_length'. unfold len. lia. }
  rewrite Ed. assert (Er : drop (Z.to_nat (Z.min (align (4 + len v)) (len b))) b = rest).
  { rewrite (align_eq _ (Z.of_nat (padding (length v)))).
    - replace (Z.min _ _) with (4 + len v + Z.of_nat (padding (length v))) by (unfold len; lia).
      apply drop_app_length'. rewrite length_chunk. unfold len. lia.
    - pose proof (padding_aligned (length v)) as Hp. unfold len.
      replace (4 + Z.of_nat (length v) + Z.of_nat (padding (length v)))
        with (Z.of_nat (length v + padding (length v)) + 1 * 4) by lia.
      rewrite Z.mod_add by lia. by rewrite <- (Nat2Z.inj_mod _ 4), Hp.
    - pose proof (padding_lt (length v)). lia. }
  rewrite Er, (parse_attrs_fuel _ (length rest)) by lia. done.
Qed.

(** ** Sequences of attributes *)

Definition body (l : list (Z * list Z)) : list Z := concat ((λ x, chunk x.1 x.2) <$> l).

Definition read (x : Z * list Z) : nlattr := MkAttr (Z.land x.1 nlaTypeMask) x.2.

Definition fits (x : Z * list Z) : Prop := 0 ≤ x.1 < 65536 ∧ 4 + len x.2 < 65536.

Lemma body_cons x l : body (x :: l) = chunk x.1 x.2 ++ body l.
Proof. done. Qed.

Lemma body_app l l' : body (l ++ l') = body l ++ body l'.
Proof. unfold body. by rewrite fmap_app, concat_app. Qed.

Lemma aligned_body l : aligned (body l).
Proof. induction l as [|x l IH]; [done|]. rewrite body_cons. apply aligned_app; [apply aligned_chunk|done]. Qed.

Lemma parse_body l : Forall fits l → parseAttrs (body l) = Ok (read <$> l).
Proof.
  induction 1 as [|x l [Ht Hv] Hl IH]; [done|]. rewrite body_cons, parseAttrs_chunk by done. by rewrite IH.
Qed.

(** An attribute is shorter than what holds it. *)
Lemma body_len x l : x ∈ l → 4 + len x.2 ≤ len (body l).
Proof.
  intros Hx. induction Hx as [l|y l Hx IH]; rewrite body_cons; unfold len in *; rewrite length_app, length_chunk; lia.
Qed.

Definition small (l : list (Z * list Z)) : Prop := Forall (λ x, 0 ≤ x.1 < 65536) l.

Lemma fits_small l n : len (body l) ≤ n → n < 65536 → small l → Forall fits l.
Proof.
  intros Hn Hn' Hs. apply Forall_forall. intros x Hx. unfold small in Hs. rewrite Forall_forall in Hs.
  split; [by apply Hs|]. pose proof (body_len x l Hx). lia.
Qed.

Lemma appends_attr typ v : appends (attr little typ v) (chunk typ v).
Proof. intros w Hw. by apply attr_app. Qed.

Lemma appends_nest typ fill b : appends fill b → aligned b → appends (nest little typ fill) (chunk (Z.lor typ nlaFNested) b).
Proof. intros Hf Hb w Hw. by apply nest_app. Qed.

(** ** Values *)

Lemma AddrFromSlice_AsSlice a : is_addr a = true → AddrFromSlice (AsSlice a) = Some a.
Proof.
  unfold AddrFromSlice. destruct a as [|z|z]; [done|..]; intros [? ?]%andb_true_iff; cbn [AsSlice];
    rewrite length_be_put; cbn [Nat.eqb]; (rewrite be_get_put_small; [done|]);
    [change (256 ^ Z.of_nat 4) with (2 ^ 32)|change (256 ^ Z.of_nat 16) with (2 ^ 128)]; lia.
Qed.

Lemma clear_low_range n w z : 0 ≤ n → 0 ≤ z < 2 ^ w → 0 ≤ clear_low n z < 2 ^ w.
Proof.
  intros Hn Hz. unfold clear_low. rewrite Z.shiftl_mul_pow2, Z.shiftr_div_pow2 by done.
  pose proof (Z.pow_pos_nonneg 2 n ltac:(lia) Hn). pose proof (Z.mul_div_le z (2 ^ n) ltac:(lia)).
  pose proof (Z.div_pos z (2 ^ n) ltac:(lia) ltac:(lia)). nia.
Qed.

Definition wf_prefix (p : Prefix) : Prop := is_addr (pf_Addr p) = true.

Lemma Masked_valid p : IsValid p = true → IsValid (Masked p) = true ∧ pf_Bits (Masked p) = pf_Bits p.
Proof. intros Hv. unfold Masked, masked_addr. rewrite Hv. unfold IsValid in *. cbn. by destruct (pf_Addr p). Qed.

Lemma Masked_wf p : IsValid p = true → wf_prefix p → wf_prefix (Masked p).
Proof.
  unfold wf_prefix, Masked, masked_addr. intros Hv Ha. rewrite Hv. unfold IsValid in Hv.
  destruct (pf_Addr p) as [|z|z]; [done|..]; cbn in *; apply andb_true_iff in Hv as [? ?], Ha as [? ?];
    [pose proof (clear_low_range (32 - pf_Bits p) 32 z)|pose proof (clear_low_range (128 - pf_Bits p) 128 z)]; lia.
Qed.

Lemma clear_low_twice n z : 0 ≤ n → clear_low n (clear_low n z) = clear_low n z.
Proof. intros Hn. unfold clear_low. by rewrite Z.shiftr_shiftl_l, Z.sub_diag, Z.shiftl_0_r by lia. Qed.

Lemma Masked_Masked p : Masked (Masked p) = Masked p.
Proof.
  destruct (IsValid p) eqn:Hv; [|unfold Masked; by rewrite Hv].
  destruct (Masked_valid p Hv) as [Hv' Hb]. unfold Masked at 1. rewrite Hv', Hb. unfold Masked. rewrite Hv. f_equal.
  unfold masked_addr at 1. cbn [pf_Addr pf_Bits]. unfold masked_addr. rewrite Hv.
  unfold IsValid in *. destruct (pf_Addr p) as [|z|z]; [done|..]; cbn in *; rewrite Hv; f_equal; apply clear_low_twice; lia.
Qed.

Lemma PrefixFrom_parts p : IsValid p = true → PrefixFrom (pf_Addr p) (pf_Bits p) = p.
Proof.
  unfold IsValid, PrefixFrom. destruct p as [[|z|z] bits]; [done|..]; cbn; intros Hv; by rewrite Hv.
Qed.

Definition wf_endpoint (ep : AddrPort) : Prop :=
  (valid_addr (ap_Addr ep) = true → is_addr (ap_Addr ep) = true) ∧ 0 ≤ ap_Port ep < 65536.

(** A zone as the kernel keeps it: its number. *)
Definition scope_zone (zone : string) : string :=
  match ParseUint32 zone with Some id => if id =? 0 then ""%string else pretty id | None => ""%string end.

(** The endpoint a device reports of one that was set. *)
Definition sent_endpoint (ep : AddrPort) : AddrPort :=
  let u := unmap ep in
  MkAddrPort (ap_Addr u) (if is4 (ap_Addr u) then ""%string else scope_zone (ap_Zone u)) (ap_Port u).

Lemma Unmap_range a : is_addr a = true → is_addr (Unmap a) = true.
Proof.
  destruct a as [|z|z]; cbn; [done..|]. intros H. destruct (z / 2 ^ 32 =? 65535); [|done]. cbn.
  pose proof (Z.mod_pos_bound z (2 ^ 32)). lia.
Qed.

Lemma parse_digits_range acc s id : 0 ≤ acc < 2 ^ 32 → parse_digits acc s = Some id → 0 ≤ id < 2 ^ 32.
Proof.
  revert acc. induction s as [|c s IH]; cbn; intros acc Hacc; [by intros [= <-]|].
  destruct (_ && _) eqn:E; [|done]. apply IH. lia.
Qed.

Lemma ParseUint32_range s id : ParseUint32 s = Some id → 0 ≤ id < 2 ^ 32.
Proof. unfold ParseUint32. destruct (String.eqb s ""); [done|]. by apply parse_digits_range. Qed.

Lemma slice_app i n a v r : length a = i → length v = n → slice i n (a ++ v ++ r) = v.
Proof. intros <- <-. unfold slice. by rewrite drop_app_length, take_app_length. Qed.

(** The scope's bytes of an IPv6 socket address. *)
Definition scope_bytes (zone : string) : list Z :=
  match ParseUint32 zone with Some id => ne_put 4 id | None => replicate 4 0 end.

Lemma length_scope zone : length (scope_bytes zone) = 4%nat.
Proof. unfold scope_bytes. destruct (ParseUint32 zone); [apply length_ne_put|done]. Qed.

Lemma ne_get_zeros : ne_get (replicate 4 0) = 0.
Proof. unfold Wg.ne_get. by destruct little. Qed.

Lemma scope_read zone :
  (let id := ne_get (scope_bytes zone) in if id =? 0 then ""%string else pretty id) = scope_zone zone.
Proof.
  unfold scope_bytes, scope_zone. destruct (ParseUint32 zone) as [id|] eqn:E; [|by rewrite ne_get_zeros].
  rewrite ne_get_put_small; [done|]. by apply ParseUint32_range in E.
Qed.

Lemma parseSockaddr_sockaddr ep :
  wf_endpoint ep → valid_addr (ap_Addr ep) = true → parseSockaddr little (sockaddr little ep) = Ok (sent_endpoint ep).
Proof.
  intros [Ha Hp] Hv. specialize (Ha Hv). unfold sockaddr. change (match ParseUint32 ?z with Some id => _ | None => _ end)
    with (scope_bytes z). set (zone := if decide _ then _ else _).
  pose proof (Unmap_range _ Ha) as Hu. unfold sent_endpoint, unmap. fold zone. cbn [ap_Addr ap_Zone ap_Port].
  assert (Hp' : be_get (be_put 2 (ap_Port ep)) = ap_Port ep) by (by apply be_get_put_small).
  destruct (Unmap (ap_Addr ep)) as [|z|z]; [done|..]; cbn [is4 AsSlice As16] in *; apply andb_true_iff in Hu as [? ?].
  - unfold parseSockaddr. rewrite !length_app, length_ne_put, !length_be_put, length_replicate.
    cbn [Nat.add Nat.ltb Nat.leb]. rewrite Uint16_put by done. cbn [Z.eqb Pos.eqb afInet].
    rewrite (slice_app 2 2), Hp' by auto using length_ne_put, length_be_put. rewrite app_assoc, (slice_app 4 4).
    + rewrite be_get_put_small; [done|]. change (256 ^ Z.of_nat 4) with (2 ^ 32). lia.
    + by rewrite length_app, length_ne_put, length_be_put.
    + apply length_be_put.
  - unfold parseSockaddr. rewrite !length_app, length_ne_put, !length_be_put, length_replicate, length_scope.
    cbn [Nat.add Nat.ltb Nat.leb]. rewrite Uint16_put by done. cbn [Z.eqb Pos.eqb afInet afInet6].
    rewrite (slice_app 2 2), Hp' by auto using length_ne_put, length_be_put.
    rewrite !(app_assoc (ne_put 2 _)), (app_assoc _ (replicate 4 0)), (slice_app 8 16), app_assoc, drop_app_length'.
    + unfold Uint32. rewrite firstn_all2 by (rewrite length_scope; lia). cbv zeta. rewrite scope_read.
      rewrite be_get_put_small; [done|]. change (256 ^ Z.of_nat 16) with (2 ^ 128). lia.
    + by rewrite !length_app, length_ne_put, !length_be_put, length_replicate.
    + by rewrite !length_app, length_ne_put, !length_be_put, length_replicate.
    + apply length_be_put.
Qed.

(** ** Entries *)

Definition nested (typ : Z) : Z := Z.lor typ nlaFNested.

Definition allowed_attrs (p : Prefix) : list (Z * list Z) :=
  let p := Masked p in
  [(wgallowedipAFamily, ne_put 2 (addr_family (pf_Addr p))); (wgallowedipAIpaddr, AsSlice (pf_Addr p));
   (wgallowedipACidrMask, [pf_Bits p mod 256])].

Definition ips_attrs (ps : list Prefix) : list (Z * list Z) := (λ p, (nested 0, body (allowed_attrs p))) <$> ps.

Definition peer_attrs (p : WgPeer) : list (Z * list Z) :=
  [(wgpeerAPublicKey, wp_PublicKey p); (wgpeerAFlags, ne_put 4 wgpeerFReplaceAllowedips)]
  ++ (if valid_addr (ap_Addr (wp_Endpoint p)) then [(wgpeerAEndpoint, sockaddr little (wp_Endpoint p))] else [])
  ++ [(wgpeerAKeepalive, ne_put 2 (keepaliveSeconds (wp_Keepalive p)));
      (nested wgpeerAAllowedips, body (ips_attrs (wp_AllowedIPs p)))].

Definition remove_attrs (k : Key) : list (Z * list Z) :=
  [(wgpeerAPublicKey, k); (wgpeerAFlags, ne_put 4 wgpeerFRemoveMe)].

Ltac solve_aligned := repeat first [done | apply aligned_chunk | apply aligned_body | apply aligned_app].

Lemma removeEntry_chunk k : removeEntry little k = chunk (nested 0) (body (remove_attrs k)).
Proof.
  unfold removeEntry. rewrite (nest_app _ _ (body (remove_attrs k))); [done| |apply aligned_body|done].
  intros w Hw. unfold u32.
  rewrite (attr_app wgpeerAPublicKey), (attr_app wgpeerAFlags) by solve_aligned.
  rewrite <- app_assoc. unfold body. cbn. by rewrite app_nil_r.
Qed.

Lemma allowedEntry_chunk p : appends (allowedEntry little p) (chunk (nested 0) (body (allowed_attrs p))).
Proof.
  unfold allowedEntry. apply appends_nest; [|apply aligned_body]. intros w Hw. unfold u8, ip, u16.
  rewrite (attr_app wgallowedipAFamily), (attr_app wgallowedipAIpaddr), (attr_app wgallowedipACidrMask) by solve_aligned.
  rewrite <- !app_assoc. unfold body. cbn. by rewrite app_nil_r.
Qed.

Lemma allowed_fold ps : appends (λ w, foldl (λ w pr, allowedEntry little pr w) w ps) (body (ips_attrs ps)).
Proof.
  induction ps as [|p ps IH]; intros w Hw; cbn [foldl]; [by rewrite app_nil_r|].
  rewrite allowedEntry_chunk by done. rewrite IH by solve_aligned.
  by rewrite <- app_assoc.
Qed.

Lemma peerEntry_chunk p e :
  peerEntry little p = Ok e →
  Forall (λ pr, IsValid pr = true) (wp_AllowedIPs p) ∧ e = chunk (nested 0) (body (peer_attrs p)).
Proof.
  unfold peerEntry. destruct (find _ _) eqn:Ef; [done|]. intros [= <-]. split.
  - apply Forall_forall. intros pr Hpr%list_elem_of_In. pose proof (find_none _ _ Ef _ Hpr) as Hn.
    by apply negb_false_iff in Hn.
  - rewrite (nest_app _ _ (body (peer_attrs p))); [done| |apply aligned_body|done].
    intros w Hw. unfold peer_attrs. rewrite !body_app. unfold u16, u32.
    rewrite (attr_app wgpeerAPublicKey) by done.
    rewrite (attr_app wgpeerAFlags) by solve_aligned.
    set (w2 := (w ++ _) ++ _). assert (H2 : aligned w2) by solve_aligned.
    set (w3 := if valid_addr (ap_Addr (wp_Endpoint p)) then attr little wgpeerAEndpoint (sockaddr little (wp_Endpoint p)) w2 else w2).
    assert (E3 : w3 = w2 ++ body (if valid_addr (ap_Addr (wp_Endpoint p))
      then [(wgpeerAEndpoint, sockaddr little (wp_Endpoint p))] else [])).
    { unfold w3. destruct (valid_addr _); [|by rewrite app_nil_r]. rewrite attr_app by done. unfold body. cbn.
      by rewrite app_nil_r. }
    assert (H3 : aligned w3) by (rewrite E3; apply aligned_app; [done|apply aligned_body]).
    rewrite (attr_app wgpeerAKeepalive) by done.
    rewrite (nest_app _ _ (body (ips_attrs (wp_AllowedIPs p))));
      [|apply allowed_fold|solve_aligned..].
    rewrite E3. unfold w2. rewrite <- !app_assoc. unfold body at 2 4. cbn. rewrite !app_nil_r, <- !app_assoc. done.
Qed.

(** ** Entries read back *)

Lemma length_AsSlice a : (length (AsSlice a) ≤ 16)%nat.
Proof. destruct a; cbn [AsSlice]; rewrite ?length_be_put; cbn; lia. Qed.

Lemma fold_step {A S E} (f : S → A → result E S) s x l s' :
  f s x = Ok s' → fold_result f s (x :: l) = fold_result f s' l.
Proof. intros H. cbn. by rewrite H. Qed.

Lemma read_addr t a : is_addr a = true → attr_ip (read (t, AsSlice a)) = Ok a.
Proof. intros H. unfold attr_ip. cbn [read at_data snd]. by rewrite AddrFromSlice_AsSlice. Qed.

Lemma fits_allowed p : Forall fits (allowed_attrs p).
Proof.
  pose proof (length_AsSlice (pf_Addr (Masked p))).
  apply Forall_cons; split; [|apply Forall_cons; split; [|apply Forall_cons; split; [|done]]];
    (split; [done|]); cbn [snd]; unfold len; rewrite ?length_ne_put; cbn [length]; lia.
Qed.

Lemma parseAllowedIP_body p :
  IsValid p = true → wf_prefix p → parseAllowedIP little (body (allowed_attrs p)) = Ok (Masked p).
Proof.
  intros Hv Hw. destruct (Masked_valid p Hv) as [Hv' Hb]. pose proof (Masked_wf p Hv Hw) as Hw'.
  unfold parseAllowedIP. rewrite parse_body by apply fits_allowed. cbn [mbind result_bind].
  unfold allowed_attrs. cbv zeta. cbn [fmap list_fmap].
  rewrite (fold_step _ _ _ _ (NoAddr, -1)) by reflexivity.
  rewrite (fold_step _ _ _ _ (pf_Addr (Masked p), -1))
    by (unfold allowed_attr; cbn [at_typ read fst]; by rewrite read_addr).
  rewrite (fold_step _ _ _ _ (pf_Addr (Masked p), pf_Bits (Masked p) mod 256)) by reflexivity.
  cbn [fold_result mbind result_bind fst snd]. rewrite Z.mod_small.
  - rewrite PrefixFrom_parts by done. by rewrite Hv'.
  - unfold IsValid in Hv'. destruct (pf_Addr (Masked p)); [done|..]; cbn [BitLen] in Hv'; lia.
Qed.

Definition wf_peer (p : WgPeer) : Prop :=
  length (wp_PublicKey p) = KeyLen ∧ wf_endpoint (wp_Endpoint p) ∧
  Forall (λ pr, IsValid pr = true ∧ wf_prefix pr) (wp_AllowedIPs p).

(** A peer as its entry says it. *)
Definition sent_peer (p : WgPeer) : WgPeer :=
  MkWgPeer (wp_PublicKey p) (if valid_addr (ap_Addr (wp_Endpoint p)) then sent_endpoint (wp_Endpoint p) else noAddrPort)
    (Masked <$> wp_AllowedIPs p) (keepaliveSeconds (wp_Keepalive p) * Second).

Definition just (p : WgPeer) : PeerState := MkPeerState p zeroTime 0 0.

Lemma keepaliveSeconds_range d : 0 ≤ keepaliveSeconds d ≤ 65535.
Proof. unfold keepaliveSeconds. lia. Qed.

Lemma small_peer p : small (peer_attrs p).
Proof.
  unfold small, peer_attrs. apply Forall_app. split; [by repeat constructor|]. apply Forall_app.
  split; [destruct (valid_addr _); by repeat constructor|by repeat constructor].
Qed.

Lemma fold_ips q ps :
  Forall (λ pr, IsValid pr = true ∧ wf_prefix pr) ps →
  fold_result (λ p i, pr ← parseAllowedIP little (at_data i);
      Ok (p <| st_Peer ::= λ q, q <| wp_AllowedIPs ::= λ l, l ++ [pr] |> |>)) (just q) (read <$> ips_attrs ps)
  = Ok (just (q <| wp_AllowedIPs ::= λ l, l ++ (Masked <$> ps) |>)).
Proof.
  intros Hps. revert q. induction Hps as [|p ps [Hv Hw] Hps IH]; intros [k ep ips ka].
  - change (Ok (E := wg_error) (just (MkWgPeer k ep ips ka)) = Ok (just (MkWgPeer k ep (ips ++ []) ka))).
    by rewrite app_nil_r.
  - unfold ips_attrs. cbn [fmap list_fmap].
    rewrite (fold_step _ _ _ _ (just (MkWgPeer k ep (ips ++ [Masked p]) ka)))
      by (cbn [at_data read snd]; by rewrite parseAllowedIP_body).
    etrans; [apply IH|].
    change (Ok (E := wg_error) (just (MkWgPeer k ep ((ips ++ [Masked p]) ++ (Masked <$> ps)) ka))
      = Ok (just (MkWgPeer k ep (ips ++ [Masked p] ++ (Masked <$> ps)) ka))).
    by rewrite <- app_assoc.
Qed.

Lemma fits_ips p : len (body (peer_attrs p)) < 65536 → Forall fits (ips_attrs (wp_AllowedIPs p)).
Proof.
  intros Hl. eapply (fits_small _ (len (body (peer_attrs p)))); [|done|].
  - pose proof (body_len (nested wgpeerAAllowedips, body (ips_attrs (wp_AllowedIPs p))) (peer_attrs p)) as Hb.
    cbn [snd] in Hb. rewrite <- Hb; [unfold len; lia|]. unfold peer_attrs. set_solver.
  - apply Forall_forall. intros x (pr & -> & _)%list_elem_of_fmap. cbn. done.
Qed.

Lemma peer_key q k : length k = KeyLen → peer_attr little (just q) (read (wgpeerAPublicKey, k)) = Ok (just (q <| wp_PublicKey := k |>)).
Proof.
  intros Hk. unfold peer_attr. cbn [at_typ read fst]. cbn [Z.eqb Pos.eqb Z.land Pos.land wgpeerAPublicKey nlaTypeMask].
  unfold attr_key, sized. cbn [at_data read snd]. by rewrite Hk.
Qed.

Lemma peer_flags q f : peer_attr little (just q) (read (wgpeerAFlags, f)) = Ok (just q).
Proof. reflexivity. Qed.

Lemma peer_endpoint q ep :
  wf_endpoint ep → valid_addr (ap_Addr ep) = true →
  peer_attr little (just q) (read (wgpeerAEndpoint, sockaddr little ep)) = Ok (just (q <| wp_Endpoint := sent_endpoint ep |>)).
Proof.
  intros Hep Hv. change (peer_attr little (just q) (read (wgpeerAEndpoint, sockaddr little ep)))
    with (ep ← parseSockaddr little (sockaddr little ep); Ok (just (q <| wp_Endpoint := ep |>))).
  by rewrite parseSockaddr_sockaddr.
Qed.

Lemma peer_keepalive q n :
  0 ≤ n < 65536 →
  peer_attr little (just q) (read (wgpeerAKeepalive, ne_put 2 n)) = Ok (just (q <| wp_Keepalive := n * Second |>)).
Proof.
  intros Hn. change (peer_attr little (just q) (read (wgpeerAKeepalive, ne_put 2 n)))
    with (s ← attr_u16 little (MkAttr wgpeerAKeepalive (ne_put 2 n)); Ok (just (q <| wp_Keepalive := s * Second |>))).
  unfold attr_u16, sized. cbn [at_data]. rewrite length_ne_put. cbn [Nat.eqb mbind result_bind].
  rewrite <- (app_nil_r (ne_put 2 n)), Uint16_put by done. reflexivity.
Qed.

Lemma peer_ips q ps :
  Forall fits (ips_attrs ps) → Forall (λ pr, IsValid pr = true ∧ wf_prefix pr) ps →
  peer_attr little (just q) (read (nested wgpeerAAllowedips, body (ips_attrs ps)))
  = Ok (just (q <| wp_AllowedIPs ::= λ l, l ++ (Masked <$> ps) |>)).
Proof.
  intros Hf Hps. change (peer_attr little (just q) (read (nested wgpeerAAllowedips, body (ips_attrs ps))))
    with (ips ← parseAttrs (body (ips_attrs ps));
      fold_result (λ p i, pr ← parseAllowedIP little (at_data i);
        Ok (p <| st_Peer ::= λ q, q <| wp_AllowedIPs ::= λ l, l ++ [pr] |> |>)) (just q) ips).
  rewrite parse_body by done. by apply fold_ips.
Qed.

Lemma parsePeer_body p :
  wf_peer p → len (body (peer_attrs p)) < 65536 → parsePeer little (body (peer_attrs p)) = Ok (just (sent_peer p)).
Proof.
  intros (Hk & He & Hi) Hl. unfold parsePeer. rewrite parse_body by (eapply fits_small; [done..|apply small_peer]).
  assert (Hka : 0 ≤ keepaliveSeconds (wp_Keepalive p) < 65536) by (pose proof (keepaliveSeconds_range (wp_Keepalive p)); lia).
  cbn [mbind result_bind]. unfold peer_attrs.
  change zeroPeer with (just (st_Peer zeroPeer)).
  destruct (valid_addr (ap_Addr (wp_Endpoint p))) eqn:Ev; cbn [app fmap list_fmap];
    (rewrite (fold_step _ _ _ _ _ (peer_key _ _ Hk)), (fold_step _ _ _ _ _ (peer_flags _ _)));
    [rewrite (fold_step _ _ _ _ _ (peer_endpoint _ _ He Ev))|];
    rewrite (fold_step _ _ _ _ _ (peer_keepalive _ _ Hka)),
      (fold_step _ _ _ _ _ (peer_ips _ _ (fits_ips p Hl) Hi));
    unfold sent_peer; rewrite Ev; reflexivity.
Qed.

Lemma parsePeer_remove k :
  length k = KeyLen → parsePeer little (body (remove_attrs k)) = Ok (just (MkWgPeer k noAddrPort [] 0)).
Proof.
  intros Hk. unfold parsePeer. rewrite parse_body.
  - cbn [mbind result_bind]. unfold remove_attrs. cbn [fmap list_fmap]. change zeroPeer with (just (st_Peer zeroPeer)).
    by rewrite (fold_step _ _ _ _ _ (peer_key _ _ Hk)), (fold_step _ _ _ _ _ (peer_flags _ _)).
  - apply Forall_cons; split; [|apply Forall_cons; split; [|done]];
      (split; [done|]); cbn [snd]; unfold len; rewrite ?length_ne_put, ?Hk; unfold KeyLen; lia.
Qed.

(** ** Messages *)

Definition msg_attrs (name : string) (entries : list Z) : list (Z * list Z) :=
  [(wgdeviceAIfname, str_bytes name ++ [0]); (nested wgdeviceAPeers, entries)].

Lemma length_str_bytes s : length (str_bytes s) = String.length s.
Proof. induction s; cbn; auto. Qed.

Lemma peersMessage_eq family name entries :
  aligned entries →
  peersMessage little family name entries
  = ne_put 4 (20 + len (body (msg_attrs name entries))) ++ ne_put 2 family ++ ne_put 2 5 ++ replicate 8 0
    ++ genlHeader wgCmdSetDevice wgGenlVersion ++ body (msg_attrs name entries).
Proof.
  intros He. unfold peersMessage, str.
  assert (En : newMessage little family (Z.lor nlmFRequest nlmFAck) (genlHeader wgCmdSetDevice wgGenlVersion)
    = replicate 4 0 ++ ne_put 2 family ++ ne_put 2 5 ++ replicate 8 0 ++ genlHeader wgCmdSetDevice wgGenlVersion).
  { unfold newMessage, pad. rewrite !length_app, !length_ne_put, !length_replicate. cbn -[Wg.ne_put].
    by rewrite !app_nil_r. }
  assert (Ha : aligned (newMessage little family (Z.lor nlmFRequest nlmFAck) (genlHeader wgCmdSetDevice wgGenlVersion))).
  { rewrite En. unfold aligned. by rewrite !length_app, !length_ne_put, !length_replicate. }
  rewrite attr_app by done. rewrite (nest_app _ _ entries) by (solve_aligned || (by intros w _)).
  assert (Eb : body (msg_attrs name entries)
    = chunk wgdeviceAIfname (str_bytes name ++ [0]) ++ chunk (nested wgdeviceAPeers) entries)
    by (unfold body; cbn; by rewrite app_nil_r).
  rewrite <- app_assoc. change (Z.lor wgdeviceAPeers nlaFNested) with (nested wgdeviceAPeers). rewrite <- Eb.
  unfold message. rewrite En, <- !app_assoc. f_equal.
  f_equal. unfold len. rewrite !length_app, !length_ne_put, !length_replicate. cbn. lia.
Qed.

Lemma len_peersMessage family name entries :
  aligned entries → len (peersMessage little family name entries) = len (peersMessage little family name []) + len entries.
Proof.
  intros He. rewrite !peersMessage_eq by done. unfold len. rewrite !length_app, !length_ne_put, !length_replicate.
  unfold msg_attrs. rewrite !body_cons, !length_app, !length_chunk. cbn [fst snd length].
  assert (Hp : padding (length entries) = 0%nat) by (unfold padding; by rewrite He). rewrite Hp. change (padding 0) with 0%nat. unfold body. cbn [fmap list_fmap concat length]. lia.
Qed.

(** One step of [parseMessages], with what it reads named. *)
Lemma parse_messages_step n b l typ flags seq pid data rest :
  (nlmsgHdrLen ≤ length b)%nat → Uint32 little b = l → Z.of_nat nlmsgHdrLen ≤ l ≤ len b →
  Uint16 little (drop 4 b) = typ → Uint16 little (drop 6 b) = flags → Uint32 little (drop 8 b) = seq →
  Uint32 little (drop 12 b) = pid → slice nlmsgHdrLen (Z.to_nat l - nlmsgHdrLen) b = data →
  drop (Z.to_nat (Z.min (align l) (len b))) b = rest →
  parse_messages little (S n) b = (r ← parse_messages little n rest; Ok (MkMessage typ flags seq pid data :: r)).
Proof.
  intros Hb <- Hl <- <- <- <- <- <-. destruct b as [|x b]; [unfold nlmsgHdrLen in Hb; cbn in Hb; lia|].
  cbn [parse_messages]. rewrite (proj2 (Nat.ltb_ge _ _) Hb).
  by rewrite (proj2 (Z.ltb_ge _ _) (proj1 Hl)), (proj2 (Z.ltb_ge _ _) (proj2 Hl)).
Qed.

(** A single message, laid out in full. *)
Lemma parseMessages_one typ flags data :
  0 ≤ typ < 65536 → 0 ≤ flags < 65536 → 16 + len data < 2 ^ 32 → aligned data →
  parseMessages little (ne_put 4 (16 + len data) ++ ne_put 2 typ ++ ne_put 2 flags ++ replicate 4 0 ++ replicate 4 0 ++ data)
  = Ok [MkMessage typ flags 0 0 data].
Proof.
  intros Ht Hf Hd Ha. remember (ne_put 4 (16 + len data) ++ _) as b eqn:Eb.
  assert (Hl : length b = (16 + length data)%nat)
    by (rewrite Eb, !length_app, !length_ne_put, !length_replicate; lia).
  assert (Hz : ∀ r, Uint32 little (replicate 4 0 ++ r) = 0)
    by (intros; unfold Uint32; rewrite take_app_length' by done; apply ne_get_zeros).
  assert (Hdrop : ∀ k a r, b = a ++ r → length a = k → drop k b = r) by (intros k a r -> <-; apply drop_app_length).
  assert (Hdata : drop 16 b = data).
  { apply (Hdrop _ (ne_put 4 (16 + len data) ++ ne_put 2 typ ++ ne_put 2 flags ++ replicate 4 0 ++ replicate 4 0));
      [by rewrite Eb, <- !app_assoc|by rewrite !length_app, !length_ne_put]. }
  unfold parseMessages. rewrite Hl. replace (16 + length data)%nat with (S (15 + length data)) by lia.
  rewrite (parse_messages_step _ b (16 + len data) typ flags 0 0 data []); [by destruct (15 + length data)%nat|..].
  - unfold nlmsgHdrLen. lia.
  - rewrite Eb. apply Uint32_put. unfold len in *. lia.
  - unfold len, nlmsgHdrLen. lia.
  - rewrite (Hdrop 4%nat _ _ Eb) by apply length_ne_put. by apply Uint16_put.
  - rewrite app_assoc in Eb. rewrite (Hdrop 6%nat _ _ Eb) by (by rewrite length_app, !length_ne_put). by apply Uint16_put.
  - rewrite !(app_assoc (ne_put _ _)), app_assoc in Eb. 
    rewrite (Hdrop 8%nat (ne_put 4 (16 + len data) ++ ne_put 2 typ ++ ne_put 2 flags) (replicate 4 0 ++ replicate 4 0 ++ data));
      [apply Hz|by rewrite Eb, <- !app_assoc|by rewrite !length_app, !length_ne_put].
  - rewrite (Hdrop 12%nat (ne_put 4 (16 + len data) ++ ne_put 2 typ ++ ne_put 2 flags ++ replicate 4 0) (replicate 4 0 ++ data));
      [apply Hz|by rewrite Eb, <- !app_assoc|by rewrite !length_app, !length_ne_put].
  - unfold slice, nlmsgHdrLen. rewrite Hdata. apply firstn_all2. unfold len. lia.
  - rewrite (align_eq _ 0).
    + apply drop_ge. unfold len. lia.
    + rewrite Z.add_0_r. unfold len. rewrite <- (Nat2Z.inj_add 16), <- (Nat2Z.inj_mod _ 4).
      change 16%nat with (4 * 4)%nat. by rewrite Nat.add_comm, Nat.Div0.mod_add, Ha.
    + lia.
Qed.

(** ** What a reader makes of the messages *)

(** An entry of WGDEVICE_A_PEERS: its flags and its peer. *)
Definition read_entry (a : nlattr) : result wg_error (Z * WgPeer) :=
  attrs ← parseAttrs (at_data a);
  p ← parsePeer little (at_data a);
  match find (λ x, at_typ x =? wgpeerAFlags) attrs with
  | Some f => n ← attr_u32 little f; Ok (n, st_Peer p)
  | None => Ok (0, st_Peer p)
  end.

Fixpoint map_result {A B E} (f : A → result E B) (l : list A) : result E (list B) :=
  match l with [] => Ok [] | x :: l' => y ← f x; ys ← map_result f l'; Ok (y :: ys) end.

(** A WG_CMD_SET_DEVICE: the family, the device's name and the entries. *)
Definition read_message (m : list Z) : result wg_error (Z * string * list (Z * WgPeer)) :=
  ms ← parseMessages little m;
  match ms with
  | [x] =>
      attrs ← parseAttrs (drop genlHdrLen (ms_data x));
      match find (λ a, at_typ a =? wgdeviceAIfname) attrs, find (λ a, at_typ a =? wgdeviceAPeers) attrs with
      | Some n, Some ps =>
          as_ ← parseAttrs (at_data ps);
          es ← map_result read_entry as_;
          Ok (ms_typ x, attr_str n, es)
      | _, _ => Err NoFamily
      end
  | _ => Err NoFamily
  end.

(** Bytes that are an entry, and what they say. *)
Definition says (e : list Z) (x : Z * WgPeer) : Prop :=
  ∃ b, e = chunk (nested 0) b ∧ (len e < 65536 → read_entry (MkAttr 0 b) = Ok x).

Definition removal (k : Key) : Z * WgPeer := (wgpeerFRemoveMe, MkWgPeer k noAddrPort [] 0).
Definition setting (p : WgPeer) : Z * WgPeer := (wgpeerFReplaceAllowedips, sent_peer p).

Lemma len_chunk_inner typ b : len b + 4 ≤ len (chunk typ b).
Proof. unfold len. rewrite length_chunk. lia. Qed.

Lemma attr_u32_put t z : 0 ≤ z < 2 ^ 32 → attr_u32 little (read (t, ne_put 4 z)) = Ok z.
Proof.
  intros Hz. unfold attr_u32, sized. cbn [at_data read snd]. rewrite length_ne_put. cbn [Nat.eqb].
  by rewrite <- (app_nil_r (ne_put 4 _)), Uint32_put.
Qed.

Lemma removeEntry_says k : length k = KeyLen → says (removeEntry little k) (removal k).
Proof.
  intros Hk. rewrite removeEntry_chunk. eexists. split; [done|]. intros Hl. unfold read_entry. cbn [at_data].
  pose proof (len_chunk_inner (nested 0) (body (remove_attrs k))). rewrite parsePeer_remove by done.
  rewrite parse_body by (eapply fits_small; [done|lia|by repeat constructor]).
  cbn [mbind result_bind]. unfold remove_attrs. cbn [fmap list_fmap find]. cbn [read at_typ fst].
  change (Z.land wgpeerAPublicKey nlaTypeMask =? wgpeerAFlags) with false.
  change (Z.land wgpeerAFlags nlaTypeMask =? wgpeerAFlags) with true. cbv iota.
  by rewrite attr_u32_put.
Qed.

Lemma peerEntry_says p e : wf_peer p → peerEntry little p = Ok e → says e (setting p).
Proof.
  intros Hw (_ & ->)%peerEntry_chunk. eexists. split; [done|]. intros Hl. unfold read_entry. cbn [at_data].
  pose proof (len_chunk_inner (nested 0) (body (peer_attrs p))). rewrite parsePeer_body by (done || lia).
  rewrite parse_body by (eapply fits_small; [done|lia|apply small_peer]).
  cbn [mbind result_bind]. unfold peer_attrs. cbn [app fmap list_fmap find]. cbn [read at_typ fst].
  change (Z.land wgpeerAPublicKey nlaTypeMask =? wgpeerAFlags) with false.
  change (Z.land wgpeerAFlags nlaTypeMask =? wgpeerAFlags) with true. cbv iota.
  by rewrite attr_u32_put.
Qed.

Lemma peer_entries_say remove set es :
  Forall (λ k, length k = KeyLen) remove → Forall wf_peer set → peer_entries little remove set = Ok es →
  Forall2 says es ((removal <$> remove) ++ (setting <$> set)).
Proof.
  intros Hr Hs. unfold peer_entries.
  assert (H0 : Forall2 says (removeEntry little <$> remove) (removal <$> remove)).
  { induction Hr; cbn; constructor; [by apply removeEntry_says|done]. }
  revert H0. generalize (removeEntry little <$> remove) (removal <$> remove). clear Hr remove.
  induction Hs as [|p set Hp Hs IH]; intros acc xs Hacc; cbn [fold_result].
  - intros [= <-]. by rewrite app_nil_r.
  - intros (acc' & (e & He & [= <-])%bind_Ok & H)%bind_Ok.
    replace (xs ++ (setting <$> p :: set)) with ((xs ++ [setting p]) ++ (setting <$> set)) by by rewrite <- app_assoc.
    eapply IH; [|done]. apply Forall2_app; [done|]. constructor; [by apply peerEntry_says|done].
Qed.

Lemma says_aligned es xs : Forall2 says es xs → aligned (concat es).
Proof.
  induction 1 as [|e x es xs (b & -> & _) Hs IH]; [done|]. cbn. apply aligned_app; [apply aligned_chunk|done].
Qed.

Lemma entries_read es xs :
  Forall2 says es xs → len (concat es) < 65536 →
  ∃ as_, parseAttrs (concat es) = Ok as_ ∧ map_result read_entry as_ = Ok xs.
Proof.
  induction 1 as [|e x es xs (b & -> & Hb) Hs IH]; intros Hl; [by exists []|].
  cbn [concat] in *. unfold len in Hl. rewrite length_app in Hl.
  destruct IH as (as_ & E & Em); [unfold len; lia|]. pose proof (len_chunk_inner (nested 0) b) as Hi. unfold len in Hi.
  rewrite parseAttrs_chunk, E by (done || (unfold len; lia)). eexists. split; [done|]. cbn [map_result].
  change (Z.land (nested 0) nlaTypeMask) with 0. rewrite Hb by (unfold len; lia). cbn [mbind result_bind]. by rewrite Em.
Qed.

(** ** Batches *)

Section batches.
Context (family : Z) (name : string).
Hypothesis Hfamily : 0 ≤ family < 65536.
Hypothesis Hname : checkName name = true.

Definition batch_says (b : list Z) (xs : list (Z * WgPeer)) : Prop :=
  ∃ es, b = concat es ∧ Forall2 says es xs ∧ (0 < len b → len (peersMessage little family name b) ≤ maxMessage).

Definition message_says (m : list Z) (xs : list (Z * WgPeer)) : Prop :=
  ∃ b, m = peersMessage little family name b ∧ 0 < len b ∧ batch_says b xs.

Lemma batch_step msgs batch e x gs g msgs' batch' :
  Forall2 message_says msgs gs → batch_says batch g → says e x →
  batch_entry little family name (msgs, batch) e = Ok (msgs', batch') →
  ∃ gs' g', Forall2 message_says msgs' gs' ∧ batch_says batch' g' ∧ concat gs' ++ g' = (concat gs ++ g) ++ [x].
Proof.
  intros Hm (es & -> & Hes & Hsize) Hx. unfold batch_entry. destruct (maxMessage <? _) eqn:E1; [done|].
  apply Z.ltb_ge in E1. assert (Ha : aligned e) by (destruct Hx as (b & -> & _); apply aligned_chunk).
  pose proof (says_aligned es g Hes) as Has.
  destruct (_ && _) eqn:E2; intros [= <- <-].
  - apply andb_true_iff in E2 as [E2%Z.ltb_lt _]. exists (gs ++ [g]), [x]. split; [|split].
    + apply Forall2_app; [done|]. repeat constructor. exists (concat es). split; [done|]. split; [done|]. by exists es.
    + exists [e]. cbn. rewrite app_nil_r. split; [done|]. split; [by constructor|]. intros _. by rewrite len_peersMessage.
    + rewrite concat_app. cbn. by rewrite app_nil_r.
  - exists gs, (g ++ [x]). split; [done|]. split; [|by rewrite app_assoc]. exists (es ++ [e]). rewrite concat_app. cbn.
    rewrite app_nil_r. split; [done|]. split; [apply Forall2_app; [done|by constructor]|]. intros Hl.
    rewrite len_peersMessage by by apply aligned_app. apply andb_false_iff in E2 as [E2%Z.ltb_ge|E2%Z.ltb_ge];
      unfold len in *; rewrite ?length_app in *; lia.
Qed.

Lemma batch_fold es xs : Forall2 says es xs → ∀ msgs batch gs g msgs' batch',
  Forall2 message_says msgs gs → batch_says batch g →
  fold_result (batch_entry little family name) (msgs, batch) es = Ok (msgs', batch') →
  ∃ gs' g', Forall2 message_says msgs' gs' ∧ batch_says batch' g' ∧ concat gs' ++ g' = (concat gs ++ g) ++ xs.
Proof.
  induction 1 as [|e x es xs Hx Hs IH]; intros msgs batch gs g msgs' batch' Hm Hb; cbn [fold_result].
  - intros [= <- <-]. exists gs, g. by rewrite app_nil_r.
  - intros ([msgs1 batch1] & H1 & H2)%bind_Ok.
    destruct (batch_step _ _ _ _ _ _ _ _ Hm Hb Hx H1) as (gs1 & g1 & Hm1 & Hb1 & E1).
    destruct (IH _ _ _ _ _ _ Hm1 Hb1 H2) as (gs' & g' & ? & ? & E). exists gs', g'. split; [done|]. split; [done|].
    rewrite E, E1. by rewrite <- app_assoc.
Qed.

Lemma no_zero_name s : string_forallb name_char s = true → Forall (λ x, x ≠ 0) (str_bytes s).
Proof.
  induction s as [|c s IH]; cbn; [constructor|]. intros [Hc Hs]%andb_true_iff. constructor; [|auto].
  unfold name_char in Hc. intros E. rewrite E in Hc. cbn in Hc. by rewrite !orb_true_r in Hc.
Qed.

Lemma drop_zeros_nonzero l : Forall (λ x, x ≠ 0) l → drop_zeros l = l.
Proof. destruct 1 as [|x l Hx Hl]; [done|]. cbn. by apply Z.eqb_neq in Hx as ->. Qed.

Lemma attr_str_name t s : string_forallb name_char s = true → attr_str (MkAttr t (str_bytes s ++ [0])) = s.
Proof.
  intros Hs%no_zero_name. unfold attr_str. cbn [at_data]. rewrite reverse_app.
  change (drop_zeros (reverse [0] ++ reverse (str_bytes s))) with (drop_zeros (reverse (str_bytes s))).
  rewrite drop_zeros_nonzero by by apply Forall_reverse. by rewrite reverse_involutive, bytes_str_bytes.
Qed.

Lemma message_read m xs : message_says m xs → read_message m = Ok (family, name, xs) ∧ len m ≤ maxMessage.
Proof.
  intros (b & -> & Hpos & es & -> & Hes & Hsize). specialize (Hsize Hpos). split; [|done].
  pose proof (says_aligned es xs Hes) as Ha. rewrite peersMessage_eq in Hsize |- * by done.
  set (attrs := body (msg_attrs name (concat es))) in *.
  assert (Hattrs : len attrs ≤ maxMessage).
  { revert Hsize. unfold len. rewrite !length_app. lia. }
  set (data := genlHeader wgCmdSetDevice wgGenlVersion ++ attrs).
  assert (Hd : 20 + len attrs = 16 + len data) by (unfold data, len; rewrite length_app; cbn; lia).
  unfold read_message. change (replicate 8 0) with (replicate 4 0 ++ replicate 4 0). rewrite <- app_assoc, Hd.
  assert (Hb : len data < 65536) by (unfold maxMessage in *; lia).
  rewrite parseMessages_one; [|done|done|lia|apply aligned_app; [done|apply aligned_body]].
  cbn [mbind result_bind ms_data ms_typ]. change (drop genlHdrLen data) with attrs. unfold attrs.
  rewrite parse_body by (eapply fits_small; [done|unfold maxMessage; lia|by repeat constructor]).
  cbn [mbind result_bind]. unfold msg_attrs. cbn [fmap list_fmap find]. cbn [read at_typ at_data fst snd].
  change (Z.land wgdeviceAIfname nlaTypeMask =? wgdeviceAIfname) with true.
  change (Z.land wgdeviceAIfname nlaTypeMask =? wgdeviceAPeers) with false.
  change (Z.land (nested wgdeviceAPeers) nlaTypeMask =? wgdeviceAPeers) with true. cbv iota.
  destruct (entries_read es xs Hes) as (as_ & E & Em).
  { pose proof (body_len (nested wgdeviceAPeers, concat es) (msg_attrs name (concat es)) ltac:(unfold msg_attrs; set_solver)).
    cbn [snd] in *. unfold maxMessage in *. fold attrs in H. lia. }
  unfold read. cbn [at_data fst snd]. rewrite E. cbn [mbind result_bind]. rewrite Em. cbn [mbind result_bind].
  rewrite attr_str_name; [done|]. unfold checkName in Hname. by apply andb_true_iff in Hname as [_ ?].
Qed.

Lemma messages_read msgs gs :
  Forall2 message_says msgs gs →
  map_result read_message msgs = Ok ((λ g, (family, name, g)) <$> gs) ∧ Forall (λ m, len m ≤ maxMessage) msgs.
Proof.
  induction 1 as [|m g msgs gs Hm Hs [IH IH']]; [done|]. destruct (message_read m g Hm) as [E Hl].
  split; [|by constructor]. cbn [map_result]. rewrite E. cbn [mbind result_bind]. by rewrite IH.
Qed.

(** The messages of [splitPeerMessages], read back. *)
Lemma splitPeerMessages_read remove set msgs :
  Forall (λ k, length k = KeyLen) remove → Forall wf_peer set →
  splitPeerMessages little family name remove set = Ok msgs →
  Forall (λ m, len m ≤ maxMessage) msgs ∧
  ∃ gs, map_result read_message msgs = Ok ((λ g, (family, name, g)) <$> gs)
    ∧ concat gs = (removal <$> remove) ++ (setting <$> set).
Proof.
  intros Hr Hs. unfold splitPeerMessages. intros (es & He & H)%bind_Ok.
  apply bind_Ok in H as ([msgs' batch] & Hf & [= <-]).
  pose proof (peer_entries_say _ _ _ Hr Hs He) as Hsay.
  destruct (batch_fold _ _ Hsay [] [] [] [] msgs' batch) as (gs & g & Hm & Hb & E); [constructor| |done|].
  { exists []. split; [done|]. split; [constructor|]. unfold len. cbn. lia. }
  cbn in E. destruct (0 <? len batch) eqn:El.
  - apply Z.ltb_lt in El. destruct (messages_read (msgs' ++ [peersMessage little family name batch]) (gs ++ [g])) as [Em Hl].
    { apply Forall2_app; [done|]. repeat constructor. by exists batch. }
    split; [done|]. exists (gs ++ [g]). split; [done|]. rewrite concat_app. cbn. by rewrite app_nil_r.
  - destruct (messages_read msgs' gs Hm) as [Em Hl]. split; [done|]. exists gs. split; [done|]. rewrite <- E.
    destruct Hb as (es' & -> & Hes & _). apply Z.ltb_ge in El. destruct Hes as [|e x es' g (b & -> & _)]; [by rewrite app_nil_r|].
    unfold len in El. cbn in El. rewrite length_app, length_chunk in El. lia.
Qed.
End batches.

(** C22: the messages that set the peers of a WireGuard device are read back
    whole: each is within netlink's limit, each names the generic netlink
    family and the device, and their entries, in order, are one removal for
    each peer to remove and then one entry for each peer to set, which replaces
    its allowed IPs and carries its key, endpoint, keepalive and prefixes. *)
Theorem peer_messages_read (family : Z) (name : string) (remove : list Key) (set : list WgPeer) (msgs : list (list Z)) :
  0 ≤ family < 65536 → checkName name = true →
  Forall (λ k, length k = KeyLen) remove → Forall wf_peer set →
  splitPeerMessages little family name remove set = Ok msgs →
  Forall (λ m, len m ≤ maxMessage) msgs ∧
  ∃ gs, map_result read_message msgs = Ok ((λ g, (family, name, g)) <$> gs)
    ∧ concat gs = (removal <$> remove) ++ (setting <$> set).
Proof. intros. by apply splitPeerMessages_read. Qed.

(** ** The device *)

(** What a WireGuard device does with an entry.  [wg_dump] is what it reports,
    [wg_own] its own key.  A removed peer is gone; a set peer has the entry's
    keepalive and exactly its allowed IPs, and its endpoint if the entry has
    one; an allowed IP belongs to one peer, so it is taken from the others,
    which keep all else; a peer with the device's own key is ignored. *)
Class WireGuard := {
  wg_state : Type;
  wg_own : Key;
  wg_dump : wg_state → list PeerState;
  wg_apply : wg_state → Z * WgPeer → wg_state;
  wg_peers (s : wg_state) : gmap Key WgPeer := current_peers (wg_dump s);
  wg_removed s k : wg_peers (wg_apply s (removal k)) = delete k (wg_peers s);
  wg_set s p :
    Forall (λ pr, IsValid pr = true ∧ Masked pr = pr) (wp_AllowedIPs p) → wp_PublicKey p ≠ wg_own →
    ∃ q, wg_peers (wg_apply s (wgpeerFReplaceAllowedips, p)) !! wp_PublicKey p = Some q
      ∧ (∀ pr, pr ∈ wp_AllowedIPs q ↔ pr ∈ wp_AllowedIPs p) ∧ wp_Keepalive q = wp_Keepalive p
      ∧ (valid_addr (ap_Addr (wp_Endpoint p)) = true → wp_Endpoint q = wp_Endpoint p);
  wg_set_other s p k :
    Forall (λ pr, IsValid pr = true ∧ Masked pr = pr) (wp_AllowedIPs p) → wp_PublicKey p ≠ wg_own →
    k ≠ wp_PublicKey p →
    wg_peers (wg_apply s (wgpeerFReplaceAllowedips, p)) !! k
    = (λ q, q <| wp_AllowedIPs ::= filter (λ pr, pr ∉ wp_AllowedIPs p) |>) <$> wg_peers s !! k
}.

(** A zone the kernel keeps: none, or the number of an interface. *)
Definition numbered_zone (ep : AddrPort) : Prop :=
  if is4 (ap_Addr ep) then ap_Zone ep = ""%string else scope_zone (ap_Zone ep) = ap_Zone ep.

Definition disjoint_ips (p q : WgPeer) : Prop :=
  ∀ x, x ∈ Masked <$> wp_AllowedIPs p → x ∉ Masked <$> wp_AllowedIPs q.

Lemma Unmap_Unmap a : Unmap (Unmap a) = Unmap a.
Proof. destruct a as [|z|z]; [done..|]. cbn. destruct (_ =? _) eqn:E; [done|]. cbn. by rewrite E. Qed.

Lemma unmap_sent ep : numbered_zone ep → unmap (sent_endpoint ep) = unmap ep.
Proof.
  intros Hz. unfold sent_endpoint, unmap. cbn [ap_Addr ap_Zone ap_Port]. rewrite Unmap_Unmap.
  rewrite decide_True by done. f_equal. unfold numbered_zone in Hz. case_decide as Hd.
  - rewrite Hd. by destruct (is4 (ap_Addr ep)).
  - by destruct (is4 (Unmap (ap_Addr ep))).
Qed.

Lemma keepaliveSeconds_idem d : keepaliveSeconds (keepaliveSeconds d * Second) = keepaliveSeconds d.
Proof.
  pose proof (keepaliveSeconds_range d). unfold keepaliveSeconds at 1. rewrite Z.quot_mul by (unfold Second; lia). lia.
Qed.

Lemma prefixSet_elem x l : x ∈ prefixSet l ↔ x ∈ Masked <$> l.
Proof. unfold prefixSet. by rewrite elem_of_remove_dups. Qed.

Lemma samePrefixes_iff a b :
  samePrefixes a b = true ↔ ∀ x, x ∈ Masked <$> a ↔ x ∈ Masked <$> b.
Proof.
  unfold samePrefixes. rewrite andb_true_iff, Nat.eqb_eq, forallb_forall.
  setoid_rewrite <- prefixSet_elem. pose proof (NoDup_remove_dups (Masked <$> a)) as Ha.
  pose proof (NoDup_remove_dups (Masked <$> b)) as Hb. fold (prefixSet a) in Ha. fold (prefixSet b) in Hb.
  split.
  - intros [El Hf] x.
    assert (Hs : prefixSet a ⊆+ prefixSet b).
    { apply NoDup_submseteq; [done|]. intros y Hy%list_elem_of_In%Hf. by apply bool_decide_eq_true in Hy. }
    apply submseteq_length_Permutation in Hs; [|lia]. by rewrite Hs.
  - intros H. apply NoDup_Permutation in H; [|done..]. split; [by rewrite H|].
    intros y Hy%list_elem_of_In. apply bool_decide_eq_true. by rewrite <- H.
Qed.

Lemma removals_peers `{WireGuard} ks s k :
  wg_peers (foldl wg_apply s (removal <$> ks)) !! k = if decide (k ∈ ks) then None else wg_peers s !! k.
Proof.
  revert s. induction ks as [|x ks IH]; intros s; cbn; [done|]. rewrite IH, wg_removed. case_decide as H1; case_decide as H2.
  - done.
  - by rewrite elem_of_cons in H2; destruct H2; right.
  - apply elem_of_cons in H2 as [->|]; [apply lookup_delete_eq|done].
  - apply lookup_delete_ne. set_solver.
Qed.
Section device.
Context `{W : WireGuard}.
Context (want : list WgPeer).
Hypothesis Hkeys : NoDup (wp_PublicKey <$> want).
Hypothesis Hwf : Forall wf_peer want.
Hypothesis Hzone : Forall (λ p, valid_addr (ap_Addr (wp_Endpoint p)) = true → numbered_zone (wp_Endpoint p)) want.
Hypothesis Hips : ∀ p q, p ∈ want → q ∈ want → p ≠ q → disjoint_ips p q.
Hypothesis Hown : wg_own ∉ wp_PublicKey <$> want.

Definition in_place (s : wg_state) (p : WgPeer) : Prop :=
  ∃ q, wg_peers s !! wp_PublicKey p = Some q ∧ samePeer q p = true.

Lemma sent_masked p : p ∈ want → Forall (λ pr, IsValid pr = true ∧ Masked pr = pr) (wp_AllowedIPs (sent_peer p)).
Proof.
  intros Hp. rewrite Forall_forall in Hwf. destruct (Hwf p Hp) as (_ & _ & Hv). cbn. apply Forall_fmap.
  eapply Forall_impl; [exact Hv|]. intros pr [H _]. cbn. split; [by apply Masked_valid|apply Masked_Masked].
Qed.

Lemma own_not_wanted p : p ∈ want → wp_PublicKey p ≠ wg_own.
Proof. intros Hp E. apply Hown. rewrite <- E. by apply list_elem_of_fmap_2. Qed.

Lemma Masked_fmap (l : list Prefix) : Masked <$> (Masked <$> l) = Masked <$> l.
Proof. rewrite <- list_fmap_compose. apply list_fmap_ext. intros. apply Masked_Masked. Qed.

Lemma valid_Unmap a : valid_addr (Unmap a) = valid_addr a.
Proof. destruct a as [|z|z]; [done..|]. cbn. by destruct (_ =? _). Qed.

Lemma sent_valid p :
  valid_addr (ap_Addr (wp_Endpoint p)) = true → valid_addr (ap_Addr (wp_Endpoint (sent_peer p))) = true.
Proof. intros H. unfold sent_peer. cbn. rewrite H. cbn. by rewrite valid_Unmap. Qed.

(** An entry puts its peer in place. *)
Lemma set_in_place s p : p ∈ want → in_place (wg_apply s (setting p)) p.
Proof.
  intros Hp. destruct (wg_set s (sent_peer p) (sent_masked p Hp) (own_not_wanted p Hp)) as (q & Hq & Hi & Hk & He).
  exists q. split; [exact Hq|]. unfold samePeer.
  assert (Hep : valid_addr (ap_Addr (wp_Endpoint p))
    && negb (bool_decide (unmap (wp_Endpoint q) = unmap (wp_Endpoint p))) = false).
  { destruct (valid_addr (ap_Addr (wp_Endpoint p))) eqn:Ev; [|done]. cbn. apply negb_false_iff, bool_decide_eq_true.
    rewrite (He (sent_valid p Ev)). unfold sent_peer. cbn. rewrite Ev. apply unmap_sent.
    rewrite Forall_forall in Hzone. by apply (Hzone p Hp). }
  rewrite Hep, Hk. cbn [sent_peer wp_Keepalive]. rewrite keepaliveSeconds_idem, Z.eqb_refl. cbn [negb].
  apply samePrefixes_iff. intros x. cbn in Hi. rewrite <- (Masked_fmap (wp_AllowedIPs p)).
  setoid_rewrite list_elem_of_fmap. by setoid_rewrite Hi.
Qed.

(** And takes nothing from a peer that is in place. *)
Lemma set_keeps s p p' :
  p ∈ want → p' ∈ want → p ≠ p' → in_place s p' →
  wg_peers (wg_apply s (setting p)) !! wp_PublicKey p' = wg_peers s !! wp_PublicKey p'.
Proof.
  intros Hp Hp' Hn (q & Hq & Hs). rewrite (wg_set_other s (sent_peer p)); [|by apply sent_masked|exact (own_not_wanted p Hp)|].
  - rewrite Hq. cbn. f_equal. destruct q as [qk qe qi qa].
    transitivity (MkWgPeer qk qe (filter (λ pr, pr ∉ Masked <$> wp_AllowedIPs p) qi) qa); [done|]. f_equal. apply filter_all.
    apply Forall_forall. intros x Hx Hx'. unfold samePeer in Hs. repeat case_match; try done.
    cbn in Hs. apply samePrefixes_iff with (x := Masked x) in Hs. apply (Hips p p' Hp Hp' Hn (Masked x)).
    + apply list_elem_of_fmap in Hx' as (y & -> & Hy). rewrite Masked_Masked. by apply list_elem_of_fmap_2.
    + apply Hs. by apply list_elem_of_fmap_2.
  - cbn. intros E. apply Hn. apply list_elem_of_lookup in Hp as [i Hi], Hp' as [j Hj].
    assert (i = j) as ->; [|congruence]. eapply (NoDup_lookup _ _ _ (wp_PublicKey p)); [exact Hkeys|..];
      rewrite list_lookup_fmap; [by rewrite Hi|rewrite Hj; cbn; by rewrite E].
Qed.

Lemma in_place_kept s p p' : p ∈ want → p' ∈ want → p ≠ p' → in_place s p' → in_place (wg_apply s (setting p)) p'.
Proof. intros Hp Hp' Hn Hi. unfold in_place. rewrite (set_keeps s p p'); done. Qed.

Lemma sets_in_place set s p :
  Forall (λ p, p ∈ want) set → p ∈ want → p ∈ set ∨ in_place s p → in_place (foldl wg_apply s (setting <$> set)) p.
Proof.
  intros Hs. revert s. induction Hs as [|x set Hx Hs IH]; intros s Hp Hc; cbn; [by destruct Hc as [?%elem_of_nil|]|].
  apply IH; [done|]. destruct (decide (x = p)) as [->|Hn]; [right; by apply set_in_place|].
  destruct Hc as [[->|?]%elem_of_cons|Hc]; [done|by left|right; by apply in_place_kept].
Qed.

Lemma sets_keep set s p :
  Forall (λ p, p ∈ want) set → p ∈ want → p ∉ set → in_place s p →
  wg_peers (foldl wg_apply s (setting <$> set)) !! wp_PublicKey p = wg_peers s !! wp_PublicKey p.
Proof.
  intros Hs. revert s. induction Hs as [|x set Hx Hs IH]; intros s Hp Hn Hi;
    cbn; [done|]. apply not_elem_of_cons in Hn as [Hn Hn']. rewrite IH; [|done..|by apply in_place_kept]. by apply set_keeps.
Qed.

Lemma sets_only set s k :
  Forall (λ p, p ∈ want) set → is_Some (wg_peers (foldl wg_apply s (setting <$> set)) !! k) →
  is_Some (wg_peers s !! k) ∨ k ∈ wp_PublicKey <$> want.
Proof.
  intros Hs. revert s. induction Hs as [|x set Hx Hs IH]; intros s; cbn; [by left|].
  intros [H|H]%IH; [|by right]. destruct (decide (k = wp_PublicKey x)) as [->|Hn].
  - right. by apply list_elem_of_fmap_2.
  - left. rewrite (wg_set_other s (sent_peer x)) in H; [|by apply sent_masked|exact (own_not_wanted x Hx)|done].
    by apply fmap_is_Some in H.
Qed.

End device.

(** The messages of [SetPeers], delivered to a device. *)
Definition deliver `{WireGuard} (s : wg_state) (msgs : list (list Z)) : result wg_error wg_state :=
  rs ← map_result read_message msgs;
  Ok (foldl wg_apply s (concat (snd <$> rs))).

Lemma listed_twice_None seen ps :
  listed_twice seen ps = None ↔ NoDup (wp_PublicKey <$> ps) ∧ ∀ k, k ∈ wp_PublicKey <$> ps → k ∉ seen.
Proof.
  revert seen. induction ps as [|p ps IH]; intros seen; cbn [listed_twice fmap list_fmap].
  - split; [|done]. intros _. split; [constructor|]. by intros k ?%elem_of_nil.
  - rewrite NoDup_cons. case_bool_decide as Hc.
    + split; [done|]. intros [_ H]. exfalso. eapply H; [|exact Hc]. by left.
    + rewrite IH. split.
      * intros [Hn H]. split; [split; [intros Hk; apply (H _ Hk); set_solver|done]|].
        intros k [->|Hk]%elem_of_cons; [done|]. apply H in Hk. set_solver.
      * intros [[Hp Hn] H]. split; [done|]. intros k Hk. specialize (H k). set_solver.
Qed.

Lemma elem_of_current have k :
  k ∈ (λ p, wp_PublicKey (st_Peer p)) <$> have ↔ is_Some (current_peers have !! k).
Proof.
  unfold current_peers. induction have as [|p l IH] using rev_ind.
  - cbn. rewrite lookup_empty. split; [by intros ?%elem_of_nil|by intros [? ?]].
  - rewrite fmap_app, foldl_app, elem_of_app, IH. cbn. rewrite list_elem_of_singleton, lookup_insert_is_Some'.
    naive_solver.
Qed.

Lemma differs_not_in_place `{WireGuard} s p :
  differs (current_peers (wg_dump s)) p = false ↔ in_place s p.
Proof.
  unfold differs, in_place, wg_peers. destruct (current_peers _ !! _) as [q|]; [|split; [done|by intros (? & ? & _)]].
  rewrite negb_false_iff. split; [by eauto|by intros (? & [= <-] & ?)].
Qed.

(** A device whose peers are the wanted ones gets no message. *)
Lemma in_place_no_messages `{WireGuard} s want family name :
  checkName name = true → NoDup (wp_PublicKey <$> want) → (∀ p, p ∈ want → in_place s p) →
  (∀ k, is_Some (wg_peers s !! k) → k ∈ wp_PublicKey <$> want) →
  SetPeers little family name (wg_dump s) want = Ok [].
Proof.
  intros Hn Hk Hp Hd. unfold SetPeers. rewrite Hn. cbn [negb].
  rewrite (proj2 (listed_twice_None ∅ want)) by (split; [done|]; set_solver). unfold diffPeers.
  rewrite !filter_none; [done|..].
  - apply Forall_forall. intros p H1 H2. apply Hp, differs_not_in_place in H1. congruence.
  - apply Forall_forall. intros k H1%elem_of_current. intros []. apply elem_of_list_to_set. by apply Hd.
Qed.

(** ** Every message fits *)

Lemma length_body l : (length (body l) ≤ sum_list_with (λ a, 7 + length a.2) l)%nat.
Proof.
  induction l as [|a l IH]; [cbn; lia|]. rewrite body_cons, length_app, length_chunk. cbn [sum_list_with].
  pose proof (padding_lt (length a.2)). lia.
Qed.

Lemma length_sockaddr ep : (length (sockaddr little ep) ≤ 28)%nat.
Proof.
  unfold sockaddr. cbv zeta. pose proof (length_AsSlice (Unmap (ap_Addr ep))) as Hs.
  destruct (is4 _) eqn:E4; rewrite !length_app, !length_ne_put, !length_be_put.
  - destruct (Unmap (ap_Addr ep)); [done| |done]. cbn [AsSlice length]. rewrite length_be_put. cbn. lia.
  - destruct (ParseUint32 _); [rewrite length_ne_put|]; cbn; lia.
Qed.

Lemma length_ips ps : (length (body (ips_attrs ps)) ≤ 47 * length ps)%nat.
Proof.
  etrans; [apply length_body|]. unfold ips_attrs. induction ps as [|p ps IH]; [cbn; lia|].
  pose proof (length_body (allowed_attrs p)) as Hb. pose proof (length_AsSlice (pf_Addr (Masked p))).
  unfold allowed_attrs in Hb at 2. cbv zeta in Hb. cbn [fmap list_fmap sum_list_with snd] in *.
  rewrite length_ne_put in Hb. cbn [length] in *. lia.
Qed.

Lemma len_peerEntry p e :
  wf_peer p → (length (wp_AllowedIPs p) ≤ 600)%nat → peerEntry little p = Ok e → len e + 50 ≤ maxMessage.
Proof.
  intros (Hk & _) Hn (_ & ->)%peerEntry_chunk. unfold len, maxMessage. rewrite length_chunk.
  pose proof (padding_lt (length (body (peer_attrs p)))). pose proof (length_body (peer_attrs p)) as Hb.
  pose proof (length_ips (wp_AllowedIPs p)). pose proof (length_sockaddr (wp_Endpoint p)).
  unfold peer_attrs in Hb at 2. unfold KeyLen in Hk.
  destruct (valid_addr _); cbn [app sum_list_with snd] in Hb; rewrite !length_ne_put, Hk in Hb; lia.
Qed.

Lemma len_removeEntry k : length k = KeyLen → len (removeEntry little k) + 50 ≤ maxMessage.
Proof.
  intros Hk. rewrite removeEntry_chunk. unfold len, maxMessage. rewrite length_chunk.
  pose proof (padding_lt (length (body (remove_attrs k)))). pose proof (length_body (remove_attrs k)) as Hb.
  unfold remove_attrs in Hb at 2. cbn [sum_list_with snd] in Hb. rewrite length_ne_put, Hk in Hb. unfold KeyLen in Hb. lia.
Qed.

Lemma len_empty family name : checkName name = true → len (peersMessage little family name []) ≤ 50.
Proof.
  unfold checkName. intros Hn. rewrite !andb_true_iff in Hn. destruct Hn as [[[[_ Hn%Nat.leb_le] _] _] _].
  rewrite peersMessage_eq by done. unfold len. rewrite !length_app, !length_ne_put, !length_replicate.
  unfold msg_attrs. rewrite !body_cons, !length_app, !length_chunk. cbn [fst snd]. rewrite length_app, length_str_bytes.
  pose proof (padding_lt (String.length name + length [0])). change (padding (length [])) with 0%nat. cbn [length body fmap list_fmap concat genlHeader].
  cbn [length] in *. lia.
Qed.

Lemma entries_total remove set :
  Forall wf_peer set → Forall (λ p, length (wp_AllowedIPs p) ≤ 600)%nat set → Forall (λ k, length k = KeyLen) remove →
  ∃ es, peer_entries little remove set = Ok es ∧ Forall (λ e, len e + 50 ≤ maxMessage) es.
Proof.
  intros Hw Hn Hr. unfold peer_entries.
  assert (H0 : Forall (λ e, len e + 50 ≤ maxMessage) (removeEntry little <$> remove)).
  { apply Forall_fmap. eapply Forall_impl; [exact Hr|]. exact len_removeEntry. }
  revert H0. generalize (removeEntry little <$> remove). induction set as [|p set IH]; intros acc Hacc; [by exists acc|].
  apply Forall_cons in Hw as [Hp Hw]. apply Forall_cons in Hn as [Hl Hn]. cbn [fold_result].
  destruct (peerEntry little p) as [e|err] eqn:E.
  - cbn [mbind result_bind]. apply IH; [done..|]. apply Forall_app. split; [done|]. constructor; [by eapply len_peerEntry|done].
  - exfalso. unfold peerEntry in E. destruct (find _ _) as [pr|] eqn:Ef; [|done]. apply find_some in Ef as [Hin Hv].
    destruct Hp as (_ & _ & Hp). rewrite Forall_forall in Hp. destruct (Hp pr) as [Hv' _]; [by apply list_elem_of_In|].
    by rewrite Hv' in Hv.
Qed.

Lemma split_total family name remove set :
  checkName name = true → Forall wf_peer set → Forall (λ p, length (wp_AllowedIPs p) ≤ 600)%nat set →
  Forall (λ k, length k = KeyLen) remove → ∃ msgs, splitPeerMessages little family name remove set = Ok msgs.
Proof.
  intros Hn Hw Hl Hr. unfold splitPeerMessages. destruct (entries_total remove set Hw Hl Hr) as (es & -> & He).
  cbn [mbind result_bind]. pose proof (len_empty family name Hn) as Hm.
  assert (Hb : ∀ s, ∃ s', fold_result (batch_entry little family name) s es = Ok s').
  { induction He as [|e es He Hes IH]; intros [msgs batch]; [by eexists|]. cbn [fold_result]. unfold batch_entry.
    replace (maxMessage <? len (peersMessage little family name []) + len e) with false by lia.
    destruct (_ && _); cbn [mbind result_bind]; apply IH. }
  destruct (Hb ([], [])) as [[msgs batch] ->]. cbn [mbind result_bind]. by eexists.
Qed.

Lemma Forall_filter_l {A} (P Q : A → Prop) `{∀ x, Decision (Q x)} l : Forall P l → Forall P (filter Q l).
Proof. rewrite !Forall_forall. intros H1 x [_ Hx]%list_elem_of_filter. by apply H1. Qed.

(** [SetPeers] does not fail on peers with few prefixes. *)
Lemma SetPeers_total family name have want :
  checkName name = true → NoDup (wp_PublicKey <$> want) → Forall wf_peer want →
  Forall (λ p, length (wp_AllowedIPs p) ≤ 600)%nat want →
  Forall (λ p, length (wp_PublicKey (st_Peer p)) = KeyLen) have →
  ∃ msgs, SetPeers little family name have want = Ok msgs.
Proof.
  intros Hn Hk Hw Hl Hh. unfold SetPeers. rewrite Hn. cbn [negb].
  rewrite (proj2 (listed_twice_None ∅ want)) by (split; [done|]; set_solver). unfold diffPeers.
  destruct (_ && _); [by eexists|]. apply split_total; [done|by apply Forall_filter_l..|].
  apply Forall_filter_l, Forall_fmap. exact Hh.
Qed.

Lemma set_peers_run `{W : WireGuard} (s : wg_state) (want : list WgPeer) (family : Z) (name : string)
    (msgs : list (list Z)) :
  0 ≤ family < 65536 →
  Forall (λ p, length (wp_PublicKey (st_Peer p)) = KeyLen) (wg_dump s) →
  Forall wf_peer want →
  Forall (λ p, valid_addr (ap_Addr (wp_Endpoint p)) = true → numbered_zone (wp_Endpoint p)) want →
  (∀ p q, p ∈ want → q ∈ want → p ≠ q → disjoint_ips p q) →
  wg_own ∉ wp_PublicKey <$> want →
  SetPeers little family name (wg_dump s) want = Ok msgs →
  Forall (λ m, len m ≤ maxMessage) msgs ∧
  ∃ s', deliver s msgs = Ok s'
    ∧ (∀ k, is_Some (wg_peers s' !! k) ↔ k ∈ wp_PublicKey <$> want)
    ∧ (∀ p, p ∈ want → ∃ q, wg_peers s' !! wp_PublicKey p = Some q ∧ samePeer q p = true)
    ∧ SetPeers little family name (wg_dump s') want = Ok []
    ∧ (∀ p q, p ∈ want → wg_peers s !! wp_PublicKey p = Some q → samePeer q p = true →
         wg_peers s' !! wp_PublicKey p = Some q).
Proof.
  intros Hf Hl Hwf Hzone Hips Hown Hset. unfold SetPeers in Hset. destruct (checkName name) eqn:Hn; [|done].
  cbn [negb] in Hset. destruct (listed_twice ∅ want) eqn:Hlt; [done|]. apply listed_twice_None in Hlt as [Hkeys _].
  destruct (diffPeers (wg_dump s) want) as [remove set] eqn:Hd. unfold diffPeers in Hd. injection Hd as Hr Hs.
  assert (Hsw : Forall (λ p, p ∈ want) set).
  { apply Forall_forall. intros p. rewrite <- Hs, list_elem_of_filter. by intros []. }
  assert (Hread : Forall (λ m, len m ≤ maxMessage) msgs
    ∧ deliver s msgs = Ok (foldl wg_apply (foldl wg_apply s (removal <$> remove)) (setting <$> set))).
  { unfold deliver. destruct (_ && _) eqn:E.
    - injection Hset as <-. split; [done|]. apply andb_true_iff in E as [E1%Nat.eqb_eq E2%Nat.eqb_eq].
      apply nil_length_inv in E1 as ->, E2 as ->. done.
    - destruct (splitPeerMessages_read family name Hf Hn remove set msgs) as (Hm & gs & Eg & Ec); [..|done|].
      + apply Forall_forall. intros k. rewrite <- Hr, list_elem_of_filter, list_elem_of_fmap.
        intros (_ & p & -> & Hp). rewrite Forall_forall in Hl. by apply Hl.
      + eapply Forall_impl; [exact Hsw|]. intros p Hp. rewrite Forall_forall in Hwf. by apply Hwf.
      + split; [done|]. rewrite Eg. cbn [mbind result_bind]. rewrite <- list_fmap_compose.
        rewrite list_fmap_id, Ec, foldl_app. done. }
  destruct Hread as [Hm Hread]. split; [done|]. eexists. split; [exact Hread|].
  set (s1 := foldl wg_apply s (removal <$> remove)).
  assert (H1 : ∀ p, p ∈ want → wg_peers s1 !! wp_PublicKey p = wg_peers s !! wp_PublicKey p).
  { intros p Hp. unfold s1. rewrite removals_peers, decide_False; [done|]. rewrite <- Hr, list_elem_of_filter.
    intros [H _]. apply H, elem_of_list_to_set. by apply list_elem_of_fmap_2. }
  assert (Hplace : ∀ p, p ∈ want → in_place (foldl wg_apply s1 (setting <$> set)) p).
  { intros p Hp. eapply sets_in_place; [done..|]. destruct (differs (current_peers (wg_dump s)) p) eqn:E.
    - left. by rewrite <- Hs, list_elem_of_filter.
    - right. apply differs_not_in_place in E. unfold in_place in *. by rewrite H1. }
  assert (Hdom : ∀ k, is_Some (wg_peers (foldl wg_apply s1 (setting <$> set)) !! k) → k ∈ wp_PublicKey <$> want).
  { intros k H. apply (sets_only want) in H as [H|?]; [|done..]. unfold s1 in H. rewrite removals_peers in H. case_decide as Hk; [by destruct H|].
    apply dec_stable. intros Hw. apply Hk. rewrite <- Hr, list_elem_of_filter. split; [by rewrite elem_of_list_to_set|].
    by apply elem_of_current. }
  repeat split; [by apply Hdom| |done|by apply in_place_no_messages|].
  - intros (p & -> & Hp)%list_elem_of_fmap. destruct (Hplace p Hp) as (q & -> & _). eauto.
  - intros p q Hp Hq Hsame. assert (Hin : in_place s p) by by exists q. rewrite (sets_keep want); [by rewrite H1|done..| |].
    + rewrite <- Hs, list_elem_of_filter. intros [E _]. apply differs_not_in_place in Hin. congruence.
    + unfold in_place. by rewrite H1.
Qed.

(** C10: [SetPeers] makes a WireGuard device's peers the wanted ones.  Whatever
    the device had, after the messages it sends are delivered the device has
    exactly the wanted keys, each peer with the wanted endpoint, keepalive and
    allowed IPs, and a second [SetPeers] sends nothing.  A peer that was already
    as wanted is exactly as it was, so its session is kept.  The wanted peers'
    prefixes are disjoint and the zones of their endpoints are numbers. *)
Theorem set_peers_converges `{W : WireGuard} (s : wg_state) (want : list WgPeer) (family : Z) (name : string)
    (msgs : list (list Z)) :
  0 ≤ family < 65536 →
  Forall (λ p, length (wp_PublicKey (st_Peer p)) = KeyLen) (wg_dump s) →
  Forall wf_peer want →
  Forall (λ p, valid_addr (ap_Addr (wp_Endpoint p)) = true → numbered_zone (wp_Endpoint p)) want →
  (∀ p q, p ∈ want → q ∈ want → p ≠ q → disjoint_ips p q) →
  wg_own ∉ wp_PublicKey <$> want →
  SetPeers little family name (wg_dump s) want = Ok msgs →
  Forall (λ m, len m ≤ maxMessage) msgs ∧
  ∃ s', deliver s msgs = Ok s'
    ∧ (∀ k, is_Some (wg_peers s' !! k) ↔ k ∈ wp_PublicKey <$> want)
    ∧ (∀ p, p ∈ want → ∃ q, wg_peers s' !! wp_PublicKey p = Some q ∧ samePeer q p = true)
    ∧ SetPeers little family name (wg_dump s') want = Ok []
    ∧ (∀ p q, p ∈ want → wg_peers s !! wp_PublicKey p = Some q → samePeer q p = true →
         wg_peers s' !! wp_PublicKey p = Some q).
Proof. apply set_peers_run. Qed.
End order.

(** ** A device *)

(** A device as a list of its peers, the last entry of a key being its peer. *)
Definition list_apply (own : Key) (s : list PeerState) (x : Z * WgPeer) : list PeerState :=
  let k := wp_PublicKey x.2 in
  let others := filter (λ q, wp_PublicKey (st_Peer q) ≠ k) s in
  if x.1 =? wgpeerFRemoveMe then others
  else if decide (k = own) then s
  else
    let ep := if valid_addr (ap_Addr (wp_Endpoint x.2)) then wp_Endpoint x.2
              else default noAddrPort (wp_Endpoint <$> current_peers s !! k) in
    (just ∘ (λ q, q <| wp_AllowedIPs ::= filter (λ pr, pr ∉ wp_AllowedIPs x.2) |>) ∘ st_Peer <$> others)
    ++ [just (x.2 <| wp_Endpoint := ep |>)].

Lemma current_filter k s :
  current_peers (filter (λ q, wp_PublicKey (st_Peer q) ≠ k) s) = delete k (current_peers s).
Proof.
  unfold current_peers. induction s as [|p s IH] using rev_ind; [symmetry; apply delete_empty|].
  rewrite filter_app, !foldl_app, IH. destruct (decide (wp_PublicKey (st_Peer p) = k)) as [<-|Hn].
  - rewrite filter_cons_False by naive_solver. cbn. by rewrite delete_insert_eq.
  - rewrite filter_cons_True by done. cbn. by rewrite delete_insert_ne.
Qed.

Lemma current_map f s :
  (∀ p, wp_PublicKey (f p) = wp_PublicKey p) →
  current_peers (just ∘ f ∘ st_Peer <$> s) = f <$> current_peers s.
Proof.
  intros Hf. unfold current_peers. induction s as [|p s IH] using rev_ind; [symmetry; apply fmap_empty|].
  rewrite fmap_app, !foldl_app, IH. cbn. by rewrite Hf, fmap_insert.
Qed.

Lemma list_apply_set own s p :
  wp_PublicKey p ≠ own →
  current_peers (list_apply own s (wgpeerFReplaceAllowedips, p))
  = <[wp_PublicKey p := p <| wp_Endpoint := if valid_addr (ap_Addr (wp_Endpoint p)) then wp_Endpoint p
        else default noAddrPort (wp_Endpoint <$> current_peers s !! wp_PublicKey p) |>]>
      ((λ q, q <| wp_AllowedIPs ::= filter (λ pr, pr ∉ wp_AllowedIPs p) |>) <$> delete (wp_PublicKey p) (current_peers s)).
Proof.
  intros Hn. unfold list_apply. cbn [fst snd]. change (wgpeerFReplaceAllowedips =? wgpeerFRemoveMe) with false. cbv iota.
  rewrite decide_False by done. unfold current_peers at 1. rewrite foldl_app. cbn [foldl st_Peer just].
  fold (current_peers (just ∘ (λ q, q <| wp_AllowedIPs ::= filter (λ pr, pr ∉ wp_AllowedIPs p) |>) ∘ st_Peer
          <$> filter (λ q, wp_PublicKey (st_Peer q) ≠ wp_PublicKey p) s)).
  by rewrite current_map, current_filter.
Qed.

#[export] Program Instance list_device (own : Key) : WireGuard :=
  {| wg_state := list PeerState; wg_own := own; wg_dump := λ s, s; wg_apply := list_apply own |}.
Next Obligation. intros own s k. unfold list_apply, removal. cbn. apply current_filter. Qed.
Next Obligation.
  intros own s p _ Hn. eexists. rewrite (list_apply_set own s p Hn), lookup_insert_eq. split; [done|].
  split; [done|]. split; [done|]. by intros ->.
Qed.
Next Obligation.
  intros own s p k _ Hn Hk. cbv beta. rewrite (list_apply_set own s p Hn).
  by rewrite lookup_insert_ne, lookup_fmap, lookup_delete_ne by done.
Qed.

Definition demo_key (n : Z) : Key := replicate 32 n.

(** Two wanted peers, one with an IPv6 endpoint, and a device that has one of
    them, lacks the other's prefix and has a third. *)
Definition demo_want : list WgPeer :=
  [MkWgPeer (demo_key 1) (MkAddrPort (Addr4 3232235777) "" 51820) [MkPrefix (Addr4 167772417) 24] (25 * Second);
   MkWgPeer (demo_key 2) (MkAddrPort (Addr6 1) "7" 51821) [MkPrefix (Addr4 167772673) 24; MkPrefix (Addr6 5) 64] 0].

Definition demo_have : list PeerState :=
  just <$> [MkWgPeer (demo_key 1) (MkAddrPort (Addr4 3232235777) "" 51820) [MkPrefix (Addr4 167772416) 24] (25 * Second);
            MkWgPeer (demo_key 3) noAddrPort [MkPrefix (Addr4 167772672) 24] 0].

Definition demo_msgs : list (list Z) :=
  match SetPeers true 30 "wg0" demo_have demo_want with Ok m => m | Err _ => [] end.

Lemma demo_wf : Forall wf_peer demo_want.
Proof. repeat constructor; cbn; done. Qed.

Lemma demo_zone :
  Forall (λ p, valid_addr (ap_Addr (wp_Endpoint p)) = true → numbered_zone (wp_Endpoint p)) demo_want.
Proof. repeat constructor. Qed.

Lemma demo_disjoint p q : p ∈ demo_want → q ∈ demo_want → p ≠ q → disjoint_ips p q.
Proof.
  assert (H : Forall (λ p, Forall (λ q, p = q ∨ Forall (λ x, x ∉ Masked <$> wp_AllowedIPs q) (Masked <$> wp_AllowedIPs p))
    demo_want) demo_want) by (apply (bool_decide_unpack _); vm_compute; exact I).
  intros Hp Hq Hn x Hx. rewrite Forall_forall in H. specialize (H p Hp). rewrite Forall_forall in H.
  destruct (H q Hq) as [?|H']; [done|]. rewrite Forall_forall in H'. by apply H'.
Qed.

Lemma peer_messages_read_witness : ∃ gs,
  map_result (read_message true) demo_msgs = Ok ((λ g, (30, "wg0"%string, g)) <$> gs)
  ∧ concat gs = [removal (demo_key 3); setting (MkWgPeer (demo_key 2) (MkAddrPort (Addr6 1) "7" 51821)
      [MkPrefix (Addr4 167772673) 24; MkPrefix (Addr6 5) 64] 0)].
Proof.
  apply (peer_messages_read true 30 "wg0" [demo_key 3] (drop 1 demo_want)); [lia|done|by repeat constructor| |by vm_compute].
  apply Forall_drop, demo_wf.
Defined.

Lemma set_peers_converges_witness : ∃ s',
  deliver true (H := list_device (demo_key 255)) demo_have demo_msgs = Ok s'
  ∧ SetPeers true 30 "wg0" s' demo_want = Ok []
  ∧ current_peers s' !! demo_key 1 = current_peers demo_have !! demo_key 1.
Proof.
  destruct (set_peers_converges true (W := list_device (demo_key 255)) demo_have demo_want 30 "wg0" demo_msgs)
    as (_ & s' & Hd & _ & _ & Hs & Hk).
  - lia.
  - apply (bool_decide_unpack (Forall (λ p, length (wp_PublicKey (st_Peer p)) = KeyLen) demo_have)). by vm_compute.
  - apply demo_wf.
  - apply demo_zone.
  - apply demo_disjoint.
  - cbn. set_solver by discriminate.
  - by vm_compute.
  - exists s'. split; [exact Hd|]. split; [exact Hs|]. refine (Hk (nth 0 demo_want (st_Peer zeroPeer)) _ _ eq_refl eq_refl). by left.
Defined.
