(* ===== verification/NetText.v ===== *)
(** * Addresses as text (net/netip, mesh.CheckEndpoint)

    The store keeps the prefixes, addresses and endpoints of the mesh as the
    text that Go's net/netip prints, and the ingress parses them again.  The
    parsers and printers of net/netip are translated byte by byte; proved are
    the round trips the mesh relies on, and that [CheckEndpoint] gives an
    endpoint in one form only. *)

From S2P Require Import Prelude Text Mesh Wg WgSync.

#[local] Open Scope string_scope.
#[local] Open Scope list_scope.
#[local] Open Scope Z_scope.

(** ** Strings and numbers *)

(** The text before and after the last byte [c] ([bytealg.LastIndexByteString]). *)
Fixpoint last_cut (c : Ascii.ascii) (s : string) : option (string * string) :=
  match s with
  | EmptyString => None
  | String d s' =>
      match last_cut c s' with
      | Some (a, b) => Some (String d a, b)
      | None => if Ascii.eqb d c then Some ("", s') else None
      end
  end.

(** The text before and after the first byte [c]. *)
Fixpoint first_cut (c : Ascii.ascii) (s : string) : option (string * string) :=
  match s with
  | EmptyString => None
  | String d s' =>
      if Ascii.eqb d c then Some ("", s')
      else match first_cut c s' with Some (a, b) => Some (String d a, b) | None => None end
  end.

(** [strconv.ParseUint] in base 10, of a number of at most [max]. *)
Fixpoint parse_uint (max acc : Z) (s : string) : option Z :=
  match s with
  | EmptyString => Some acc
  | String c s' =>
      let d := byteZ c - 48 in
      if (0 <=? d) && (d <=? 9) && (acc * 10 + d <=? max) then parse_uint max (acc * 10 + d) s' else None
  end.

Definition ParseUint (max : Z) (s : string) : option Z :=
  if String.eqb s "" then None else parse_uint max 0 s.

(** ** IPv4 *)

(** [netip.parseIPv4Fields]; [start] says that no digit of a field was read. *)
Fixpoint ip4_fields (start : bool) (val digLen : Z) (fields : list Z) (s : string) : option (list Z) :=
  match s with
  | EmptyString => if (length fields <? 3)%nat then None else Some (fields ++ [val])
  | String c s' =>
      let d := byteZ c - 48 in
      if (0 <=? d) && (d <=? 9) then
        if (digLen =? 1) && (val =? 0) then None
        else if 255 <? val * 10 + d then None
        else ip4_fields false (val * 10 + d) (digLen + 1) fields s'
      else if Ascii.eqb c "." then
        if start || String.eqb s' "" then None
        else if (length fields =? 3)%nat then None
        else ip4_fields true 0 0 (fields ++ [val]) s'
      else None
  end.

Definition parseIPv4Fields (s : string) : option (list Z) := ip4_fields true 0 0 [] s.

Definition parseIPv4 (s : string) : option Addr := (λ f, Addr4 (be_get f)) <$> parseIPv4Fields s.

Definition decDigit (d : Z) : Ascii.ascii := Ascii.ascii_of_N (Z.to_N (48 + d)).

(** [netip.appendDecimal], of a byte. *)
Definition appendDecimal (x : Z) : string :=
  (if 100 <=? x then String (decDigit (x / 100)) "" else "") +:+
  (if 10 <=? x then String (decDigit (x / 10 mod 10)) "" else "") +:+
  String (decDigit (x mod 10)) "".

(** [Addr.string4]. *)
Definition string4 (z : Z) : string :=
  match be_put 4 z with
  | [a; b; c; d] => appendDecimal a +:+ "." +:+ appendDecimal b +:+ "." +:+ appendDecimal c +:+ "." +:+ appendDecimal d
  | _ => ""
  end.

(** ** IPv6 *)

Definition hexVal (c : Ascii.ascii) : option Z :=
  let z := byteZ c in
  if (48 <=? z) && (z <=? 57) then Some (z - 48)
  else if (97 <=? z) && (z <=? 102) then Some (z - 97 + 10)
  else if (65 <=? z) && (z <=? 70) then Some (z - 65 + 10)
  else None.

(** A group's hexadecimal digits: how many they are, their number and the rest. *)
Fixpoint hex_group (off acc : Z) (s : string) : option (Z * Z * string) :=
  match s with
  | EmptyString => Some (off, acc, "")
  | String c s' =>
      match hexVal c with
      | None => Some (off, acc, s)
      | Some d =>
          if 3 <? off then None
          else if 65535 <? acc * 16 + d then None
          else hex_group (off + 1) (acc * 16 + d) s'
      end
  end.

(** The loop of [netip.parseIPv6] with [n] groups to go: the bytes read so far
    and where among them the ellipsis is. *)
Fixpoint groups6 (n : nat) (s : string) (ip : list Z) (ellipsis : option nat) : option (string * list Z * option nat) :=
  match n with
  | O => Some (s, ip, ellipsis)
  | S n' =>
      '(off, acc, rest) ← hex_group 0 0 s;
      if off =? 0 then None
      else if match rest with String c _ => Ascii.eqb c "." | EmptyString => false end then
        if match ellipsis with None => negb (length ip =? 12)%nat | Some _ => false end then None
        else if (16 <? length ip + 4)%nat then None
        else f ← parseIPv4Fields s; Some ("", ip ++ f, ellipsis)
      else
        let ip := ip ++ [byte (Z.shiftr acc 8); byte acc] in
        match rest with
        | EmptyString => Some ("", ip, ellipsis)
        | String c rest =>
            if negb (Ascii.eqb c ":") then None
            else match rest with
            | EmptyString => None
            | String c' rest' =>
                if Ascii.eqb c' ":" then
                  match ellipsis with
                  | Some _ => None
                  | None =>
                      if String.eqb rest' "" then Some ("", ip, Some (length ip))
                      else groups6 n' rest' ip (Some (length ip))
                  end
                else groups6 n' rest ip ellipsis
            end
        end
  end.

(** What the loop read as sixteen bytes: all of the text was read, and an
    ellipsis stands for the bytes that are missing. *)
Definition expand6 (r : string * list Z * option nat) : option (list Z) :=
  let '(s, ip, ellipsis) := r in
  if negb (String.eqb s "") then None
  else if (length ip <? 16)%nat then
    match ellipsis with
    | None => None
    | Some e => Some (take e ip ++ replicate (16 - length ip) 0 ++ drop e ip)
    end
  else match ellipsis with None => Some ip | Some _ => None end.

(** [netip.parseIPv6]: the address and its zone. *)
Definition parseIPv6 (s : string) : option (Addr * string) :=
  '(s, zone) ← match first_cut "%"%char s with
               | None => Some (s, "")
               | Some (a, z) => if String.eqb z "" then None else Some (a, z)
               end;
  '(s, ellipsis) ← Some (if HasPrefix s "::" then (String.substring 2 (String.length s - 2) s, Some O) else (s, None));
  if match ellipsis with Some _ => String.eqb s "" | None => false end then Some (Addr6 0, zone)
  else
    r ← groups6 8 s [] ellipsis;
    b ← expand6 r;
    Some (Addr6 (be_get b), zone).

Fixpoint addr_byte (s : string) : option Ascii.ascii :=
  match s with
  | EmptyString => None
  | String c s' => if Ascii.eqb c "." || Ascii.eqb c ":" || Ascii.eqb c "%" then Some c else addr_byte s'
  end.

(** [netip.ParseAddr]. *)
Definition ParseAddr (s : string) : option (Addr * string) :=
  match addr_byte s with
  | Some c =>
      if Ascii.eqb c "." then (λ a, (a, "")) <$> parseIPv4 s
      else if Ascii.eqb c ":" then parseIPv6 s
      else None
  | None => None
  end.

Definition hexDigit (d : Z) : Ascii.ascii := Ascii.ascii_of_N (Z.to_N (if d <? 10 then 48 + d else 87 + d)).

(** [netip.appendHex]. *)
Definition appendHex (x : Z) : string :=
  (if 0x1000 <=? x then String (hexDigit (Z.shiftr x 12)) "" else "") +:+
  (if 0x100 <=? x then String (hexDigit (Z.land (Z.shiftr x 8) 15)) "" else "") +:+
  (if 0x10 <=? x then String (hexDigit (Z.land (Z.shiftr x 4) 15)) "" else "") +:+
  String (hexDigit (Z.land x 15)) "".

(** [Addr.v6u16], the eight groups of an address. *)
Definition v6u16 (z i : Z) : Z := Z.land (Z.shiftr z (16 * (7 - i))) 0xffff.

Definition groups_of (z : Z) : list Z := v6u16 z <$> [0; 1; 2; 3; 4; 5; 6; 7].

Fixpoint zeros (g : list Z) : nat :=
  match g with x :: g' => if x =? 0 then S (zeros g') else O | [] => O end.

(** The longest run of at least two zero groups, the first of the longest. *)
Definition zero_run (g : list Z) : nat * nat :=
  foldl (λ b i, let l := zeros (drop i g) in
    if (2 <=? l)%nat && (b.2 - b.1 <? l)%nat then (i, (i + l)%nat) else b) (255, 255)%nat (seq 0 8).

(** The loop of [Addr.appendTo6] from group [i] on. *)
Fixpoint print6 (fuel : nat) (g : list Z) (zeroStart zeroEnd i : nat) : string :=
  match fuel with
  | O => ""
  | S fuel' =>
      if (8 <=? i)%nat then ""
      else if (i =? zeroStart)%nat then
        "::" +:+ (if (8 <=? zeroEnd)%nat then ""
                  else appendHex (nth zeroEnd g 0) +:+ print6 fuel' g zeroStart zeroEnd (S zeroEnd))
      else (if (0 <? i)%nat then ":" else "") +:+ appendHex (nth i g 0) +:+ print6 fuel' g zeroStart zeroEnd (S i)
  end.

(** [Addr.string6], without the zone. *)
Definition string6 (z : Z) : string :=
  let g := groups_of z in let '(zs, ze) := zero_run g in print6 8 g zs ze 0.

(** [Addr.Is4In6]. *)
Definition Is4In6 (a : Addr) : bool := match a with Addr6 z => z / 2 ^ 32 =? 0xffff | _ => false end.

Definition zone_text (zone : string) : string := if String.eqb zone "" then "" else "%" +:+ zone.

(** [Addr.String]. *)
Definition Addr_String (a : Addr) (zone : string) : string :=
  match a with
  | NoAddr => "invalid IP"
  | Addr4 z => string4 z
  | Addr6 z =>
      if Is4In6 a then "::ffff:" +:+ string4 (z mod 2 ^ 32) +:+ zone_text zone
      else string6 z +:+ zone_text zone
  end.

(** ** Prefixes and endpoints *)

(** [Prefix.String]. *)
Definition Prefix_String (p : Prefix) : string :=
  if IsValid p then Addr_String (pf_Addr p) "" +:+ "/" +:+ pretty (pf_Bits p) else "invalid Prefix".

(** [netip.ParsePrefix]. *)
Definition ParsePrefix (s : string) : option Prefix :=
  '(a, b) ← last_cut "/"%char s;
  '(ip, zone) ← ParseAddr a;
  if negb (String.eqb zone "") then None
  else if match b with
          | String c (String _ _) => let d := byteZ c - 48 in negb ((1 <=? d) && (d <=? 9))
          | _ => false
          end then None
  else
    bits ← ParseUint int64_max b;
    if BitLen ip <? bits then None else Some (PrefixFrom ip bits).

(** [AddrPort.String]. *)
Definition AddrPort_String (ap : AddrPort) : string :=
  match ap_Addr ap with
  | NoAddr => "invalid AddrPort"
  | Addr4 z => string4 z +:+ ":" +:+ pretty (ap_Port ap)
  | a => "[" +:+ Addr_String a (ap_Zone ap) +:+ "]:" +:+ pretty (ap_Port ap)
  end.

(** The text in brackets, [None] when it has no closing one. *)
Definition unbracket (s : string) : option string :=
  match last_cut "]"%char s with Some (a, EmptyString) => Some a | _ => None end.

(** [netip.splitAddrPort]: the address, the port and whether it is bracketed. *)
Definition splitAddrPort (s : string) : option (string * string * bool) :=
  '(ip, port) ← last_cut ":"%char s;
  if String.eqb ip "" || String.eqb port "" then None
  else match ip with
  | String c ip' => if Ascii.eqb c "[" then ip ← unbracket ip'; Some (ip, port, true) else Some (ip, port, false)
  | EmptyString => None
  end.

(** [netip.ParseAddrPort]. *)
Definition ParseAddrPort (s : string) : option AddrPort :=
  '(ip, port, v6) ← splitAddrPort s;
  port ← ParseUint 65535 port;
  '(a, zone) ← ParseAddr ip;
  if Bool.eqb v6 (is4 a) then None else Some (MkAddrPort a zone port).

(** [Addr.IsUnspecified] and [Addr.IsMulticast]. *)
Definition IsUnspecified (a : Addr) : bool :=
  match a with NoAddr => false | Addr4 z | Addr6 z => z =? 0 end.

Definition IsMulticast (a : Addr) : bool :=
  match Unmap a with Addr4 z => z / 2 ^ 28 =? 0xe | Addr6 z => z / 2 ^ 120 =? 0xff | NoAddr => false end.

(** [mesh.CheckEndpoint]; the reason net/netip gives for refusing a text is
    left out. *)
Definition CheckEndpoint (s : string) : result string string :=
  match ParseAddrPort s with
  | None => Err ("endpoint " +:+ quoted s +:+ " is not address:port")
  | Some ap =>
      let a := ap_Addr ap in
      if ap_Port ap =? 0 then Err ("endpoint " +:+ quoted s +:+ " has no port")
      else if negb (String.eqb (ap_Zone ap) "") then Err ("endpoint " +:+ quoted s +:+ " has a zone")
      else if Is4In6 a then Err ("endpoint " +:+ quoted s +:+ " is an IPv4-mapped address")
      else if IsUnspecified a || IsMulticast a then Err ("endpoint " +:+ quoted s +:+ " is no host's address")
      else Ok (AddrPort_String ap)
  end.

(** ** Cutting texts *)

#[local] Arguments String.append !_ _ /.

Lemma string_app_assoc (a b c : string) : (a +:+ b) +:+ c = a +:+ (b +:+ c).
Proof. induction a as [|x a IH]; cbn; [done|]. by rewrite IH. Qed.

Lemma string_app_nil (a : string) : a +:+ "" = a.
Proof. induction a as [|x a IH]; cbn; [done|]. by rewrite IH. Qed.

Lemma last_cut_None c s : string_in c s = false → last_cut c s = None.
Proof.
  induction s as [|d s IH]; cbn; [done|]. intros [H1 H2]%orb_false_iff. rewrite IH by done.
  by rewrite Ascii.eqb_sym, H1.
Qed.

Lemma last_cut_app c a b : string_in c b = false → last_cut c (a +:+ String c b) = Some (a, b).
Proof.
  intros Hb. induction a as [|d a IH]; cbn; [by rewrite last_cut_None, Ascii.eqb_refl|by rewrite IH].
Qed.

Lemma first_cut_None c s : string_in c s = false → first_cut c s = None.
Proof.
  induction s as [|d s IH]; cbn; [done|]. intros [H1 H2]%orb_false_iff. by rewrite Ascii.eqb_sym, H1, IH.
Qed.

(** ** Digits *)

Lemma byteZ_ascii z : 0 ≤ z < 256 → byteZ (Ascii.ascii_of_N (Z.to_N z)) = z.
Proof. intros Hz. unfold byteZ. rewrite Ascii.N_ascii_embedding by lia. lia. Qed.

Lemma ascii_neq c d : byteZ c ≠ byteZ d → Ascii.eqb c d = false.
Proof. intros H. apply Ascii.eqb_neq. congruence. Qed.

Definition dec_char (c : Ascii.ascii) : bool := (0 <=? byteZ c - 48) && (byteZ c - 48 <=? 9).

Lemma byteZ_decDigit d : 0 ≤ d < 10 → byteZ (decDigit d) = 48 + d.
Proof. intros. unfold decDigit. apply byteZ_ascii. lia. Qed.

(** A byte that is no digit is in no text of digits. *)
Lemma digits_no_byte c s : string_forallb dec_char s = true → dec_char c = false → string_in c s = false.
Proof.
  induction s as [|d s IH]; cbn; [done|]. intros [H1 H2]%andb_true_iff Hc. rewrite IH, orb_false_r by done.
  apply Ascii.eqb_neq. congruence.
Qed.

Lemma pretty_char (x : N) : (x < 10)%N → byteZ (pretty_N_char x) = 48 + Z.of_N x.
Proof.
  intros Hx. assert (H : Forall (λ x, byteZ (pretty_N_char x) = 48 + Z.of_N x) [0;1;2;3;4;5;6;7;8;9]%N) by repeat constructor.
  rewrite Forall_forall in H. apply H. rewrite !elem_of_cons. lia.
Qed.

Lemma N_digits x : ∃ q m, (x / 10 = q ∧ x `mod` 10 = m ∧ x = 10 * q + m ∧ m < 10 ∧ (x ≠ 0 → q < x))%N.
Proof.
  do 2 eexists. split; [done|]. split; [done|]. split; [by apply N.div_mod|]. split; [by apply N.mod_lt|].
  intros. apply N.div_lt; lia.
Qed.

Lemma pretty_go_digits (x : N) s :
  string_forallb dec_char s = true → string_forallb dec_char (pretty_N_go x s) = true.
Proof.
  revert s. induction (N.lt_wf_0 x) as [x _ IH]. intros s Hs. destruct (decide (x = 0%N)) as [->|Hx]; [done|].
  destruct (N_digits x) as (q & m & Eq & Em & _ & Hm & Hq). rewrite pretty_N_go_step by lia. rewrite Eq, Em.
  apply IH; [by apply Hq|]. cbn. rewrite Hs, andb_true_r. unfold dec_char. rewrite pretty_char by done. lia.
Qed.

Lemma parse_pretty_go max (x : N) s :
  Z.of_N x ≤ max → parse_uint max 0 (pretty_N_go x s) = parse_uint max (Z.of_N x) s.
Proof.
  revert s. induction (N.lt_wf_0 x) as [x _ IH]. intros s Hmax. destruct (decide (x = 0%N)) as [->|Hx]; [done|].
  destruct (N_digits x) as (q & m & Eq & Em & E & Hm & Hq). rewrite pretty_N_go_step by lia. rewrite Eq, Em.
  rewrite IH by (auto || lia). cbn [parse_uint]. rewrite pretty_char by done.
  replace (48 + Z.of_N m - 48) with (Z.of_N m) by lia.
  replace (Z.of_N q * 10 + Z.of_N m) with (Z.of_N x) by lia.
  by replace ((0 <=? Z.of_N m) && (Z.of_N m <=? 9) && (Z.of_N x <=? max)) with true by lia.
Qed.

Lemma pretty_Z_N z : 0 ≤ z → pretty z = pretty (Z.to_N z).
Proof. intros Hz. by destruct z. Qed.

Lemma pretty_digits z : 0 ≤ z → string_forallb dec_char (pretty z) = true.
Proof.
  intros Hz. rewrite pretty_Z_N by done. unfold pretty, pretty_N. case_decide; [done|]. by apply pretty_go_digits.
Qed.

(** A number from 1 on does not begin with a zero. *)
Lemma pretty_go_first (x : N) s : (0 < x)%N → ∃ c s', pretty_N_go x s = String c s' ∧ 1 ≤ byteZ c - 48 ≤ 9.
Proof.
  revert s. induction (N.lt_wf_0 x) as [x _ IH]. intros s Hx.
  destruct (N_digits x) as (q & m & Eq & Em & E & Hm & Hq). rewrite pretty_N_go_step by lia. rewrite Eq, Em.
  destruct (decide (q = 0)%N) as [->|Hq0]; [|apply IH; lia].
  rewrite pretty_N_go_0. do 2 eexists. split; [done|]. rewrite pretty_char by done. lia.
Qed.

Lemma pretty_nonempty z : 0 ≤ z → String.eqb (pretty z) "" = false.
Proof.
  intros Hz. rewrite pretty_Z_N by done. unfold pretty, pretty_N. case_decide as E; [done|].
  destruct (pretty_go_first (Z.to_N z) "") as (c & s & -> & _); [lia|done].
Qed.

Lemma ParseUint_pretty max z : 0 ≤ z ≤ max → ParseUint max (pretty z) = Some z.
Proof.
  intros Hz. unfold ParseUint. rewrite pretty_nonempty, pretty_Z_N by lia. unfold pretty, pretty_N.
  case_decide as E0.
  { cbn. change (byteZ "0"%char - 48) with 0. replace (0 * 10 + 0 <=? max) with true by lia. f_equal. lia. }
  rewrite parse_pretty_go by lia. cbn. f_equal. lia.
Qed.

(** ** IPv4 *)

Lemma ip4_digit start val digLen fields d s :
  0 ≤ d < 10 → val * 10 + d ≤ 255 → ¬ (digLen = 1 ∧ val = 0) →
  ip4_fields start val digLen fields (String (decDigit d) s) = ip4_fields false (val * 10 + d) (digLen + 1) fields s.
Proof.
  intros Hd Hv Hz. cbn. rewrite byteZ_decDigit by done.
  replace (48 + d - 48) with d by lia. replace ((0 <=? d) && (d <=? 9)) with true by lia.
  replace ((digLen =? 1) && (val =? 0)) with false by lia. by replace (255 <? val * 10 + d) with false by lia.
Qed.

Lemma ip4_field start fields x s :
  0 ≤ x < 256 → ∃ n, 0 < n ∧ ip4_fields start 0 0 fields (appendDecimal x +:+ s) = ip4_fields false x n fields s.
Proof.
  intros Hx. unfold appendDecimal.
  destruct (Z.leb_spec 100 x); [|destruct (Z.leb_spec 10 x)].
  - exists 3. split; [done|]. replace (10 <=? x) with true by lia. cbn [String.append].
    rewrite !ip4_digit by (Z.div_mod_to_equations; lia). f_equal. Z.div_mod_to_equations. lia.
  - exists 2. split; [done|]. cbn [String.append].
    rewrite !ip4_digit by (Z.div_mod_to_equations; lia). f_equal. Z.div_mod_to_equations. lia.
  - exists 1. split; [done|]. cbn [String.append].
    rewrite !ip4_digit by (Z.div_mod_to_equations; lia). f_equal. Z.div_mod_to_equations. lia.
Qed.

Lemma appendDecimal_digits x : 0 ≤ x < 256 → string_forallb dec_char (appendDecimal x) = true.
Proof.
  intros Hx. unfold appendDecimal.
  destruct (100 <=? x), (10 <=? x); cbn; unfold dec_char; rewrite !byteZ_decDigit by (Z.div_mod_to_equations; lia);
    Z.div_mod_to_equations; lia.
Qed.

Lemma appendDecimal_nonempty x s : String.eqb (appendDecimal x +:+ s) "" = false.
Proof. unfold appendDecimal. by destruct (100 <=? x), (10 <=? x). Qed.

Lemma ip4_dot val n fields s :
  0 < n → String.eqb s "" = false → (length fields < 3)%nat →
  ip4_fields false val n fields ("." +:+ s) = ip4_fields true 0 0 (fields ++ [val]) s.
Proof.
  intros Hn Hs Hl. cbn. rewrite Hs. by replace (length fields =? 3)%nat with false by (symmetry; apply Nat.eqb_neq; lia).
Qed.

Lemma be_put4 z : ∃ a b c d, be_put 4 z = [a; b; c; d] ∧ Forall (λ x, 0 ≤ x < 256) [a; b; c; d].
Proof. cbn. do 4 eexists. split; [done|]. repeat constructor; apply Z.mod_pos_bound; lia. Qed.

Lemma parseIPv4_string4 z : 0 ≤ z < 2 ^ 32 → parseIPv4 (string4 z) = Some (Addr4 z).
Proof.
  intros Hz. unfold string4, parseIPv4, parseIPv4Fields. destruct (be_put4 z) as (a & b & c & d & E & Hb). rewrite E.
  rewrite !Forall_cons in Hb. destruct Hb as (Ha & Hb & Hc & Hd & _).
  assert (Hlast : appendDecimal d = appendDecimal d +:+ "") by by rewrite string_app_nil. rewrite Hlast.
  destruct (ip4_field true [] a ("." +:+ appendDecimal b +:+ "." +:+ appendDecimal c +:+ "." +:+ appendDecimal d +:+ "") Ha)
    as (n1 & Hn1 & ->). rewrite ip4_dot by (done || apply appendDecimal_nonempty || cbn; lia).
  destruct (ip4_field true ([] ++ [a]) b ("." +:+ appendDecimal c +:+ "." +:+ appendDecimal d +:+ "") Hb)
    as (n2 & Hn2 & ->). rewrite ip4_dot by (done || apply appendDecimal_nonempty || cbn; lia).
  destruct (ip4_field true (([] ++ [a]) ++ [b]) c ("." +:+ appendDecimal d +:+ "") Hc)
    as (n3 & Hn3 & ->). rewrite ip4_dot by (done || apply appendDecimal_nonempty || cbn; lia).
  destruct (ip4_field true ((([] ++ [a]) ++ [b]) ++ [c]) d "" Hd) as (n4 & Hn4 & ->).
  cbn [ip4_fields app length Nat.ltb Nat.leb fmap option_fmap option_map]. rewrite <- E. f_equal. f_equal.
  apply be_get_put_small. done.
Qed.

(** ** IPv6 *)

Definition no_hex (s : string) : Prop := match s with String c _ => hexVal c = None | EmptyString => True end.

Lemma hexVal_hexDigit d : 0 ≤ d < 16 → hexVal (hexDigit d) = Some d.
Proof.
  intros Hd. unfold hexVal, hexDigit. destruct (Z.ltb_spec d 10); rewrite byteZ_ascii by lia; cbv zeta.
  - replace ((48 <=? 48 + d) && (48 + d <=? 57)) with true by lia. f_equal. lia.
  - replace ((48 <=? 87 + d) && (87 + d <=? 57)) with false by lia.
    replace ((97 <=? 87 + d) && (87 + d <=? 102)) with true by lia. f_equal. lia.
Qed.

Lemma hex_group_digit off acc d s :
  0 ≤ d < 16 → off ≤ 3 → acc * 16 + d ≤ 65535 →
  hex_group off acc (String (hexDigit d) s) = hex_group (off + 1) (acc * 16 + d) s.
Proof.
  intros Hd Ho Ha. cbn [hex_group]. rewrite hexVal_hexDigit by done.
  replace (3 <? off) with false by lia. by replace (65535 <? acc * 16 + d) with false by lia.
Qed.

Lemma hex_group_end off acc s : no_hex s → hex_group off acc s = Some (off, acc, s).
Proof. destruct s as [|c s]; cbn; [done|]. by intros ->. Qed.

Lemma appendHex_digits x :
  0 ≤ x < 65536 →
  appendHex x = (if 4096 <=? x then String (hexDigit (x / 4096)) "" else "") +:+
    (if 256 <=? x then String (hexDigit (x / 256 mod 16)) "" else "") +:+
    (if 16 <=? x then String (hexDigit (x / 16 mod 16)) "" else "") +:+ String (hexDigit (x mod 16)) "".
Proof.
  intros Hx. unfold appendHex. rewrite !Z.shiftr_div_pow2 by lia. change 15 with (Z.ones 4).
  by rewrite !Z.land_ones by lia.
Qed.

Lemma hex_group_append x s :
  0 ≤ x < 65536 → no_hex s → ∃ n, 0 < n ∧ hex_group 0 0 (appendHex x +:+ s) = Some (n, x, s).
Proof.
  intros Hx Hs. rewrite appendHex_digits by done.
  destruct (Z.leb_spec 4096 x); [|destruct (Z.leb_spec 256 x); [|destruct (Z.leb_spec 16 x)]].
  1: replace (256 <=? x) with true by lia. 1-2: replace (16 <=? x) with true by lia.
  all: cbn [String.append]; rewrite !hex_group_digit by (Z.div_mod_to_equations; lia);
    rewrite hex_group_end by done;
    match goal with |- context [Some (?n, ?e, ?t)] => exists n; replace e with x by (Z.div_mod_to_equations; lia) end;
    split; [lia|done].
Qed.

(** The groups of an address between colons, and the bytes they are. *)
Fixpoint colons (g : list Z) : string :=
  match g with
  | [] => ""
  | [x] => appendHex x
  | x :: g' => appendHex x +:+ ":" +:+ colons g'
  end.

Definition group_bytes (x : Z) : list Z := [byte (Z.shiftr x 8); byte x].
Definition bytes6 (g : list Z) : list Z := concat (group_bytes <$> g).
Definition is_groups (g : list Z) : Prop := Forall (λ x, 0 ≤ x < 65536) g.

Lemma length_bytes6 g : length (bytes6 g) = (2 * length g)%nat.
Proof. induction g as [|x g IH]; cbn; [done|]. unfold bytes6 in IH. rewrite IH. lia. Qed.

Lemma bytes6_app g g' : bytes6 (g ++ g') = bytes6 g ++ bytes6 g'.
Proof. unfold bytes6. by rewrite fmap_app, concat_app. Qed.

Lemma appendHex_first x s :
  0 ≤ x < 65536 → ∃ c s', appendHex x +:+ s = String c s' ∧ hexVal c ≠ None.
Proof.
  intros Hx. rewrite appendHex_digits by done.
  destruct (Z.leb_spec 4096 x); [|destruct (Z.leb_spec 256 x); [|destruct (Z.leb_spec 16 x)]];
    cbn [String.append]; do 2 eexists; (split; [reflexivity|]);
    rewrite hexVal_hexDigit by (Z.div_mod_to_equations; lia); done.
Qed.

Lemma colons_cons x g : colons (x :: g) = appendHex x +:+ match g with [] => "" | _ => ":" +:+ colons g end.
Proof. destruct g; cbn [colons]; [by rewrite string_app_nil|done]. Qed.

Lemma colons_first g s : g ≠ [] → is_groups g → ∃ c s', colons g +:+ s = String c s' ∧ hexVal c ≠ None.
Proof.
  intros Hg Hr. destruct g as [|x g]; [done|]. apply Forall_cons in Hr as [Hx _].
  rewrite colons_cons, string_app_assoc. by apply appendHex_first.
Qed.

(** A group that a colon and another group follow. *)
Lemma groups6_more n x s ip e :
  0 ≤ x < 65536 → (∃ c s', s = String c s' ∧ hexVal c ≠ None) →
  groups6 (S n) (appendHex x +:+ ":" +:+ s) ip e = groups6 n s (ip ++ group_bytes x) e.
Proof.
  intros Hx (c & s' & -> & Hc). cbn [groups6].
  destruct (hex_group_append x (":" +:+ String c s') Hx) as (k & Hk & ->); [done|]. cbn [mbind option_bind].
  replace (k =? 0) with false by lia. cbn. by destruct (Ascii.eqb_spec c ":") as [->|].
Qed.

Lemma groups6_last n x ip e :
  0 ≤ x < 65536 → groups6 (S n) (appendHex x) ip e = Some ("", ip ++ group_bytes x, e).
Proof.
  intros Hx. cbn [groups6]. destruct (hex_group_append x "" Hx) as (k & Hk & E); [done|].
  rewrite string_app_nil in E. rewrite E. cbn [mbind option_bind]. by replace (k =? 0) with false by lia.
Qed.

Lemma groups6_ellipsis n x s ip :
  0 ≤ x < 65536 →
  groups6 (S n) (appendHex x +:+ "::" +:+ s) ip None =
  if String.eqb s "" then Some ("", ip ++ group_bytes x, Some (length (ip ++ group_bytes x)))
  else groups6 n s (ip ++ group_bytes x) (Some (length (ip ++ group_bytes x))).
Proof.
  intros Hx. cbn [groups6]. destruct (hex_group_append x ("::" +:+ s) Hx) as (k & Hk & ->); [done|].
  cbn [mbind option_bind]. by replace (k =? 0) with false by lia.
Qed.

Lemma groups6_all n g ip e :
  g ≠ [] → is_groups g → (length g ≤ n)%nat → groups6 n (colons g) ip e = Some ("", ip ++ bytes6 g, e).
Proof.
  revert n ip. induction g as [|x g IH]; [done|]. intros n ip _ [Hx Hg]%Forall_cons Hn. destruct n as [|n]; [cbn in Hn; lia|].
  destruct g as [|y g]; [by apply groups6_last|]. rewrite colons_cons, groups6_more; [|done|].
  - rewrite IH; [|done..|cbn in *; lia]. by rewrite <- app_assoc.
  - destruct (colons_first (y :: g) "") as (c & s' & E & Hc); [done..|]. rewrite string_app_nil in E. eauto.
Qed.

Lemma groups6_until n g s ip :
  g ≠ [] → is_groups g → (length g ≤ n)%nat →
  groups6 n (colons g +:+ "::" +:+ s) ip None =
  if String.eqb s "" then Some ("", ip ++ bytes6 g, Some (length (ip ++ bytes6 g)))
  else groups6 (n - length g) s (ip ++ bytes6 g) (Some (length (ip ++ bytes6 g))).
Proof.
  revert n ip. induction g as [|x g IH]; [done|]. intros n ip _ [Hx Hg]%Forall_cons Hn. destruct n as [|n]; [cbn in Hn; lia|].
  destruct g as [|y g].
  - cbn [colons]. rewrite groups6_ellipsis by done. cbn. by rewrite Nat.sub_0_r.
  - rewrite colons_cons, !string_app_assoc, groups6_more; [|done|by apply colons_first].
    rewrite IH; [|done..|cbn in *; lia]. by rewrite <- !app_assoc.
Qed.

(** The run of zeros the printer leaves out. *)
Definition run_of (g : list Z) (b : nat * nat) : Prop :=
  b = (255, 255)%nat ∨
  (b.1 + 2 ≤ b.2 ≤ length g)%nat ∧ take (b.2 - b.1) (drop b.1 g) = replicate (b.2 - b.1) 0.

Lemma zeros_take g : (zeros g ≤ length g)%nat ∧ take (zeros g) g = replicate (zeros g) 0.
Proof.
  induction g as [|x g [IH1 IH2]]; cbn; [split; [lia|done]|]. destruct (Z.eqb_spec x 0) as [->|]; cbn; [|split; [lia|done]].
  rewrite IH2. split; [lia|done].
Qed.

Lemma zero_run_ok g : length g = 8%nat → run_of g (zero_run g).
Proof.
  intros Hl. unfold zero_run. assert (H0 : run_of g (255, 255)%nat) by by left. revert H0.
  generalize (255, 255)%nat. assert (Hi : Forall (λ i, i < 8)%nat (seq 0 8)) by (repeat constructor; lia).
  induction Hi as [|i js Hi _ IH]; intros b Hb; cbn [foldl]; [done|]. apply IH.
  destruct (_ && _) eqn:E; [|done]. right. cbn [fst snd]. destruct (zeros_take (drop i g)) as [H1 H2].
  rewrite length_drop in H1. apply andb_true_iff in E as [E%Nat.leb_le _].
  replace (i + zeros (drop i g) - i)%nat with (zeros (drop i g)) by lia. split; [lia|done].
Qed.

Ltac solve_text :=
  cbn [print6 colons take drop nth String.append Nat.leb Nat.eqb Nat.ltb];
  repeat progress (rewrite ?string_app_assoc; cbn [String.append]); rewrite ?string_app_nil; reflexivity.

Lemma print6_run g zs ze :
  length g = 8%nat → (zs + 2 ≤ ze ≤ 8)%nat →
  print6 8 g zs ze 0 = colons (take zs g) +:+ "::" +:+ colons (drop ze g).
Proof.
  intros Hl Hr. do 9 (destruct g as [|? g]; [try (cbn in Hl; lia)|]); [|cbn in Hl; lia].
  assert (Hz : (zs < 7)%nat) by lia. clear Hl.
  do 7 (destruct zs as [|zs]; [do 9 (destruct ze as [|ze]; [first [lia|solve_text]|]); lia|]); lia.
Qed.

Lemma print6_all g : length g = 8%nat → print6 8 g 255 255 0 = colons g.
Proof.
  intros Hl. do 9 (destruct g as [|? g]; [try (cbn in Hl; lia)|]); [|cbn in Hl; lia]. solve_text.
Qed.

Lemma appendHex_in c x : 0 ≤ x < 65536 → hexVal c = None → string_in c (appendHex x) = false.
Proof.
  intros Hx Hc. rewrite appendHex_digits by done.
  assert (Hd : ∀ d, 0 ≤ d < 16 → Ascii.eqb c (hexDigit d) = false).
  { intros d Hd. apply Ascii.eqb_neq. intros ->. by rewrite hexVal_hexDigit in Hc. }
  rewrite !string_in_app.
  destruct (Z.leb_spec 4096 x), (Z.leb_spec 256 x), (Z.leb_spec 16 x); cbn;
    rewrite !Hd by (Z.div_mod_to_equations; lia); done.
Qed.

Lemma colons_in c g : is_groups g → hexVal c = None → Ascii.eqb c ":" = false → string_in c (colons g) = false.
Proof.
  intros Hg Hc Hd. induction Hg as [|x g Hx Hg IH]; [done|]. rewrite colons_cons, string_in_app, appendHex_in by done.
  destruct g; [done|]. cbn. by rewrite Hd.
Qed.

Lemma bytes6_zeros n : bytes6 (replicate n 0) = replicate (2 * n) 0.
Proof.
  induction n as [|n IH]; [done|]. replace (2 * S n)%nat with (S (S (2 * n))) by lia. cbn [replicate].
  rewrite <- IH. done.
Qed.

Lemma HasPrefix_ellipsis c s : hexVal c ≠ None → HasPrefix (String c s) "::" = false.
Proof. intros Hc. unfold HasPrefix. cbn [String.prefix]. destruct (Ascii.ascii_dec ":" c) as [<-|]; [by destruct Hc|done]. Qed.

Lemma substring_ellipsis s : String.substring 2 (String.length ("::" +:+ s) - 2) ("::" +:+ s) = s.
Proof. cbn. rewrite Nat.sub_0_r. apply substring_all. Qed.

(** The parser reads what stands between the ellipsis's two sides. *)
Lemma groups6_sides g1 g2 :
  is_groups g1 → is_groups g2 → (length g1 + length g2 ≤ 6)%nat →
  parseIPv6 (colons g1 +:+ "::" +:+ colons g2) =
  Some (Addr6 (be_get (bytes6 (g1 ++ replicate (8 - length g1 - length g2) 0 ++ g2))), "").
Proof.
  intros H1 H2 Hl. unfold parseIPv6. rewrite first_cut_None.
  2:{ rewrite !string_in_app, !colons_in by done. done. }
  cbn [mbind option_bind].
  assert (Hexp : ∀ ip e, ip = bytes6 g1 ++ bytes6 g2 → e = length (bytes6 g1) →
    expand6 ("", ip, Some e) = Some (bytes6 (g1 ++ replicate (8 - length g1 - length g2) 0 ++ g2))).
  { intros ip e -> ->. unfold expand6. cbn [String.eqb negb]. rewrite length_app, !length_bytes6.
    replace (2 * length g1 + 2 * length g2 <? 16)%nat with true by (symmetry; apply Nat.ltb_lt; lia).
    rewrite !bytes6_app, bytes6_zeros, take_app_length', drop_app_length' by by rewrite length_bytes6.
    by replace (16 - (2 * length g1 + 2 * length g2))%nat with (2 * (8 - length g1 - length g2))%nat by lia. }
  assert (Htail : ∀ n ip e, ip = bytes6 g1 → e = length ip → (length g2 ≤ n)%nat → g2 ≠ [] →
    (r ← groups6 n (colons g2) ip (Some e); b ← expand6 r; Some (Addr6 (be_get b), "")) =
    Some (Addr6 (be_get (bytes6 (g1 ++ replicate (8 - length g1 - length g2) 0 ++ g2))), "")).
  { intros n ip e -> -> Hn Hg. rewrite groups6_all by done. cbn [mbind option_bind]. by rewrite Hexp. }
  assert (Hnil : g2 ≠ [] → String.eqb (colons g2) "" = false).
  { intros Hg. destruct (colons_first g2 "" Hg H2) as (c & s & E & _). rewrite string_app_nil in E. by rewrite E. }
  destruct (decide (g1 = [])) as [->|Hg1].
  - cbn [colons]. change ("" +:+ ?x) with x. change (HasPrefix ("::" +:+ colons g2) "::") with (HasPrefix (colons g2) "").
    replace (HasPrefix (colons g2) "") with true by (unfold HasPrefix; by destruct (colons g2)).
    rewrite substring_ellipsis. destruct (decide (g2 = [])) as [->|Hg2]; [done|].
    rewrite Hnil by done. apply Htail; [done..|cbn in *; lia|done].
  - destruct (colons_first g1 ("::" +:+ colons g2) Hg1 H1) as (c & s & E & Hc). rewrite E, HasPrefix_ellipsis by done.
    rewrite <- E. cbn beta iota. rewrite groups6_until; [|done..|lia]. cbn [app].
    destruct (decide (g2 = [])) as [->|Hg2].
    + cbn [colons String.eqb mbind option_bind]. rewrite Hexp; [done| |done]. by rewrite app_nil_r.
    + rewrite Hnil by done. apply Htail; [done..|lia|done].
Qed.

Lemma parseIPv6_colons g :
  is_groups g → length g = 8%nat → parseIPv6 (colons g) = Some (Addr6 (be_get (bytes6 g)), "").
Proof.
  intros Hg Hl. unfold parseIPv6. rewrite first_cut_None by by apply colons_in. cbn [mbind option_bind].
  assert (Hn : g ≠ []) by by intros ->. destruct (colons_first g "" Hn Hg) as (c & s & E & Hc).
  rewrite string_app_nil in E. rewrite E, HasPrefix_ellipsis by done. rewrite <- E. cbn beta iota.
  rewrite groups6_all; [|done..|lia]. cbn [mbind option_bind app]. unfold expand6. cbn [String.eqb negb].
  by rewrite length_bytes6, Hl.
Qed.

(** ** The round trips *)

Lemma groups_of_range z : is_groups (groups_of z).
Proof.
  unfold is_groups, groups_of. apply Forall_fmap, Forall_forall. intros i _. cbn. unfold v6u16.
  change 0xffff with (Z.ones 16). rewrite Z.land_ones by lia. apply Z.mod_pos_bound. lia.
Qed.

Lemma byte_mod z : byte z = z mod 256.
Proof. unfold byte. change 255 with (Z.ones 8). by rewrite Z.land_ones by lia. Qed.

Lemma v6u16_bytes z i :
  0 ≤ i ≤ 7 → group_bytes (v6u16 z i) = [z / 2 ^ (16 * (7 - i) + 8) mod 256; z / 2 ^ (16 * (7 - i)) mod 256].
Proof.
  intros Hi. unfold group_bytes, v6u16. rewrite !byte_mod. change 0xffff with (Z.ones 16).
  rewrite Z.land_ones, !Z.shiftr_div_pow2 by lia. rewrite Z.pow_add_r, <- Z.div_div by lia.
  set (y := z / 2 ^ (16 * (7 - i))). change (2 ^ 16) with (256 * 256). change (2 ^ 8) with 256.
  rewrite Z.rem_mul_r by lia. f_equal; [|f_equal].
  - rewrite Z.add_comm, Z.mul_comm, Z.div_add_l by lia. rewrite (Z.div_small (y mod 256)) by (apply Z.mod_pos_bound; lia).
    by rewrite Z.add_0_r, Z.mod_mod by lia.
  - rewrite Z.mul_comm, Z.mod_add by lia. by apply Z.mod_mod.
Qed.

Lemma bytes6_groups z : bytes6 (groups_of z) = be_put 16 z.
Proof.
  unfold bytes6, groups_of. cbn [fmap list_fmap concat]. rewrite !v6u16_bytes by lia.
  unfold be_put. cbn [le_put]. rewrite !Z.div_div by lia. unfold reverse. cbn [rev_append app].
  repeat (f_equal; [f_equal; f_equal; reflexivity|]). by rewrite Z.div_1_r.
Qed.

Lemma parseIPv6_string6 z : 0 ≤ z < 2 ^ 128 → parseIPv6 (string6 z) = Some (Addr6 z, "").
Proof.
  intros Hz. assert (Hb : be_get (bytes6 (groups_of z)) = z).
  { rewrite bytes6_groups. apply be_get_put_small. done. }
  unfold string6. pose proof (groups_of_range z) as Hr. destruct (zero_run_ok (groups_of z)) as [->|[Hb' Hz']]; [done|..].
  - rewrite print6_all, parseIPv6_colons by done. by rewrite Hb.
  - destruct (zero_run (groups_of z)) as [zs ze]. cbn [fst snd] in *. change (length (groups_of z)) with 8%nat in Hb'.
    assert (Hl : length (groups_of z) = 8%nat) by done.
    rewrite print6_run by done. rewrite groups6_sides; [|by apply Forall_take|by apply Forall_drop|].
    + do 3 f_equal. transitivity (be_get (bytes6 (groups_of z))); [|done]. do 2 f_equal.
      rewrite length_take, length_drop, Hl.
      replace (8 - zs `min` 8 - (8 - ze))%nat with (ze - zs)%nat by lia. rewrite <- Hz'.
      transitivity (take zs (groups_of z) ++ drop zs (groups_of z)); [|apply take_drop]. f_equal.
      rewrite <- (take_drop (ze - zs) (drop zs (groups_of z))) at 2. f_equal. rewrite drop_drop. f_equal. lia.
    + rewrite length_take, length_drop, Hl. lia.
Qed.

Lemma addr_byte_colon s :
  string_in "."%char s = false → string_in "%"%char s = false → string_in ":"%char s = true → addr_byte s = Some ":"%char.
Proof.
  induction s as [|c s IH]; [done|]. cbn [string_in addr_byte]. intros [H1 H1']%orb_false_iff [H2 H2']%orb_false_iff H3.
  rewrite (Ascii.eqb_sym c "."%char), H1, (Ascii.eqb_sym c "%"%char), H2, (Ascii.eqb_sym c ":"%char). cbn [orb].
  destruct (Ascii.eqb_spec ":"%char c) as [<-|]; [done|]. cbn in H3. by apply IH.
Qed.

Lemma addr_byte_dot s :
  string_in ":"%char s = false → string_in "%"%char s = false → string_in "."%char s = true → addr_byte s = Some "."%char.
Proof.
  induction s as [|c s IH]; [done|]. cbn [string_in addr_byte]. intros [H1 H1']%orb_false_iff [H2 H2']%orb_false_iff H3.
  rewrite (Ascii.eqb_sym c ":"%char), H1, (Ascii.eqb_sym c "%"%char), H2, (Ascii.eqb_sym c "."%char). cbn [orb].
  destruct (Ascii.eqb_spec "."%char c) as [<-|]; [done|]. cbn in H3. by apply IH.
Qed.

Lemma string6_in c z : hexVal c = None → string_in c (string6 z) = Ascii.eqb c ":".
Proof.
  intros Hc. unfold string6. pose proof (groups_of_range z) as Hr. assert (Hl : length (groups_of z) = 8%nat) by done.
  destruct (zero_run_ok (groups_of z)) as [->|[Hb _]]; [done|..].
  - rewrite print6_all by done. destruct (Ascii.eqb c ":") eqn:E; [|by apply colons_in].
    unfold groups_of. cbn [fmap list_fmap]. rewrite colons_cons, string_in_app. cbn [String.append string_in].
    by rewrite E, orb_true_r.
  - destruct (zero_run (groups_of z)) as [zs ze]. cbn [fst snd] in *. change (length (groups_of z)) with 8%nat in Hb.
    rewrite print6_run, !string_in_app by done. cbn [string_in]. destruct (Ascii.eqb c ":") eqn:E; [by rewrite orb_true_r|].
    by rewrite !colons_in by (done || by apply Forall_take || by apply Forall_drop).
Qed.

Lemma string4_in c z : dec_char c = false → string_in c (string4 z) = Ascii.eqb c ".".
Proof.
  intros Hc. unfold string4. destruct (be_put4 z) as (x1 & x2 & x3 & x4 & -> & Hb). rewrite !Forall_cons in Hb.
  destruct Hb as (H1 & H2 & H3 & H4 & _).
  assert (Hd : ∀ x, 0 ≤ x < 256 → string_in c (appendDecimal x) = false).
  { intros x Hx. by apply digits_no_byte; [apply appendDecimal_digits|]. }
  rewrite !string_in_app, !Hd by done. cbn [string_in orb]. by rewrite !orb_false_r, !orb_diag.
Qed.

(** The text of an address that is no IPv4 address mapped into IPv6 parses to
    the address. *)
Lemma ParseAddr_String a :
  valid_addr a = true → is_addr a = true → Is4In6 a = false → ParseAddr (Addr_String a "") = Some (a, "").
Proof.
  intros Hv Ha Hm. unfold ParseAddr. destruct a as [|z|z]; [done|..]; cbn [Addr_String is_addr] in *.
  - rewrite addr_byte_dot by (by rewrite string4_in). cbn [Ascii.eqb Bool.eqb].
    by rewrite parseIPv4_string4 by lia.
  - rewrite Hm. cbn [zone_text String.eqb]. rewrite string_app_nil, addr_byte_colon by (by rewrite string6_in).
    cbn [Ascii.eqb Bool.eqb]. by rewrite parseIPv6_string6 by lia.
Qed.

(** A prefix is what its text parses to. *)
Lemma ParsePrefix_String p :
  IsValid p = true → is_addr (pf_Addr p) = true → Is4In6 (pf_Addr p) = false → ParsePrefix (Prefix_String p) = Some p.
Proof.
  intros Hv Ha Hm. unfold Prefix_String, ParsePrefix. rewrite Hv. destruct p as [a bits]. cbn [pf_Addr pf_Bits] in *.
  assert (Hb : 0 ≤ bits ≤ BitLen a ∧ valid_addr a = true).
  { unfold IsValid in Hv. destruct a; cbn in *; [done|lia..]. }
  assert (Hbl : BitLen a ≤ 128) by (destruct a; cbn; lia). destruct Hb as [Hb Hva].
  change ("/" +:+ pretty bits) with (String "/" (pretty bits)).
  rewrite last_cut_app by (by apply digits_no_byte; [apply pretty_digits; lia|]). cbn [mbind option_bind].
  rewrite ParseAddr_String by done. cbn [mbind option_bind String.eqb negb].
  assert (Hfirst : match pretty bits with String c (String _ _) => negb ((1 <=? byteZ c - 48) && (byteZ c - 48 <=? 9)) | _ => false end = false).
  { rewrite pretty_Z_N by lia. unfold pretty, pretty_N. case_decide as E; [done|].
    destruct (pretty_go_first (Z.to_N bits) "") as (c & s & -> & Hc); [lia|]. destruct s; [done|]. lia. }
  cbv zeta. rewrite Hfirst, ParseUint_pretty by (unfold int64_max; lia). cbn [mbind option_bind].
  replace (BitLen a <? bits) with false by lia. unfold PrefixFrom. rewrite Hva. cbn [andb].
  by replace ((0 <=? bits) && (bits <=? BitLen a)) with true by lia.
Qed.

Lemma ParseAddrPort_String ap :
  valid_addr (ap_Addr ap) = true → is_addr (ap_Addr ap) = true → Is4In6 (ap_Addr ap) = false → ap_Zone ap = "" →
  0 ≤ ap_Port ap ≤ 65535 → ParseAddrPort (AddrPort_String ap) = Some ap.
Proof.
  destruct ap as [a zone port]. cbn [ap_Addr ap_Zone ap_Port]. intros Hv Ha Hm -> Hp. unfold ParseAddrPort, splitAddrPort.
  pose proof (pretty_digits port) as Hd. assert (Hc : string_in ":"%char (pretty port) = false) by (apply digits_no_byte; [apply Hd; lia|done]).
  pose proof (ParseAddr_String a Hv Ha Hm) as Hpa. unfold AddrPort_String. cbn [ap_Addr ap_Zone ap_Port].
  destruct a as [|z|z]; [done|..].
  - change (":" +:+ pretty port) with (String ":" (pretty port)). rewrite last_cut_app by done. cbn [mbind option_bind].
    rewrite pretty_nonempty, orb_false_r by lia.
    cbn [Addr_String] in Hpa.
    assert (Hs : ∃ c s, string4 z = String c s ∧ Ascii.eqb c "[" = false).
    { pose proof (string4_in "["%char z eq_refl) as Hi. destruct (string4 z) as [|c s]; [done|].
      cbn [string_in] in Hi. change (Ascii.eqb "[" ".") with false in Hi. apply orb_false_iff in Hi as [Hi _]. rewrite Ascii.eqb_sym in Hi. eauto. }
    destruct Hs as (c & s & E & Hb). rewrite E in *. cbn [String.eqb]. rewrite Hb.
    cbn [mbind option_bind]. rewrite ParseUint_pretty by done. cbn [mbind option_bind]. by rewrite Hpa.
  - set (t := Addr_String (Addr6 z) "") in *.
    replace ("[" +:+ t +:+ "]:" +:+ pretty port) with ((String "[" (t +:+ "]")) +:+ String ":" (pretty port))
      by (cbn; by rewrite string_app_assoc). rewrite last_cut_app by done. cbn [mbind option_bind String.eqb orb].
    rewrite pretty_nonempty by lia. cbn [Ascii.eqb Bool.eqb]. unfold unbracket. rewrite last_cut_app by done.
    cbn [mbind option_bind]. rewrite ParseUint_pretty by done. cbn [mbind option_bind]. by rewrite Hpa.
Qed.

(** ** What the parsers return *)

Lemma le_get_range b : is_bytes b → 0 ≤ le_get b < 256 ^ Z.of_nat (length b).
Proof.
  induction 1 as [|x b Hx _ IH]; cbn [le_get length]; [done|]. rewrite Nat2Z.inj_succ, Z.pow_succ_r by lia. lia.
Qed.

Lemma be_get_range b : is_bytes b → 0 ≤ be_get b < 256 ^ Z.of_nat (length b).
Proof. intros Hb. unfold be_get. rewrite <- (length_reverse b). apply le_get_range. by apply Forall_reverse. Qed.

Lemma ip4_fields_range start val n fields s r :
  is_bytes fields → (length fields ≤ 3)%nat → 0 ≤ val ≤ 255 →
  ip4_fields start val n fields s = Some r → is_bytes r ∧ length r = 4%nat.
Proof.
  revert start val n fields. induction s as [|c s IH]; intros start val n fields Hf Hl Hv; cbn [ip4_fields].
  - destruct (Nat.ltb_spec (length fields) 3); [done|]. intros [= <-].
    split; [apply Forall_app_2; [done|]; repeat constructor; lia|rewrite length_app; cbn; lia].
  - cbv zeta. destruct ((0 <=? byteZ c - 48) && (byteZ c - 48 <=? 9)) eqn:Ed.
    + destruct ((n =? 1) && (val =? 0)); [done|]. destruct (Z.ltb_spec 255 (val * 10 + (byteZ c - 48))); [done|]. apply IH; [done..|].
      apply andb_true_iff in Ed as [? ?]. lia.
    + destruct (Ascii.eqb c "."); [|done]. destruct (_ || _); [done|]. destruct (Nat.eqb_spec (length fields) 3); [done|].
      apply IH; [|rewrite length_app; cbn; lia|lia]. apply Forall_app_2; [done|]. repeat constructor; lia.
Qed.

Lemma parseIPv4Fields_range s r : parseIPv4Fields s = Some r → is_bytes r ∧ length r = 4%nat.
Proof. by apply ip4_fields_range; [constructor|cbn; lia|]. Qed.

Lemma groups6_range n s ip e s' ip' e' :
  is_bytes ip → (length ip + 2 * n = 16)%nat → groups6 n s ip e = Some (s', ip', e') → is_bytes ip' ∧ (length ip' ≤ 16)%nat.
Proof.
  revert s ip e. induction n as [|n IH]; intros s ip e Hb Hl; cbn [groups6]; [intros [= <- <- <-]; split; [done|lia]|].
  destruct (hex_group 0 0 s) as [[[off acc] rest]|]; [|done]. cbn [mbind option_bind]. destruct (off =? 0); [done|].
  assert (Hb' : is_bytes (ip ++ [byte (Z.shiftr acc 8); byte acc])).
  { apply Forall_app_2; [done|]. repeat constructor; rewrite byte_mod; apply Z.mod_pos_bound; lia. }
  assert (Hl' : (length (ip ++ [byte (Z.shiftr acc 8); byte acc]) + 2 * n = 16)%nat) by (rewrite length_app; cbn; lia).
  destruct (match rest with String c _ => Ascii.eqb c "." | EmptyString => false end).
  - destruct (match e with None => negb (length ip =? 12)%nat | Some _ => false end); [done|].
    destruct (Nat.ltb_spec 16 (length ip + 4)); [done|].
    destruct (parseIPv4Fields s) as [f|] eqn:Ef; [|done]. intros [= <- <- <-].
    apply parseIPv4Fields_range in Ef as [Hf Hf']. split; [by apply Forall_app_2|rewrite length_app; lia].
  - cbv zeta. destruct rest as [|c rest]; [intros [= <- <- <-]; split; [done|lia]|]. destruct (negb _); [done|].
    destruct rest as [|c' rest]; [done|]. destruct (Ascii.eqb c' ":"); [|by apply IH].
    destruct e; [done|]. destruct (String.eqb rest ""); [intros [= <- <- <-]; split; [done|lia]|by apply IH].
Qed.

Lemma expand6_range s ip e r :
  is_bytes ip → (length ip ≤ 16)%nat → expand6 (s, ip, e) = Some r → is_bytes r ∧ length r = 16%nat.
Proof.
  intros Hb Hl. unfold expand6. destruct (negb _); [done|]. destruct (Nat.ltb_spec (length ip) 16); destruct e as [e|]; try done.
  - intros [= <-]. split.
    + apply Forall_app_2; [by apply Forall_take|]. apply Forall_app_2; [by apply Forall_replicate|by apply Forall_drop].
    + rewrite !length_app, length_replicate, length_take, length_drop. lia.
  - intros [= <-]. split; [done|lia].
Qed.

Lemma ParseAddr_range s a zone : ParseAddr s = Some (a, zone) → valid_addr a = true ∧ is_addr a = true.
Proof.
  unfold ParseAddr. destruct (addr_byte s) as [c|]; [|done]. destruct (Ascii.eqb c ".").
  - unfold parseIPv4. destruct (parseIPv4Fields s) as [f|] eqn:E; [|done]. intros [= <- <-].
    apply parseIPv4Fields_range in E as [Hb Hl]. apply be_get_range in Hb. rewrite Hl in Hb. split; [done|]. cbn. lia.
  - destruct (Ascii.eqb c ":"); [|done]. unfold parseIPv6.
    destruct (match first_cut "%"%char s with None => _ | Some _ => _ end) as [[s1 z1]|]; [|done]. cbn [mbind option_bind].
    destruct (if HasPrefix s1 "::" then _ else _) as [s2 e].
    destruct (match e with Some _ => String.eqb s2 "" | None => false end); [by intros [= <- <-]|].
    destruct (groups6 8 s2 [] e) as [[[s3 ip] e']|] eqn:E; [|done]. cbn [mbind option_bind].
    apply groups6_range in E as [Hb Hl]; [|by constructor|done].
    destruct (expand6 (s3, ip, e')) as [r|] eqn:Er; [|done]. intros [= <- <-].
    apply expand6_range in Er as [Hr Hr']; [|done..]. apply be_get_range in Hr. rewrite Hr' in Hr. split; [done|]. cbn. lia.
Qed.

Lemma ParseUint_range max s z : 0 ≤ max → ParseUint max s = Some z → 0 ≤ z ≤ max.
Proof.
  intros Hm. unfold ParseUint. destruct (String.eqb s ""); [done|].
  assert (H : ∀ acc, 0 ≤ acc ≤ max → parse_uint max acc s = Some z → 0 ≤ z ≤ max); [|by apply H].
  induction s as [|c s IH]; intros acc Ha; cbn [parse_uint]; [by intros [= <-]|]. cbv zeta.
  destruct (_ && _) eqn:E; [|done]. apply andb_true_iff in E as [[E1 E2]%andb_true_iff E3]. apply IH. lia.
Qed.

Lemma ParseAddrPort_range s ap :
  ParseAddrPort s = Some ap → valid_addr (ap_Addr ap) = true ∧ is_addr (ap_Addr ap) = true ∧ 0 ≤ ap_Port ap ≤ 65535.
Proof.
  unfold ParseAddrPort. destruct (splitAddrPort s) as [[[ip port] v6]|]; [|done]. cbn [mbind option_bind].
  destruct (ParseUint 65535 port) as [p|] eqn:Ep; [|done]. cbn [mbind option_bind].
  destruct (ParseAddr ip) as [[a zone]|] eqn:Ea; [|done]. cbn [mbind option_bind]. destruct (Bool.eqb _ _); [done|].
  intros [= <-]. apply ParseAddr_range in Ea as [? ?]. apply ParseUint_range in Ep; [done|lia].
Qed.

Definition endpoint_addr (ap : AddrPort) : Prop :=
  ap_Zone ap = "" ∧ Is4In6 (ap_Addr ap) = false ∧ IsUnspecified (ap_Addr ap) = false ∧ IsMulticast (ap_Addr ap) = false ∧
  ap_Port ap ≠ 0.

Lemma CheckEndpoint_spec s t :
  CheckEndpoint s = Ok t ↔ ∃ ap, ParseAddrPort s = Some ap ∧ t = AddrPort_String ap ∧ endpoint_addr ap.
Proof.
  unfold CheckEndpoint, endpoint_addr. destruct (ParseAddrPort s) as [ap|]; [|split; [done|by intros (? & ? & _)]].
  split.
  - destruct (Z.eqb_spec (ap_Port ap) 0) as [|Hp]; [done|]. destruct (String.eqb_spec (ap_Zone ap) "") as [Hz|]; [|done].
    cbn [negb]. destruct (Is4In6 (ap_Addr ap)) eqn:Hm; [done|]. destruct (_ || _) eqn:Hu; [done|]. intros [= <-].
    apply orb_false_iff in Hu as [Hu1 Hu2]. by exists ap.
  - intros (ap' & [= <-] & -> & Hz & Hm & Hu1 & Hu2 & Hp). rewrite Hz, Hm, Hu1, Hu2. cbn [String.eqb negb orb].
    by replace (ap_Port ap =? 0) with false by lia.
Qed.

Lemma endpoint_parses s ap : ParseAddrPort s = Some ap → endpoint_addr ap → ParseAddrPort (AddrPort_String ap) = Some ap.
Proof. intros Hs (Hz & Hm & _). destruct (ParseAddrPort_range _ _ Hs) as (? & ? & ?). by apply ParseAddrPort_String. Qed.

Lemma CheckEndpoint_again s t : CheckEndpoint s = Ok t → CheckEndpoint t = Ok t.
Proof.
  rewrite !CheckEndpoint_spec. intros (ap & Hs & -> & He). exists ap. by rewrite (endpoint_parses s ap Hs He).
Qed.

(** [CheckEndpoint] returns an endpoint in one form only: the text it
    returns parses to the same address and port as the text it was given, is
    accepted again and stays as it is, and is the same for every text of that
    endpoint.  The address is an IPv4 or IPv6 host address without a zone, the
    port is not zero. *)
Theorem CheckEndpoint_canonical s t :
  CheckEndpoint s = Ok t →
  CheckEndpoint t = Ok t ∧
  (∃ ap, ParseAddrPort s = Some ap ∧ ParseAddrPort t = Some ap ∧ ap_Zone ap = "" ∧ is_addr (ap_Addr ap) = true ∧
     IsUnspecified (ap_Addr ap) = false ∧ IsMulticast (ap_Addr ap) = false ∧ 0 < ap_Port ap ≤ 65535) ∧
  (∀ s' t', ParseAddrPort s' = ParseAddrPort s → CheckEndpoint s' = Ok t' → t' = t).
Proof.
  intros Ht. split; [by eapply CheckEndpoint_again|]. apply CheckEndpoint_spec in Ht as (ap & Hs & -> & He).
  destruct (ParseAddrPort_range _ _ Hs) as (Hv & Ha & Hr). split.
  - exists ap. rewrite (endpoint_parses s ap Hs He). destruct He as (? & ? & ? & ? & ?). repeat split; done || lia.
  - intros s' t' Es' (ap' & Hs' & -> & _)%CheckEndpoint_spec. assert (ap' = ap) as -> by congruence. done.
Qed.

Lemma CheckEndpoint_canonical_witness :
  CheckEndpoint "[fd00::1]:51820" = Ok "[fd00::1]:51820" ∧
  (∃ ap, ParseAddrPort "[FD00:0::0001]:051820" = Some ap ∧ ParseAddrPort "[fd00::1]:51820" = Some ap ∧ ap_Zone ap = "" ∧
     is_addr (ap_Addr ap) = true ∧ IsUnspecified (ap_Addr ap) = false ∧ IsMulticast (ap_Addr ap) = false ∧
     0 < ap_Port ap ≤ 65535) ∧
  (∀ s' t', ParseAddrPort s' = ParseAddrPort "[FD00:0::0001]:051820" → CheckEndpoint s' = Ok t' → t' = "[fd00::1]:51820").
Proof. apply (CheckEndpoint_canonical "[FD00:0::0001]:051820" "[fd00::1]:51820"). vm_compute. reflexivity. Defined.
