(* ===== verification/Routing.v ===== *)
(** * The paths of routes (routing/routing.go)

    The route door and the ingress proxy read a request's path the same way:
    they refuse dot segments, match the longest prefix by segments, and strip
    a route's segments.  Proved: the match is the longest one, first among
    equals; and a path that was not refused has no dot segment after its
    route's segments are stripped, neither escaped, nor as it is forwarded,
    nor to an upstream that decodes it again. *)

From S2P Require Import Prelude Text.

(** ** Strings *)

(** [strings.Split] by a separator of one byte. *)
Fixpoint Split (sep : Ascii.ascii) (s : string) : list string :=
  match s with
  | EmptyString => [""%string]
  | String c s' =>
      if Ascii.eqb c sep then ""%string :: Split sep s'
      else match Split sep s' with h :: t => String c h :: t | [] => [String c ""] end
  end.

(** [strings.Join]. *)
Fixpoint Join (l : list string) (sep : Ascii.ascii) : string :=
  match l with
  | [] => ""
  | [x] => x
  | x :: l' => (x +:+ String sep (Join l' sep))%string
  end.

(** [strings.TrimPrefix] and [strings.TrimSuffix] of one byte. *)
Definition TrimPrefix (s : string) (c : Ascii.ascii) : string :=
  match s with String d s' => if Ascii.eqb d c then s' else s | EmptyString => s end.

Fixpoint TrimSuffix (s : string) (c : Ascii.ascii) : string :=
  match s with
  | EmptyString => ""
  | String d EmptyString => if Ascii.eqb d c then "" else s
  | String d s' => String d (TrimSuffix s' c)
  end.

(** ** Escapes *)

Definition slash : Ascii.ascii := "/"%char.
Definition percent : Ascii.ascii := "%"%char.

Definition in_range (lo hi c : Ascii.ascii) : bool := (byteZ lo <=? byteZ c) && (byteZ c <=? byteZ hi).

Definition IsHex (c : Ascii.ascii) : bool := in_range "0"%char "9"%char c || in_range "a"%char "f"%char c || in_range "A"%char "F"%char c.

Definition Unhex (c : Ascii.ascii) : Z :=
  if byteZ "a"%char <=? byteZ c then byteZ c - byteZ "a"%char + 10
  else if byteZ "A"%char <=? byteZ c then byteZ c - byteZ "A"%char + 10
  else byteZ c - byteZ "0"%char.

(** The byte of two digits; the shift of a Go byte drops what leaves it. *)
Definition hex_byte (a b : Ascii.ascii) : Ascii.ascii :=
  Ascii.ascii_of_N (Z.to_N (Z.lor (Z.land (Z.shiftl (Unhex a) 4) 255) (Unhex b))).

(** The loop of [LenientUnescape]. *)
Fixpoint unescape (s : string) : string :=
  match s with
  | EmptyString => ""
  | String c s' =>
      match s' with
      | String a (String b r) =>
          if Ascii.eqb c percent && IsHex a && IsHex b then String (hex_byte a b) (unescape r)
          else String c (unescape s')
      | _ => String c (unescape s')
      end
  end.

Definition LenientUnescape (s : string) : string := if string_in percent s then unescape s else s.

(** [url.PathUnescape]: nothing when an escape is malformed. *)
Fixpoint PathUnescape (s : string) : option string :=
  match s with
  | EmptyString => Some ""%string
  | String c s' =>
      if Ascii.eqb c percent then
        match s' with
        | String a (String b r) =>
            if IsHex a && IsHex b then String (hex_byte a b) <$> PathUnescape r else None
        | _ => None
        end
      else String c <$> PathUnescape s'
  end.

(** [shouldEscape] of net/url in a path. *)
Definition shouldEscape (c : Ascii.ascii) : bool :=
  negb (in_range "a"%char "z"%char c || in_range "A"%char "Z"%char c || in_range "0"%char "9"%char c || string_in c "-_.~$&+,/:;=@").

Definition upper_hex (d : Z) : Ascii.ascii :=
  Ascii.ascii_of_N (Z.to_N (if d <? 10 then byteZ "0"%char + d else byteZ "A"%char + (d - 10))).

Fixpoint escape_path (s : string) : string :=
  match s with
  | EmptyString => ""
  | String c s' =>
      if shouldEscape c then
        String percent (String (upper_hex (Z.shiftr (byteZ c) 4)) (String (upper_hex (Z.land (byteZ c) 15))
          (escape_path s')))
      else String c (escape_path s')
  end.

(** [URL.EscapedPath] of a URL with nothing but a path. *)
Definition EscapedPath (path : string) : string := if String.eqb path "*" then "*" else escape_path path.

(** ** The paths *)

Definition is_dots (seg : string) : bool := String.eqb seg "." || String.eqb seg "..".

(** The first dot segment of a path as it is. *)
Definition dot_in (p : string) : option string := find is_dots (Split slash p).

Definition DotSegment (raw : string) : string :=
  match dot_in raw with
  | Some seg => seg
  | None =>
      let p := LenientUnescape raw in
      match dot_in p with
      | Some seg => seg
      | None => default ""%string (dot_in (LenientUnescape p))
      end
  end.

(** The segments a prefix asks for. *)
Definition want (prefix : string) : list string :=
  let p := TrimSuffix prefix slash in
  if String.eqb p "" then [] else Split slash (TrimPrefix p slash).

Definition parts_of (raw : string) : list string := Split slash (TrimPrefix raw slash).

Fixpoint segments_match (w parts : list string) : bool :=
  match w, parts with
  | [], _ => true
  | x :: w', seg :: parts' => bool_decide (PathUnescape seg = Some x) && segments_match w' parts'
  | _ :: _, [] => false
  end.

(** The loop of [Match] over the prefixes from index [i], with the best so
    far. *)
Fixpoint match_loop (i : Z) (prefixes parts : list string) (idx segs : Z) : Z * Z :=
  match prefixes with
  | [] => (idx, segs)
  | p :: rest =>
      let w := want p in
      let n := Z.of_nat (length w) in
      if (Z.of_nat (length parts) <? n) || (n <=? segs) then match_loop (i + 1) rest parts idx segs
      else if segments_match w parts then match_loop (i + 1) rest parts i n
      else match_loop (i + 1) rest parts idx segs
  end.

Definition Match (prefixes : list string) (raw : string) : Z * Z * bool :=
  let '(idx, segs) := match_loop 0 prefixes (parts_of raw) (-1) (-1) in
  if idx <? 0 then (-1, 0, false) else (idx, segs, true).

Definition RawOf (path raw : string) : string := if String.eqb (EscapedPath path) raw then "" else raw.

(** [StripSegments]: a panic when there are fewer segments, an error, or the
    path and its escaped form. *)
Inductive strip_error : Type := OutOfRange | BadEscape.

Definition StripSegments (raw : string) (n : nat) : result strip_error (string * string) :=
  let segs := parts_of raw in
  if (length segs <? n)%nat then Err OutOfRange else
  let rest := String slash (Join (drop n segs) slash) in
  match PathUnescape rest with
  | Some path => Ok (path, RawOf path rest)
  | None => Err BadEscape
  end.

(** ** Splitting, joining and decoding *)

Lemma Split_app sep x y : Split sep (x +:+ String sep y)%string = Split sep x ++ Split sep y.
Proof.
  induction x as [|c x IH]; [rewrite app_Empty|rewrite app_String]; cbn [Split].
  - by rewrite Ascii.eqb_refl.
  - destruct (Ascii.eqb c sep); [by rewrite IH|]. rewrite IH.
    destruct (Split sep x) as [|h t] eqn:E; [|done]. destruct x as [|d x]; cbn in E; [done|].
    destruct (Ascii.eqb d sep); [done|]. by destruct (Split sep x).
Qed.

Lemma Split_nonempty sep s : ∃ h t, Split sep s = h :: t.
Proof. destruct s as [|c s]; cbn; [eauto|]. destruct (Ascii.eqb c sep); [eauto|]. destruct (Split sep s); eauto. Qed.

Lemma Join_cons sep x y l : Join (x :: y :: l) sep = (x +:+ String sep (Join (y :: l) sep))%string.
Proof. done. Qed.

Lemma Join_Split sep s : Join (Split sep s) sep = s.
Proof.
  induction s as [|c s IH]; [done|]. cbn [Split]. destruct (Split_nonempty sep s) as (h & t & E). rewrite E in *.
  destruct (Ascii.eqb c sep) eqn:Ec.
  - rewrite Join_cons, IH, app_Empty. f_equal. by apply Ascii.eqb_eq in Ec.
  - rewrite <- IH. destruct t as [|z t]; [done|]. by rewrite !Join_cons, app_String.
Qed.

(** A decoding that leaves the separators alone. *)
Definition splits (f : string → string) : Prop :=
  f "" = ""%string ∧ ∀ x y, f (x +:+ String slash y)%string = (f x +:+ String slash (f y))%string.

Lemma unescape_slash y : unescape (String slash y) = String slash (unescape y).
Proof. destruct y as [|a [|b r]]; done. Qed.

Lemma unescape_keep c s :
  (∀ a b r, s = String a (String b r) → (Ascii.eqb c percent && IsHex a && IsHex b) = false) →
  unescape (String c s) = String c (unescape s).
Proof. intros H. destruct s as [|a [|b r]]; cbn [unescape]; [done..|]. by rewrite (H a b r). Qed.

Lemma IsHex_slash : IsHex slash = false.
Proof. done. Qed.

Lemma splits_unescape : splits unescape.
Proof.
  split; [done|]. intros x y. remember (String.length x) as n eqn:Hn. revert x Hn.
  induction n as [n IH] using lt_wf_ind. intros x ->.
  destruct x as [|c x]; [by rewrite !app_Empty, unescape_slash|]. rewrite app_String.
  destruct x as [|a x].
  { rewrite app_Empty, unescape_keep, unescape_slash by (intros ??? [= <- ->]; by rewrite IsHex_slash, andb_false_r).
    by rewrite unescape_keep, app_String. }
  rewrite app_String. destruct x as [|b x].
  { rewrite app_Empty, unescape_keep by (intros ??? [= <- <- ->]; by rewrite IsHex_slash, andb_false_r).
    rewrite (unescape_keep c (String a "")) by done. rewrite app_String. f_equal.
    specialize (IH 1%nat ltac:(cbn; lia) (String a "") eq_refl). by rewrite app_String, app_Empty in IH. }
  rewrite app_String. destruct (Ascii.eqb c percent && IsHex a && IsHex b) eqn:E.
  - cbn [unescape]. rewrite E, app_String. f_equal. apply (IH (String.length x)); [cbn; lia|done].
  - rewrite (unescape_keep c (String a (String b (x +:+ String slash y)))), (unescape_keep c (String a (String b x)))
      by (by intros ??? [= <- <- <-]).
    rewrite app_String. f_equal.
    specialize (IH (S (S (String.length x))) ltac:(cbn; lia) (String a (String b x)) eq_refl).
    by rewrite !app_String in IH.
Qed.

Lemma splits_id : splits (λ s, s).
Proof. done. Qed.

Lemma splits_comp f g : splits f → splits g → splits (λ s, f (g s)).
Proof. intros [F1 F2] [G1 G2]. split; [by rewrite G1|]. intros x y. by rewrite G2, F2. Qed.

Lemma LenientUnescape_eq s : LenientUnescape s = unescape s.
Proof.
  unfold LenientUnescape. destruct (string_in percent s) eqn:E; [done|].
  induction s as [|c s IH]; [done|]. cbn [string_in] in E. apply orb_false_iff in E as [Ec E].
  rewrite unescape_keep; [f_equal; by apply IH|]. intros a b r _. by rewrite Ascii.eqb_sym, Ec.
Qed.

Lemma PathUnescape_lenient s p : PathUnescape s = Some p → unescape s = p.
Proof.
  remember (String.length s) as n eqn:Hn. revert s p Hn. induction n as [n IH] using lt_wf_ind. intros s p ->.
  destruct s as [|c s]; cbn [PathUnescape]; [by intros [= <-]|]. destruct (Ascii.eqb c percent) eqn:Ec.
  - destruct s as [|a [|b r]]; [done..|]. destruct (IsHex a && IsHex b) eqn:Eh; [|done].
    intros (q & Hq & ->)%fmap_Some. cbn [unescape]. rewrite Ec, <- andb_assoc, Eh. cbn [andb]. f_equal.
    apply (IH (String.length r)); [cbn; lia|done..].
  - intros (q & Hq & ->)%fmap_Some. rewrite unescape_keep by (intros; by rewrite Ec). f_equal.
    apply (IH (String.length s)); [cbn; lia|done..].
Qed.

(** ** No dot segment *)

Definition nodots (f : string → string) (s : string) : Prop :=
  Forall (λ seg, is_dots seg = false) (Split slash (f s)).

Lemma nodots_app f x y : splits f → nodots f (x +:+ String slash y)%string ↔ nodots f x ∧ nodots f y.
Proof. intros [_ Hf]. unfold nodots. by rewrite Hf, Split_app, Forall_app. Qed.

Lemma nodots_empty f : splits f → nodots f "".
Proof. intros [Hf _]. unfold nodots. rewrite Hf. by repeat constructor. Qed.

Lemma nodots_Join f l : splits f → nodots f (Join l slash) ↔ Forall (nodots f) l.
Proof.
  intros Hf. induction l as [|x [|y l] IH].
  - split; [constructor|]. intros _. by apply nodots_empty.
  - cbn [Join]. rewrite Forall_singleton. done.
  - rewrite Join_cons, nodots_app, IH, (Forall_cons _ x) by done. done.
Qed.

Lemma nodots_TrimPrefix f raw : splits f → nodots f raw → nodots f (TrimPrefix raw slash).
Proof.
  intros Hf H. destruct raw as [|c raw]; [done|]. cbn [TrimPrefix]. destruct (Ascii.eqb c slash) eqn:E; [|done].
  apply Ascii.eqb_eq in E as ->. rewrite <- (app_Empty (String slash raw)), nodots_app in H by done. by destruct H.
Qed.

(** What remains after the first segments has no dot segment the path had
    not. *)
Lemma nodots_rest f raw n :
  splits f → nodots f raw → nodots f (String slash (Join (drop n (parts_of raw)) slash)).
Proof.
  intros Hf H%nodots_TrimPrefix; [|done]. rewrite <- (app_Empty (String slash _)), nodots_app, nodots_Join by done.
  split; [by apply nodots_empty|]. apply Forall_drop. unfold parts_of. rewrite <- nodots_Join, Join_Split by done. done.
Qed.

Lemma dot_in_nodots p : dot_in p = None ↔ nodots (λ s, s) p.
Proof.
  unfold dot_in, nodots. induction (Split slash p) as [|x l IH]; cbn; [split; constructor|].
  rewrite Forall_cons. destruct (is_dots x) eqn:E; [split; [done|intros [? _]; done]|]. rewrite IH. naive_solver.
Qed.

Lemma dot_in_some p seg : dot_in p = Some seg → seg ≠ ""%string.
Proof. unfold dot_in. intros [_ H]%find_some ->. done. Qed.

Lemma DotSegment_nodots raw :
  DotSegment raw = ""%string ↔
  nodots (λ s, s) raw ∧ nodots unescape raw ∧ nodots (λ s, unescape (unescape s)) raw.
Proof.
  unfold DotSegment. rewrite !LenientUnescape_eq.
  assert (∀ f, nodots f raw ↔ dot_in (f raw) = None) as E by (intros f; by rewrite dot_in_nodots).
  rewrite (E (λ s, s)), (E unescape), (E (λ s, unescape (unescape s))).
  destruct (dot_in raw) as [seg|] eqn:E0; [apply dot_in_some in E0; naive_solver|].
  destruct (dot_in (unescape raw)) as [seg|] eqn:E1; [apply dot_in_some in E1; naive_solver|].
  destruct (dot_in (unescape (unescape raw))) as [seg|] eqn:E2; cbn; [apply dot_in_some in E2; naive_solver|].
  naive_solver.
Qed.

(** C33: A path that is not refused stays free of dot segments when its
    route's segments are stripped: the escaped rest, the path that is
    forwarded, and what an upstream makes of that path by decoding it once
    more have no segment "." or "..". *)
Theorem stripped_path_safe raw n path rawpath :
  DotSegment raw = ""%string → StripSegments raw n = Ok (path, rawpath) →
  nodots (λ s, s) path ∧ nodots LenientUnescape path ∧ DotSegment rawpath = ""%string.
Proof.
  intros (H0 & H1 & H2)%DotSegment_nodots. unfold StripSegments. case_match; [done|].
  set (rest := String slash _). destruct (PathUnescape rest) as [p|] eqn:Hp; [|done]. intros [= -> <-].
  apply PathUnescape_lenient in Hp.
  assert (∀ f, splits f → nodots f raw → nodots f rest) as Hrest by (intros; by apply nodots_rest).
  apply Hrest in H0; [|apply splits_id]. apply Hrest in H1; [|apply splits_unescape].
  apply Hrest in H2; [|apply splits_comp; apply splits_unescape].
  unfold nodots in *. rewrite LenientUnescape_eq, Hp in *. split; [done|]. split; [done|].
  unfold RawOf. destruct (String.eqb _ _); [done|]. apply DotSegment_nodots. unfold nodots. by rewrite Hp.
Qed.

Lemma stripped_path_safe_witness :
  nodots (λ s, s) "/q/100%"%string ∧ nodots LenientUnescape "/q/100%"%string ∧ DotSegment ""%string = ""%string.
Proof. apply (stripped_path_safe "/api/q/100%25" 1); vm_compute; reflexivity. Defined.

(** ** The longest prefix *)

(** A prefix matches a path by its segments. *)
Definition matches (prefix raw : string) : bool := segments_match (want prefix) (parts_of raw).

Definition len_want (prefix : string) : Z := Z.of_nat (length (want prefix)).

(** The best of the prefixes read so far. *)
Definition best_match (seen : list string) (raw : string) (idx segs : Z) : Prop :=
  (idx = -1 ∧ segs = -1 ∧ ∀ p, p ∈ seen → matches p raw = false) ∨
  (∃ p, 0 ≤ idx ∧ seen !! Z.to_nat idx = Some p ∧ matches p raw = true ∧ segs = len_want p ∧
     ∀ j p', seen !! j = Some p' → matches p' raw = true →
       len_want p' ≤ segs ∧ (len_want p' = segs → idx ≤ Z.of_nat j)).

Lemma segments_match_length w parts : segments_match w parts = true → (length w ≤ length parts)%nat.
Proof.
  revert parts. induction w as [|x w IH]; intros [|p parts]; cbn; [lia..|done|].
  intros [_ H%IH]%andb_true_iff. lia.
Qed.

Lemma lookup_snoc_cases {A} (l : list A) x j y :
  (l ++ [x]) !! j = Some y → l !! j = Some y ∨ j = length l ∧ y = x.
Proof.
  intros [?|[Hj Hx]]%lookup_app_Some; [by left|]. right.
  destruct (j - length l)%nat eqn:E; cbn in Hx; [|done]. injection Hx as ->. split; [lia|done].
Qed.

(** A prefix that is not better than the best leaves it the best. *)
Lemma best_match_skip seen raw idx segs p :
  best_match seen raw idx segs → matches p raw = false ∨ len_want p ≤ segs →
  best_match (seen ++ [p]) raw idx segs.
Proof.
  intros [(-> & -> & H)|(q & Hi & Hq & Hm & -> & Hall)] Hp.
  - left. split; [done|]. split; [done|]. intros p' [?|Hp']%elem_of_app; [auto|].
    apply list_elem_of_singleton in Hp' as ->. destruct Hp as [?|Hp]; [done|]. unfold len_want in Hp. lia.
  - right. exists q. split; [done|]. split; [by apply lookup_app_l_Some|]. split; [done|]. split; [done|].
    intros j p' Hj Hm'. apply lookup_snoc_cases in Hj as [Hj|[-> ->]]; [by eapply Hall|].
    apply lookup_lt_Some in Hq. destruct Hp as [?|?]; [congruence|]. split; [done|lia].
Qed.

(** A longer one becomes the best. *)
Lemma best_match_new seen raw idx segs p :
  best_match seen raw idx segs → matches p raw = true → segs < len_want p →
  best_match (seen ++ [p]) raw (Z.of_nat (length seen)) (len_want p).
Proof.
  intros Hb Hm Hlt. right. exists p. split; [lia|]. rewrite Nat2Z.id. split; [by apply list_lookup_middle|].
  split; [done|]. split; [done|]. intros j p' Hj Hm'. apply lookup_snoc_cases in Hj as [Hj|[-> ->]]; [|lia].
  destruct Hb as [(_ & _ & H)|(q & _ & _ & _ & _ & Hall)].
  - rewrite H in Hm'; [done|]. by eapply list_elem_of_lookup_2.
  - destruct (Hall j p' Hj Hm'). lia.
Qed.

Lemma match_loop_best seen prefixes raw idx segs :
  best_match seen raw idx segs →
  let '(idx', segs') := match_loop (Z.of_nat (length seen)) prefixes (parts_of raw) idx segs in
  best_match (seen ++ prefixes) raw idx' segs'.
Proof.
  revert seen idx segs. induction prefixes as [|p prefixes IH]; intros seen idx segs Hb; cbn [match_loop].
  { by rewrite app_nil_r. }
  rewrite cons_middle, app_assoc. replace (Z.of_nat (length seen) + 1) with (Z.of_nat (length (seen ++ [p])))
    by (rewrite length_app; cbn; lia).
  fold (len_want p). destruct (_ || _) eqn:E.
  - apply IH, best_match_skip; [done|]. apply orb_true_iff in E as [E|E]; [left|right; lia].
    unfold matches. apply not_true_iff_false. intros H%segments_match_length. unfold len_want in E. lia.
  - destruct (segments_match _ _) eqn:Em.
    + apply IH, (best_match_new seen raw idx segs); [done..|]. apply orb_false_iff in E as [_ E]. lia.
    + apply IH, best_match_skip; [done|]. by left.
Qed.

(** [Match] finds the route of a path: the prefix it returns matches the
    path's segments, no prefix that matches has more, of those with as many it
    is the first, and stripping that many segments never runs out of them; it
    finds none exactly when none matches. *)
Theorem match_longest prefixes raw :
  match Match prefixes raw with
  | (idx, segs, true) =>
      ∃ p, 0 ≤ idx ∧ prefixes !! Z.to_nat idx = Some p ∧ matches p raw = true ∧ segs = len_want p ∧
      (∀ j p', prefixes !! j = Some p' → matches p' raw = true →
         len_want p' ≤ segs ∧ (len_want p' = segs → idx ≤ Z.of_nat j)) ∧
      StripSegments raw (Z.to_nat segs) ≠ Err OutOfRange
  | (_, _, false) => ∀ p, p ∈ prefixes → matches p raw = false
  end.
Proof.
  unfold Match. pose proof (match_loop_best [] prefixes raw (-1) (-1)) as H. cbn [length app] in H.
  change (Z.of_nat 0) with 0 in H. destruct (match_loop 0 prefixes (parts_of raw) (-1) (-1)) as [idx segs].
  destruct H as [(-> & -> & H)|(p & Hi & Hp & Hm & -> & Hall)].
  - left. split; [done|]. split; [done|]. intros p []%not_elem_of_nil.
  - done.
  - replace (idx <? 0) with false by lia. exists p. do 4 (split; [done|]). split; [done|].
    apply segments_match_length in Hm. unfold StripSegments. replace (_ <? _)%nat with false; [|symmetry; apply Nat.ltb_ge; unfold len_want; lia].
    by destruct (PathUnescape _).
Qed.
