(* ===== verification/HostLabels.v ===== *)
(** * The default host labels of environments (model/ingress.go, model/zones.go)

    An environment's host under the platform's zone has a natural label,
    "<name>-<tenant>", when that is unambiguous, else a fallback that ends in a
    hash of the environment's ID, or a label its tenant chose.  Proved: a
    natural label names one pair of name and tenant, and the three kinds never
    meet; a fallback is a valid label whatever the ID. *)

From S2P Require Import Prelude Text.

(** ** SHA-256 (crypto/sha256), over bytes *)

Definition w32 (z : Z) : Z := z mod 2 ^ 32.

Definition rotr (n x : Z) : Z := Z.lor (Z.shiftr x n) (w32 (Z.shiftl x (32 - n))).

(** The constants: the first 32 bits of the fractions of the cube roots of the
    first 64 primes, and of the square roots of the first 8. *)
Definition is_prime (p : Z) : bool := forallb (λ d, negb (p mod d =? 0)) (seqZ 2 (p - 2)).

Definition first_primes (n : nat) : list Z := take n (filter (λ p, is_prime p = true) (seqZ 2 400)).

(** The integer cube root of [n], below [acc + 2 ^ bits], bit by bit. *)
Fixpoint cube_root (bits : nat) (acc n : Z) : Z :=
  match bits with
  | O => acc
  | S b => let c := acc + 2 ^ Z.of_nat b in cube_root b (if c * c * c <=? n then c else acc) n
  end.

Definition sha_k : list Z :=
  Eval vm_compute in (λ p, w32 (cube_root 36 0 (p * 2 ^ 96))) <$> first_primes 64.

Definition sha_init : list Z :=
  Eval vm_compute in (λ p, w32 (Z.sqrt (p * 2 ^ 64))) <$> first_primes 8.

(** The words of a block, last first, extended to [16 + n]. *)
Fixpoint sha_extend (n : nat) (w : list Z) : list Z :=
  match n with
  | O => w
  | S n' =>
      let at_ i := nth i w 0 in
      let s0 := Z.lxor (Z.lxor (rotr 7 (at_ 14%nat)) (rotr 18 (at_ 14%nat))) (Z.shiftr (at_ 14%nat) 3) in
      let s1 := Z.lxor (Z.lxor (rotr 17 (at_ 1%nat)) (rotr 19 (at_ 1%nat))) (Z.shiftr (at_ 1%nat) 10) in
      sha_extend n' (w32 (at_ 15%nat + s0 + at_ 6%nat + s1) :: w)
  end.

Definition sha_round (st : list Z) (kw : Z * Z) : list Z :=
  match st with
  | [a; b; c; d; e; f; g; h] =>
      let s1 := Z.lxor (Z.lxor (rotr 6 e) (rotr 11 e)) (rotr 25 e) in
      let ch := Z.lxor (Z.land e f) (Z.land (Z.lxor e 0xffffffff) g) in
      let t1 := h + s1 + ch + kw.1 + kw.2 in
      let s0 := Z.lxor (Z.lxor (rotr 2 a) (rotr 13 a)) (rotr 22 a) in
      let maj := Z.lxor (Z.lxor (Z.land a b) (Z.land a c)) (Z.land b c) in
      [w32 (t1 + s0 + maj); a; b; c; w32 (d + t1); e; f; g]
  | _ => st
  end.

Fixpoint be_words (bytes : list Z) : list Z :=
  match bytes with
  | a :: b :: c :: d :: rest => (((a * 256 + b) * 256 + c) * 256 + d) :: be_words rest
  | _ => []
  end.

Definition sha_block (st : list Z) (block : list Z) : list Z :=
  let w := reverse (sha_extend 48 (reverse (be_words block))) in
  zip_with (λ x y, w32 (x + y)) st (foldl sha_round st (zip sha_k w)).

Fixpoint blocks (n : nat) (bytes : list Z) : list (list Z) :=
  match n with O => [] | S n' => take 64 bytes :: blocks n' (drop 64 bytes) end.

Definition be_bytes (n : nat) (z : Z) : list Z :=
  (λ i, Z.land (Z.shiftr z (8 * Z.of_nat (n - 1 - i))) 255) <$> seq 0 n.

Definition sha_pad (bytes : list Z) : list Z :=
  let n := length bytes in
  bytes ++ [128] ++ replicate ((119 - n mod 64) mod 64) 0 ++ be_bytes 8 (8 * Z.of_nat n).

Definition Sum256 (bytes : list Z) : list Z :=
  let m := sha_pad bytes in
  concat (be_bytes 4 <$> foldl sha_block sha_init (blocks (length m / 64) m)).

(** [hex.EncodeToString]. *)
Definition lower_hex (d : Z) : Ascii.ascii :=
  Ascii.ascii_of_N (Z.to_N (if d <? 10 then 48 + d else 87 + d)).

Definition EncodeToString (bytes : list Z) : string :=
  foldr (λ b s, String (lower_hex (Z.shiftr b 4)) (String (lower_hex (Z.land b 15)) s)) ""%string bytes.

Fixpoint bytes_of (s : string) : list Z :=
  match s with EmptyString => [] | String c s' => byteZ c :: bytes_of s' end.

Example sha256_abc :
  EncodeToString (Sum256 (bytes_of "abc")) = "ba7816bf8f01cfea414140de5dae2223b00361a396177a9cb410ff61f20015ad"%string.
Proof. vm_compute. reflexivity. Qed.

(** ** Labels (model/ingress.go) *)

Definition dash : Ascii.ascii := "-"%char.

(** [strings.Contains]. *)
Fixpoint contains (s sub : string) : bool :=
  String.prefix sub s || match s with EmptyString => false | String _ s' => contains s' sub end.

(** [strings.TrimRight] of one byte. *)
Fixpoint TrimRight (s : string) (c : Ascii.ascii) : string :=
  match s with
  | EmptyString => ""
  | String d s' =>
      let r := TrimRight s' c in
      if Ascii.eqb d c && String.eqb r "" then "" else String d r
  end.

(** [strings.Cut] at a byte. *)
Fixpoint Cut (s : string) (c : Ascii.ascii) : option (string * string) :=
  match s with
  | EmptyString => None
  | String d s' =>
      if Ascii.eqb d c then Some (""%string, s')
      else (λ ba, (String d ba.1, ba.2)) <$> Cut s' c
  end.

Definition is_digit (c : Ascii.ascii) : bool := between 48 57 (byteZ c).
Definition is_lower (c : Ascii.ascii) : bool := between 97 122 (byteZ c).
Definition alnum (c : Ascii.ascii) : bool := is_lower c || is_digit c.
Definition hash_char (c : Ascii.ascii) : bool := is_digit c || between 97 102 (byteZ c).

Definition maxLabel : nat := 63.
Definition fallbackStem : nat := 46.
Definition hashLen : nat := 16.

Definition isRLDH (s : string) : bool :=
  (4 <=? String.length s)%nat && String.eqb (String.substring 2 2 s) "--".

Definition hasHashSuffix (s : string) : bool :=
  let n := String.length s in
  (hashLen + 1 <=? n)%nat && bool_decide (String.get (n - hashLen - 1) s = Some dash) &&
  string_forallb hash_char (String.substring (n - hashLen) hashLen s).

(** The characters of a label from index [i]. *)
Fixpoint label_chars (i : nat) (s : string) : bool :=
  match s with
  | EmptyString => true
  | String c s' =>
      (alnum c || Ascii.eqb c dash && (0 <? i)%nat && negb (String.eqb s' "")) && label_chars (S i) s'
  end.

Definition isHostLabel (s : string) : bool :=
  (1 <=? String.length s)%nat && (String.length s <=? maxLabel)%nat && negb (isRLDH s) && label_chars 0 s.

(** The hash of a fallback, of the environment's UUID as text. *)
Definition label_hash (id : string) : string := String.substring 0 hashLen (EncodeToString (Sum256 (bytes_of id))).

(** The name part of a fallback. *)
Definition stem (name : string) : string :=
  let p := if isRLDH name then ("e-" +:+ name)%string else name in
  TrimRight (String.substring 0 fallbackStem p) dash.

Definition fallback_label (name id : string) : string := (stem name +:+ String dash (label_hash id))%string.

Definition natural_label (name tenant : string) : string := (name +:+ String dash tenant)%string.

Definition naturalOK (name tenant : string) : bool :=
  negb (string_in dash name) && negb (string_in "."%char tenant) && negb (contains tenant "--") &&
  negb (hasHashSuffix (natural_label name tenant)) && isHostLabel (natural_label name tenant).

Definition HostLabels (name tenant id : string) : string * bool * string :=
  (natural_label name tenant, naturalOK name tenant, fallback_label name id).

Definition ChosenHostLabel (s : string) : bool := isHostLabel s && contains s "--" && negb (hasHashSuffix s).
Definition PlainHostLabel (s : string) : bool := isHostLabel s && negb (contains s "--") && negb (hasHashSuffix s).

Definition NaturalPair (label : string) : string * string * bool :=
  match Cut label dash with
  | Some (name, tenant) => (name, tenant, negb (String.eqb name "") && negb (String.eqb tenant ""))
  | None => (label, ""%string, false)
  end.

(** The names of tenants (store/tenants.go) and of environments
    (env/spec/validate.go). *)
Definition tenant_char (c : Ascii.ascii) : bool := alnum c || Ascii.eqb c "."%char || Ascii.eqb c dash.

Definition TenantName (s : string) : bool :=
  match s with
  | EmptyString => false
  | String c s' => alnum c && string_forallb tenant_char s' && (1 <=? String.length s')%nat && (String.length s' <=? 62)%nat
  end.

Definition dnsLabel (s : string) : bool :=
  (1 <=? String.length s)%nat && (String.length s <=? 63)%nat && label_chars 0 s.

(** ** Zones (model/zones.go) *)

Record Zones := MkZones { z_Apps : string; z_AppsOwners : list string; z_Tenant : string }.

Definition zone_Of (z : Zones) (zone : string) : string :=
  if String.eqb zone "" || String.eqb zone (z_Apps z) then z_Apps z
  else if String.eqb zone (z_Tenant z) then z_Tenant z
  else "".

Definition ForNewTenant (z : Zones) (byPerson : bool) : string := if byPerson then z_Tenant z else "".

Definition PlainLabels (z : Zones) (tenant zone : string) : bool :=
  negb (String.eqb (z_Apps z) "") && String.eqb (zone_Of z zone) (z_Apps z) &&
  existsb (String.eqb tenant) (z_AppsOwners z).

Definition zone_Names (z : Zones) : list string :=
  List.filter (λ n, negb (String.eqb n "")) [z_Apps z; z_Tenant z].

(** ** The hash of a fallback *)

Lemma app_length_string x y : String.length (x +:+ y)%string = (String.length x + String.length y)%nat.
Proof. apply string_length_app. Qed.

Lemma sha_round_length st kw : length st = 8%nat → length (sha_round st kw) = 8%nat.
Proof. intros H. do 9 (destruct st as [|? st]; try done). Qed.

Lemma sha_rounds_length kws st : length st = 8%nat → length (foldl sha_round st kws) = 8%nat.
Proof. revert st. induction kws as [|kw kws IH]; intros st H; [done|]. apply IH. by apply sha_round_length. Qed.

Lemma sha_blocks_length bs st : length st = 8%nat → length (foldl sha_block st bs) = 8%nat.
Proof.
  revert st. induction bs as [|b bs IH]; intros st H; [done|]. apply IH. unfold sha_block.
  rewrite length_zip_with, sha_rounds_length by done. lia.
Qed.

Lemma be_bytes_range n z : Forall (λ b, 0 ≤ b < 256) (be_bytes n z).
Proof.
  unfold be_bytes. apply Forall_fmap, Forall_true. intros i. cbn. change 255 with (Z.ones 8).
  rewrite Z.land_ones by done. apply Z.mod_pos_bound. done.
Qed.

Lemma Sum256_length bytes : length (Sum256 bytes) = 32%nat ∧ Forall (λ b, 0 ≤ b < 256) (Sum256 bytes).
Proof.
  unfold Sum256. generalize (blocks (length (sha_pad bytes) / 64) (sha_pad bytes)). intros bs.
  pose proof (sha_blocks_length bs sha_init eq_refl) as H. destruct (foldl sha_block sha_init bs) as [|a l]; [done|].
  split.
  - do 8 (destruct l as [|? l]; try done).
  - apply Forall_concat, Forall_fmap, Forall_true. intros. apply be_bytes_range.
Qed.

Lemma lower_hex_char d : 0 ≤ d < 16 → hash_char (lower_hex d) = true.
Proof.
  intros H. rewrite <- (Z2Nat.id d) by lia. assert (Z.to_nat d < 16)%nat as Hn by lia.
  generalize dependent (Z.to_nat d). intros n Hn. do 16 (destruct n as [|n]; [done|]). lia.
Qed.

Lemma EncodeToString_hex bytes :
  Forall (λ b, 0 ≤ b < 256) bytes →
  String.length (EncodeToString bytes) = (2 * length bytes)%nat ∧ string_forallb hash_char (EncodeToString bytes) = true.
Proof.
  induction 1 as [|b bytes Hb _ [IHl IHf]]; [done|]. cbn [EncodeToString foldr]. fold (EncodeToString bytes).
  cbn [String.length string_forallb length]. rewrite IHl, IHf, !lower_hex_char; [split; [lia|done]|..].
  - change 15 with (Z.ones 4). rewrite Z.land_ones by done. by apply Z.mod_pos_bound.
  - rewrite Z.shiftr_div_pow2 by done. change (2 ^ 4) with 16. Z.to_euclidean_division_equations. lia.
Qed.

Lemma substring_length n s : (n ≤ String.length s)%nat → String.length (String.substring 0 n s) = n.
Proof.
  revert n. induction s as [|c s IH]; intros [|n]; cbn; [done|lia|done|]. intros H. f_equal. apply IH. lia.
Qed.

Lemma substring_forallb f n s : string_forallb f s = true → string_forallb f (String.substring 0 n s) = true.
Proof.
  revert n. induction s as [|c s IH]; intros [|n]; cbn; [done..|]. intros [-> H]%andb_true_iff. by apply IH.
Qed.

Lemma label_hash_ok id : String.length (label_hash id) = hashLen ∧ string_forallb hash_char (label_hash id) = true.
Proof.
  unfold label_hash. destruct (Sum256_length (bytes_of id)) as [Hl Hr].
  destruct (EncodeToString_hex _ Hr) as [El Ef]. rewrite Hl in El.
  split; [apply substring_length; rewrite El; unfold hashLen; lia|by apply substring_forallb].
Qed.

(** ** The kinds of labels never meet *)

Lemma get_app_r x y n : String.get (String.length x + n) (x +:+ y)%string = String.get n y.
Proof. induction x as [|c x IH]; [by rewrite app_Empty|]. rewrite app_String. cbn. apply IH. Qed.

Lemma substring_app_r x y n m : String.substring (String.length x + n) m (x +:+ y)%string = String.substring n m y.
Proof. induction x as [|c x IH]; [by rewrite app_Empty|]. rewrite app_String. cbn. apply IH. Qed.

(** Every fallback ends in its hash. *)
Lemma fallback_hash name id : hasHashSuffix (fallback_label name id) = true.
Proof.
  destruct (label_hash_ok id) as [Hl Hf]. unfold hasHashSuffix, fallback_label. rewrite app_length_string.
  set (p := stem name). cbn [String.length]. rewrite Hl. unfold hashLen in *.
  rewrite !andb_true_iff, Nat.leb_le, bool_decide_eq_true. split; [split; [lia|]|].
  - replace (String.length p + 17 - 16 - 1)%nat with (String.length p + 0)%nat by lia. by rewrite get_app_r.
  - replace (String.length p + 17 - 16)%nat with (String.length p + 1)%nat by lia. rewrite substring_app_r.
    change (String.substring 1 16 (String dash (label_hash id))) with (String.substring 0 16 (label_hash id)).
    rewrite <- Hl. by rewrite substring_all.
Qed.

Lemma Cut_natural name tenant :
  string_in dash name = false → Cut (natural_label name tenant) dash = Some (name, tenant).
Proof.
  unfold natural_label. induction name as [|c name IH]; cbn [string_in]; [by rewrite app_Empty|].
  intros [Hc H]%orb_false_iff. rewrite app_String. cbn [Cut]. rewrite Ascii.eqb_sym, Hc, IH by done. done.
Qed.

Lemma label_chars_last i s : label_chars i (s +:+ String dash "")%string = false.
Proof.
  revert i. induction s as [|c s IH]; intros i; [rewrite app_Empty|rewrite app_String]; cbn [label_chars].
  - cbn. by rewrite !andb_false_r.
  - by rewrite IH, andb_false_r.
Qed.

Lemma prefix_dashes s :
  String.prefix "--" s =
  match s with String a (String b _) => Ascii.eqb a dash && Ascii.eqb b dash | _ => false end.
Proof.
  assert (∀ a (x y : string), (if Ascii.ascii_dec dash a then String.prefix x y else false) =
                              Ascii.eqb a dash && String.prefix x y) as E.
  { intros a x y. destruct (Ascii.ascii_dec dash a) as [<-|Hne]; [done|].
    destruct (Ascii.eqb_spec a dash); [congruence|done]. }
  destruct s as [|a s]; [done|].
  change (String.prefix "--" (String a s)) with (if Ascii.ascii_dec dash a then String.prefix "-" s else false).
  rewrite E. destruct s as [|b s]; [by rewrite andb_false_r|].
  change (String.prefix "-" (String b s)) with (if Ascii.ascii_dec dash b then String.prefix "" s else false).
  rewrite E. by destruct s; rewrite andb_true_r.
Qed.

Lemma alnum_dash c : alnum c = true → Ascii.eqb c dash = false.
Proof. intros H. destruct (Ascii.eqb_spec c dash) as [->|]; [done|done]. Qed.

(** "--" is in neither a name without '-' nor a tenant without "--" that
    does not begin with '-'. *)
Lemma contains_natural name tenant :
  string_in dash name = false → contains tenant "--" = false → TenantName tenant = true →
  contains (natural_label name tenant) "--" = false.
Proof.
  intros Hn Ht Hten. unfold natural_label. induction name as [|c name IH].
  - rewrite app_Empty. cbn [contains]. rewrite Ht, orb_false_r, prefix_dashes.
    destruct tenant as [|d t]; [done|]. cbn [TenantName] in Hten. apply andb_true_iff in Hten as [Hten _].
    do 2 apply andb_true_iff in Hten as [Hten _]. by rewrite (alnum_dash d Hten), andb_false_r.
  - cbn [string_in] in Hn. apply orb_false_iff in Hn as [Hc Hn]. rewrite app_String. cbn [contains].
    rewrite (IH Hn), orb_false_r, prefix_dashes. rewrite Ascii.eqb_sym in Hc.
    destruct (name +:+ String dash tenant)%string; [done|]. by rewrite Hc.
Qed.

(** ** A fallback is a valid label *)

Definition begins (t s : string) : Prop := ∃ r, s = (t +:+ r)%string.

Lemma begins_trans a b c : begins a b → begins b c → begins a c.
Proof.
  intros [r ->] [r' ->]. exists (r +:+ r')%string. induction a as [|c a IH]; [by rewrite !app_Empty|].
  by rewrite !app_String, IH.
Qed.

Lemma begins_TrimRight s c : begins (TrimRight s c) s.
Proof.
  induction s as [|d s [r IH]]; cbn; [by exists ""%string|]. destruct (_ && _) eqn:E.
  - exists (String d s). by rewrite app_Empty.
  - exists r. by rewrite app_String, <- IH.
Qed.

Lemma begins_substring n s : begins (String.substring 0 n s) s.
Proof.
  revert n. induction s as [|d s IH]; intros [|n]; cbn; try (eexists; by rewrite app_Empty).
  destruct (IH n) as [r Hr]. exists r. by rewrite app_String, <- Hr.
Qed.

Lemma TrimRight_last s c t : TrimRight s c ≠ (t +:+ String c "")%string.
Proof.
  revert t. induction s as [|d s IH]; intros t; cbn; [destruct t; [by rewrite app_Empty|by rewrite app_String]|].
  destruct (Ascii.eqb d c && String.eqb (TrimRight s c) "") eqn:E.
  - destruct t; [by rewrite app_Empty|by rewrite app_String].
  - destruct t as [|e t]; [rewrite app_Empty|rewrite app_String]; intros [= -> H].
    + rewrite H, Ascii.eqb_refl in E. done.
    + by apply (IH t).
Qed.

Definition label_char (c : Ascii.ascii) : bool := alnum c || Ascii.eqb c dash.

Lemma label_chars_forall i s : label_chars i s = true → string_forallb label_char s = true.
Proof.
  revert i. induction s as [|c s IH]; intros i; [done|]. cbn [label_chars string_forallb].
  intros [Hc H]%andb_true_iff. rewrite (IH _ H), andb_true_r. unfold label_char.
  apply orb_true_iff in Hc as [->|Hc]; [done|]. do 2 apply andb_true_iff in Hc as [Hc _]. by rewrite Hc, orb_true_r.
Qed.

Lemma forallb_begins f t s : begins t s → string_forallb f s = true → string_forallb f t = true.
Proof.
  intros [r ->]. induction t as [|c t IH]; [done|]. rewrite app_String. cbn.
  intros [-> H]%andb_true_iff. by apply IH.
Qed.

Lemma hash_alnum c : hash_char c = true → alnum c = true.
Proof.
  unfold hash_char, alnum, is_lower, between. intros [->|H]%orb_true_iff; [by rewrite orb_true_r|].
  apply andb_true_iff in H as [H1 H2]. replace ((97 <=? byteZ c) && (byteZ c <=? 122)) with true; [done|].
  symmetry. lia.
Qed.

Lemma label_chars_hash i h : string_forallb hash_char h = true → label_chars i h = true.
Proof.
  revert i. induction h as [|c h IH]; intros i; [done|]. cbn [string_forallb label_chars].
  intros [Hc H]%andb_true_iff. by rewrite (hash_alnum c Hc), IH.
Qed.

(** A stem of label characters, a hyphen and a hash are the characters of a
    label. *)
Lemma label_chars_fallback i t h :
  string_forallb label_char t = true → string_forallb hash_char h = true → h ≠ ""%string →
  (0 < i)%nat ∨ (∃ c t', t = String c t' ∧ alnum c = true) →
  label_chars i (t +:+ String dash h)%string = true.
Proof.
  intros Ht Hh Hne. revert i. induction t as [|c t IH]; intros i Hi.
  - rewrite app_Empty. cbn [label_chars]. rewrite label_chars_hash by done.
    destruct Hi as [Hi|(c & t' & [=] & _)]. destruct i; [lia|]. by destruct h.
  - rewrite app_String. cbn [label_chars string_forallb] in *. apply andb_true_iff in Ht as [Hc Ht].
    rewrite IH by (try done; left; lia). rewrite andb_true_r. unfold label_char in Hc.
    destruct (alnum c) eqn:Ea; [done|]. cbn in Hc |- *. destruct Hi as [Hi|(? & ? & [= <- <-] & ?)]; [|congruence].
    rewrite Hc. destruct i; [lia|]. destruct t; [by rewrite app_Empty|by rewrite app_String].
Qed.

Lemma isRLDH_spec s :
  isRLDH s = match s with String _ (String _ (String c (String d _))) => Ascii.eqb c dash && Ascii.eqb d dash | _ => false end.
Proof.
  destruct s as [|a [|b [|c [|d s]]]]; try done. unfold isRLDH. cbn -[Ascii.eqb].
  unfold dash. by destruct s, (Ascii.eqb c "-"%char), (Ascii.eqb d "-"%char).
Qed.

Lemma RLDH_begins t s : begins t s → isRLDH s = false → (4 ≤ String.length t)%nat → isRLDH t = false.
Proof.
  intros [r ->]. rewrite !isRLDH_spec. destruct t as [|a [|b [|c [|d t]]]]; cbn [String.length]; try lia.
  by rewrite !app_String.
Qed.

(** The name part of a fallback of a valid name. *)
Lemma stem_ok name :
  dnsLabel name = true →
  ∃ c t, stem name = String c t ∧ alnum c = true ∧ string_forallb label_char (stem name) = true ∧
    (String.length (stem name) ≤ fallbackStem)%nat ∧ ((4 ≤ String.length (stem name))%nat → isRLDH (stem name) = false).
Proof.
  unfold dnsLabel. rewrite !andb_true_iff. intros [[H1 H63] Hl]. destruct name as [|c0 name0]; [done|].
  set (name := String c0 name0) in *. pose proof (label_chars_forall _ _ Hl) as Hall.
  assert (alnum c0 = true) as Hc0.
  { cbn [name label_chars] in Hl. apply andb_true_iff in Hl as [Hl _]. rewrite andb_false_r in Hl. by rewrite orb_false_r in Hl. }
  unfold stem. set (p := if isRLDH name then _ else _).
  assert (isRLDH p = false ∧ string_forallb label_char p = true ∧ ∃ c t, p = String c t ∧ alnum c = true) as (Hr & Hp & c & t & Ep & Hc).
  { unfold p. destruct (isRLDH name) eqn:E; [|eauto 6]. rewrite !app_String, app_Empty.
    split; [|split; [cbn [string_forallb]; by rewrite Hall|by eauto]]. rewrite isRLDH_spec. unfold name. destruct name0; [done|]. by rewrite (alnum_dash c0). }
  assert (begins (TrimRight (String.substring 0 fallbackStem p) dash) p) as Hb
    by (eapply begins_trans; [apply begins_TrimRight|apply begins_substring]).
  set (q := TrimRight _ dash) in *. assert (∃ t', q = String c t') as [t' Eq].
  { unfold q. rewrite Ep. change fallbackStem with (S 45). cbn [String.substring TrimRight].
    rewrite (alnum_dash c Hc). cbn [andb]. eauto. }
  exists c, t'. split; [done|]. split; [done|]. split; [by eapply forallb_begins|]. split; [|intros; by eapply RLDH_begins].
  destruct (begins_TrimRight (String.substring 0 fallbackStem p) dash) as [r Er]. fold q in Er.
  apply (f_equal String.length) in Er. rewrite app_length_string in Er.
  assert (String.length (String.substring 0 fallbackStem p) ≤ fallbackStem)%nat; [|lia].
  generalize fallbackStem. clear. induction p as [|c p IH]; intros [|n]; cbn; try lia. specialize (IH n). lia.
Qed.

Lemma hash_dash c : hash_char c = true → Ascii.eqb c dash = false.
Proof. intros H%hash_alnum. by apply alnum_dash. Qed.

(** Neither the stem nor what follows it makes the label R-LDH. *)
Lemma fallback_not_RLDH t h :
  string_forallb hash_char h = true → (4 ≤ String.length h)%nat → (∀ u, t ≠ (u +:+ String dash "")%string) →
  t ≠ ""%string → ((4 ≤ String.length t)%nat → isRLDH t = false) →
  isRLDH (t +:+ String dash h)%string = false.
Proof.
  intros Hh Hl Hlast Hne Ht. destruct h as [|h0 [|h1 h]]; cbn [String.length] in Hl; try lia.
  cbn [string_forallb] in Hh. apply andb_true_iff in Hh as [Hh0 Hh]. apply andb_true_iff in Hh as [Hh1 Hh].
  rewrite isRLDH_spec. destruct t as [|a [|b [|c [|d t]]]]; rewrite ?app_String, ?app_Empty.
  - done.
  - by rewrite (hash_dash h0).
  - by rewrite (hash_dash h0), andb_false_r.
  - destruct (Ascii.eqb_spec c dash) as [->|]; [|done]. exfalso. apply (Hlast (String a (String b ""))).
    by rewrite !app_String, app_Empty.
  - specialize (Ht ltac:(cbn; lia)). by rewrite isRLDH_spec in Ht.
Qed.

Lemma fallback_valid name id : dnsLabel name = true → isHostLabel (fallback_label name id) = true.
Proof.
  intros (c & t & Et & Hc & Hall & Hlen & Hr)%stem_ok. destruct (label_hash_ok id) as [Hl Hf].
  unfold isHostLabel, fallback_label. rewrite app_length_string. cbn [String.length]. rewrite Hl.
  unfold fallbackStem, maxLabel, hashLen in *. rewrite !andb_true_iff, !Nat.leb_le. split; [split; [lia|]|].
  - rewrite negb_true_iff. apply fallback_not_RLDH; [done|lia| |by rewrite Et|done].
    intros u. unfold stem. apply TrimRight_last.
  - apply label_chars_fallback; [done..| |right; eauto]. intros E. by rewrite E in Hl.
Qed.


Definition ex_id : string := "0190b7a4-7f3c-7c1e-8a55-0a2b6f1d9e10".

