(* ===== verification/HostTable.v ===== *)
(** * The registry of default hosts (store/host_labels.go, store/env_environments.go, env/public.go)

    Every default host is a label in a zone.  The table of labels remembers
    the tenant that first claimed a label in its zone and the environment that
    holds it; an environment's row repeats the label it holds.  Publishing,
    choosing a label, moving a tenant to another zone and deleting change both.
    Each operation is one transaction; one that fails changes nothing.  Proved:
    no two environments have the same host, every environment's host is
    registered to it and its tenant, and a label stays its first tenant's. *)

From stdpp Require Import functions.
From S2P Require Import Prelude HostLabels.

(** ** The rows *)

Record LabelRow := MkLabelRow { lb_owner : string; lb_env : option string }.

Record Environment := MkEnvironment {
  en_ID : string; en_Owner : string; en_Name : string; en_Deleting : bool;
  en_Public : bool; en_IngressGroup : bool; en_HostLabel : string
}.

#[export] Instance eta_Environment : Eta Environment := λ e,
  MkEnvironment (en_ID e) (en_Owner e) (en_Name e) (en_Deleting e) (en_Public e) (en_IngressGroup e)
    (en_HostLabel e).

Record Tenant := MkTenant { tn_Zone : string; tn_Deleting : bool }.

#[export] Instance eta_Tenant : Eta Tenant := λ t, MkTenant (tn_Zone t) (tn_Deleting t).

(** The tables: labels by zone and label, environments by ID, tenants by
    name.  A NULL label or zone reads as the empty text. *)
Record Hosts := MkHosts {
  h_labels : gmap (string * string) LabelRow;
  h_envs : gmap string Environment;
  h_tenants : gmap string Tenant
}.

#[export] Instance eta_Hosts : Eta Hosts := λ s, MkHosts (h_labels s) (h_envs s) (h_tenants s).

Definition emptyHosts : Hosts := MkHosts ∅ ∅ ∅.

Inductive host_error : Type :=
| NoRow | Exists | HostLabelTaken | ClaimTaken | CheckViolation | UniqueViolation
| Conflict | BadRequest | NoEnvironment | Unauthorized.

(** An error of a check, as a step of a transaction. *)
Definition refuse (e : option host_error) : result host_error unit :=
  match e with Some err => Err err | None => Ok tt end.

(** ** Labels (store/host_labels.go) *)

(** The label an environment holds, if any. *)
Definition held_label (id : string) (s : Hosts) : option string :=
  snd ∘ fst <$> head (filter (λ x, lb_env x.2 = Some id) (map_to_list (h_labels s))).

Definition set_label (zone label : string) (e : Environment) (s : Hosts) : Hosts :=
  s <| h_labels ::= insert (zone, label) (MkLabelRow (en_Owner e) (Some (en_ID e))) |>.

(** [takeHostLabel]: the table with the label registered to the environment,
    or nothing when it is not to be had; the table's constraints refuse a text
    that is no host label and a second label of one environment. *)
Definition takeHostLabel (zone label : string) (e : Environment) (s : Hosts) : result host_error (option Hosts) :=
  if negb (isHostLabel label) then Err CheckViolation else
  let take := if bool_decide (held_label (en_ID e) s = None) then Ok (Some (set_label zone label e s))
              else Err UniqueViolation in
  match h_labels s !! (zone, label) with
  | None => take
  | Some r => if String.eqb (lb_owner r) (en_Owner e) && bool_decide (lb_env r = None) then take else Ok None
  end.

(** [claimDefaultLabel]. *)
Definition claimDefaultLabel (e : Environment) (zone : string) (s : Hosts) : result host_error (string * Hosts) :=
  let '(natural, ok, fallback) := HostLabels (en_Name e) (en_Owner e) (en_ID e) in
  let take_fallback :=
    match takeHostLabel zone fallback e s with
    | Ok (Some s') => Ok (fallback, s')
    | Ok None => Err ClaimTaken
    | Err err => Err err
    end in
  if ok then
    match takeHostLabel zone natural e s with
    | Ok (Some s') => Ok (natural, s')
    | Ok None => take_fallback
    | Err err => Err err
    end
  else take_fallback.

Definition tenantZone (tenant : string) (s : Hosts) : option string := tn_Zone <$> h_tenants s !! tenant.

Definition ClaimHostLabel (e : Environment) (s : Hosts) : result host_error (string * Hosts) :=
  match held_label (en_ID e) s with
  | Some label => Ok (label, s)
  | None =>
      match tenantZone (en_Owner e) s with
      | Some zone => claimDefaultLabel e zone s
      | None => Err NoRow
      end
  end.

Definition HostLabelOwner (zone label : string) (s : Hosts) : option string :=
  lb_owner <$> h_labels s !! (zone, label).

(** The label an environment holds is released; it stays its tenant's. *)
Definition release_labels (id : string) (s : Hosts) : Hosts :=
  s <| h_labels ::= fmap (λ r, if decide (lb_env r = Some id) then MkLabelRow (lb_owner r) None else r) |>.

Definition write_label (id label : string) (s : Hosts) : Hosts :=
  s <| h_envs ::= alter (λ e, e <| en_HostLabel := label |>) id |>.

(** [SetEnvironmentHostLabel], with [writeHostLabel]. *)
Definition SetEnvironmentHostLabel (e : Environment) (label : string) (s : Hosts) : result host_error Hosts :=
  if String.eqb (en_HostLabel e) label then Ok s else
  match tenantZone (en_Owner e) s with
  | None => Err NoRow
  | Some zone =>
      match takeHostLabel zone label e (release_labels (en_ID e) s) with
      | Err err => Err err
      | Ok None => Err HostLabelTaken
      | Ok (Some s') => Ok (write_label (en_ID e) label s')
      end
  end.

Record ZoneMove := MkZoneMove { zm_EnvID : string; zm_Name : string; zm_From : string; zm_To : string }.

(** One environment of [SetTenantZone]'s loop. *)
Definition move_env (zone : string) (plainOK : bool) (e : Environment) (s : Hosts)
    : result host_error (ZoneMove * Hosts) :=
  let s := release_labels (en_ID e) s in
  let label := en_HostLabel e in
  let '(natural, ok, fallback) := HostLabels (en_Name e) (en_Owner e) (en_ID e) in
  let own := String.eqb label fallback || ok && String.eqb label natural in
  let default_label :=
    match claimDefaultLabel e zone s with
    | Ok (label', s') =>
        Ok (MkZoneMove (en_ID e) (en_Name e) label label',
            if String.eqb label' label then s' else write_label (en_ID e) label' s')
    | Err err => Err err
    end in
  if own || ChosenHostLabel label || plainOK && PlainHostLabel label then
    match takeHostLabel zone label e s with
    | Err err => Err err
    | Ok (Some s') => Ok (MkZoneMove (en_ID e) (en_Name e) label label, s')
    | Ok None => default_label
    end
  else default_label.

Fixpoint move_envs (zone : string) (plainOK : bool) (es : list Environment) (s : Hosts)
    : result host_error (list ZoneMove * Hosts) :=
  match es with
  | [] => Ok ([], s)
  | e :: es' =>
      match move_env zone plainOK e s with
      | Err err => Err err
      | Ok (m, s') =>
          match move_envs zone plainOK es' s' with
          | Ok (ms, s'') => Ok (m :: ms, s'')
          | Err err => Err err
          end
      end
  end.

Definition name_leb (a b : Environment) : bool := String.leb (en_Name a) (en_Name b).

(** The tenant's environments that hold a label, by name. *)
Definition labelled (tenant : string) (s : Hosts) : list Environment :=
  sort_by name_leb (filter (λ e, en_Owner e = tenant ∧ en_HostLabel e ≠ ""%string) (map_to_list (h_envs s)).*2).

Definition SetTenantZone (tenant zone : string) (plainOK : bool) (s : Hosts) : result host_error (list ZoneMove * Hosts) :=
  match h_tenants s !! tenant with
  | None => Err NoRow
  | Some t =>
      if String.eqb (tn_Zone t) zone then Ok ([], s)
      else move_envs zone plainOK (labelled tenant s)
             (s <| h_tenants ::= insert tenant (t <| tn_Zone := zone |>) |>)
  end.

(** ** Environments and tenants (store/env_environments.go, store/tenants.go) *)

Definition InsertEnvironment (id owner name : string) (s : Hosts) : result host_error Hosts :=
  if bool_decide (is_Some (h_envs s !! id)) ||
     existsb (λ x, String.eqb (en_Owner x.2) owner && String.eqb (en_Name x.2) name) (map_to_list (h_envs s))
  then Err Exists
  else if bool_decide (h_tenants s !! owner = None) then Err NoRow
  else Ok (s <| h_envs ::= insert id (MkEnvironment id owner name false false false "") |>).

(** [SetEnvironmentPublic]. *)
Definition SetEnvironmentPublic (id : string) (public : bool) (s : Hosts) : result host_error Hosts :=
  match h_envs s !! id with
  | None => Err NoRow
  | Some e =>
      if bool_decide (en_Public e = public) then Ok s else
      let write label s :=
        s <| h_envs ::= alter (λ e,
               e <| en_Public := public |> <| en_IngressGroup ::= orb public |>
                 <| en_HostLabel ::= λ l, if String.eqb l "" then label else l |>) id |> in
      if public && String.eqb (en_HostLabel e) "" then
        match ClaimHostLabel e s with
        | Ok (label, s') => Ok (write label s')
        | Err err => Err err
        end
      else Ok (write (en_HostLabel e) s)
  end.

(** [DeleteEnvironment]: its label's row loses it. *)
Definition DeleteEnvironment (id : string) (s : Hosts) : Hosts :=
  release_labels id (s <| h_envs ::= delete id |>).

(** [UpdateEnvironment]'s part in this state: the row's deleting flag. *)
Definition set_deleting (id : string) (deleting : bool) (s : Hosts) : Hosts :=
  s <| h_envs ::= alter (λ e, e <| en_Deleting := deleting |>) id |>.

Definition MarkTenantEnvironmentsDeleting (owner : string) (s : Hosts) : Hosts :=
  s <| h_envs ::= fmap (λ e, if String.eqb (en_Owner e) owner then e <| en_Deleting := true |> else e) |>.

Definition MarkTenantDeleting (id : string) (s : Hosts) : Hosts :=
  s <| h_tenants ::= alter (λ t, t <| tn_Deleting := true |>) id |>.

(** [MakeTenant]: an existing tenant stays as it is. *)
Definition MakeTenant (id zone : string) (s : Hosts) : Hosts :=
  match h_tenants s !! id with
  | Some _ => s
  | None => s <| h_tenants ::= insert id (MkTenant zone false) |>
  end.

(** [DeleteTenantIfEmpty], where [sandboxes] says whether the tenant has some. *)
Definition DeleteTenantIfEmpty (id : string) (sandboxes : bool) (s : Hosts) : Hosts :=
  if sandboxes || existsb (λ x, String.eqb (en_Owner x.2) id) (map_to_list (h_envs s)) then s
  else s <| h_tenants ::= delete id |>.

(** ** Publishing (env/public.go) *)

Section service.
Context (zones : Zones) (uuid_Parse : string → option string).

Definition parseUUID (s : string) : option string :=
  if (String.length s =? 36)%nat then uuid_Parse s else None.

(** [resolveEnv]: the environment of the tenant that [ref] names, by its ID
    or its name. *)
Definition resolveEnv (tenant ref : string) (s : Hosts) : result host_error Environment :=
  let found :=
    match parseUUID ref with
    | Some id => h_envs s !! id
    | None =>
        if dnsLabel ref
        then head (filter (λ e, en_Owner e = tenant ∧ en_Name e = ref) (map_to_list (h_envs s)).*2)
        else None
    end in
  match found with
  | Some e => if String.eqb (en_Owner e) tenant then Ok e else Err NoEnvironment
  | None => Err NoEnvironment
  end.

Definition lockTenant (tenant : string) (s : Hosts) : result host_error Tenant :=
  match h_tenants s !! tenant with
  | None => Err Unauthorized
  | Some t => if tn_Deleting t then Err Conflict else Ok t
  end.

Definition checkZone (t : Tenant) (tenant : string) (public plain : bool) : option host_error :=
  if public && String.eqb (zone_Of zones (tn_Zone t)) "" then Some Conflict
  else if plain && negb (PlainLabels zones tenant (tn_Zone t)) then Some BadRequest
  else None.

(** [checkPlainLabel]: a plain label that reads as an existing tenant's
    natural one is refused, unless it is the tenant's already. *)
Definition checkPlainLabel (tenant label : string) (s : Hosts) : option host_error :=
  let '(_, other, ok) := NaturalPair label in
  if negb ok then None
  else if bool_decide (HostLabelOwner "" label s = Some tenant) then None
  else if bool_decide (h_tenants s !! other = None) then None
  else Some Conflict.

(** The transaction of [SetPublic], on the request's checked texts. *)
Definition publish (tenant env : string) (public plain : bool) (hostLabel : string) (s : Hosts)
    : result host_error Hosts :=
  t ← lockTenant tenant s;
  _ ← refuse (checkZone t tenant public plain);
  before ← resolveEnv tenant env s;
  _ ← refuse (if en_Deleting before then Some Conflict else None);
  _ ← refuse (if plain then checkPlainLabel tenant hostLabel s else None);
  s' ← (if String.eqb hostLabel "" then Ok s
        else match SetEnvironmentHostLabel before hostLabel s with
             | Err HostLabelTaken => Err Conflict
             | r => r
             end);
  match SetEnvironmentPublic (en_ID before) public s' with
  | Err NoRow => Err NoEnvironment
  | r => r
  end.

Definition SetPublic (tenant env : string) (public : bool) (hostLabel : string) (s : Hosts) : result host_error Hosts :=
  let chosen := negb (String.eqb hostLabel "") in
  if public && String.eqb (z_Apps zones) "" then Err Conflict
  else if chosen && negb public then Err BadRequest
  else
    let plain := chosen && existsb (String.eqb tenant) (z_AppsOwners zones) && PlainHostLabel hostLabel in
    if chosen && negb plain && negb (ChosenHostLabel hostLabel) then Err BadRequest
    else publish tenant env public plain hostLabel s.

(** The operator's move of a tenant (api/admin.go), once its zone is read. *)
Definition setTenantZone (tenant zone : string) (s : Hosts) : result host_error Hosts :=
  match h_tenants s !! tenant with
  | None => Err NoRow
  | Some t =>
      if tn_Deleting t then Err Conflict
      else match SetTenantZone tenant zone (PlainLabels zones tenant zone) s with
      | Ok (_, s') => Ok s'
      | Err err => Err err
      end
  end.

(** ** Operations *)

Inductive host_op : Type :=
| OpMakeTenant (id zone : string)
| OpTenantDeleting (id : string)
| OpDeleteTenant (id : string) (sandboxes : bool)
| OpInsert (id owner name : string)
| OpDeleting (id : string) (deleting : bool)
| OpAllDeleting (owner : string)
| OpDelete (id : string)
| OpPublic (tenant env : string) (public : bool) (hostLabel : string)
| OpZone (tenant zone : string).

(** A transaction that fails is rolled back. *)
Definition in_tx (r : result host_error Hosts) (s : Hosts) : Hosts := match r with Ok s' => s' | Err _ => s end.

Definition host_step (s : Hosts) (op : host_op) : Hosts :=
  match op with
  | OpMakeTenant id zone => MakeTenant id zone s
  | OpTenantDeleting id => MarkTenantDeleting id s
  | OpDeleteTenant id sandboxes => DeleteTenantIfEmpty id sandboxes s
  | OpInsert id owner name => in_tx (InsertEnvironment id owner name s) s
  | OpDeleting id deleting => set_deleting id deleting s
  | OpAllDeleting owner => MarkTenantEnvironmentsDeleting owner s
  | OpDelete id => DeleteEnvironment id s
  | OpPublic tenant env public hostLabel => in_tx (SetPublic tenant env public hostLabel s) s
  | OpZone tenant zone => in_tx (setTenantZone tenant zone s) s
  end.

Definition host_run (ops : list host_op) : Hosts := foldl host_step emptyHosts ops.
End service.

(** ** The invariant *)

(** [hosted Z s]: with the zones [Z] of the environments' IDs, each
    environment's label is registered to it and its tenant, each registered
    environment has that label, and a public environment has one. *)
Record hosted (Z : string → string) (s : Hosts) : Prop := {
  h_id : ∀ id e, h_envs s !! id = Some e → en_ID e = id;
  h_row : ∀ id e, h_envs s !! id = Some e → en_HostLabel e ≠ ""%string →
    h_labels s !! (Z id, en_HostLabel e) = Some (MkLabelRow (en_Owner e) (Some id));
  h_held : ∀ k r id, h_labels s !! k = Some r → lb_env r = Some id →
    ∃ e, h_envs s !! id = Some e ∧ k = (Z id, en_HostLabel e);
  h_text : ∀ k r, h_labels s !! k = Some r → isHostLabel k.2 = true;
  h_public : ∀ id e, h_envs s !! id = Some e → en_Public e = true → en_HostLabel e ≠ ""%string;
  h_tenant : ∀ id e, h_envs s !! id = Some e → is_Some (h_tenants s !! en_Owner e)
}.

(** The same while the environment [i] holds no row of the table. *)
Record hosted_but (i : string) (Z : string → string) (s : Hosts) : Prop := {
  b_id : ∀ id e, h_envs s !! id = Some e → en_ID e = id;
  b_row : ∀ id e, h_envs s !! id = Some e → id ≠ i → en_HostLabel e ≠ ""%string →
    h_labels s !! (Z id, en_HostLabel e) = Some (MkLabelRow (en_Owner e) (Some id));
  b_held : ∀ k r id, h_labels s !! k = Some r → lb_env r = Some id →
    id ≠ i ∧ ∃ e, h_envs s !! id = Some e ∧ k = (Z id, en_HostLabel e);
  b_text : ∀ k r, h_labels s !! k = Some r → isHostLabel k.2 = true;
  b_public : ∀ id e, h_envs s !! id = Some e → en_Public e = true → en_HostLabel e ≠ ""%string;
  b_tenant : ∀ id e, h_envs s !! id = Some e → is_Some (h_tenants s !! en_Owner e)
}.

(** A label's tenant is kept. *)
Definition owners_kept (s s' : Hosts) : Prop :=
  ∀ zone label o, HostLabelOwner zone label s = Some o → HostLabelOwner zone label s' = Some o.

#[export] Instance owners_kept_po : PreOrder owners_kept.
Proof. split; unfold owners_kept; repeat intro; eauto. Qed.

Lemma owners_kept_labels s s' : h_labels s' = h_labels s → owners_kept s s'.
Proof. intros E zone label o. unfold HostLabelOwner. by rewrite E. Qed.

Lemma release_owners id s : owners_kept s (release_labels id s).
Proof.
  intros zone label o. unfold HostLabelOwner. cbn. rewrite lookup_fmap.
  destruct (h_labels s !! (zone, label)) as [r|]; cbn; [|done]. by case_decide.
Qed.

Lemma empty_no_label : isHostLabel "" = false.
Proof. reflexivity. Qed.

(** ** Taking a label *)

Lemma held_label_None id s :
  held_label id s = None ↔ ∀ k r, h_labels s !! k = Some r → lb_env r ≠ Some id.
Proof.
  unfold held_label. rewrite !fmap_None, head_None. split.
  - intros E k r Hk Hr. assert (Hin : (k, r) ∈ filter (λ x, lb_env x.2 = Some id) (map_to_list (h_labels s))).
    { apply list_elem_of_filter. split; [done|]. by apply elem_of_map_to_list. }
    rewrite E in Hin. by apply elem_of_nil in Hin.
  - intros Hf. destruct (filter _ _) as [|[k r] l] eqn:E; [done|].
    assert (Hin : (k, r) ∈ filter (λ x, lb_env x.2 = Some id) (map_to_list (h_labels s)))
      by (rewrite E; constructor).
    apply list_elem_of_filter in Hin as [Hr Hk%elem_of_map_to_list]. by destruct (Hf _ _ Hk).
Qed.

(** What a label that was taken was before. *)
Lemma takeHostLabel_Some zone label e s s' :
  takeHostLabel zone label e s = Ok (Some s') →
  isHostLabel label = true ∧ s' = set_label zone label e s
  ∧ (∀ r, h_labels s !! (zone, label) = Some r → lb_owner r = en_Owner e ∧ lb_env r = None).
Proof.
  unfold takeHostLabel. destruct (isHostLabel label); [|done]. cbn. intros H. split; [done|].
  destruct (h_labels s !! (zone, label)) as [r|].
  - destruct (String.eqb_spec (lb_owner r) (en_Owner e)) as [Ho|]; [|done].
    case_bool_decide as Hn; [|done]. cbn in H. case_bool_decide; [|done].
    split; [congruence|]. by intros ? [= <-].
  - case_bool_decide; [|done]. split; [congruence|done].
Qed.

Lemma take_owners zone label e s s' : takeHostLabel zone label e s = Ok (Some s') → owners_kept s s'.
Proof.
  intros (_ & -> & Hr)%takeHostLabel_Some z l o. unfold HostLabelOwner. cbn.
  destruct (decide ((z, l) = (zone, label))) as [[= -> ->]|Hne]; [|by rewrite lookup_insert_ne].
  rewrite lookup_insert_eq. destruct (h_labels s !! (zone, label)) as [r|]; [|done].
  destruct (Hr r eq_refl) as [Ho _]. cbn. congruence.
Qed.

(** Its label released, an environment holds none. *)
Lemma hosted_release id Z s : hosted Z s → hosted_but id Z (release_labels id s).
Proof.
  intros [Hid Hrow Hheld Htext Hpub Hten]. split; cbn; try done.
  - intros i e Hi Hne Hl. rewrite lookup_fmap, (Hrow _ _ Hi Hl). cbn.
    by rewrite decide_False by congruence.
  - intros k r i Hk Hr. rewrite lookup_fmap in Hk. apply fmap_Some in Hk as (r0 & Hk & ->).
    destruct (decide (lb_env r0 = Some id)); [done|]. split; [congruence|]. eauto.
  - intros k r Hk. rewrite lookup_fmap in Hk. apply fmap_Some in Hk as (r0 & Hk & _). eauto.
Qed.

(** An environment without a label holds none. *)
Lemma hosted_unlabelled id e Z s :
  hosted Z s → h_envs s !! id = Some e → en_HostLabel e = ""%string → hosted_but id Z s.
Proof.
  intros [Hid Hrow Hheld Htext Hpub Hten] He Hl. split; try done.
  - eauto.
  - intros k r i Hk Hr. split; [|eauto]. intros ->. destruct (Hheld _ _ _ Hk Hr) as (e' & He' & ->).
    apply Htext in Hk. cbn in Hk. simplify_eq. by rewrite Hl in Hk.
Qed.

Lemma hosted_but_none id Z s : hosted_but id Z s → held_label id s = None.
Proof. intros H. apply held_label_None. intros k r Hk Hr. by destruct (b_held _ _ _ H _ _ _ Hk Hr). Qed.

(** A label taken and written is the environment's host, in the zone it was
    taken in. *)
Lemma take_write id e zone label Z s s' :
  hosted_but id Z s → h_envs s !! id = Some e → takeHostLabel zone label e s = Ok (Some s') →
  hosted (<[id := zone]> Z) (write_label id label s').
Proof.
  intros H He (Hl & -> & Hfree)%takeHostLabel_Some. pose proof (b_id _ _ _ H _ _ He) as Hid.
  assert (Hlne : label ≠ ""%string) by (intros ->; done). unfold write_label, set_label.
  split; cbn.
  - intros i e' Hi. destruct (decide (i = id)) as [->|Hne].
    + rewrite lookup_alter_eq, He in Hi. by injection Hi as <-.
    + rewrite lookup_alter_ne in Hi by done. by eapply b_id.
  - intros i e' Hi Hne'. destruct (decide (i = id)) as [->|Hne].
    + rewrite lookup_alter_eq, He in Hi. injection Hi as <-. cbn.
      rewrite fn_lookup_insert, lookup_insert_eq. by rewrite Hid.
    + rewrite lookup_alter_ne in Hi by done. rewrite fn_lookup_insert_ne by done.
      pose proof (b_row _ _ _ H _ _ Hi Hne Hne') as Hrow. rewrite lookup_insert_ne; [done|].
      intros E. rewrite <- E in Hrow. by destruct (Hfree _ Hrow).
  - intros k r i Hk Hr. destruct (decide (k = (zone, label))) as [->|Hne].
    + rewrite lookup_insert_eq in Hk. injection Hk as <-. cbn in Hr. injection Hr as <-.
      rewrite Hid, lookup_alter_eq, He, fn_lookup_insert. eexists. split; [done|]. done.
    + rewrite lookup_insert_ne in Hk by done. destruct (b_held _ _ _ H _ _ _ Hk Hr) as [Hi He'].
      rewrite lookup_alter_ne, fn_lookup_insert_ne by done. done.
  - intros k r Hk. destruct (decide (k = (zone, label))) as [->|Hne]; [done|].
    rewrite lookup_insert_ne in Hk by done. by eapply b_text.
  - intros i e' Hi Hp. destruct (decide (i = id)) as [->|Hne].
    + rewrite lookup_alter_eq, He in Hi. by injection Hi as <-.
    + rewrite lookup_alter_ne in Hi by done. by eapply b_public.
  - intros i e' Hi. destruct (decide (i = id)) as [->|Hne].
    + rewrite lookup_alter_eq, He in Hi. injection Hi as <-. cbn. by eapply b_tenant.
    + rewrite lookup_alter_ne in Hi by done. by eapply b_tenant.
Qed.

Lemma claimDefaultLabel_take e zone s label s' :
  claimDefaultLabel e zone s = Ok (label, s') → takeHostLabel zone label e s = Ok (Some s').
Proof.
  unfold claimDefaultLabel. destruct (HostLabels _ _ _) as [[natural ok] fallback].
  intros H. repeat case_match; simplify_eq; done.
Qed.

(** ** Frames *)

(** Zones matter only to environments with a label. *)
Lemma hosted_zones Z Z' s :
  hosted Z s → (∀ id e, h_envs s !! id = Some e → en_HostLabel e ≠ ""%string → Z' id = Z id) → hosted Z' s.
Proof.
  intros [Hid Hrow Hheld Htext Hpub Hten] HZ. split; try done.
  - intros id e He Hl. rewrite (HZ _ _ He Hl). auto.
  - intros k r id Hk Hr. destruct (Hheld _ _ _ Hk Hr) as (e & He & Ek). exists e. split; [done|].
    rewrite (HZ _ _ He); [done|]. intros Hl. apply Htext in Hk. by rewrite Ek, Hl in Hk.
Qed.

(** What a write to a row of an environment leaves alone. *)
Definition same_host (e e' : Environment) : Prop :=
  en_ID e' = en_ID e ∧ en_Owner e' = en_Owner e ∧ en_HostLabel e' = en_HostLabel e
  ∧ (en_Public e' = true → en_Public e = true ∨ en_HostLabel e ≠ ""%string).

Lemma hosted_same Z Z' s s' :
  hosted Z s → h_labels s' = h_labels s →
  (∀ id, option_Forall2 same_host (h_envs s !! id) (h_envs s' !! id)) →
  (∀ id e, h_envs s !! id = Some e → is_Some (h_tenants s' !! en_Owner e) ∧ Z' id = Z id) →
  hosted Z' s'.
Proof.
  intros [Hid Hrow Hheld Htext Hpub Hten] El Henvs Hten'.
  assert (Hback : ∀ id e', h_envs s' !! id = Some e' → ∃ e, h_envs s !! id = Some e ∧ same_host e e').
  { intros id e' He'. pose proof (Henvs id) as Hs. rewrite He' in Hs. inversion Hs. eauto. }
  split; rewrite ?El; try done.
  - intros id e' (e & He & E & _)%Hback. rewrite E. eauto.
  - intros id e' (e & He & _ & Eo & Eh & _)%Hback. rewrite Eo, Eh. intros Hl.
    destruct (Hten' _ _ He) as [_ ->]. auto.
  - intros k r id Hk Hr. destruct (Hheld _ _ _ Hk Hr) as (e & He & ->).
    pose proof (Henvs id) as Hs. rewrite He in Hs. inversion Hs as [? e' (_ & _ & Eh & _)|].
    exists e'. split; [done|]. destruct (Hten' _ _ He) as [_ ->]. by rewrite Eh.
  - intros id e' (e & He & _ & _ & Eh & Hp)%Hback. rewrite Eh. intros [?|?]%Hp; eauto.
  - intros id e' (e & He & _ & Eo & _)%Hback. rewrite Eo. by apply (Hten' id).
Qed.

Lemma same_host_refl e : same_host e e.
Proof. unfold same_host. auto. Qed.

Lemma option_same_host_refl (o : option Environment) : option_Forall2 same_host o o.
Proof. destruct o; constructor. apply same_host_refl. Qed.

Lemma alter_same f id e (envs : gmap string Environment) i :
  envs !! id = Some e → same_host e (f e) → option_Forall2 same_host (envs !! i) (alter f id envs !! i).
Proof.
  intros He Hf. destruct (decide (i = id)) as [->|Hne].
  - rewrite lookup_alter_eq, He. by constructor.
  - rewrite lookup_alter_ne by done. apply option_same_host_refl.
Qed.

(** ** The zones of a state *)

Definition env_zone (s : Hosts) (id : string) : string :=
  default "" (e ← h_envs s !! id; tenantZone (en_Owner e) s).

Lemma env_zone_eq s id e zone :
  h_envs s !! id = Some e → tenantZone (en_Owner e) s = Some zone → env_zone s id = zone.
Proof. intros He Hz. unfold env_zone. rewrite He. cbn. by rewrite Hz. Qed.

Definition inv (s : Hosts) : Prop := hosted (env_zone s) s.

(** What an operation does. *)
Definition keeps (s s' : Hosts) : Prop := inv s' ∧ owners_kept s s'.

Lemma keeps_refl s : inv s → keeps s s.
Proof. by split. Qed.

(** The zones are the same when the environments' owners and the tenants are. *)
Lemma env_zone_same s s' id :
  option_Forall2 same_host (h_envs s !! id) (h_envs s' !! id) → h_tenants s' = h_tenants s →
  env_zone s' id = env_zone s id.
Proof.
  intros Hs Et. unfold env_zone, tenantZone. rewrite Et. inversion Hs as [? ? (_ & Eo & _)|]; [|done].
  cbn. by rewrite Eo.
Qed.

Lemma inv_envs s s' :
  inv s → h_labels s' = h_labels s → h_tenants s' = h_tenants s →
  (∀ id, option_Forall2 same_host (h_envs s !! id) (h_envs s' !! id)) → inv s'.
Proof.
  intros Hi El Et Hs. apply (hosted_same (env_zone s) _ s); [done..|].
  intros id e He. rewrite Et. split; [by apply (h_tenant _ _ Hi id)|]. by apply env_zone_same.
Qed.

Lemma write_same id label s i :
  option_Forall2 (λ e e', en_ID e' = en_ID e ∧ en_Owner e' = en_Owner e) (h_envs s !! i)
    (h_envs (write_label id label s) !! i).
Proof.
  cbn. destruct (decide (i = id)) as [->|Hne]; [rewrite lookup_alter_eq|rewrite lookup_alter_ne by done];
    destruct (h_envs s !! _); by constructor.
Qed.

Lemma env_zone_write id label s i : env_zone (write_label id label s) i = env_zone s i.
Proof.
  unfold env_zone. destruct (write_same id label s i) as [e e' (_ & Eo)|]; [|done]. cbn. by rewrite Eo.
Qed.

Lemma take_frame zone label e s s' :
  takeHostLabel zone label e s = Ok (Some s') → h_envs s' = h_envs s ∧ h_tenants s' = h_tenants s.
Proof. by intros (_ & -> & _)%takeHostLabel_Some. Qed.

(** A label taken in the tenant's zone and written. *)
Lemma take_write_inv id e zone label s s' :
  hosted_but id (env_zone s) s → h_envs s !! id = Some e → tenantZone (en_Owner e) s = Some zone →
  takeHostLabel zone label e s = Ok (Some s') → inv (write_label id label s').
Proof.
  intros Hb He Hz Ht. destruct (take_frame _ _ _ _ _ Ht) as [Ee Et].
  pose proof (take_write _ _ _ _ _ _ _ Hb He Ht) as Hw. eapply hosted_zones; [exact Hw|].
  intros i e' _ _. rewrite env_zone_write. unfold env_zone, tenantZone. rewrite Ee, Et.
  destruct (decide (i = id)) as [->|Hne]; [rewrite fn_lookup_insert, He|by rewrite fn_lookup_insert_ne].
  cbn. unfold tenantZone in Hz. by rewrite Hz.
Qed.

(** ** The operations *)

Lemma SetEnvironmentHostLabel_keeps id e label s s' :
  inv s → h_envs s !! id = Some e → SetEnvironmentHostLabel e label s = Ok s' → keeps s s'.
Proof.
  intros Hi He. pose proof (h_id _ _ Hi _ _ He) as Hid. unfold SetEnvironmentHostLabel.
  case_match; [intros [= <-]; by apply keeps_refl|]. destruct (tenantZone _ s) as [zone|] eqn:Hz; [|done].
  destruct (takeHostLabel _ _ _ _) as [[s1|]|] eqn:Ht; [|done..]. intros [= <-]. rewrite Hid in *. split.
  - apply (take_write_inv id e zone label (release_labels id s)); [by apply hosted_release|done..].
  - transitivity (release_labels id s); [apply release_owners|].
    transitivity s1; [by eapply take_owners|by apply owners_kept_labels].
Qed.

Lemma ClaimHostLabel_take id e s label s' :
  inv s → h_envs s !! id = Some e → en_HostLabel e = ""%string → ClaimHostLabel e s = Ok (label, s') →
  ∃ zone, tenantZone (en_Owner e) s = Some zone ∧ takeHostLabel zone label e s = Ok (Some s').
Proof.
  intros Hi He Hl. unfold ClaimHostLabel. rewrite (h_id _ _ Hi _ _ He).
  rewrite (hosted_but_none id (env_zone s)) by by eapply hosted_unlabelled.
  destruct (tenantZone _ s) as [zone|]; [|done]. intros H%claimDefaultLabel_take. eauto.
Qed.

Lemma SetEnvironmentPublic_keeps id public s s' :
  inv s → SetEnvironmentPublic id public s = Ok s' → keeps s s'.
Proof.
  intros Hi. unfold SetEnvironmentPublic. destruct (h_envs s !! id) as [e|] eqn:He; [|done].
  case_bool_decide; [intros [= <-]; by apply keeps_refl|].
  destruct (public && String.eqb (en_HostLabel e) "") eqn:Hp.
  - apply andb_true_iff in Hp as [-> Hl%String.eqb_eq].
    destruct (ClaimHostLabel e s) as [[label s1]|] eqn:Hc; [|done]. intros [= <-].
    destruct (ClaimHostLabel_take _ _ _ _ _ Hi He Hl Hc) as (zone & Hz & Ht).
    assert (He1 : h_envs s1 !! id = Some e) by (by destruct (take_frame _ _ _ _ _ Ht) as [-> _]).
    split; [|transitivity s1; [by eapply take_owners|by apply owners_kept_labels]].
    apply (inv_envs (write_label id label s1)); [|done..|].
    + eapply take_write_inv; [by eapply hosted_unlabelled|done..].
    + intros i. cbn. destruct (decide (i = id)) as [->|Hne]; [rewrite !lookup_alter_eq, He1|].
      * constructor. unfold same_host. cbn. rewrite Hl. cbn. repeat split.
        intros _. right. intros ->. by apply takeHostLabel_Some in Ht as (? & _).
      * rewrite !lookup_alter_ne by done. apply option_same_host_refl.
  - intros [= <-]. split; [|by apply owners_kept_labels].
    apply (inv_envs s); [done..|]. intros i. cbn. apply (alter_same _ _ e); [done|].
    unfold same_host. cbn. split; [done|]. split; [done|].
    split; [by case_match eqn:E; [apply String.eqb_eq in E|]|].
    intros ->. right. cbn in Hp. by apply String.eqb_neq.
Qed.

(** What the move of an environment leaves alone. *)
Definition moved_frame (id : string) (s s' : Hosts) : Prop :=
  h_tenants s' = h_tenants s ∧ (∀ i, i ≠ id → h_envs s' !! i = h_envs s !! i)
  ∧ (∀ i, option_Forall2 (λ e e', en_ID e' = en_ID e ∧ en_Owner e' = en_Owner e) (h_envs s !! i) (h_envs s' !! i)).

Lemma take_write_frame id e zone label s s' :
  takeHostLabel zone label e (release_labels id s) = Ok (Some s') → moved_frame id s (write_label id label s').
Proof.
  intros Ht. destruct (take_frame _ _ _ _ _ Ht) as [Ee Et]. split; [exact Et|]. split.
  - intros i Hne. cbn. rewrite lookup_alter_ne by done. by rewrite Ee.
  - intros i. pose proof (write_same id label s' i) as Hw. by rewrite Ee in Hw.
Qed.

Lemma write_label_same id e label s :
  h_envs s !! id = Some e → en_HostLabel e = label → write_label id label s = s.
Proof.
  intros He Hl. destruct s as [labels envs tenants]. cbn in He.
  change (MkHosts labels (alter (λ e, e <| en_HostLabel := label |>) id envs) tenants = MkHosts labels envs tenants).
  f_equal. apply map_eq. intros i. destruct (decide (i = id)) as [->|Hne]; [|by rewrite lookup_alter_ne].
  rewrite lookup_alter_eq, He. cbn. destruct e. cbn in *. by subst.
Qed.

(** The move of an environment takes a label in the zone and writes it. *)
Lemma move_env_take zone plainOK e s m s' :
  h_envs s !! en_ID e = Some e → move_env zone plainOK e s = Ok (m, s') →
  ∃ label s1, takeHostLabel zone label e (release_labels (en_ID e) s) = Ok (Some s1)
    ∧ s' = write_label (en_ID e) label s1.
Proof.
  intros He. unfold move_env. destruct (HostLabels _ _ _) as [[natural ok] fallback].
  assert (Hkeep : ∀ label s1, takeHostLabel zone label e (release_labels (en_ID e) s) = Ok (Some s1) →
    en_HostLabel e = label → s1 = write_label (en_ID e) label s1).
  { intros label s1 Ht Hl. symmetry. apply (write_label_same _ e); [|done].
    destruct (take_frame _ _ _ _ _ Ht) as [-> _]. done. }
  assert (Hdef : ∀ r, match claimDefaultLabel e zone (release_labels (en_ID e) s) with
      | Ok (label', s1) => Ok (MkZoneMove (en_ID e) (en_Name e) (en_HostLabel e) label',
            if String.eqb label' (en_HostLabel e) then s1 else write_label (en_ID e) label' s1)
      | Err err => Err err end = (Ok r : result host_error _) →
    ∃ label s1, takeHostLabel zone label e (release_labels (en_ID e) s) = Ok (Some s1)
      ∧ r.2 = write_label (en_ID e) label s1).
  { intros r. destruct (claimDefaultLabel _ _ _) as [[label s1]|] eqn:Hc; [|done]. intros [= <-].
    apply claimDefaultLabel_take in Hc. exists label, s1. split; [done|]. cbn.
    destruct (String.eqb_spec label (en_HostLabel e)) as [->|]; [by apply Hkeep|done]. }
  destruct (_ || _); [|intros H; exact (Hdef _ H)].
  destruct (takeHostLabel _ (en_HostLabel e) _ _) as [[s1|]|] eqn:Ht; [|intros H; exact (Hdef _ H)|done].
  intros [= _ <-]. exists (en_HostLabel e), s1. split; [done|]. by apply Hkeep.
Qed.

Lemma move_env_hosted zone plainOK e Z s m s' :
  hosted Z s → h_envs s !! en_ID e = Some e → move_env zone plainOK e s = Ok (m, s') →
  hosted (<[en_ID e := zone]> Z) s' ∧ owners_kept s s' ∧ moved_frame (en_ID e) s s'.
Proof.
  intros H He (label & s1 & Ht & ->)%move_env_take; [|done]. split; [|split].
  - eapply take_write; [by apply hosted_release|done|done].
  - transitivity (release_labels (en_ID e) s); [apply release_owners|].
    transitivity s1; [by eapply take_owners|by apply owners_kept_labels].
  - by eapply take_write_frame.
Qed.

Lemma owners_frame_trans (o1 o2 o3 : option Environment) :
  let R := λ e e', en_ID e' = en_ID e ∧ en_Owner e' = en_Owner e in
  option_Forall2 R o1 o2 → option_Forall2 R o2 o3 → option_Forall2 R o1 o3.
Proof. intros R [e1 e2 [Ei Eo]|] H2; inversion H2 as [? e3 [Ei' Eo']|]; constructor. split; congruence. Qed.

(** The loop moves each environment of the list, and only those. *)
Lemma move_envs_hosted zone plainOK es : ∀ Z s ms s',
  hosted Z s → NoDup (en_ID <$> es) → Forall (λ e, h_envs s !! en_ID e = Some e) es →
  move_envs zone plainOK es s = Ok (ms, s') →
  ∃ Z', hosted Z' s' ∧ owners_kept s s' ∧ h_tenants s' = h_tenants s
    ∧ (∀ i, option_Forall2 (λ e e', en_ID e' = en_ID e ∧ en_Owner e' = en_Owner e) (h_envs s !! i) (h_envs s' !! i))
    ∧ (∀ i, i ∈ en_ID <$> es → Z' i = zone)
    ∧ (∀ i, i ∉ en_ID <$> es → Z' i = Z i ∧ h_envs s' !! i = h_envs s !! i).
Proof.
  induction es as [|e es IH]; intros Z s ms s' H Hnd Hes; cbn [move_envs].
  - intros [= _ <-]. exists Z. do 3 (split; [done|]). split; [|by split; [intros i ?%elem_of_nil|]].
    intros i. destruct (h_envs s !! i); by constructor.
  - apply Forall_cons in Hes as [He Hes]. rewrite fmap_cons in Hnd |- *.
    apply NoDup_cons in Hnd as [Hni Hnd].
    destruct (move_env _ _ _ _) as [[m s1]|] eqn:Hm; [|done].
    destruct (move_envs _ _ _ s1) as [[ms' s2]|] eqn:Hms; [|done]. intros [= _ <-].
    destruct (move_env_hosted _ _ _ _ _ _ _ H He Hm) as (H1 & Ho1 & Et1 & Hf1 & Hs1).
    assert (Hes1 : Forall (λ e, h_envs s1 !! en_ID e = Some e) es).
    { rewrite Forall_forall in Hes |- *. intros e' Hin. rewrite Hf1; [auto|].
      intros E. apply Hni. rewrite <- E. by apply list_elem_of_fmap_2. }
    destruct (IH _ _ _ _ H1 Hnd Hes1 Hms) as (Z' & H2 & Ho2 & Et2 & Hs2 & Hin2 & Hout2).
    exists Z'. split; [done|]. split; [by transitivity s1|]. split; [congruence|].
    split; [intros i; by eapply owners_frame_trans|]. split.
    + intros i. destruct (decide (i ∈ en_ID <$> es)) as [|Hn]; [auto|].
      intros [->|?]%elem_of_cons; [|done]. destruct (Hout2 _ Hn) as [-> _]. by rewrite fn_lookup_insert.
    + intros i [Hne Hn]%not_elem_of_cons. destruct (Hout2 _ Hn) as [-> ->].
      rewrite fn_lookup_insert_ne by done. by rewrite Hf1.
Qed.

Lemma elem_of_labelled tenant s e :
  e ∈ labelled tenant s ↔ (∃ id, h_envs s !! id = Some e) ∧ en_Owner e = tenant ∧ en_HostLabel e ≠ ""%string.
Proof.
  unfold labelled. rewrite sort_by_perm, list_elem_of_filter, list_elem_of_fmap. split.
  - intros (? & [id e'] & -> & ?%elem_of_map_to_list). eauto.
  - intros ([id ?] & ?). split; [done|]. exists (id, e). by rewrite elem_of_map_to_list.
Qed.

Lemma labelled_ids tenant Z s : hosted Z s → NoDup (en_ID <$> labelled tenant s).
Proof.
  intros H. unfold labelled. rewrite sort_by_perm.
  assert (E : en_ID <$> (map_to_list (h_envs s)).*2 = (map_to_list (h_envs s)).*1).
  { rewrite <- list_fmap_compose. apply list_fmap_ext. intros i [k e] Hk%list_elem_of_lookup_2.
    apply elem_of_map_to_list in Hk. by apply (h_id _ _ H). }
  eapply (sublist_NoDup _ (en_ID <$> (map_to_list (h_envs s)).*2)); [rewrite E; apply NoDup_fst_map_to_list|]. apply fmap_sublist, sublist_filter.
Qed.

Lemma SetTenantZone_keeps tenant zone plainOK s ms s' :
  inv s → SetTenantZone tenant zone plainOK s = Ok (ms, s') → keeps s s'.
Proof.
  intros Hi. unfold SetTenantZone. destruct (h_tenants s !! tenant) as [t|] eqn:Ht; [|done].
  case_match; [intros [= _ <-]; by apply keeps_refl|].
  set (s0 := s <| h_tenants ::= insert tenant (t <| tn_Zone := zone |>) |>). intros Hm.
  assert (H0 : hosted (env_zone s) s0).
  { apply (hosted_same (env_zone s) _ s); [done..|intros i; apply option_same_host_refl|].
    intros id e He. split; [|done]. cbn. apply lookup_insert_is_Some'. right. by apply (h_tenant _ _ Hi id). }
  assert (Hes : Forall (λ e, h_envs s0 !! en_ID e = Some e) (labelled tenant s)).
  { apply Forall_forall. intros e [[id He] _]%elem_of_labelled. cbn. by rewrite (h_id _ _ Hi _ _ He). }
  destruct (move_envs_hosted _ _ _ _ _ _ _ H0 (labelled_ids tenant _ _ Hi) Hes Hm)
    as (Z' & H1 & Ho & Et & Hs & Hin & Hout).
  split; [|exact Ho]. eapply hosted_zones; [exact H1|]. intros id e' He' Hl. symmetry.
  pose proof (Hs id) as Hsi. rewrite He' in Hsi. inversion Hsi as [e ? [_ Eo] He|].
  unfold env_zone at 1. rewrite He'. cbn. unfold tenantZone. rewrite Et, Eo. cbn.
  destruct (decide (id ∈ en_ID <$> labelled tenant s)) as [Hid|Hid].
  - rewrite Hin by done. apply list_elem_of_fmap in Hid as (e0 & -> & [[i0 He0] [<- _]]%elem_of_labelled).
    rewrite (h_id _ _ Hi _ _ He0) in *. cbn in He. rewrite He0 in He. injection He as <-.
    by rewrite lookup_insert_eq.
  - destruct (Hout _ Hid) as [-> Ee]. rewrite He' in Ee. cbn in Ee, He. rewrite <- Ee in He. injection He as ->.
    rewrite lookup_insert_ne; [symmetry; unfold env_zone; by rewrite <- Ee|].
    intros ->. apply Hid. rewrite <- (h_id _ _ Hi id e') by done. apply list_elem_of_fmap_2.
    apply elem_of_labelled. eauto.
Qed.

Lemma InsertEnvironment_keeps id owner name s s' :
  inv s → InsertEnvironment id owner name s = Ok s' → keeps s s'.
Proof.
  intros Hi. unfold InsertEnvironment. destruct (_ || _) eqn:E; [done|].
  apply orb_false_iff in E as [Hn%bool_decide_eq_false _].
  case_bool_decide as Ht; [done|]. intros [= <-]. split; [|by apply owners_kept_labels].
  rewrite <- eq_None_not_Some in Hn.
  destruct Hi as [Hid Hrow Hheld Htext Hpub Hten].
  assert (Hz : ∀ i, i ≠ id → env_zone (s <| h_envs ::= insert id (MkEnvironment id owner name false false false "") |>) i
    = env_zone s i) by (intros i Hne; unfold env_zone; cbn; by rewrite lookup_insert_ne).
  unfold inv. split; [| | |done| |]; cbn -[env_zone];
    try (intros i e Hi'; destruct (decide (i = id)) as [->|Hne];
      [rewrite lookup_insert_eq in Hi'; injection Hi' as <-|rewrite lookup_insert_ne in Hi' by done];
      cbn -[env_zone]; rewrite ?Hz by done; eauto; try done).
  - intros k r i Hk Hr. destruct (Hheld _ _ _ Hk Hr) as (e & He & ->).
    assert (i ≠ id) by congruence. rewrite Hz, lookup_insert_ne by done. eauto.
  - by apply not_eq_None_Some.
Qed.

Lemma DeleteEnvironment_keeps id s : inv s → keeps s (DeleteEnvironment id s).
Proof.
  intros Hi. split.
  - apply (hosted_release id) in Hi. destruct Hi as [Hid Hrow Hheld Htext Hpub Hten].
    assert (Hz : ∀ i, i ≠ id → env_zone (DeleteEnvironment id s) i = env_zone s i)
      by (intros i Hne; unfold env_zone; cbn; by rewrite lookup_delete_ne).
    unfold inv, DeleteEnvironment. split; [| | |exact Htext| |]; cbn -[env_zone] in *;
      try (intros i e [Hne Hi']%lookup_delete_Some; rewrite ?Hz by done; eauto).
    intros k r i Hk Hr. destruct (Hheld _ _ _ Hk Hr) as (Hne & e & He & ->).
    rewrite Hz, lookup_delete_ne by done. eauto.
  - exact (release_owners id s).
Qed.

(** The tenants change and the zones of the environments' tenants do not. *)
Lemma inv_tenants f s :
  inv s →
  (∀ o, (∃ id e, h_envs s !! id = Some e ∧ en_Owner e = o) →
    is_Some (h_tenants s !! o) → tn_Zone <$> f (h_tenants s) !! o = tn_Zone <$> h_tenants s !! o) →
  keeps s (s <| h_tenants ::= f |>).
Proof.
  intros Hi Hf. split; [|by apply owners_kept_labels].
  apply (hosted_same (env_zone s) _ s); [done..|intros i; apply option_same_host_refl|].
  intros id e He. assert (Hz := Hf (en_Owner e)). destruct (h_tenant _ _ Hi _ _ He) as [t Ht].
  rewrite Ht in Hz. cbn in Hz. split.
  - cbn. destruct (f (h_tenants s) !! en_Owner e); [done|]. by discriminate Hz; eauto.
  - unfold env_zone, tenantZone. cbn. rewrite He. cbn. rewrite Hz, Ht by eauto. done.
Qed.

Lemma MakeTenant_keeps id zone s : inv s → keeps s (MakeTenant id zone s).
Proof.
  intros Hi. unfold MakeTenant. destruct (h_tenants s !! id) eqn:E; [by apply keeps_refl|].
  apply inv_tenants; [done|]. intros o _ [t Ht]. by rewrite lookup_insert_ne by congruence.
Qed.

Lemma MarkTenantDeleting_keeps id s : inv s → keeps s (MarkTenantDeleting id s).
Proof.
  intros Hi. apply inv_tenants; [done|]. intros o _ [t Ht].
  destruct (decide (o = id)) as [->|Hne]; [by rewrite lookup_alter_eq, Ht|by rewrite lookup_alter_ne].
Qed.

Lemma DeleteTenantIfEmpty_keeps id sandboxes s : inv s → keeps s (DeleteTenantIfEmpty id sandboxes s).
Proof.
  intros Hi. unfold DeleteTenantIfEmpty. destruct (_ || _) eqn:E; [by apply keeps_refl|].
  apply orb_false_iff in E as [_ E]. apply inv_tenants; [done|]. intros o (i & e & He & Ho) _.
  rewrite lookup_delete_ne; [done|]. intros ->. rewrite <- not_true_iff_false, existsb_exists in E.
  apply E. exists (i, e). cbn. rewrite Ho, String.eqb_refl. split; [|done].
  apply list_elem_of_In. by apply elem_of_map_to_list.
Qed.

Lemma set_deleting_keeps id deleting s : inv s → keeps s (set_deleting id deleting s).
Proof.
  intros Hi. split; [|by apply owners_kept_labels]. apply (inv_envs s); [done..|]. intros i. cbn.
  destruct (decide (i = id)) as [->|Hne]; [rewrite lookup_alter_eq|rewrite lookup_alter_ne by done];
    destruct (h_envs s !! _); constructor; unfold same_host; cbn; auto.
Qed.

Lemma MarkTenantEnvironmentsDeleting_keeps owner s : inv s → keeps s (MarkTenantEnvironmentsDeleting owner s).
Proof.
  intros Hi. split; [|by apply owners_kept_labels]. apply (inv_envs s); [done..|]. intros i. cbn.
  rewrite lookup_fmap. destruct (h_envs s !! i); constructor. unfold same_host.
  case_match; cbn; auto.
Qed.

Lemma resolveEnv_row uuid_Parse tenant ref s e :
  inv s → resolveEnv uuid_Parse tenant ref s = Ok e → h_envs s !! en_ID e = Some e ∧ en_Owner e = tenant.
Proof.
  intros Hi. unfold resolveEnv.
  set (found := match parseUUID _ _ with Some _ => _ | None => _ end).
  assert (Hf : ∀ x, found = Some x → h_envs s !! en_ID x = Some x).
  { subst found. intros x. destruct (parseUUID _ _) as [id|].
    - intros Hx. by rewrite (h_id _ _ Hi _ _ Hx).
    - destruct (dnsLabel ref); [|done]. intros (l & Hl)%head_Some.
      assert (Hin : x ∈ filter (λ e, en_Owner e = tenant ∧ en_Name e = ref) (map_to_list (h_envs s)).*2)
        by (rewrite Hl; constructor).
      apply list_elem_of_filter in Hin as [_ ([id x'] & -> & Hx%elem_of_map_to_list)%list_elem_of_fmap].
      cbn. by rewrite (h_id _ _ Hi _ _ Hx). }
  destruct found as [x|]; [|done]. case_match eqn:Eo; [|done]. intros [= <-].
  apply String.eqb_eq in Eo. auto.
Qed.

Lemma publish_keeps zones uuid_Parse tenant env public plain hostLabel s s' :
  inv s → publish zones uuid_Parse tenant env public plain hostLabel s = Ok s' → keeps s s'.
Proof.
  intros Hi. unfold publish. intros (t & _ & H)%bind_Ok. apply bind_Ok in H as (_ & _ & H).
  apply bind_Ok in H as (before & [Hb _]%resolveEnv_row & H); [|done].
  apply bind_Ok in H as (_ & _ & H). apply bind_Ok in H as (_ & _ & H).
  apply bind_Ok in H as (s1 & H1 & H2).
  assert (K1 : keeps s s1).
  { destruct (String.eqb hostLabel ""); [injection H1 as <-; by apply keeps_refl|].
    destruct (SetEnvironmentHostLabel before hostLabel s) as [s2|err] eqn:E; [|by destruct err].
    injection H1 as <-. by eapply SetEnvironmentHostLabel_keeps. }
  destruct K1 as [Hi1 Ho1].
  destruct (SetEnvironmentPublic _ _ s1) as [s2|err] eqn:E; [|by destruct err]. injection H2 as <-.
  apply SetEnvironmentPublic_keeps in E as [Hi2 Ho2]; [|done]. split; [done|by transitivity s1].
Qed.

Lemma host_step_keeps zones uuid_Parse s op : inv s → keeps s (host_step zones uuid_Parse s op).
Proof.
  intros Hi. destruct op; cbn.
  - by apply MakeTenant_keeps.
  - by apply MarkTenantDeleting_keeps.
  - by apply DeleteTenantIfEmpty_keeps.
  - destruct (InsertEnvironment _ _ _ s) eqn:E; [by eapply InsertEnvironment_keeps|by apply keeps_refl].
  - by apply set_deleting_keeps.
  - by apply MarkTenantEnvironmentsDeleting_keeps.
  - by apply DeleteEnvironment_keeps.
  - unfold SetPublic. repeat (case_match; [by apply keeps_refl|]).
    destruct (publish _ _ _ _ _ _ _ s) eqn:E; [by eapply publish_keeps|by apply keeps_refl].
  - unfold setTenantZone. destruct (h_tenants s !! tenant) as [t|]; [|by apply keeps_refl].
    destruct (tn_Deleting t); [by apply keeps_refl|].
    destruct (SetTenantZone _ _ _ s) as [[ms s']|] eqn:E; [by eapply SetTenantZone_keeps|by apply keeps_refl].
Qed.

Lemma inv_empty : inv emptyHosts.
Proof. split; cbn; intros; simplify_map_eq. Qed.

Lemma steps_keep zones uuid_Parse ops : ∀ s, inv s → keeps s (foldl (host_step zones uuid_Parse) s ops).
Proof.
  induction ops as [|op ops IH]; intros s Hi; [by apply keeps_refl|]. cbn.
  destruct (host_step_keeps zones uuid_Parse s op Hi) as [Hi1 Ho1].
  destruct (IH _ Hi1) as [Hi2 Ho2]. split; [done|]. by etransitivity.
Qed.

(** ** Properties *)

(** C16: After any operations, two environments never have the same default
    host, that is the same label in the same zone; every label an environment
    has is registered to its tenant in its zone, a public environment has one,
    and a label registered to a tenant stays that tenant's, whatever is
    published, moved or deleted afterwards. *)
Theorem hosts_unique zones uuid_Parse ops :
  let s := host_run zones uuid_Parse ops in
  (∀ id1 id2 e1 e2, h_envs s !! id1 = Some e1 → h_envs s !! id2 = Some e2 →
     en_HostLabel e1 ≠ ""%string → en_HostLabel e1 = en_HostLabel e2 →
     tenantZone (en_Owner e1) s = tenantZone (en_Owner e2) s → id1 = id2)
  ∧ (∀ id e, h_envs s !! id = Some e →
     (en_Public e = true → en_HostLabel e ≠ ""%string)
     ∧ (en_HostLabel e ≠ ""%string → ∃ zone, tenantZone (en_Owner e) s = Some zone
         ∧ isHostLabel (en_HostLabel e) = true
         ∧ HostLabelOwner zone (en_HostLabel e) s = Some (en_Owner e)))
  ∧ (∀ more zone label o, HostLabelOwner zone label s = Some o →
     HostLabelOwner zone label (host_run zones uuid_Parse (ops ++ more)) = Some o).
Proof.
  intros s. destruct (steps_keep zones uuid_Parse ops _ inv_empty) as [Hi _]. fold (host_run zones uuid_Parse ops) in Hi.
  change (host_run _ _ _) with s in Hi. split; [|split].
  - intros id1 id2 e1 e2 H1 H2 Hne El Ez.
    pose proof (h_row _ _ Hi _ _ H1 Hne) as R1. rewrite El in Hne, R1. pose proof (h_row _ _ Hi _ _ H2 Hne) as R2.
    unfold env_zone in R1, R2. rewrite H1 in R1. rewrite H2 in R2. cbn in R1, R2. rewrite Ez in R1. congruence.
  - intros id e He. split; [exact (h_public _ _ Hi id e He)|]. intros Hl.
    destruct (h_tenant _ _ Hi _ _ He) as [t Ht].
    assert (Hz : tenantZone (en_Owner e) s = Some (tn_Zone t)) by (unfold tenantZone; by rewrite Ht).
    exists (tn_Zone t). split; [done|]. pose proof (h_row _ _ Hi _ _ He Hl) as R.
    rewrite (env_zone_eq _ _ _ _ He Hz) in R. split; [by apply (h_text _ _ Hi) in R|].
    unfold HostLabelOwner. by rewrite R.
  - intros more zone label o Ho. unfold host_run. rewrite foldl_app.
    by apply (steps_keep zones uuid_Parse more _ Hi).
Qed.

(** An environment published under its natural label, and then its tenant
    moved to another zone: the old label stays the tenant's. *)
Definition ex_zones : Zones := MkZones "apps.example" ["acme"%string] "t.example".

Definition ex_published : list host_op :=
  [OpMakeTenant "acme" ""; OpInsert "1" "acme" "web"; OpPublic "acme" "web" true ""].

Lemma hosts_unique_witness :
  let s := host_run ex_zones (λ _, None) ex_published in
  en_HostLabel <$> h_envs s !! "1"%string = Some "web-acme"%string
  ∧ HostLabelOwner "" "web-acme" (host_run ex_zones (λ _, None) (ex_published ++ [OpZone "acme" "t.example"; OpDelete "1"]))
    = Some "acme"%string.
Proof.
  split; [vm_compute; reflexivity|].
  apply (hosts_unique ex_zones (λ _, None) ex_published). vm_compute. reflexivity.
Defined.
