(* ===== verification/PodId.v ===== *)
(** * A pod's ID: go/internal/podid/podid.go

    The ID of a pod, which is its sandbox's: 11 characters of lowercase
    Crockford base32 that begin with a letter, or a legacy UUID in its
    lowercase hyphenated form.  [Mint] draws, [Parse] and [Valid] read,
    [TAP] names the pod's network device and [TAPConflict] says which pods
    cannot share a node.  The theorems: what [Parse] accepts is exactly what
    is [Valid] after lowercasing a UUID, [Mint] always gives a valid short
    ID and draws each character uniformly, device names fit IFNAMSIZ and
    collide exactly when [TAPConflict] says so. *)

From S2P Require Import Prelude.

Definition ID : Type := string.

Definition Len : nat := 11.
Definition LegacyLen : nat := 36.

Definition Alphabet : string := "0123456789abcdefghjkmnpqrstvwxyz".
Definition letters : string := "abcdefghjkmnpqrstvwxyz".

(** The byte of [s] at index [i]; the source never indexes past the end. *)
Definition byte_at (s : string) (i : Z) : Ascii.ascii :=
  match String.get (Z.to_nat i) s with Some c => c | None => "000"%char end.

(** The characters that the 11 random bytes [b] of a draw stand for:
    [letters[b[0] % 22]], then [Alphabet[b[i] & 31]]. *)
Definition letter_of (b0 : Z) : Ascii.ascii :=
  byte_at letters (b0 mod Z.of_nat (String.length letters)).

Definition char_of (b : Z) : Ascii.ascii := byte_at Alphabet (Z.land b 31).

(** [Mint] over the random source as the sequence of its draws of [Len]
    bytes: the first whose first byte is below 242 gives the ID.  [None]:
    every draw given was refused, and the loop draws again. *)
Fixpoint Mint (draws : list (list Z)) : option ID :=
  match draws with
  | [] => None
  | b :: more =>
      match b with
      | b0 :: rest =>
          if b0 <? 242
          then Some (String (letter_of b0) (String.string_of_list_ascii (char_of <$> rest)))
          else Mint more
      | [] => Mint more
      end
  end.

Definition validShort (s : string) : bool :=
  match s with
  | String c rest =>
      (String.length s =? Len)%nat && string_in c letters
        && string_forallb (λ d, string_in d Alphabet) rest
  | EmptyString => false
  end.

Definition is_dash_index (i : nat) : bool :=
  match i with 8%nat | 13%nat | 18%nat | 23%nat => true | _ => false end.

Definition is_lower_hex (c : Ascii.ascii) : bool :=
  let z := byteZ c in
  ((48 <=? z) && (z <=? 57)) || ((97 <=? z) && (z <=? 102)).

Fixpoint uuid_bytes (i : nat) (s : string) : bool :=
  match s with
  | EmptyString => true
  | String c s' =>
      (if is_dash_index i then Ascii.eqb c "-" else is_lower_hex c) && uuid_bytes (S i) s'
  end.

Definition validUUID (s : string) : bool :=
  (String.length s =? LegacyLen)%nat && uuid_bytes 0 s.

(** [strings.ToLower] on bytes: a string with a byte above 127 is refused by
    [validUUID] whatever its letters lower to, so only the ASCII letters
    matter here. *)
Definition lower_byte (c : Ascii.ascii) : Ascii.ascii :=
  let z := byteZ c in
  if (65 <=? z) && (z <=? 90) then Ascii.ascii_of_N (Z.to_N (z + 32)) else c.

Fixpoint ToLower (s : string) : string :=
  match s with
  | EmptyString => EmptyString
  | String c s' => String (lower_byte c) (ToLower s')
  end.

(** [ErrInvalid], wrapped with the value. *)
Inductive parse_error : Type := ErrInvalid (value : string).

Definition Parse (s : string) : result parse_error ID :=
  if (String.length s =? Len)%nat && validShort s then Ok s
  else if (String.length s =? LegacyLen)%nat && validUUID (ToLower s) then Ok (ToLower s)
  else Err (ErrInvalid s).

Definition Valid (s : string) : bool :=
  if (String.length s =? Len)%nat then validShort s
  else if (String.length s =? LegacyLen)%nat then validUUID s
  else false.

Definition IsZeroID (id : ID) : bool := String.eqb id "".

Definition IsLegacy (id : ID) : bool := (String.length id =? LegacyLen)%nat.

Definition TAPKey (id : ID) : string :=
  if IsLegacy id then String.substring 0 8 id else id.

Definition TAP (id : ID) : string := ("pod-" +:+ TAPKey id)%string.

Definition TAPConflict (a b : ID) : bool :=
  negb (String.eqb a b) && IsLegacy a && IsLegacy b
    && String.eqb (String.substring 0 8 a) (String.substring 0 8 b).

Definition MarshalText (id : ID) : string := id.

Definition UnmarshalText (b : string) : result parse_error ID :=
  if (String.length b =? 0)%nat then Ok ""%string else Parse b.

(** ** Lemmas *)

Lemma lower_byte_idemp c : lower_byte (lower_byte c) = lower_byte c.
Proof. destruct c as [[] [] [] [] [] [] [] []]; vm_compute; reflexivity. Qed.

Lemma lower_hex_fixed c : is_lower_hex c = true → lower_byte c = c.
Proof. destruct c as [[] [] [] [] [] [] [] []]; vm_compute; congruence. Qed.

Lemma ToLower_idemp s : ToLower (ToLower s) = ToLower s.
Proof. induction s as [|c s IH]; simpl; [done|]. by rewrite lower_byte_idemp, IH. Qed.

Lemma ToLower_length s : String.length (ToLower s) = String.length s.
Proof. induction s as [|c s IH]; simpl; congruence. Qed.

Lemma uuid_bytes_lower i s : uuid_bytes i s = true → ToLower s = s.
Proof.
  revert i. induction s as [|c s IH]; intros i; simpl; [done|].
  intros [Hc Hs]%andb_true_iff. rewrite (IH _ Hs). f_equal.
  destruct (is_dash_index i); [|by apply lower_hex_fixed].
  apply Ascii.eqb_eq in Hc as ->. reflexivity.
Qed.

Lemma validUUID_lower s : validUUID s = true → ToLower s = s.
Proof. intros [_ H]%andb_true_iff. eapply uuid_bytes_lower, H. Qed.

Lemma validShort_length s : validShort s = true → String.length s = Len.
Proof.
  destruct s as [|c s]; [done|].
  intros [[H _]%andb_true_iff _]%andb_true_iff. by apply Nat.eqb_eq in H.
Qed.

Lemma validUUID_length s : validUUID s = true → String.length s = LegacyLen.
Proof. intros [H _]%andb_true_iff. by apply Nat.eqb_eq in H. Qed.

Lemma Valid_cases s :
  Valid s = true ↔ validShort s = true ∨ validUUID s = true.
Proof.
  unfold Valid. split.
  - destruct (_ =? Len)%nat; [by left|]. destruct (_ =? LegacyLen)%nat; [by right|done].
  - intros [H|H].
    + by rewrite (validShort_length _ H).
    + rewrite (validUUID_length _ H). by vm_compute (_ =? _)%nat.
Qed.

Lemma string_in_byte_at s i :
  0 ≤ i < Z.of_nat (String.length s) → string_in (byte_at s i) s = true.
Proof.
  revert i. induction s as [|c s IH]; intros i Hi; simpl in *; [lia|].
  unfold byte_at. destruct (Z.to_nat i) as [|k] eqn:Ek; simpl.
  - by rewrite Ascii.eqb_refl.
  - apply orb_true_iff. right.
    specialize (IH (Z.of_nat k) ltac:(lia)). unfold byte_at in IH.
    by rewrite Nat2Z.id in IH.
Qed.

Lemma letter_of_letter b : string_in (letter_of b) letters = true.
Proof.
  apply string_in_byte_at. change (String.length letters) with 22%nat.
  pose proof (Z.mod_pos_bound b 22 ltac:(lia)). lia.
Qed.

Lemma char_of_alphabet b : string_in (char_of b) Alphabet = true.
Proof.
  apply string_in_byte_at. change (String.length Alphabet) with 32%nat.
  change 31 with (Z.ones 5). rewrite Z.land_ones by lia.
  pose proof (Z.mod_pos_bound b (2 ^ 5) ltac:(lia)). lia.
Qed.

Lemma length_string_of_list l : String.length (String.string_of_list_ascii l) = length l.
Proof. induction l; simpl; congruence. Qed.

Lemma alphabet_chars l :
  string_forallb (λ d, string_in d Alphabet) (String.string_of_list_ascii (char_of <$> l)) = true.
Proof.
  induction l as [|b l IH]; [done|].
  change (string_in (char_of b) Alphabet
    && string_forallb (λ d, string_in d Alphabet) (String.string_of_list_ascii (char_of <$> l))
    = true).
  by rewrite char_of_alphabet.
Qed.

Lemma TAPKey_length id : Valid id = true →
  String.length (TAPKey id) = if IsLegacy id then 8%nat else 11%nat.
Proof.
  intros [H|H]%Valid_cases.
  - apply validShort_length in H. unfold TAPKey, IsLegacy. by rewrite H.
  - apply validUUID_length in H. unfold TAPKey, IsLegacy. rewrite H.
    change (LegacyLen =? LegacyLen)%nat with true. cbv iota.
    do 8 (destruct id as [|? id]; [discriminate|]). simpl. by destruct id.
Qed.

(** The bytes of [0 .. n-1] that [f] takes to [c]. *)
Definition preimages (f : Z → Ascii.ascii) (n : nat) (c : Ascii.ascii) : nat :=
  length (filter (λ b, f b = c) (seqZ 0 (Z.of_nat n))).

Definition uniform_over (f : Z → Ascii.ascii) (n : nat) (cs : string) (k : nat) : bool :=
  string_forallb (λ c, (preimages f n c =? k)%nat) cs.

(** ** Properties *)

(** What [Parse] returns is [Valid], parses to itself and is the string
    or its lowercase form; what it refuses is not [Valid], nor a UUID in
    another case: the IDs that went through [Parse] are exactly the canonical
    ones, and no ID is refused. *)
Theorem parse_canonical (s : string) :
  match Parse s with
  | Ok id => Valid id = true ∧ Parse id = Ok id ∧ (id = s ∨ id = ToLower s)
  | Err _ => Valid s = false ∧ validUUID (ToLower s) = false
  end.
Proof.
  unfold Parse. destruct ((_ =? Len)%nat && validShort s) eqn:E1.
  - rewrite E1. apply andb_true_iff in E1 as [_ E1].
    repeat split; [|by left]. apply Valid_cases. by left.
  - destruct ((_ =? LegacyLen)%nat && _) eqn:E2.
    + apply andb_true_iff in E2 as [_ E2]. rewrite ToLower_idemp, E2, (validUUID_length _ E2).
      split; [apply Valid_cases; by right|]. split; [reflexivity|by right].
    + assert (Hu : validUUID (ToLower s) = false).
      { apply not_true_is_false. intros H. pose proof (validUUID_length _ H) as Hl.
        rewrite ToLower_length in Hl. by rewrite Hl, H in E2. }
      split; [|done]. apply not_true_is_false. intros [H|H]%Valid_cases.
      * by rewrite (validShort_length _ H), H in E1.
      * by rewrite (validUUID_lower _ H), H in Hu.
Qed.

(** [Mint] ends with a valid short ID as soon as one of its draws has a
    first byte below 242, and its draws are uniform: each letter has 11 of
    the 242 first bytes that are accepted, each character of the alphabet 8
    of the 256 values of any other byte. *)
Theorem mint_uniform_valid (draws : list (list Z)) :
  Forall (λ b, length b = Len) draws →
  Exists (λ b, ∃ b0, head b = Some b0 ∧ b0 < 242) draws →
  (∃ id, Mint draws = Some id ∧ Valid id = true ∧ IsLegacy id = false)
  ∧ uniform_over letter_of 242 letters 11 = true
  ∧ uniform_over char_of 256 Alphabet 8 = true.
Proof.
  intros Hlen Hex. split; [|split; vm_compute; reflexivity].
  induction Hlen as [|b draws Hb Hlen IH]; [by apply Exists_nil in Hex|].
  destruct b as [|b0 rest]; [done|]. cbn [Mint].
  destruct (Z.ltb_spec b0 242) as [Hlt|Hge].
  - eexists. split; [reflexivity|].
    assert (Hv : validShort (String (letter_of b0)
      (String.string_of_list_ascii (char_of <$> rest))) = true).
    { unfold validShort. rewrite letter_of_letter, alphabet_chars.
      cbn [String.length]. rewrite length_string_of_list, length_fmap.
      simpl in Hb. by injection Hb as ->. }
    split; [apply Valid_cases; by left|].
    unfold IsLegacy. by rewrite (validShort_length _ Hv).
  - apply IH. apply Exists_cons in Hex as [(x & [= <-] & Hx)|Hex]; [lia|done].
Qed.

Lemma mint_uniform_valid_witness :
  (∃ id, Mint [[250;0;0;0;0;0;0;0;0;0;0]; [23;1;2;3;4;5;6;7;8;9;255]] = Some id
     ∧ Valid id = true ∧ IsLegacy id = false)
  ∧ uniform_over letter_of 242 letters 11 = true
  ∧ uniform_over char_of 256 Alphabet 8 = true.
Proof.
  apply mint_uniform_valid.
  - repeat constructor.
  - right. left. exists 23. split; [reflexivity|lia].
Defined.

(** C37: The TAP device of a valid ID has a name of at most 15 characters
    (IFNAMSIZ), and two different pods' devices have the same name exactly
    when [TAPConflict] says so. *)
Theorem tap_conflict_iff_same_device (a b : ID) :
  Valid a = true → Valid b = true →
  (String.length (TAP a) ≤ 15)%nat
  ∧ (TAPConflict a b = true ↔ a ≠ b ∧ TAP a = TAP b).
Proof.
  intros Ha Hb. pose proof (TAPKey_length a Ha) as La. pose proof (TAPKey_length b Hb) as Lb.
  split.
  { change (String.length (TAP a)) with (4 + String.length (TAPKey a))%nat. rewrite La. destruct (IsLegacy a); lia. }
  assert (HT : TAP a = TAP b ↔ TAPKey a = TAPKey b).
  { unfold TAP. simpl. split; [by intros [= ?]|by intros ->]. }
  rewrite HT. unfold TAPConflict.
  destruct (String.eqb_spec a b) as [->|Hab]; simpl; [naive_solver|].
  destruct (IsLegacy a) eqn:Ea, (IsLegacy b) eqn:Eb; simpl.
  - unfold TAPKey. rewrite Ea, Eb. rewrite String.eqb_eq. naive_solver.
  - split; [done|]. intros [_ H]. rewrite H in La. rewrite La in Lb. done.
  - split; [done|]. intros [_ H]. rewrite H in La. rewrite La in Lb. done.
  - unfold TAPKey. rewrite Ea, Eb. naive_solver.
Qed.

Lemma tap_conflict_witness :
  (String.length (TAP "123e4567-e89b-12d3-a456-426614174000") ≤ 15)%nat
  ∧ (TAPConflict "123e4567-e89b-12d3-a456-426614174000" "123e4567-0000-12d3-a456-426614174000" = true
     ↔ "123e4567-e89b-12d3-a456-426614174000" ≠ "123e4567-0000-12d3-a456-426614174000"
       ∧ TAP "123e4567-e89b-12d3-a456-426614174000" = TAP "123e4567-0000-12d3-a456-426614174000").
Proof. apply tap_conflict_iff_same_device; vm_compute; reflexivity. Defined.
