(* ===== verification/Rows.v ===== *)
(** * The registry's rows

    The Go types of the tables the sandbox engine works on
    (go/internal/store, go/internal/model): a sandbox, a node, its
    telemetry, a booking, a tombstone, a hold and an instance, field by
    field, and the predicates on a row that need nothing else.  A NULL text
    is the empty string and a NULL time the zero time, as the scan functions
    of the store make them. *)

From Stdlib Require Export SpecFloat.
From S2P Require Import Prelude PodId.

Definition UUID : Type := N.
Definition uuidNil : UUID := 0%N.

(** ** Enumerations *)

(** [model.State*], the client states of a sandbox. *)
Inductive ClientState : Type :=
| StatePending | StateCreating | StateRunning | StatePausing | StatePaused
| StateResuming | StateHibernating | StateHibernated | StateStopped
| StateFailed | StateUnknown | StateLost.

#[export] Instance ClientState_eq_dec : EqDecision ClientState.
Proof. solve_decision. Defined.

Definition state_string (s : ClientState) : string :=
  match s with
  | StatePending => "pending" | StateCreating => "creating" | StateRunning => "running"
  | StatePausing => "pausing" | StatePaused => "paused" | StateResuming => "resuming"
  | StateHibernating => "hibernating" | StateHibernated => "hibernated"
  | StateStopped => "stopped" | StateFailed => "failed" | StateUnknown => "unknown"
  | StateLost => "lost"
  end.

(** [sandbox.OpKind], the lifecycle ops; the column [op] is [None] for the
    empty text. *)
Inductive OpKind : Type :=
| OpCreate | OpStart | OpResume | OpRestore | OpPause | OpHibernate | OpRepair.

#[export] Instance OpKind_eq_dec : EqDecision OpKind.
Proof. solve_decision. Defined.

Definition op_string (k : OpKind) : string :=
  match k with
  | OpCreate => "create" | OpStart => "start" | OpResume => "resume" | OpRestore => "restore"
  | OpPause => "pause" | OpHibernate => "hibernate" | OpRepair => "repair"
  end.

(** [sandbox.OpTrigger]; [TriggerNone] is the empty trigger. *)
Inductive OpTrigger : Type :=
| TriggerNone | TriggerEnsure | TriggerExplicit | TriggerIdle | TriggerHibernateAfter
| TriggerDrain | TriggerDrainForced | TriggerRepair | TriggerRestart.

#[export] Instance OpTrigger_eq_dec : EqDecision OpTrigger.
Proof. solve_decision. Defined.

(** [model.Node*], the statuses of a node. *)
Inductive NodeStatus : Type := NodeJoined | NodeReady | NodeDown | NodeRemoved.

#[export] Instance NodeStatus_eq_dec : EqDecision NodeStatus.
Proof. solve_decision. Defined.

Definition status_string (s : NodeStatus) : string :=
  match s with
  | NodeJoined => "joined" | NodeReady => "ready" | NodeDown => "down" | NodeRemoved => "removed"
  end.

(** [model.HoldKind]. *)
Inductive HoldKind : Type := HoldExec | HoldForward | HoldProcess.

#[export] Instance HoldKind_eq_dec : EqDecision HoldKind.
Proof. solve_decision. Defined.

#[export] Program Instance HoldKind_countable : Countable HoldKind :=
  inj_countable' (λ k, match k with HoldExec => 0%N | HoldForward => 1%N | HoldProcess => 2%N end)
    (λ n, if decide (n = 0%N) then HoldExec else if decide (n = 1%N) then HoldForward
          else HoldProcess) _.
Next Obligation. by intros []. Qed.

Definition hold_string (k : HoldKind) : string :=
  match k with HoldExec => "exec" | HoldForward => "forward" | HoldProcess => "process" end.

(** [store.PolicyIdle] and [store.PolicyHibernateAfter]; [None] is the empty
    column. *)
Inductive Policy : Type := PolicyIdle | PolicyHibernateAfter.

#[export] Instance Policy_eq_dec : EqDecision Policy.
Proof. solve_decision. Defined.

(** ** The pod template (model.PodTemplate) *)

Record TemplatePart := {
  tp_Value : string; tp_Secret : string; tp_Version : Z; tp_Escape : string; tp_Credential : string
}.

Record TemplateValue := {
  tv_Value : string; tv_Secret : string; tv_Version : Z; tv_Escape : string;
  tv_Parts : option (list TemplatePart)
}.

Record TemplateVolume := { vol_Name : string; vol_VolumeID : UUID }.

Record TemplateMount := { mnt_Volume : string; mnt_Path : string; mnt_ReadOnly : bool }.

Record TemplateCredentials := { tc_Username : TemplateValue; tc_Password : TemplateValue }.

Record TemplateHTTPBinding := { hb_Name : string; hb_Upstream : string; hb_Mode : string }.

Record PodTemplate := {
  pt_Command : list string;
  pt_Env : gmap string TemplateValue;
  pt_Volumes : list TemplateVolume;
  pt_Mounts : list TemplateMount;
  pt_SecurityGroups : list string;
  pt_NameTables : list string;
  pt_Labels : gmap string string;
  pt_IngressGroup : bool;
  pt_ImageCredentials : option TemplateCredentials;
  pt_HTTPBindings : list TemplateHTTPBinding
}.

#[export] Instance TemplatePart_eq_dec : EqDecision TemplatePart.
Proof. solve_decision. Defined.
#[export] Instance TemplateValue_eq_dec : EqDecision TemplateValue.
Proof. solve_decision. Defined.
#[export] Instance TemplateVolume_eq_dec : EqDecision TemplateVolume.
Proof. solve_decision. Defined.
#[export] Instance TemplateMount_eq_dec : EqDecision TemplateMount.
Proof. solve_decision. Defined.
#[export] Instance TemplateCredentials_eq_dec : EqDecision TemplateCredentials.
Proof. solve_decision. Defined.
#[export] Instance TemplateHTTPBinding_eq_dec : EqDecision TemplateHTTPBinding.
Proof. solve_decision. Defined.
#[export] Instance PodTemplate_eq_dec : EqDecision PodTemplate.
Proof. solve_decision. Defined.

(** ** A sandbox (store.Sandbox) *)

Record Sandbox := MkSandbox {
  sb_ID : ID;
  sb_Incarnation : UUID;
  sb_Owner : string;
  sb_Image : string;
  sb_ImageRef : string;
  sb_VCPUs : Z;
  sb_MemoryMiB : Z;
  sb_ClientState : ClientState;
  sb_StatusDescription : string;
  sb_Node : string;
  sb_Materialised : bool;
  sb_LostFrom : string;
  sb_AvoidNodes : list string;
  sb_Op : option OpKind;
  sb_OpID : UUID;
  sb_OpOwner : string;
  sb_OpDeadline : Time;
  sb_OpTarget : string;
  sb_OpFromState : option ClientState;
  sb_Gen : Z;
  sb_CheckpointEpoch : Z;
  sb_CheckpointHead : string;
  sb_CheckpointMemory : bool;
  sb_CheckpointAt : Time;
  sb_CheckpointStore : string;
  sb_PendingSince : Time;
  sb_UnreachableSince : Time;
  sb_RunID : string;
  sb_KubeVersion : string;
  sb_SSHVersion : string;
  sb_HTTPVersion : string;
  sb_HTTPPushed : string;
  sb_CreatedAt : Time;
  sb_UpdatedAt : Time;
  sb_LastActiveAt : Time;
  sb_PausedAt : Time;
  sb_PolicyFailed : option Policy;
  sb_PolicyFailures : Z;
  sb_PolicyNotBefore : Time;
  sb_EnvironmentID : UUID;
  sb_PodTemplate : option PodTemplate;
  sb_PinNode : string;
  sb_IdleAfterS : option Z;
  sb_Address : string;
  sb_TenantJob : bool;
  sb_LogLabels : gmap string string
}.

#[export] Instance eta_Sandbox : Eta Sandbox := λ r,
  MkSandbox (sb_ID r) (sb_Incarnation r) (sb_Owner r) (sb_Image r) (sb_ImageRef r) (sb_VCPUs r)
    (sb_MemoryMiB r) (sb_ClientState r) (sb_StatusDescription r) (sb_Node r) (sb_Materialised r)
    (sb_LostFrom r) (sb_AvoidNodes r) (sb_Op r) (sb_OpID r) (sb_OpOwner r) (sb_OpDeadline r)
    (sb_OpTarget r) (sb_OpFromState r) (sb_Gen r) (sb_CheckpointEpoch r) (sb_CheckpointHead r)
    (sb_CheckpointMemory r) (sb_CheckpointAt r) (sb_CheckpointStore r) (sb_PendingSince r)
    (sb_UnreachableSince r) (sb_RunID r) (sb_KubeVersion r) (sb_SSHVersion r) (sb_HTTPVersion r)
    (sb_HTTPPushed r) (sb_CreatedAt r) (sb_UpdatedAt r) (sb_LastActiveAt r) (sb_PausedAt r)
    (sb_PolicyFailed r) (sb_PolicyFailures r) (sb_PolicyNotBefore r) (sb_EnvironmentID r)
    (sb_PodTemplate r) (sb_PinNode r) (sb_IdleAfterS r) (sb_Address r) (sb_TenantJob r)
    (sb_LogLabels r).

Definition IsInstance (s : Sandbox) : bool :=
  negb (bool_decide (sb_EnvironmentID s = uuidNil)) || sb_TenantJob s.

Definition HasGroups (s : Sandbox) : bool :=
  match sb_PodTemplate s with
  | None => false
  | Some t => (0 <? length (pt_SecurityGroups t))%nat
  end.

Definition HasCheckpoint (s : Sandbox) : bool := negb (String.eqb (sb_CheckpointHead s) "").

Definition hasVolumes (s : Sandbox) : bool :=
  match sb_PodTemplate s with
  | None => false
  | Some t => (0 <? length (pt_Volumes t))%nat
  end.

(** ** Floating point

    Go's [float64] as IEEE 754 binary64, by the specification of
    [SpecFloat]: 53 bits of precision, exponents below 1024, rounding to
    nearest even. *)

Definition float64 : Type := spec_float.
Definition float64_of (z : Z) : float64 := binary_normalize 53 1024 z 0 false.
Definition fmul (a b : float64) : float64 := SFmul 53 1024 a b.
Definition fdiv (a b : float64) : float64 := SFdiv 53 1024 a b.
Definition fltb (a b : float64) : bool := SFltb a b.
Definition feqb (a b : float64) : bool := SFeqb a b.

(** The builtin [min] of two floats: a NaN when one is a NaN. *)
Definition fmin (a b : float64) : float64 :=
  match a, b with
  | S754_nan, _ => S754_nan
  | _, S754_nan => S754_nan
  | _, _ => if SFltb b a then b else a
  end.

(** [int64(math.Floor(f))]; a value outside the range converts to the least
    integer, as on amd64. *)
Definition floor_int64 (f : float64) : Z :=
  let z := match f with
    | S754_zero _ => 0
    | S754_finite s m e =>
        let v := if s then Zneg m else Zpos m in
        if 0 <=? e then v * 2 ^ e else v / 2 ^ (- e)
    | _ => int64_min - 1
    end in
  if (int64_min <=? z) && (z <=? int64_max) then z else int64_min.

(** ** A node (store.Node) *)

Record Node := MkNode {
  n_Name : string;
  n_Status : NodeStatus;
  n_StatusDescription : string;
  n_DownSince : Time;
  n_RemovedAt : Time;
  n_Draining : bool;
  n_DrainStartedAt : Time;
  n_Slots : Z;
  n_MemHeadroomBytes : Z;
  n_CPUOvercommit : float64;
  n_Hostname : string;
  n_Arch : string;
  n_CPUModel : string;
  n_CPUCores : Z;
  n_MemoryTotalBytes : Z;
  n_DiskTotalBytes : Z;
  n_Versions : string;
  n_ObjectStore : bool;
  n_ObjectStoreID : string;
  n_PodPrefix : string;
  n_StartID : UUID;
  n_StoppingUntil : Time;
  n_CurrentSerial : string;
  n_IdentityForkedAt : Time;
  n_JoinedAt : Time;
  n_ReconciledAt : Time;
  n_ReconcileRequestedAt : Time;
  n_MeshSubnet : Z;
  n_MeshPrefix : string;
  n_MeshPublicKey : list Z;
  n_MeshEndpoint : string;
  n_IngressGroupVersion : Z
}.

Definition Forked (n : Node) : bool := negb (IsZero (n_IdentityForkedAt n)).

Definition VCPUCapacity (n : Node) : Z :=
  floor_int64 (fmul (float64_of (n_CPUCores n)) (n_CPUOvercommit n)).

Definition MemoryCapacityMiB (n : Node) : Z :=
  Z.quot (Z.max (wrap64 (n_MemoryTotalBytes n - n_MemHeadroomBytes n)) 0) (2 ^ 20).

Record Telemetry := MkTelemetry {
  tel_Node : string;
  tel_LastSeen : Time;
  tel_Load1 : float64;
  tel_MemoryAvailableBytes : Z;
  tel_DiskAvailableBytes : Z;
  tel_PodsPending : Z;
  tel_PodsRunning : Z;
  tel_PodsSuspended : Z;
  tel_PodsOther : Z;
  tel_InventoryHash : string;
  tel_InventoryMismatchSince : Time;
  tel_ReconciledHash : string
}.

Definition zeroTelemetry : Telemetry :=
  MkTelemetry "" 0 (S754_zero false) 0 0 0 0 0 0 "" 0 "".

(** ** Bookings, tombstones, holds and instances *)

Record Booking := MkBooking {
  bk_PodID : ID; bk_Node : string; bk_VCPUs : Z; bk_MemoryMiB : Z; bk_Gated : bool;
  bk_BookedAt : Time
}.

Record BookingSums := MkBookingSums { bs_Count : Z; bs_VCPUs : Z; bs_MemoryMiB : Z }.

Record TombstoneKey := MkTombstoneKey {
  tk_PodID : ID; tk_Node : string; tk_Incarnation : UUID
}.

#[export] Instance TombstoneKey_eq_dec : EqDecision TombstoneKey.
Proof. solve_decision. Defined.

#[export] Program Instance TombstoneKey_countable : Countable TombstoneKey :=
  inj_countable' (λ k, (tk_PodID k, tk_Node k, tk_Incarnation k))
    (λ '(p, n, i), MkTombstoneKey p n i) _.
Next Obligation. by intros []. Qed.

Record Tombstone := MkTombstone {
  tb_PodID : ID; tb_Node : string; tb_Incarnation : UUID; tb_Reason : string;
  tb_CreatedAt : Time; tb_NotBefore : Time; tb_Attempts : Z; tb_LastError : string;
  tb_LastAttemptAt : Time
}.

#[export] Instance eta_Tombstone : Eta Tombstone := λ t,
  MkTombstone (tb_PodID t) (tb_Node t) (tb_Incarnation t) (tb_Reason t) (tb_CreatedAt t)
    (tb_NotBefore t) (tb_Attempts t) (tb_LastError t) (tb_LastAttemptAt t).

Definition Key (t : Tombstone) : TombstoneKey :=
  MkTombstoneKey (tb_PodID t) (tb_Node t) (tb_Incarnation t).

(** A hold; an infinite lease is [hd_Infinite]. *)
Record Hold := MkHold {
  hd_SandboxID : ID; hd_Holder : string; hd_Kind : HoldKind; hd_InstanceID : string;
  hd_LeaseUntil : Time; hd_Infinite : bool
}.

Definition InstanceHolder (instanceID : string) (kind : HoldKind) : string :=
  (instanceID +:+ ":" +:+ hold_string kind)%string.

Definition ProcessHolder (processID : string) : string := ("process:" +:+ processID)%string.

Record Instance_ := MkInstance {
  in_ID : string; in_Address : string; in_NodeAddress : string; in_Version : string;
  in_StartedAt : Time; in_LastSeen : Time; in_Stopping : Time
}.

(** An activity row (activity.Event), without its JSON detail. *)
Inductive EventKind : Type :=
| KindPlacement | KindLifecycleStart | KindLifecycleEnd | KindTombstone | KindRunStart
| KindRunEnd | KindSandboxState | KindOverbooked.

Record Event := MkEvent {
  ev_SandboxID : ID; ev_TenantID : string; ev_Node : string; ev_Kind : EventKind;
  ev_SpanID : string; ev_ParentSpanID : string; ev_Name : string
}.

(** Two rows with the same columns are the same row. *)
Lemma Sandbox_ext (s t : Sandbox) :
  sb_ID s = sb_ID t → sb_Incarnation s = sb_Incarnation t → sb_Owner s = sb_Owner t →
  sb_Image s = sb_Image t → sb_ImageRef s = sb_ImageRef t → sb_VCPUs s = sb_VCPUs t →
  sb_MemoryMiB s = sb_MemoryMiB t → sb_ClientState s = sb_ClientState t →
  sb_StatusDescription s = sb_StatusDescription t → sb_Node s = sb_Node t → sb_Materialised
  s = sb_Materialised t → sb_LostFrom s = sb_LostFrom t → sb_AvoidNodes s = sb_AvoidNodes t
  → sb_Op s = sb_Op t → sb_OpID s = sb_OpID t → sb_OpOwner s = sb_OpOwner t → sb_OpDeadline
  s = sb_OpDeadline t → sb_OpTarget s = sb_OpTarget t → sb_OpFromState s = sb_OpFromState t
  → sb_Gen s = sb_Gen t → sb_CheckpointEpoch s = sb_CheckpointEpoch t → sb_CheckpointHead s
  = sb_CheckpointHead t → sb_CheckpointMemory s = sb_CheckpointMemory t → sb_CheckpointAt s
  = sb_CheckpointAt t → sb_CheckpointStore s = sb_CheckpointStore t → sb_PendingSince s =
  sb_PendingSince t → sb_UnreachableSince s = sb_UnreachableSince t → sb_RunID s = sb_RunID
  t → sb_KubeVersion s = sb_KubeVersion t → sb_SSHVersion s = sb_SSHVersion t →
  sb_HTTPVersion s = sb_HTTPVersion t → sb_HTTPPushed s = sb_HTTPPushed t → sb_CreatedAt s =
  sb_CreatedAt t → sb_UpdatedAt s = sb_UpdatedAt t → sb_LastActiveAt s = sb_LastActiveAt t →
  sb_PausedAt s = sb_PausedAt t → sb_PolicyFailed s = sb_PolicyFailed t → sb_PolicyFailures
  s = sb_PolicyFailures t → sb_PolicyNotBefore s = sb_PolicyNotBefore t → sb_EnvironmentID s
  = sb_EnvironmentID t → sb_PodTemplate s = sb_PodTemplate t → sb_PinNode s = sb_PinNode t →
  sb_IdleAfterS s = sb_IdleAfterS t → sb_Address s = sb_Address t → sb_TenantJob s =
  sb_TenantJob t → sb_LogLabels s = sb_LogLabels t →
  s = t.
Proof. destruct s, t. cbn. intros. by subst. Qed.
