(* ===== verification/TableBuild.v ===== *)
(** * The ingress's table entry of an environment (ingress/table/build.go)

    [BuildEnv] makes the entry the ingress serves an environment from: its
    routes, per image service the instances that take requests with the ports
    their nodes admit, the numbers of the others, and its hosts with their
    certificates.  The parts of a deployment's spec it reads (env/spec) are
    translated with it; how the spec is stored and parsed is the argument
    [specs].  Proved: the entry fits its bound whatever the environment has,
    and holds exactly the instances that may take requests. *)

From S2P Require Import Prelude Text Json Wire Sync PodId Rows Routing HostLabels.

(** ** The spec (env/spec/types.go, routes.go, validate.go) *)

Record Port := MkPort { po_Name : string; po_Port : Z }.

(** By name, or by number when the name is empty. *)
Record PortRef := MkPortRef { pr_Name : string; pr_Number : Z }.

(** [spec.Service] and [spec.Route], the fields a table is built from. *)
Record SpecService := MkSpecService { ss_Runtime : string; ss_Image : string; ss_Ports : list Port; ss_Idle : string }.

Record SpecRoute := MkSpecRoute { sr_Path : string; sr_Service : string; sr_Port : PortRef; sr_Strip : bool }.

Record Spec := MkSpec { sp_Services : gmap string SpecService; sp_Routes : gmap string SpecRoute }.

Definition RuntimeAttached : string := "attached".

Definition PortRef_String (p : PortRef) : string :=
  if negb (String.eqb (pr_Name p) "") then pr_Name p else pretty (pr_Number p).

Definition IsAttached (s : SpecService) : bool :=
  if negb (String.eqb (ss_Runtime s) "") then String.eqb (ss_Runtime s) RuntimeAttached
  else String.eqb (ss_Image s) "".

Definition RoutePrefix (path : string) : string :=
  if String.eqb path "/" then path else TrimSuffix path "/"%char.

(** [PortNumber]: 0 when there is none. *)
Definition PortNumber (ports : list Port) (ref : PortRef) : Z * bool :=
  match list_find (λ p, (negb (String.eqb (pr_Name ref) "") && String.eqb (po_Name p) (pr_Name ref) ||
                         String.eqb (pr_Name ref) "" && negb (pr_Number ref =? 0) && (po_Port p =? pr_Number ref)) = true) ports with
  | Some (_, p) => (po_Port p, true)
  | None => (0, false)
  end.

Record RouteView := MkRouteView {
  rv_Name : string; rv_Path : string; rv_Prefix : string; rv_Service : string; rv_Port : PortRef; rv_Strip : bool; rv_Door : bool
}.

Definition sorted_keys {A} (m : gmap string A) : list string := sort_by String.leb (map_to_list m).*1.

Definition IngressRoutes (sp : Spec) : list RouteView :=
  omap (λ name,
    r ← sp_Routes sp !! name;
    Some (MkRouteView name (sr_Path r) (RoutePrefix (sr_Path r)) (sr_Service r) (sr_Port r) (sr_Strip r)
      (from_option IsAttached false (sp_Services sp !! sr_Service r)))) (sorted_keys (sp_Routes sp)).

(** The ports of a service in a spec. *)
Definition service_ports (sp : Spec) (service : string) : list Port := from_option ss_Ports [] (sp_Services sp !! service).

(** A route's port numbered in the pod's own deployment, else in the routing
    one. *)
Definition route_port (service : string) (own : option Spec) (routing : Spec) (port : PortRef) : Z :=
  let n := from_option (λ o, (PortNumber (service_ports o service) port).1) 0 own in
  if n <=? 0 then (PortNumber (service_ports routing service) port).1 else n.

(** [RoutedPorts]. *)
Definition RoutedPorts (service : string) (own : option Spec) (routing : list (option Spec)) : list Z :=
  let numbers := osp ← routing;
    match osp with
    | Some sp =>
        match sp_Services sp !! service with
        | Some target =>
            if IsAttached target then []
            else n ← (λ r, route_port service own sp (sr_Port r.2)) <$>
                     filter (λ r, sr_Service r.2 = service) (map_to_list (sp_Routes sp));
                 if 0 <? n then [n] else []
        | None => []
        end
    | None => []
    end in
  sort_by Z.leb (remove_dups numbers).

(** ** Rows (store/ingress_table.go, build.go) *)

Record ServiceInstance := MkInstance {
  in_ID : ID;
  in_Service : string;
  in_Replica : Z;
  in_Deployment : Z;
  in_Phase : string;
  in_ClientState : ClientState;
  in_Op : string;
  in_Address : string;
  in_Node : string;
  in_IngressPorts : list Z;
  in_GroupVersion : Z;
  in_Idle : bool
}.

Record EnvRows := MkEnvRows {
  er_ID : UUID;
  er_Tenant : string;
  er_Name : string;
  er_HostLabel : string;
  er_Zone : string;
  er_Deployment : Z;
  er_Deployed : Z;
  er_CreatedAt : Time;
  er_Instances : list ServiceInstance;
  er_Domains : list Domain
}.

#[export] Instance eta_EnvRows : Eta EnvRows := λ e,
  MkEnvRows (er_ID e) (er_Tenant e) (er_Name e) (er_HostLabel e) (er_Zone e) (er_Deployment e) (er_Deployed e)
    (er_CreatedAt e) (er_Instances e) (er_Domains e).

(** [IngressRoutingRow]; an environment without an instance has one row. *)
Record IngressRoutingRow := MkIngressRoutingRow {
  rr_EnvID : UUID;
  rr_Owner : string;
  rr_Name : string;
  rr_HostLabel : string;
  rr_Zone : string;
  rr_Deployment : Z;
  rr_Deployed : Z;
  rr_CreatedAt : Time;
  rr_Instance : option (ID * string * Z * Z * string * ClientState * string * string * string * list Z * Z * option Z)
}.

Definition instance_of (r : IngressRoutingRow) : list ServiceInstance :=
  match rr_Instance r with
  | Some (id, object, replica, deployment, phase, state, op, address, node, ports, version, idleAfterS) =>
      [MkInstance id object replica deployment phase state op address node ports (Z.max version 0)
         (from_option (λ s, 0 <? s) true idleAfterS)]
  | None => []
  end.

(** [Group]; [acc] is the environment the last row was of. *)
Fixpoint group_from (acc : EnvRows) (rows : list IngressRoutingRow) : list EnvRows :=
  match rows with
  | [] => [acc]
  | r :: rows' =>
      if bool_decide (er_ID acc = rr_EnvID r) then group_from (acc <| er_Instances ::= λ l, l ++ instance_of r |>) rows'
      else acc :: group_from (MkEnvRows (rr_EnvID r) (rr_Owner r) (rr_Name r) (rr_HostLabel r) (rr_Zone r) (rr_Deployment r)
                                (rr_Deployed r) (rr_CreatedAt r) (instance_of r) []) rows'
  end.

Definition Group (rows : list IngressRoutingRow) : list EnvRows :=
  match rows with
  | [] => []
  | r :: rows' =>
      group_from (MkEnvRows (rr_EnvID r) (rr_Owner r) (rr_Name r) (rr_HostLabel r) (rr_Zone r) (rr_Deployment r)
                    (rr_Deployed r) (rr_CreatedAt r) (instance_of r) []) rows'
  end.

Definition RoutingDeployment (deployment deployed : Z) : Z := if 0 <? deployed then deployed else deployment.

(** ** Classes *)

Inductive InstanceClass : Type := ClassNone | ClassReady | ClassAsleep | ClassWaking | ClassPending.

#[export] Instance InstanceClass_eq_dec : EqDecision InstanceClass.
Proof. solve_decision. Defined.

Definition PhaseReady : string := "ready".
Definition opResume : string := "resume".
Definition opRestore : string := "restore".

Definition Classify (phase : string) (clientState : ClientState) (op : string) : InstanceClass :=
  let ready := String.eqb phase PhaseReady in
  let running := bool_decide (clientState = StateRunning) in
  if ready && running && String.eqb op "" then ClassReady
  else if ready && running then ClassAsleep
  else match clientState with
  | StatePaused | StateHibernated | StatePausing | StateHibernating => ClassAsleep
  | _ =>
      if bool_decide (clientState = StateResuming) || String.eqb op opResume || String.eqb op opRestore then ClassWaking
      else if bool_decide (clientState = StatePending) || bool_decide (clientState = StateCreating) || running then ClassPending
      else ClassNone
  end.

Definition Asleep (phase : string) (clientState : ClientState) (op : string) : bool :=
  bool_decide (Classify phase clientState op = ClassAsleep).

(** ** The entry *)

Definition MaxDomainBytes : Z := Z.shiftl 64 10.
Definition MaxEnvBytes : Z := Z.shiftl 2 20.

(** [ErrSpec], [ErrTooLarge], or a read that failed. *)
Inductive build_error : Type := ErrSpec | ErrTooLarge | ErrRead.

Definition unroutable (e : build_error) : bool := match e with ErrSpec | ErrTooLarge => true | ErrRead => false end.

#[export] Instance eta_Env : Eta Env := λ e,
  MkEnv (env_ID e) (env_Tenant e) (env_Name e) (env_Hosts e) (env_Deployment e) (env_Hash e) (env_Routes e)
    (env_Services e) (env_Domains e).

#[export] Instance eta_Service : Eta Service := λ s,
  MkService (wv_Name s) (wv_Idle s) (wv_Endpoints s) (wv_Asleep s) (wv_Waking s) (wv_Pending s).

Definition digest (e : Env) : string * Z :=
  let b := encode (json_env (e <| env_Hash := ""%string |>)) in
  let h := EncodeToString (Sum256 (bytes_of b)) in
  (h, len b + len h).

Definition Hash (e : Env) : string := (digest e).1.

Definition admittedPorts (service : string) (admitted : list Z) (routes : list RouteView) (own : option Spec) (routing : Spec)
    : gmap string Z :=
  foldl (λ ports r,
    let n := route_port service own routing (rv_Port r) in
    if (0 <? n) && bool_decide (n ∈ admitted) then <[PortRef_String (rv_Port r) := n]> ports else ports) ∅ routes.

(** The loop of [withDomains]: the budget left, the hosts and the domains. *)
Definition add_domain (acc : Z * list string * list Domain) (d : Domain) : Z * list string * list Domain :=
  let '(budget, hosts, domains) := acc in
  if String.eqb (wd_Name d) "" || bool_decide (wd_Name d ∈ hosts) then acc else
  let n := Size (json_domain d) + Size (JStr (wd_Name d)) + 2 in
  if (MaxDomainBytes <? n) || (budget <? n) then acc
  else (budget - n, hosts ++ [wd_Name d], domains ++ [d]).

Definition withDomains (e : Env) (ds : list Domain) (size : Z) : option Env :=
  if bool_decide (ds = []) then None else
  let '(_, hosts, domains) := foldl add_domain (MaxEnvBytes - size - 13, [], []) ds in
  if bool_decide (domains = []) then None
  else Some (e <| env_Hosts := Some hosts |> <| env_Domains := Some domains |>).

Section build.
Context (uuid_String : UUID → string) (zones : Zones).
(** [SpecFunc]: the spec of the environment's deployment. *)
Context (specs : Z → result build_error Spec).

(** The spec that numbers an instance's ports, none when its deployment has
    none. *)
Definition ownSpec (number : Z) (sp : Spec) (n : Z) : result build_error (option Spec) :=
  if n =? number then Ok (Some sp) else
  match specs n with
  | Ok s => Ok (Some s)
  | Err ErrSpec => Ok None
  | Err err => Err err
  end.

(** The ports of an instance that is ready. *)
Definition ready_ports (number : Z) (sp : Spec) (routes : list RouteView) (i : ServiceInstance) : result build_error (gmap string Z) :=
  if negb (String.eqb (in_Address i) "") && negb (String.eqb (in_Node i) "") then
    own ← ownSpec number sp (in_Deployment i);
    Ok (admittedPorts (in_Service i) (in_IngressPorts i) routes own sp)
  else Ok ∅.

(** One instance of a service, counted. *)
Definition count_instance (number : Z) (sp : Spec) (routes : list RouteView) (svc : Service) (i : ServiceInstance)
    : result build_error Service :=
  let svc := svc <| wv_Idle ::= λ b, b || in_Idle i |> in
  match Classify (in_Phase i) (in_ClientState i) (in_Op i) with
  | ClassReady =>
      ports ← ready_ports number sp routes i;
      if bool_decide (ports = ∅) then Ok (svc <| wv_Pending ::= Z.succ |>)
      else Ok (svc <| wv_Endpoints ::= fmap (λ l, l ++ [MkEndpoint (in_ID i) (in_Address i) (in_Node i) (Some ports) (in_GroupVersion i)]) |>)
  | ClassAsleep => Ok (svc <| wv_Asleep ::= Z.succ |>)
  | ClassWaking => Ok (svc <| wv_Waking ::= Z.succ |>)
  | ClassPending => Ok (svc <| wv_Pending ::= Z.succ |>)
  | ClassNone => Ok svc
  end.

Fixpoint count_instances (number : Z) (sp : Spec) (routes : list RouteView) (svc : Service) (l : list ServiceInstance)
    : result build_error Service :=
  match l with
  | [] => Ok svc
  | i :: l' => svc ← count_instance number sp routes svc i; count_instances number sp routes svc l'
  end.

Definition endpoint_leb (a b : Endpoint) : bool := String.leb (we_Instance a) (we_Instance b).

(** The routes of a service. *)
Definition routes_to (sp : Spec) (name : string) : list RouteView :=
  filter (λ r, rv_Service r = name) (IngressRoutes sp).

(** The image services that a route sends to, by name. *)
Definition image_service (sp : Spec) (name : string) : bool :=
  match sp_Services sp !! name with Some target => negb (IsAttached target) | None => false end.

Definition routed_services (sp : Spec) : list string :=
  sort_by String.leb (remove_dups (filter (λ name, image_service sp name = true) (rv_Service <$> IngressRoutes sp))).

Definition build_service (e : EnvRows) (number : Z) (sp : Spec) (name : string) : result build_error Service :=
  let idle := from_option (λ s, negb (String.eqb (ss_Idle s) "")) false (sp_Services sp !! name) in
  svc ← count_instances number sp (routes_to sp name) (MkService name idle (Some []) 0 0 0)
          (filter (λ i, in_Service i = name) (er_Instances e));
  Ok (svc <| wv_Endpoints ::= fmap (sort_by endpoint_leb) |>).

Fixpoint build_services (e : EnvRows) (number : Z) (sp : Spec) (names : list string) : result build_error (list Service) :=
  match names with
  | [] => Ok []
  | name :: names' =>
      svc ← build_service e number sp name;
      svcs ← build_services e number sp names';
      Ok (svc :: svcs)
  end.

(** The sandboxes of the instances that are counted. *)
Definition referenced (e : EnvRows) (sp : Spec) : list ID :=
  name ← routed_services sp; in_ID <$> filter (λ i, in_Service i = name) (er_Instances e).

Definition table_route (r : RouteView) : Route :=
  MkRoute (rv_Name r) (rv_Prefix r) (rv_Service r) (PortRef_String (rv_Port r)) (rv_Strip r) (rv_Door r).

Definition default_hosts (e : EnvRows) : list string :=
  let zone := zone_Of zones (er_Zone e) in
  if negb (String.eqb zone "") && negb (String.eqb (er_HostLabel e) "") then [(er_HostLabel e +:+ "." +:+ zone)%string] else [].

(** The end of [BuildEnv]: the domains that fit, and the hash. *)
Definition finish_env (out : Env) (defaults : list string) (domains : list Domain) : result build_error Env :=
  let '(h, size) := digest out in
  if MaxEnvBytes <? size then Err ErrTooLarge else
  match withDomains out domains size with
  | Some out' =>
      let '(h', size') := digest out' in
      if MaxEnvBytes <? size' then
        let out := out' <| env_Hosts := Some defaults |> <| env_Domains := None |> in
        Ok (out <| env_Hash := (digest out).1 |>)
      else Ok (out' <| env_Hash := h' |>)
  | None => Ok (out <| env_Hash := h |>)
  end.

(** [BuildEnv]. *)
Definition BuildEnv (e : EnvRows) : result build_error (Env * list ID) :=
  let number := RoutingDeployment (er_Deployment e) (er_Deployed e) in
  sp ← specs number;
  svcs ← build_services e number sp (routed_services sp);
  env ← finish_env (MkEnv (uuid_String (er_ID e)) (er_Tenant e) (er_Name e) (Some (default_hosts e)) number ""
                      (Some (table_route <$> IngressRoutes sp)) (Some svcs) None)
          (default_hosts e) (er_Domains e);
  Ok (env, referenced e sp).
End build.

(** ** The size of an entry *)

Lemma Ok_inj {A E} (a b : A) : @Ok E A a = Ok b → b = a.
Proof. congruence. Qed.

Lemma hash_plain s : string_forallb hash_char s = true → plain s = true.
Proof.
  unfold plain. induction s as [|c s IH]; [done|]. cbn [string_forallb]. intros [Hc Hs]%andb_true_iff. rewrite (IH Hs), andb_true_r.
  destruct c as [[] [] [] [] [] [] [] []]; first [reflexivity|discriminate Hc].
Qed.

Lemma digest_plain e : plain (digest e).1 = true ∧ String.length (digest e).1 = 64%nat.
Proof.
  unfold digest. cbn [fst]. generalize (bytes_of (encode (json_env (e <| env_Hash := ""%string |>)))). intros b.
  destruct (Sum256_length b) as [Hl Hr]. destruct (EncodeToString_hex _ Hr) as [El Eh]. split; [by apply hash_plain|]. by rewrite El, Hl.
Qed.

(** The hash takes its place between the quotes. *)
Lemma hashed_size e h :
  plain h = true → Size (json_env (e <| env_Hash := h |>)) = len (encode (json_env (e <| env_Hash := ""%string |>))) + len h.
Proof.
  intros Hh. set (dom := match env_Domains e with None | Some [] => [] | Some ds => [("domains", JArr (json_domain <$> ds))]%string end).
  assert (Hj : ∀ x, json_env (e <| env_Hash := x |>) =
    JObj ([("id"%string, JStr (env_ID e)); ("tenant"%string, JStr (env_Tenant e)); ("name"%string, JStr (env_Name e));
           ("hosts"%string, JSlice JStr (env_Hosts e)); ("deployment"%string, JNum (env_Deployment e))] ++ [("hash"%string, JStr x)] ++
          ([("routes"%string, JSlice json_route (env_Routes e)); ("services"%string, JSlice json_service (env_Services e))] ++ dom)))
    by done.
  unfold Size. rewrite !Hj, !len_obj by done. fold (fields_len).
  assert (Hf : ∀ l, comma_len ((λ f, len (encode_field f)) <$> l) = fields_len l) by done. rewrite !Hf, !fields_len_app, !fields_len_one.
  cbn [encode]. rewrite !plain_len by done. change (len "") with 0. lia.
Qed.

Lemma digest_hashed e h : digest (e <| env_Hash := h |>) = digest e.
Proof. done. Qed.

Lemma digest_size e : Size (json_env (e <| env_Hash := (digest e).1 |>)) = (digest e).2.
Proof. rewrite hashed_size by apply digest_plain. done. Qed.

(** The domains an entry takes. *)
Lemma add_domains_spec ds acc :
  let '(_, hosts, domains) := acc in
  hosts = wd_Name <$> domains → NoDup hosts →
  let '(_, hosts', domains') := foldl add_domain acc ds in
  hosts' = wd_Name <$> domains' ∧ NoDup hosts' ∧ ∃ l, domains' = domains ++ l ∧ l `sublist_of` ds.
Proof.
  revert acc. induction ds as [|d ds IH]; intros [[budget hosts] domains] Hh Hn.
  { cbn. split; [done|]. split; [done|]. exists []. by rewrite app_nil_r. }
  cbn [foldl]. unfold add_domain at 2. destruct (_ || _) eqn:E1.
  { specialize (IH (budget, hosts, domains) Hh Hn). destruct (foldl add_domain _ ds) as [[b' h'] d'].
    destruct IH as (? & ? & l & ? & ?). split; [done|]. split; [done|]. exists l. split; [done|by apply sublist_cons]. }
  apply orb_false_iff in E1 as [_ E1%bool_decide_eq_false]. destruct (_ || _).
  { specialize (IH (budget, hosts, domains) Hh Hn). destruct (foldl add_domain _ ds) as [[b' h'] d'].
    destruct IH as (? & ? & l & ? & ?). split; [done|]. split; [done|]. exists l. split; [done|by apply sublist_cons]. }
  match goal with |- context [foldl add_domain ?a ds] => specialize (IH a) end. cbn beta iota in IH.
  destruct (foldl add_domain _ ds) as [[b' h'] d']. destruct IH as (? & ? & l & -> & ?).
  - by rewrite fmap_app, Hh.
  - apply NoDup_app. split; [done|]. split; [|apply NoDup_singleton]. by intros x Hx ->%list_elem_of_singleton.
  - split; [done|]. split; [done|]. exists (d :: l). split; [by rewrite <- app_assoc|by apply sublist_skip].
Qed.

(** The hosts of an entry: the domains it takes, each once, or its default
    host while it takes none. *)
Definition hosts_ok (defaults : list string) (given : list Domain) (env : Env) : Prop :=
  env_Hosts env = Some defaults ∧ env_Domains env = None ∨
  ∃ ds, env_Hosts env = Some (wd_Name <$> ds) ∧ env_Domains env = Some ds ∧ ds ≠ [] ∧ ds `sublist_of` given ∧ NoDup (wd_Name <$> ds).

Lemma finish_env_ok out defaults given env :
  env_Hosts out = Some defaults → env_Domains out = None → finish_env out defaults given = Ok env →
  Size (json_env env) ≤ MaxEnvBytes ∧ env_Hash env = Hash env ∧ hosts_ok defaults given env ∧
  env_Services env = env_Services out ∧ env_ID env = env_ID out.
Proof.
  intros Hh Hd. unfold finish_env. rewrite (surjective_pairing (digest out)).
  destruct (Z.ltb_spec MaxEnvBytes (digest out).2) as [|Hsize]; [done|].
  assert (Hdef : Size (json_env (out <| env_Hash := (digest out).1 |>)) ≤ MaxEnvBytes) by (by rewrite digest_size).
  unfold withDomains. case_bool_decide as Hnil; [intros ->%Ok_inj; split; [done|]; split; [done|]; split; [by left|done]|].
  pose proof (add_domains_spec given (MaxEnvBytes - (digest out).2 - 13, [], [])) as Hds. cbn beta iota in Hds.
  destruct (foldl add_domain _ given) as [[budget hosts] domains]. destruct Hds as (-> & Hn & l & El & Hl); [done|constructor|]. cbn in El. subst l.
  case_bool_decide as Hno; [intros ->%Ok_inj; split; [done|]; split; [done|]; split; [by left|done]|].
  set (out' := out <| env_Hosts := _ |> <| env_Domains := _ |>). rewrite (surjective_pairing (digest out')).
  destruct (Z.ltb_spec MaxEnvBytes (digest out').2) as [|Hsize'].
  - assert (Eout : out' <| env_Hosts := Some defaults |> <| env_Domains := None |> = out).
    { destruct out. cbn in Hh, Hd |- *. by rewrite <- Hh, <- Hd. }
    rewrite Eout. intros ->%Ok_inj. split; [done|]. split; [done|]. split; [by left|done].
  - intros ->%Ok_inj. split; [by rewrite digest_size|]. split; [done|]. split; [|done]. right. by exists domains.
Qed.

Lemma BuildEnv_ok uuid_String zones specs e env ids :
  BuildEnv uuid_String zones specs e = Ok (env, ids) →
  ∃ sp svcs, specs (RoutingDeployment (er_Deployment e) (er_Deployed e)) = Ok sp ∧
    build_services specs e (RoutingDeployment (er_Deployment e) (er_Deployed e)) sp (routed_services sp) = Ok svcs ∧
    ids = referenced e sp ∧ env_Services env = Some svcs ∧ env_ID env = uuid_String (er_ID e) ∧
    Size (json_env env) ≤ MaxEnvBytes ∧ env_Hash env = Hash env ∧ hosts_ok (default_hosts zones e) (er_Domains e) env.
Proof.
  unfold BuildEnv. cbv zeta. intros (sp & Hsp & (svcs & Hsvcs & (env' & Hf & [= <- <-])%bind_Ok)%bind_Ok)%bind_Ok.
  apply finish_env_ok in Hf as (? & ? & ? & Es & Ei); [|done..]. exists sp, svcs. by rewrite Es, Ei.
Qed.


(** ** The endpoints of a service *)

(** An instance that may take requests. *)
Definition serving (i : ServiceInstance) : Prop :=
  in_Phase i = PhaseReady ∧ in_ClientState i = StateRunning ∧ in_Op i = ""%string ∧ in_Address i ≠ ""%string ∧ in_Node i ≠ ""%string.

Definition class_of (i : ServiceInstance) : InstanceClass := Classify (in_Phase i) (in_ClientState i) (in_Op i).

Lemma ready_iff i :
  class_of i = ClassReady ↔ in_Phase i = PhaseReady ∧ in_ClientState i = StateRunning ∧ in_Op i = ""%string.
Proof.
  unfold class_of, Classify. destruct (String.eqb_spec (in_Phase i) PhaseReady) as [Ep|Ep], (String.eqb_spec (in_Op i) "") as [Eo|Eo];
    destruct (in_ClientState i); cbn; repeat case_match; split; try discriminate; try done; by intros (? & ? & ?).
Qed.

Lemma admittedPorts_spec service admitted routes own sp :
  let ports := admittedPorts service admitted routes own sp in
  (∀ name n, ports !! name = Some n →
     0 < n ∧ n ∈ admitted ∧ ∃ r, r ∈ routes ∧ PortRef_String (rv_Port r) = name ∧ route_port service own sp (rv_Port r) = n) ∧
  (∀ r, r ∈ routes → 0 < route_port service own sp (rv_Port r) → route_port service own sp (rv_Port r) ∈ admitted →
     is_Some (ports !! PortRef_String (rv_Port r))).
Proof.
  cbv zeta. unfold admittedPorts. induction routes as [|r routes IH] using rev_ind.
  { cbn [foldl]. split; [intros name n H; by rewrite lookup_empty in H|]. by intros r H%elem_of_nil. }
  rewrite foldl_app. cbn [foldl]. destruct IH as [IH1 IH2]. destruct (_ && _) eqn:E; split.
  - apply andb_true_iff in E as [E1%Z.ltb_lt E2%bool_decide_eq_true]. intros name n [[<- <-]|[Hne H]]%lookup_insert_Some.
    + split; [done|]. split; [done|]. exists r. split; [apply elem_of_app; right; by left|done].
    + apply IH1 in H as (? & ? & r' & ? & ?). split; [done|]. split; [done|]. exists r'. split; [apply elem_of_app; by left|done].
  - intros r' [Hr| ->%list_elem_of_singleton]%elem_of_app H1 H2; [|by rewrite lookup_insert_eq].
    destruct (decide (PortRef_String (rv_Port r) = PortRef_String (rv_Port r'))) as [->|Hne]; [by rewrite lookup_insert_eq|].
    rewrite lookup_insert_ne by done. by apply IH2.
  - intros name n (? & ? & r' & ? & ?)%IH1. split; [done|]. split; [done|]. exists r'. split; [apply elem_of_app; by left|done].
  - intros r' [Hr| ->%list_elem_of_singleton]%elem_of_app H1 H2; [by apply IH2|].
    apply Z.ltb_lt in H1. by rewrite H1, bool_decide_eq_true_2 in E.
Qed.

Section endpoints.
Context (specs : Z → result build_error Spec) (number : Z) (sp : Spec) (routes : list RouteView).

(** The endpoint an instance is, if it is one. *)
Definition ready_endpoint (i : ServiceInstance) : option Endpoint :=
  if bool_decide (class_of i = ClassReady) then
    match ready_ports specs number sp routes i with
    | Ok ports => if bool_decide (ports = ∅) then None
                  else Some (MkEndpoint (in_ID i) (in_Address i) (in_Node i) (Some ports) (in_GroupVersion i))
    | Err _ => None
    end
  else None.

(** How many instances of [l] are of class [c]. *)
Definition of_class (c : InstanceClass) (l : list ServiceInstance) : Z := Z.of_nat (length (filter (λ i, class_of i = c) l)).

Lemma of_class_cons c i l : of_class c (i :: l) = (if decide (class_of i = c) then 1 else 0) + of_class c l.
Proof. unfold of_class. rewrite filter_cons. destruct (decide _); cbn [length]; lia. Qed.

Lemma count_instances_ok l svc svc' eps :
  wv_Endpoints svc = Some eps → count_instances specs number sp routes svc l = Ok svc' →
  wv_Name svc' = wv_Name svc ∧ wv_Endpoints svc' = Some (eps ++ omap ready_endpoint l) ∧
  wv_Asleep svc' = wv_Asleep svc + of_class ClassAsleep l ∧ wv_Waking svc' = wv_Waking svc + of_class ClassWaking l ∧
  wv_Pending svc' + Z.of_nat (length (omap ready_endpoint l)) = wv_Pending svc + of_class ClassPending l + of_class ClassReady l ∧
  ∀ i, i ∈ l → class_of i = ClassReady → ∃ ports, ready_ports specs number sp routes i = Ok ports.
Proof.
  revert svc eps. induction l as [|i l IH]; intros svc eps Heps.
  { intros ->%Ok_inj. unfold of_class. cbn. rewrite app_nil_r. split_and!; try done; try lia. by intros i H%elem_of_nil. }
  cbn [count_instances]. intros (svc1 & H1 & H2)%bind_Ok. unfold count_instance in H1. fold (class_of i) in H1.
  assert (Hs : wv_Name svc1 = wv_Name svc ∧ wv_Endpoints svc1 = Some (eps ++ omap ready_endpoint [i]) ∧
    wv_Asleep svc1 = wv_Asleep svc + of_class ClassAsleep [i] ∧ wv_Waking svc1 = wv_Waking svc + of_class ClassWaking [i] ∧
    wv_Pending svc1 + Z.of_nat (length (omap ready_endpoint [i])) = wv_Pending svc + of_class ClassPending [i] + of_class ClassReady [i] ∧
    (class_of i = ClassReady → ∃ ports, ready_ports specs number sp routes i = Ok ports)).
  { rewrite !of_class_cons. change (of_class _ []) with 0. cbn [omap list_omap]. unfold ready_endpoint.
    destruct (class_of i) eqn:Ec; repeat (case_bool_decide || case_decide); try done;
      try (apply Ok_inj in H1 as ->; cbn; rewrite Heps; cbn; rewrite app_nil_r; split_and!; try done; lia).
    apply bind_Ok in H1 as (ports & Hp & H1). rewrite Hp. case_bool_decide; apply Ok_inj in H1 as ->; cbn; rewrite Heps; cbn;
      rewrite ?app_nil_r; split_and!; try lia; eauto. }
  clear H1. destruct Hs as (Hn & He & Ha & Hw & Hpd & Hr). destruct (IH _ _ He H2) as (? & ? & ? & ? & ? & Hrest).
  rewrite !of_class_cons in *. change (of_class _ []) with 0 in *.
  assert (Eo : omap ready_endpoint (i :: l) = omap ready_endpoint [i] ++ omap ready_endpoint l) by (cbn; by destruct (ready_endpoint i)).
  rewrite Eo, app_assoc, length_app. split_and!; try congruence; try lia.
  intros i' [ ->|Hi]%elem_of_cons; [done|by apply Hrest].
Qed.

Lemma ready_endpoint_Some i ep :
  ready_endpoint i = Some ep →
  serving i ∧ ∃ ports, ep = MkEndpoint (in_ID i) (in_Address i) (in_Node i) (Some ports) (in_GroupVersion i) ∧ ports ≠ ∅ ∧
    ∀ name n, ports !! name = Some n → 0 < n ∧ n ∈ in_IngressPorts i ∧ ∃ r, r ∈ routes ∧ PortRef_String (rv_Port r) = name.
Proof.
  unfold ready_endpoint. case_bool_decide as Hc; [|done]. apply ready_iff in Hc as (Hp & Hs & Ho).
  unfold ready_ports. destruct (String.eqb_spec (in_Address i) "") as [Ea|Ea]; [cbn [negb andb]; by rewrite bool_decide_eq_true_2|].
  destruct (String.eqb_spec (in_Node i) "") as [En|En]; [cbn [negb andb]; by rewrite bool_decide_eq_true_2|]. cbn [negb andb].
  destruct (ownSpec specs number sp (in_Deployment i)) as [own|]; [|done]. cbn [mbind result_bind].
  case_bool_decide as He; [done|]. intros [= <-]. split; [done|]. eexists. split; [done|]. split; [done|].
  destruct (admittedPorts_spec (in_Service i) (in_IngressPorts i) routes own sp) as [Had _].
  intros name n (? & ? & r & ? & ? & ?)%Had. split; [done|]. split; [done|]. by exists r.
Qed.

Lemma ready_endpoint_serving i r own :
  serving i → ownSpec specs number sp (in_Deployment i) = Ok own → r ∈ routes →
  let n := route_port (in_Service i) own sp (rv_Port r) in
  0 < n → n ∈ in_IngressPorts i →
  ∃ ports, ready_endpoint i = Some (MkEndpoint (in_ID i) (in_Address i) (in_Node i) (Some ports) (in_GroupVersion i)) ∧
    is_Some (ports !! PortRef_String (rv_Port r)).
Proof.
  intros (Hp & Hs & Ho & Ha & Hn) Hown Hr n H1 H2. unfold ready_endpoint. rewrite bool_decide_eq_true_2 by (by apply ready_iff).
  unfold ready_ports. apply String.eqb_neq in Ha, Hn. rewrite Ha, Hn, Hown. cbn [negb andb mbind result_bind].
  destruct (admittedPorts_spec (in_Service i) (in_IngressPorts i) routes own sp) as [_ Had]. specialize (Had r Hr H1 H2).
  rewrite bool_decide_eq_false_2; [by eexists|]. intros E. rewrite E, lookup_empty in Had. by destruct Had.
Qed.

End endpoints.

Lemma build_services_ok specs e number sp names svcs :
  build_services specs e number sp names = Ok svcs →
  Forall2 (λ name svc, build_service specs e number sp name = Ok svc) names svcs.
Proof.
  revert svcs. induction names as [|name names IH]; cbn [build_services]; intros svcs; [by intros ->%Ok_inj|].
  intros (svc & H1 & (svcs' & H2 & ->%Ok_inj)%bind_Ok)%bind_Ok. constructor; auto.
Qed.

Lemma build_service_ok specs e number sp name svc :
  build_service specs e number sp name = Ok svc →
  let l := filter (λ i, in_Service i = name) (er_Instances e) in
  wv_Name svc = name ∧ (∃ eps, wv_Endpoints svc = Some eps ∧ eps ≡ₚ omap (ready_endpoint specs number sp (routes_to sp name)) l ∧
    wv_Pending svc + Z.of_nat (length eps) = of_class ClassPending l + of_class ClassReady l) ∧
  wv_Asleep svc = of_class ClassAsleep l ∧ wv_Waking svc = of_class ClassWaking l.
Proof.
  cbv zeta. unfold build_service. intros (svc1 & H & ->%Ok_inj)%bind_Ok.
  apply (count_instances_ok _ _ _ _ _ _ _ []) in H as (Hn & He & Ha & Hw & Hp & _); [|done]. cbn in Hn, Ha, Hw, Hp, He |- *.
  rewrite He. cbn. split_and!; try lia; try done. eexists. split; [done|]. split; [apply sort_by_perm|].
  rewrite (Permutation_length (sort_by_perm endpoint_leb _)). lia.
Qed.

(** C15: A built entry lists, per image service a route sends to, exactly the
    instances that may take requests.  An endpoint is an instance of the
    service that is ready, running and without an operation, with an address
    and a node, and each of its ports is one its node admits, under the name
    of a route to the service.  Conversely every such instance, one of whose
    routed ports its node admits, is an endpoint with that port.  Every other
    instance is counted once, by its class, a ready one as pending; and the
    sandboxes of all of them are those whose changes rebuild the entry. *)
Theorem endpoints_exact uuid_String zones specs e env ids :
  BuildEnv uuid_String zones specs e = Ok (env, ids) →
  let number := RoutingDeployment (er_Deployment e) (er_Deployed e) in
  ∃ sp svcs, specs number = Ok sp ∧ env_Services env = Some svcs ∧ wv_Name <$> svcs = routed_services sp ∧
  ∀ svc, svc ∈ svcs → ∃ eps, wv_Endpoints svc = Some eps ∧
    let l := filter (λ i, in_Service i = wv_Name svc) (er_Instances e) in
    (∀ ep, ep ∈ eps → ∃ i ports, i ∈ l ∧ serving i ∧
       ep = MkEndpoint (in_ID i) (in_Address i) (in_Node i) (Some ports) (in_GroupVersion i) ∧ ports ≠ ∅ ∧
       ∀ name n, ports !! name = Some n →
         0 < n ∧ n ∈ in_IngressPorts i ∧ ∃ r, r ∈ routes_to sp (wv_Name svc) ∧ PortRef_String (rv_Port r) = name) ∧
    (∀ i r own, i ∈ l → serving i → ownSpec specs number sp (in_Deployment i) = Ok own → r ∈ routes_to sp (wv_Name svc) →
       0 < route_port (in_Service i) own sp (rv_Port r) → route_port (in_Service i) own sp (rv_Port r) ∈ in_IngressPorts i →
       ∃ ports, MkEndpoint (in_ID i) (in_Address i) (in_Node i) (Some ports) (in_GroupVersion i) ∈ eps ∧
         is_Some (ports !! PortRef_String (rv_Port r))) ∧
    wv_Asleep svc = of_class ClassAsleep l ∧ wv_Waking svc = of_class ClassWaking l ∧
    wv_Pending svc + Z.of_nat (length eps) = of_class ClassPending l + of_class ClassReady l ∧
    (∀ i, i ∈ l → in_ID i ∈ ids).
Proof.
  intros (sp & svcs & Hsp & Hb%build_services_ok & -> & Hs & _)%BuildEnv_ok. cbv zeta. exists sp, svcs. split; [done|]. split; [done|]. split.
  { clear Hs. induction Hb as [|name svc names svcs' H%build_service_ok ? IH]; [done|]. cbn. f_equal; [apply H|done]. }
  intros svc (k & Hk)%list_elem_of_lookup. destruct (Forall2_lookup_r _ _ _ _ _ Hb Hk) as (name & Hname & Hsvc).
  apply build_service_ok in Hsvc as (-> & (eps & He & Hperm & Hp) & Ha & Hw). exists eps. split; [done|]. split_and!; try done.
  - intros ep Hep. rewrite Hperm in Hep. apply list_elem_of_omap in Hep as (i & Hi & Hr).
    apply ready_endpoint_Some in Hr as (? & ports & ? & ? & ?). by exists i, ports.
  - intros i r own Hi Hserv Hown Hr H1 H2.
    destruct (ready_endpoint_serving specs _ sp _ i r own Hserv Hown Hr H1 H2) as (ports & Hep & ?).
    exists ports. split; [|done]. rewrite Hperm. apply list_elem_of_omap. by exists i.
  - intros i Hi. unfold referenced. apply list_elem_of_bind. exists name.
    split; [by apply list_elem_of_fmap_2|by eapply list_elem_of_lookup_2].
Qed.

(** ** An environment with one service *)

Definition ex_spec : Spec :=
  MkSpec {["web"%string := MkSpecService "" "nginx" [MkPort "http" 8080] ""]}
    {["root"%string := MkSpecRoute "/" "web" (MkPortRef "http" 0) false]}.

Definition ex_instance : ServiceInstance :=
  MkInstance "w1" "web" 0 1 "ready" StateRunning "" "fd00::1" "node-a" [8080] 1 false.

Definition ex_rows : EnvRows :=
  MkEnvRows 1%N "acme" "shop" "shop-acme" "" 1 1 0 [ex_instance] [].

Definition ex_specs : Z → result build_error Spec := λ n, if n =? 1 then Ok ex_spec else Err ErrSpec.

Definition ex_build_zones : Zones := MkZones "apps.example" [] "".

Lemma digest_snd e : (digest e).2 = len (encode (json_env (e <| env_Hash := ""%string |>))) + 64.
Proof. destruct (digest_plain e) as [_ H]. unfold digest, len in *. cbn [fst snd] in *. lia. Qed.

Lemma finish_env_no_domains out defaults :
  len (encode (json_env (out <| env_Hash := ""%string |>))) + 64 ≤ MaxEnvBytes →
  finish_env out defaults [] = Ok (out <| env_Hash := (digest out).1 |>).
Proof.
  intros H. rewrite <- digest_snd in H. unfold finish_env. destruct (digest out) as [h size]. cbn [fst snd] in *.
  by destruct (Z.ltb_spec MaxEnvBytes size); [lia|].
Qed.

Lemma BuildEnv_no_domains uuid_String zones specs e number sp svcs :
  let out := MkEnv (uuid_String (er_ID e)) (er_Tenant e) (er_Name e) (Some (default_hosts zones e)) number ""
               (Some (table_route <$> IngressRoutes sp)) (Some svcs) None in
  number = RoutingDeployment (er_Deployment e) (er_Deployed e) → er_Domains e = [] →
  specs number = Ok sp → build_services specs e number sp (routed_services sp) = Ok svcs →
  len (encode (json_env out)) + 64 ≤ MaxEnvBytes →
  BuildEnv uuid_String zones specs e = Ok (out <| env_Hash := (digest out).1 |>, referenced e sp).
Proof.
  intros out -> Hd Hsp Hs Hlen. unfold BuildEnv. rewrite Hsp. cbn [mbind result_bind]. rewrite Hs. cbn [mbind result_bind].
  fold out. rewrite Hd, finish_env_no_domains by done. done.
Qed.

Lemma ex_built : ∃ env ids, BuildEnv (λ _, "e1"%string) ex_build_zones ex_specs ex_rows = Ok (env, ids).
Proof.
  assert (Hs : ∃ svcs, build_services ex_specs ex_rows 1 ex_spec (routed_services ex_spec) = Ok svcs ∧
    len (encode (json_env (MkEnv "e1" "acme" "shop" (Some (default_hosts ex_build_zones ex_rows)) 1 ""
      (Some (table_route <$> IngressRoutes ex_spec)) (Some svcs) None))) + 64 ≤ MaxEnvBytes).
  { eexists. split; [vm_compute; reflexivity|vm_compute; discriminate]. }
  destruct Hs as (svcs & Hs & Hlen). eexists _, _. by apply (BuildEnv_no_domains _ _ _ _ 1 ex_spec svcs).
Qed.

Lemma endpoints_exact_witness : ∃ env svcs svc eps ep,
  env_Services env = Some svcs ∧ svc ∈ svcs ∧ wv_Name svc = "web"%string ∧ wv_Endpoints svc = Some eps ∧
  ep ∈ eps ∧ we_Instance ep = "w1"%string ∧ wv_Pending svc + Z.of_nat (length eps) = 1.
Proof.
  destruct ex_built as (env & ids & He). destruct (endpoints_exact _ _ _ _ _ _ He) as (sp & svcs & Hsp & Hs & Hn & H).
  apply Ok_inj in Hsp as ->. assert (Hr : routed_services ex_spec = ["web"%string]) by (by vm_compute). rewrite Hr in Hn.
  destruct svcs as [|svc [|]]; try discriminate Hn. injection Hn as Hn. destruct (H svc) as (eps & Heps & Hsound & Hcomp & _ & _ & Hc & _); [by left|].
  rewrite Hn in Hcomp, Hsound, Hc.
  assert (Hroutes : routes_to ex_spec "web" = [MkRouteView "root" "/" "/" "web" (MkPortRef "http" 0) false false]) by (by vm_compute).
  assert (Hc' : wv_Pending svc + Z.of_nat (length eps) = 1) by (rewrite Hc; by vm_compute).
  destruct (Hcomp ex_instance (MkRouteView "root" "/" "/" "web" (MkPortRef "http" 0) false false) (Some ex_spec)) as (ports & Hep & _).
  - by apply list_elem_of_In; left.
  - split_and!; done.
  - done.
  - rewrite Hroutes. by left.
  - by vm_compute.
  - by left.
  - eexists env, [svc], svc, eps, _. split; [exact Hs|]. split; [by left|]. split; [exact Hn|]. split; [exact Heps|].
    split; [exact Hep|]. split; [reflexivity|exact Hc'].
Defined.

