(* ===== verification/Identity.v ===== *)
(** * Identities: join tokens, certificates and places on the mesh

    The tables of store/jointokens.go, store/nodecerts.go, store/ingresses.go
    and store/mesh.go, each statement as a function on them, and the calls of
    nodes and ingresses over them: Join, RenewCertificate, JoinMesh and Hello
    (fleet, ingress/service), the checks of a certificate, removal and fork.

    A transaction sees one [now()], the time it began ([i_now]).  It is undone
    when it fails, but for the sequence of the subnet IDs, which never goes
    back.  The signing of certificates (pki) is an argument: what the check of
    the signing request said and what was issued.  The activity rows are a
    list; the instances a Join lists are left out. *)

From S2P Require Import Prelude Text PodId Rows Mesh NetText HostLabels.

(** ** Rows *)

#[export] Instance eta_Node : Eta Node := λ n,
  MkNode (n_Name n) (n_Status n) (n_StatusDescription n) (n_DownSince n) (n_RemovedAt n) (n_Draining n)
    (n_DrainStartedAt n) (n_Slots n) (n_MemHeadroomBytes n) (n_CPUOvercommit n) (n_Hostname n) (n_Arch n)
    (n_CPUModel n) (n_CPUCores n) (n_MemoryTotalBytes n) (n_DiskTotalBytes n) (n_Versions n) (n_ObjectStore n)
    (n_ObjectStoreID n) (n_PodPrefix n) (n_StartID n) (n_StoppingUntil n) (n_CurrentSerial n)
    (n_IdentityForkedAt n) (n_JoinedAt n) (n_ReconciledAt n) (n_ReconcileRequestedAt n) (n_MeshSubnet n)
    (n_MeshPrefix n) (n_MeshPublicKey n) (n_MeshEndpoint n) (n_IngressGroupVersion n).

Inductive IngressStatus : Type := IngressJoined | IngressRemoved.

#[export] Instance IngressStatus_eq_dec : EqDecision IngressStatus.
Proof. solve_decision. Defined.

Record Ingress := MkIngress {
  g_Name : string;
  g_Status : IngressStatus;
  g_JoinedAt : Time;
  g_RemovedAt : Time;
  g_MeshSubnet : Z;
  g_MeshPrefix : string;
  g_MeshAddress : string;
  g_MeshPublicKey : list Z;
  g_MeshEndpoint : string;
  g_PreviousMeshPublicKey : list Z;
  g_GroupVersion : Z;
  g_CurrentSerial : string;
  g_Version : string;
  g_LastSeen : Time;
  g_LeftAt : Time
}.

#[export] Instance eta_Ingress : Eta Ingress := λ g,
  MkIngress (g_Name g) (g_Status g) (g_JoinedAt g) (g_RemovedAt g) (g_MeshSubnet g) (g_MeshPrefix g)
    (g_MeshAddress g) (g_MeshPublicKey g) (g_MeshEndpoint g) (g_PreviousMeshPublicKey g) (g_GroupVersion g)
    (g_CurrentSerial g) (g_Version g) (g_LastSeen g) (g_LeftAt g).

Inductive CertKind : Type := CertJoin | CertRejoin | CertRenew.

Inductive RevokedReason : Type :=
| NotRevoked | RevokedRejoined | RevokedSuperseded | RevokedRemoved | RevokedForked.

#[export] Instance RevokedReason_eq_dec : EqDecision RevokedReason.
Proof. solve_decision. Defined.

Record NodeCert := MkNodeCert {
  nc_Serial : string;
  nc_Node : string;
  nc_Kind : CertKind;
  nc_KeyHash : string;
  nc_PreviousSerial : string;
  nc_TokenID : UUID;
  nc_Peer : string;
  nc_NotBefore : Time;
  nc_NotAfter : Time;
  nc_IssuedAt : Time;
  nc_FirstSeenAt : Time;
  nc_RevokedAt : Time;
  nc_RevokedReason : RevokedReason
}.

#[export] Instance eta_NodeCert : Eta NodeCert := λ c,
  MkNodeCert (nc_Serial c) (nc_Node c) (nc_Kind c) (nc_KeyHash c) (nc_PreviousSerial c) (nc_TokenID c) (nc_Peer c)
    (nc_NotBefore c) (nc_NotAfter c) (nc_IssuedAt c) (nc_FirstSeenAt c) (nc_RevokedAt c) (nc_RevokedReason c).

Record IngressCert := MkIngressCert {
  ic_Serial : string;
  ic_Ingress : string;
  ic_Kind : CertKind;
  ic_KeyHash : string;
  ic_PreviousSerial : string;
  ic_TokenID : UUID;
  ic_Peer : string;
  ic_NotBefore : Time;
  ic_NotAfter : Time;
  ic_IssuedAt : Time;
  ic_RevokedAt : Time;
  ic_RevokedReason : RevokedReason
}.

#[export] Instance eta_IngressCert : Eta IngressCert := λ c,
  MkIngressCert (ic_Serial c) (ic_Ingress c) (ic_Kind c) (ic_KeyHash c) (ic_PreviousSerial c) (ic_TokenID c) (ic_Peer c)
    (ic_NotBefore c) (ic_NotAfter c) (ic_IssuedAt c) (ic_RevokedAt c) (ic_RevokedReason c).

Inductive JoinKind : Type := JoinKindNode | JoinKindIngress.

#[export] Instance JoinKind_eq_dec : EqDecision JoinKind.
Proof. solve_decision. Defined.

Record JoinToken := MkJoinToken {
  jt_Hash : string;
  jt_ID : UUID;
  jt_CreatedBy : string;
  jt_CreatedAt : Time;
  jt_ExpiresAt : Time;
  jt_Kind : JoinKind;
  jt_NodeName : string;
  jt_UsedAt : Time;
  jt_UsedName : string;
  jt_UsedKeyHash : string;
  jt_UsedSerial : string;
  jt_UsedPeer : string
}.

#[export] Instance eta_JoinToken : Eta JoinToken := λ t,
  MkJoinToken (jt_Hash t) (jt_ID t) (jt_CreatedBy t) (jt_CreatedAt t) (jt_ExpiresAt t) (jt_Kind t) (jt_NodeName t)
    (jt_UsedAt t) (jt_UsedName t) (jt_UsedKeyHash t) (jt_UsedSerial t) (jt_UsedPeer t).

(** The row of the cluster's mesh. *)
Record pod_network := MkPodNetwork { pn_ula : Prefix; pn_peers_version : Z; pn_ingress_group_version : Z }.

#[export] Instance eta_pod_network : Eta pod_network := λ p,
  MkPodNetwork (pn_ula p) (pn_peers_version p) (pn_ingress_group_version p).

(** The activity row of an issued certificate ([recordNodeCert]). *)
Record CertEvent := MkCertEvent {
  ev_Node : string; ev_Name : string; ev_Serial : string; ev_Kind : CertKind; ev_KeyHash : string; ev_Peer : string;
  ev_NotAfter : Time; ev_Previous : string
}.

Record IDB := MkIDB {
  i_now : Time;
  i_nodes : gmap string Node;
  i_ingresses : gmap string Ingress;
  i_node_certs : gmap string NodeCert;
  i_ingress_certs : gmap string IngressCert;
  i_join_tokens : gmap string JoinToken;
  i_pod_network : option pod_network;
  (** The last subnet ID that the sequence mesh_subnets gave. *)
  i_mesh_subnets : Z;
  i_activity : list CertEvent;
  (** The notifications sent, the last one first. *)
  i_notes : list (string * string)
}.

#[export] Instance eta_IDB : Eta IDB := λ d,
  MkIDB (i_now d) (i_nodes d) (i_ingresses d) (i_node_certs d) (i_ingress_certs d) (i_join_tokens d)
    (i_pod_network d) (i_mesh_subnets d) (i_activity d) (i_notes d).

(** ** Transactions *)

Inductive StatusCode : Type :=
| PermissionDenied | Unavailable | InvalidArgument | AlreadyExists | FailedPrecondition | ResourceExhausted.

(** The errors inside a transaction: the sentinels of the store, a violated
    primary key or check of a table, or a gRPC status. *)
Inductive id_error : Type :=
| NoRow | MeshExhausted | MeshKeyTaken | IngressKeyFixed | IngressKeyRetired | NotMeshed | Duplicate | BadRow
| Status (code : StatusCode) (text : string).

Definition itx (A : Type) : Type := IDB → result id_error A * IDB.

#[export] Instance itx_ret : MRet itx := λ A a d, (Ok a, d).
#[export] Instance itx_bind : MBind itx := λ A B f m d,
  match m d with (Ok a, d') => f a d' | (Err e, d') => (Err e, d') end.

Definition ifail {A} (e : id_error) : itx A := λ d, (Err e, d).
Definition igets {A} (f : IDB → A) : itx A := λ d, (Ok (f d), d).
Definition imodify (f : IDB → IDB) : itx unit := λ d, (Ok tt, f d).

(** [noRow] and the callers' tests for [ErrNoRow]. *)
Definition row {A} (o : option A) : itx A := λ d, match o with Some a => (Ok a, d) | None => (Err NoRow, d) end.

Definition no_row_is {A} (m : itx A) (e : id_error) : itx A := λ d,
  match m d with (Err NoRow, d') => (Err e, d') | r => r end.

Definition catch_no_row {A} (m : itx A) : itx (option A) := λ d,
  match m d with
  | (Ok a, d') => (Ok (Some a), d')
  | (Err NoRow, d') => (Ok None, d')
  | (Err e, d') => (Err e, d')
  end.

(** [Store.InTx]: what a failed transaction leaves is the sequence. *)
Definition in_tx {A} (m : itx A) (d : IDB) : result id_error A * IDB :=
  match m d with
  | (Ok a, d') => (Ok a, d')
  | (Err e, d') => (Err e, d <| i_mesh_subnets := i_mesh_subnets d' |>)
  end.

Definition chanNode : string := "ferun_node".
Definition chanIngress : string := "ferun_ingress".
Definition chanLeader : string := "ferun_leader".
Definition HintMeshPeers : string := "mesh-peers".
Definition HintEnvGroups : string := "env-groups".
Definition IngressPayloadAll : string := "*".
Definition IngressPayloadMesh : string := "mesh".
Definition IngressNamePayload (name : string) : string := ("ingress:" +:+ name)%string.

Definition Notify (channel payload : string) : itx unit := imodify (λ d, d <| i_notes ::= cons (channel, payload) |>).

(** ** Names and tokens (pki/names.go, pki/join.go) *)

(** The bytes of a label, the first and the last of which are no hyphen. *)
Fixpoint label_bytes (first : bool) (s : string) : bool :=
  match s with
  | EmptyString => true
  | String c s' =>
      (between 97 122 (byteZ c) || between 48 57 (byteZ c) ||
       Ascii.eqb c "-" && negb first && negb (String.eqb s' "")) && label_bytes false s'
  end.

Definition isDNSLabel (s : string) : bool :=
  (1 <=? String.length s)%nat && (String.length s <=? 63)%nat && label_bytes true s.

Definition IsNodeName (name : string) : bool := isDNSLabel name.

Definition JoinTokenPrefix : string := "feos-join-".
Definition JoinSecretLen : nat := String.length JoinTokenPrefix + 43.
Definition IngressJoinTokenPrefix : string := "feos-ingress-join-".
Definition MaxCSRBytes : Z := 16 * 1024.

Definition HashJoinSecret (sent : string) : string := EncodeToString (Sum256 (bytes_of sent)).

Definition base64url_char (c : Ascii.ascii) : bool :=
  between 65 90 (byteZ c) || between 97 122 (byteZ c) || between 48 57 (byteZ c) || Ascii.eqb c "-" || Ascii.eqb c "_".

Definition newline (c : Ascii.ascii) : bool := (byteZ c =? 10) || (byteZ c =? 13).

(** [base64.RawURLEncoding.DecodeString] succeeds: it skips line ends, and one
    character alone is no byte. *)
Fixpoint base64url_ok (n : nat) (s : string) : bool :=
  match s with
  | EmptyString => negb (n mod 4 =? 1)%nat
  | String c s' => if newline c then base64url_ok n s' else base64url_char c && base64url_ok (S n) s'
  end.

Definition isJoinSecret (sent prefix : string) : bool :=
  HasPrefix sent prefix && (String.length sent =? String.length prefix + 43)%nat &&
  base64url_ok 0 (String.substring (String.length prefix) 43 sent).

Definition IsIngressJoinSecret (sent : string) : bool := isJoinSecret sent IngressJoinTokenPrefix.

(** ** Join tokens (store/jointokens.go) *)

Definition Used (t : JoinToken) : bool := negb (IsZero (jt_UsedAt t)).

Definition CreateJoinToken (id : UUID) (hash createdBy : string) (kind : JoinKind) (name : string) (ttl : Duration)
    : itx JoinToken := λ d,
  let t := MkJoinToken hash id createdBy (i_now d) (i_now d + interval ttl) kind name zeroTime "" "" "" "" in
  match i_join_tokens d !! hash with
  | Some _ => (Err Duplicate, d)
  | None => (Ok t, d <| i_join_tokens ::= <[hash := t]> |>)
  end.

Definition LockJoinToken (hash : string) : itx JoinToken := λ d, row (i_join_tokens d !! hash) d.

Definition MarkJoinTokenUsed (hash name keyHash serial peer : string) : itx unit := λ d,
  match i_join_tokens d !! hash with
  | None => (Err NoRow, d)
  | Some t =>
      (Ok tt, d <| i_join_tokens ::= <[hash := t <| jt_UsedAt := i_now d |> <| jt_UsedName := name |>
        <| jt_UsedKeyHash := keyHash |> <| jt_UsedSerial := serial |> <| jt_UsedPeer := peer |>]> |>)
  end.

Definition DeleteJoinToken (id : UUID) : itx bool := λ d,
  let gone := filter (λ '(_, t), jt_ID t = id) (i_join_tokens d) in
  (Ok (negb (size gone =? 0)%nat), d <| i_join_tokens ::= filter (λ '(_, t), jt_ID t ≠ id) |>).

(** [coalesce(used_at, expires_at)]. *)
Definition token_end (t : JoinToken) : Time := if Used t then jt_UsedAt t else jt_ExpiresAt t.

Definition DeleteStaleJoinTokens (keep : Duration) : itx Z := λ d,
  let stale t := bool_decide (token_end t < i_now d - interval keep) in
  (Ok (Z.of_nat (size (filter (λ '(_, t), stale t = true) (i_join_tokens d)))),
   d <| i_join_tokens ::= filter (λ '(_, t), stale t = false) |>).

(** ** Nodes' certificates (store/nodecerts.go) *)

Definition InsertNodeCert (c : NodeCert) : itx NodeCert := λ d,
  let c := c <| nc_IssuedAt := i_now d |> <| nc_FirstSeenAt := zeroTime |> <| nc_RevokedAt := zeroTime |>
    <| nc_RevokedReason := NotRevoked |> in
  match i_node_certs d !! nc_Serial c with
  | Some _ => (Err Duplicate, d)
  | None => (Ok c, d <| i_node_certs ::= <[nc_Serial c := c]> |>)
  end.

Definition GetNodeCert (serial : string) : itx NodeCert := λ d, row (i_node_certs d !! serial) d.

(** The rows of an [UPDATE]: those that [sel] selects are changed by [set]. *)
Definition update_where {A} (sel : A → bool) (set : A → A) (m : gmap string A) : gmap string A :=
  (λ a, if sel a then set a else a) <$> m.

Definition count_where {A} (sel : A → bool) (m : gmap string A) : Z :=
  Z.of_nat (size (filter (λ x : string * A, sel x.2 = true) m)).

(** [revoked_at IS NULL OR revoked_at > now()]. *)
Definition not_in_effect (now at_ : Time) : bool := IsZero at_ || (now <? at_).

Definition RevokeNodeCerts (node : string) (reason : RevokedReason) (except : string) : itx Z := λ d,
  let sel c := String.eqb (nc_Node c) node && negb (String.eqb (nc_Serial c) except) &&
               not_in_effect (i_now d) (nc_RevokedAt c) in
  (Ok (count_where sel (i_node_certs d)),
   d <| i_node_certs ::= update_where sel
          (λ c, c <| nc_RevokedAt := i_now d |> <| nc_RevokedReason := reason |>) |>).

Record NodeCertCheck := MkNodeCertCheck {
  cc_Found : bool;
  cc_RevokedAt : Time;
  cc_RevokedReason : RevokedReason;
  cc_NodeStatus : NodeStatus;
  cc_ForkedAt : Time;
  cc_Now : Time
}.

Definition Revoked (c : NodeCertCheck) : bool :=
  negb (IsZero (cc_RevokedAt c)) && negb (cc_Now c <? cc_RevokedAt c).

Definition RevokeAhead (c : NodeCertCheck) : Time :=
  if cc_Now c <? cc_RevokedAt c then cc_RevokedAt c else zeroTime.

Definition CheckNodeCert (node serial : string) : itx NodeCertCheck := λ d,
  let none := MkNodeCertCheck false zeroTime NotRevoked NodeJoined zeroTime zeroTime in
  match i_node_certs d !! serial, i_nodes d !! node with
  | Some c, Some n =>
      if String.eqb (nc_Node c) node then
        (Ok (MkNodeCertCheck true (nc_RevokedAt c) (nc_RevokedReason c) (n_Status n) (n_IdentityForkedAt n) (i_now d)), d)
      else (Ok none, d)
  | _, _ => (Ok none, d)
  end.

(** ** Nodes (store/nodes.go) *)

(** The row that [INSERT INTO nodes (name, status)] makes of the defaults. *)
Definition new_node (name : string) (now : Time) : Node :=
  MkNode name NodeJoined "" zeroTime zeroTime false zeroTime 50 1073741824 (float64_of 16) "" "" "" 0 0 0 "{}" false "" ""
    uuidNil zeroTime "" zeroTime now zeroTime zeroTime 0 "" [] "" 0.

Definition LockNode (name : string) : itx Node := λ d, row (i_nodes d !! name) d.

(** The tables of nodes and of ingresses check the names of their rows. *)
Definition InsertNode (name : string) : itx bool := λ d,
  match i_nodes d !! name with
  | Some _ => (Ok false, d)
  | None =>
      if IsNodeName name then (Ok true, d <| i_nodes ::= <[name := new_node name (i_now d)]> |>) else (Err BadRow, d)
  end.

Definition update_node (name : string) (f : Node → Node) : itx unit := imodify (λ d, d <| i_nodes ::= alter f name |>).

(** ** The mesh (store/mesh.go) *)

Definition meshKeyLen : nat := 32.

Definition Node_MeshPeer (n : Node) : bool :=
  negb (n_MeshSubnet n =? 0) && (length (n_MeshPublicKey n) =? meshKeyLen)%nat && negb (String.eqb (n_MeshEndpoint n) "").

(** [PodNetwork] and [InsertPodNetwork]. *)
Definition PodNetwork : itx (option Prefix) := igets (λ d, pn_ula <$> i_pod_network d).

Definition InsertPodNetwork (ula : Prefix) : itx unit := λ d,
  match i_pod_network d with
  | Some _ => (Err Duplicate, d)
  | None => (Ok tt, d <| i_pod_network := Some (MkPodNetwork ula 0 0) |>)
  end.

(** [checkMeshKey]; the lock it takes makes the transactions that give a peer a
    new key run one after the other. *)
Definition holds_node_key (key : list Z) (node : string) (x : string * Node) : bool :=
  bool_decide (n_MeshPublicKey x.2 = key) && negb (String.eqb x.1 node) && negb (bool_decide (n_Status x.2 = NodeRemoved)).

Definition holds_ingress_key (key : list Z) (ingress : string) (x : string * Ingress) : bool :=
  bool_decide (g_MeshPublicKey x.2 = key) && negb (String.eqb x.1 ingress) &&
  negb (bool_decide (g_Status x.2 = IngressRemoved)).

Definition checkMeshKey (key : list Z) (node ingress : string) : itx unit := λ d,
  if existsb (holds_node_key key node) (map_to_list (i_nodes d)) ||
     existsb (holds_ingress_key key ingress) (map_to_list (i_ingresses d))
  then (Err MeshKeyTaken, d) else (Ok tt, d).

Definition nextMeshSubnet : itx Z := λ d,
  if LastSubnet <=? i_mesh_subnets d then (Err MeshExhausted, d)
  else (Ok (i_mesh_subnets d + 1), d <| i_mesh_subnets ::= Z.succ |>).

Definition bumpMeshPeers : itx Z := λ d,
  match i_pod_network d with
  | None => (Ok 0, d)
  | Some p =>
      (Notify chanLeader HintMeshPeers;; Notify chanIngress IngressPayloadMesh;; mret (pn_peers_version p + 1))
        (d <| i_pod_network := Some (p <| pn_peers_version ::= Z.succ |>) |>)
  end.

Record MeshJoin := MkMeshJoin { mj_Subnet : Z; mj_Prefix : string; mj_Changed : bool }.

Definition JoinMesh (n : Node) (ula : Prefix) (key : list Z) (endpoint : string) : itx MeshJoin :=
  (if bool_decide (key = n_MeshPublicKey n) then mret tt else checkMeshKey key (n_Name n) "");;
  subnet ← (if n_MeshSubnet n =? 0 then nextMeshSubnet else mret (n_MeshSubnet n));
  let prefix := Prefix_String (NodePrefix ula subnet) in
  let changed := negb (subnet =? n_MeshSubnet n) || negb (String.eqb prefix (n_MeshPrefix n)) ||
                 negb (bool_decide (key = n_MeshPublicKey n)) || negb (String.eqb endpoint (n_MeshEndpoint n)) in
  let j := MkMeshJoin subnet prefix changed in
  if negb changed then mret j
  else
    update_node (n_Name n) (λ r, r <| n_MeshSubnet := subnet |> <| n_MeshPrefix := prefix |>
      <| n_MeshPublicKey := key |> <| n_MeshEndpoint := endpoint |>);;
    bumpMeshPeers;;
    mret j.

(** The peers among the nodes and among the ingresses. *)
Definition node_peers (nodes : gmap string Node) : gmap string Peer :=
  omap (λ n, if negb (n_MeshSubnet n =? 0) && negb (bool_decide (n_MeshPublicKey n = [])) &&
                negb (String.eqb (n_MeshEndpoint n) "") && negb (bool_decide (n_Status n = NodeRemoved))
             then Some (MkPeer (n_Name n) (n_MeshPublicKey n) (n_MeshEndpoint n) (n_MeshPrefix n)) else None) nodes.

Definition ingress_peers (ingresses : gmap string Ingress) : list (string * Peer) :=
  omap (λ x : string * Ingress, let g := x.2 in
    if negb (g_MeshSubnet g =? 0) && negb (bool_decide (g_MeshPublicKey g = [])) &&
       negb (String.eqb (g_MeshEndpoint g) "") && negb (bool_decide (g_Status g = IngressRemoved))
    then let k := IngressPeerName (g_Name g) in
         Some (k, MkPeer k (g_MeshPublicKey g) (g_MeshEndpoint g) (g_MeshPrefix g)) else None) (map_to_list ingresses).

Definition MeshPeers (d : IDB) : Peers :=
  match i_pod_network d with
  | None => MkPeers 0 ∅
  | Some p => MkPeers (pn_peers_version p)
                (list_to_map (ingress_peers (i_ingresses d)) ∪ node_peers (i_nodes d))
  end.

(** [RejoinNode], [RemoveNode], [ForkNode], [SetNodeIngressGroupVersion]. *)
Definition RejoinNode (name : string) : itx unit :=
  InsertNode name;;
  n ← LockNode name;
  update_node name (λ r, r <| n_Status := NodeJoined |> <| n_RemovedAt := zeroTime |> <| n_IdentityForkedAt := zeroTime |>
    <| n_CurrentSerial := ""%string |> <| n_StatusDescription := ""%string |> <| n_MeshSubnet := 0 |>
    <| n_MeshPrefix := ""%string |> <| n_MeshPublicKey := [] |> <| n_MeshEndpoint := ""%string |>
    <| n_IngressGroupVersion := 0 |>);;
  RevokeNodeCerts name RevokedRejoined "";;
  (if Node_MeshPeer n && negb (bool_decide (n_Status n = NodeRemoved)) then bumpMeshPeers;; mret tt else mret tt);;
  (if negb (n_IngressGroupVersion n =? 0) then Notify chanIngress IngressPayloadAll else mret tt);;
  Notify chanNode name.

Definition RemoveNode (name : string) : itx Node :=
  before ← LockNode name;
  now ← igets i_now;
  update_node name (λ r, r <| n_Status := NodeRemoved |>
    <| n_RemovedAt := if IsZero (n_RemovedAt r) then now else n_RemovedAt r |>);;
  n ← LockNode name;
  RevokeNodeCerts name RevokedRemoved "";;
  (if Node_MeshPeer before && negb (bool_decide (n_Status before = NodeRemoved)) then bumpMeshPeers;; mret tt else mret tt);;
  Notify chanNode name;;
  mret n.

Definition ForkNode (name description : string) : itx unit :=
  LockNode name;;
  now ← igets i_now;
  update_node name (λ r, r <| n_IdentityForkedAt := if IsZero (n_IdentityForkedAt r) then now else n_IdentityForkedAt r |>
    <| n_StatusDescription := description |>);;
  RevokeNodeCerts name RevokedForked "";;
  Notify chanNode name.

Definition SetNodeIngressGroupVersion (node : string) (v : Z) : itx bool := λ d,
  match i_nodes d !! node with
  | Some n =>
      if n_IngressGroupVersion n =? v then (Ok false, d)
      else (update_node node (λ r, r <| n_IngressGroupVersion := v |>);; Notify chanIngress IngressPayloadAll;; mret true) d
  | None => (Ok false, d)
  end.

(** The certificate [c] was issued after the current one, or there is none
    ([certNewer]). *)
Definition cert_newer (d : IDB) (node : string) (current : string) (c : NodeCert) : bool :=
  negb (String.eqb current (nc_Serial c)) &&
  match i_node_certs d !! current with
  | Some cur => if String.eqb (nc_Node cur) node then nc_IssuedAt cur <? nc_IssuedAt c else true
  | None => true
  end.

Record Presentation := MkPresentation { pr_FirstSeen : bool; pr_Current : bool; pr_Superseded : Z }.

Definition PresentationNews (node serial : string) (d : IDB) : bool :=
  match i_node_certs d !! serial, i_nodes d !! node with
  | Some c, Some n =>
      if String.eqb (nc_Node c) node then IsZero (nc_FirstSeenAt c) || cert_newer d node (n_CurrentSerial n) c else true
  | _, _ => true
  end.

Definition RecordPresentation (node serial : string) (grace : Duration) : itx Presentation :=
  LockNode node;;
  now ← igets i_now;
  firstSeen ← igets (λ d, match i_node_certs d !! serial with
    | Some c => String.eqb (nc_Node c) node && IsZero (nc_FirstSeenAt c) | None => false end);
  imodify (λ d, if firstSeen then d <| i_node_certs ::= alter (λ c, c <| nc_FirstSeenAt := now |>) serial |> else d);;
  n ← LockNode node;
  c ← GetNodeCert serial;
  if negb (String.eqb (nc_Node c) node) then ifail NoRow else
  newer ← igets (λ d, cert_newer d node (n_CurrentSerial n) c);
  if negb newer then mret (MkPresentation firstSeen false 0) else
  update_node node (λ r, r <| n_CurrentSerial := serial |>);;
  let sel x := String.eqb (nc_Node x) node && negb (String.eqb (nc_Serial x) serial) && IsZero (nc_RevokedAt x) &&
               (nc_IssuedAt x <? nc_IssuedAt c) in
  superseded ← igets (λ d, count_where sel (i_node_certs d));
  imodify (λ d, d <| i_node_certs ::= update_where sel
    (λ x, x <| nc_RevokedAt := now + interval grace |> <| nc_RevokedReason := RevokedSuperseded |>) |>);;
  (if 0 <? superseded then Notify chanNode node else mret tt);;
  mret (MkPresentation firstSeen true superseded).

Definition DeleteOldNodeCerts (keep : Duration) : itx Z := λ d,
  let old c := nc_NotAfter c <? i_now d - interval keep in
  (Ok (count_where old (i_node_certs d)), d <| i_node_certs ::= filter (λ '(_, c), old c = false) |>).

(** ** Ingresses (store/ingresses.go) *)

Definition Ingress_MeshPeer (g : Ingress) : bool :=
  negb (g_MeshSubnet g =? 0) && (length (g_MeshPublicKey g) =? meshKeyLen)%nat && negb (String.eqb (g_MeshEndpoint g) "").

Definition member (g : Ingress) : bool :=
  negb (bool_decide (g_Status g = IngressRemoved)) && negb (String.eqb (g_MeshAddress g) "").

Definition new_ingress (name : string) (now : Time) : Ingress :=
  MkIngress name IngressJoined now zeroTime 0 "" "" [] "" [] 0 "" "" zeroTime zeroTime.

Definition InsertIngress (name : string) : itx bool := λ d,
  match i_ingresses d !! name with
  | Some _ => (Ok false, d)
  | None =>
      if IsNodeName name then (Ok true, d <| i_ingresses ::= <[name := new_ingress name (i_now d)]> |>) else (Err BadRow, d)
  end.

Definition LockIngress (name : string) : itx Ingress := λ d, row (i_ingresses d !! name) d.

Definition update_ingress (name : string) (f : Ingress → Ingress) : itx unit :=
  imodify (λ d, d <| i_ingresses ::= alter f name |>).

Definition bumpIngressGroup : itx Z := λ d,
  match i_pod_network d with
  | None => (Err NotMeshed, d)
  | Some p =>
      (Notify chanLeader HintEnvGroups;; mret (pn_ingress_group_version p + 1))
        (d <| i_pod_network := Some (p <| pn_ingress_group_version ::= Z.succ |>) |>)
  end.

Definition RevokeIngressCerts (name : string) (reason : RevokedReason) : itx Z := λ d,
  let sel c := String.eqb (ic_Ingress c) name && not_in_effect (i_now d) (ic_RevokedAt c) in
  let n := count_where sel (i_ingress_certs d) in
  ((if 0 <? n then Notify chanIngress (IngressNamePayload name) else mret tt);; mret n)
    (d <| i_ingress_certs ::= update_where sel
            (λ c, c <| ic_RevokedAt := i_now d |> <| ic_RevokedReason := reason |>) |>).

Definition RejoinIngress (name : string) : itx unit :=
  InsertIngress name;;
  g ← LockIngress name;
  version ← (if bool_decide (g_Status g = IngressRemoved) && negb (String.eqb (g_MeshAddress g) "")
             then bumpIngressGroup else mret (g_GroupVersion g));
  update_ingress name (λ r, r <| g_Status := IngressJoined |> <| g_RemovedAt := zeroTime |>
    <| g_PreviousMeshPublicKey := if bool_decide (g_MeshPublicKey r = []) then g_PreviousMeshPublicKey r
                                  else g_MeshPublicKey r |>
    <| g_MeshPublicKey := [] |> <| g_MeshEndpoint := ""%string |> <| g_CurrentSerial := ""%string |>
    <| g_GroupVersion := version |>);;
  RevokeIngressCerts name RevokedRejoined;;
  (if Ingress_MeshPeer g && negb (bool_decide (g_Status g = IngressRemoved)) then bumpMeshPeers;; mret tt else mret tt);;
  Notify chanIngress (IngressNamePayload name).

Definition RemoveIngress (name : string) : itx bool :=
  o ← catch_no_row (LockIngress name);
  match o with
  | None => mret false
  | Some g =>
      version ← (if member g then bumpIngressGroup else mret (g_GroupVersion g));
      now ← igets i_now;
      update_ingress name (λ r, r <| g_Status := IngressRemoved |>
        <| g_RemovedAt := if IsZero (g_RemovedAt r) then now else g_RemovedAt r |> <| g_GroupVersion := version |>);;
      RevokeIngressCerts name RevokedRemoved;;
      (if Ingress_MeshPeer g && negb (bool_decide (g_Status g = IngressRemoved)) then bumpMeshPeers;; mret tt else mret tt);;
      Notify chanIngress (IngressNamePayload name);;
      mret true
  end.

Record IngressMeshJoin := MkIngressMeshJoin {
  ij_Subnet : Z; ij_Prefix : string; ij_Address : string; ij_Changed : bool; ij_AddressChanged : bool
}.

Definition JoinIngressMesh (g : Ingress) (ula : Prefix) (key : list Z) (endpoint : string) : itx IngressMeshJoin :=
  if negb (IsValid ula) then ifail NotMeshed
  else if negb (bool_decide (g_MeshPublicKey g = [])) && negb (bool_decide (key = g_MeshPublicKey g)) then ifail IngressKeyFixed
  else
    (if bool_decide (g_MeshPublicKey g = []) then
       if negb (bool_decide (g_PreviousMeshPublicKey g = [])) && bool_decide (key = g_PreviousMeshPublicKey g)
       then ifail IngressKeyRetired
       else checkMeshKey key "" (g_Name g)
     else mret tt);;
    subnet ← (if g_MeshSubnet g =? 0 then nextMeshSubnet else mret (g_MeshSubnet g));
    let prefix := NodePrefix ula subnet in
    let ptext := Prefix_String prefix in
    let address := Addr_String (HostAddress prefix) "" in
    let addressChanged := negb (String.eqb address (g_MeshAddress g)) in
    let changed := negb (subnet =? g_MeshSubnet g) || negb (String.eqb ptext (g_MeshPrefix g)) ||
                   negb (bool_decide (key = g_MeshPublicKey g)) || negb (String.eqb endpoint (g_MeshEndpoint g)) in
    let j := MkIngressMeshJoin subnet ptext address changed addressChanged in
    if negb changed && negb addressChanged then mret j
    else
      version ← (if addressChanged && negb (bool_decide (g_Status g = IngressRemoved)) then bumpIngressGroup
                 else mret (g_GroupVersion g));
      update_ingress (g_Name g) (λ r, r <| g_MeshSubnet := subnet |> <| g_MeshPrefix := ptext |>
        <| g_MeshAddress := address |> <| g_MeshPublicKey := key |> <| g_MeshEndpoint := endpoint |>
        <| g_GroupVersion := version |>);;
      (if changed && negb (bool_decide (g_Status g = IngressRemoved)) then bumpMeshPeers;; mret tt else mret tt);;
      Notify chanIngress (IngressNamePayload (g_Name g));;
      mret j.

(** [ingressCertNewer]. *)
Definition ingress_cert_newer (d : IDB) (name : string) (current : string) (c : IngressCert) : bool :=
  negb (String.eqb current (ic_Serial c)) &&
  match i_ingress_certs d !! current with
  | Some cur => if String.eqb (ic_Ingress cur) name then ic_IssuedAt cur <? ic_IssuedAt c else true
  | None => true
  end.

Definition InsertIngressCert (c : IngressCert) : itx IngressCert := λ d,
  let c := c <| ic_IssuedAt := i_now d |> <| ic_RevokedAt := zeroTime |> <| ic_RevokedReason := NotRevoked |> in
  match i_ingress_certs d !! ic_Serial c with
  | Some _ => (Err Duplicate, d)
  | None => (Ok c, d <| i_ingress_certs ::= <[ic_Serial c := c]> |>)
  end.

Definition GetIngressCert (serial : string) : itx IngressCert := λ d, row (i_ingress_certs d !! serial) d.

Definition PresentIngressCert (name serial : string) (grace : Duration) : itx Z :=
  g ← LockIngress name;
  now ← igets i_now;
  c ← GetIngressCert serial;
  if negb (String.eqb (ic_Ingress c) name) then ifail NoRow else
  newer ← igets (λ d, ingress_cert_newer d name (g_CurrentSerial g) c);
  if negb newer then mret 0 else
  update_ingress name (λ r, r <| g_CurrentSerial := serial |>);;
  let sel x := String.eqb (ic_Ingress x) name && negb (String.eqb (ic_Serial x) serial) && IsZero (ic_RevokedAt x) &&
               (ic_IssuedAt x <? ic_IssuedAt c) in
  superseded ← igets (λ d, count_where sel (i_ingress_certs d));
  imodify (λ d, d <| i_ingress_certs ::= update_where sel
    (λ x, x <| ic_RevokedAt := now + interval grace |> <| ic_RevokedReason := RevokedSuperseded |>) |>);;
  (if 0 <? superseded then Notify chanIngress (IngressNamePayload name) else mret tt);;
  mret superseded.

Definition SeenIngress (name version : string) : itx unit :=
  LockIngress name;;
  now ← igets i_now;
  update_ingress name (λ r, r <| g_LastSeen := now |> <| g_LeftAt := zeroTime |>
    <| g_Version := if String.eqb version "" then g_Version r else version |>).

(** [IngressGroup]: the members' addresses in order, and the version. *)
Definition IngressGroup (d : IDB) : list string * Z :=
  match i_pod_network d with
  | None => ([], 0)
  | Some p =>
      (sort_by String.leb (g_MeshAddress <$> filter (λ g, member g = true) (snd <$> map_to_list (i_ingresses d))),
       pn_ingress_group_version p)
  end.

(** Newest first: a certificate comes before those issued earlier, and of those
    issued at once before the ones with a smaller serial. *)
Definition cert_leb (a b : IngressCert) : bool :=
  (ic_IssuedAt b <? ic_IssuedAt a) || (ic_IssuedAt a =? ic_IssuedAt b) && String.leb (ic_Serial b) (ic_Serial a).

Definition NewestIngressCert (name : string) : itx string := igets (λ d,
  match sort_by cert_leb (filter (λ c, ic_Ingress c = name ∧ IsZero (ic_RevokedAt c) = true)
          (snd <$> map_to_list (i_ingress_certs d))) with
  | c :: _ => ic_Serial c
  | [] => ""%string
  end).

Record IngressCertCheck := MkIngressCertCheck {
  gc_Found : bool;
  gc_IngressStatus : IngressStatus;
  gc_RevokedAt : Time;
  gc_RevokedReason : RevokedReason;
  gc_NotAfter : Time;
  gc_Now : Time
}.

Definition ingress_Revoked (c : IngressCertCheck) : bool :=
  negb (IsZero (gc_RevokedAt c)) && negb (gc_Now c <? gc_RevokedAt c).

Definition ingress_RevokeAhead (c : IngressCertCheck) : Time :=
  if gc_Now c <? gc_RevokedAt c then gc_RevokedAt c else zeroTime.

Definition Expired (c : IngressCertCheck) : bool := negb (gc_Now c <? gc_NotAfter c).

Definition CheckIngressCert (name serial : string) : itx IngressCertCheck := λ d,
  let none := MkIngressCertCheck false IngressJoined zeroTime NotRevoked zeroTime zeroTime in
  match i_ingress_certs d !! serial, i_ingresses d !! name with
  | Some c, Some g =>
      if String.eqb (ic_Ingress c) name then
        (Ok (MkIngressCertCheck true (g_Status g) (ic_RevokedAt c) (ic_RevokedReason c) (ic_NotAfter c) (i_now d)), d)
      else (Ok none, d)
  | _, _ => (Ok none, d)
  end.
