(* ===== verification/Joins.v ===== *)
(** * The calls of nodes and ingresses on their identities

    fleet (join.go, renew.go, check.go, mesh.go) and ingress/service (join.go,
    renew.go, check.go, hello.go, admin.go) over the tables of [Identity], and
    the choice of the cluster's network at a start (server.go).  [step] is the
    control plane as a machine: one event is one call of any node, ingress,
    operator or loop, with what it was sent and the time its transaction
    began, which may be before that of a transaction that committed already. *)

From S2P Require Import Prelude Text PodId Rows Mesh Wg NetText HostLabels Identity.

#[local] Open Scope string_scope.
#[local] Open Scope list_scope.
#[local] Open Scope Z_scope.

(** ** Answers *)

(** What pki issued: the serial and the times of the leaf certificate. *)
Record Leaf := MkLeaf { lf_Serial : string; lf_NotBefore : Time; lf_NotAfter : Time }.

(** A signing request: its length and what [pki.CheckCSR] says of it, the hash
    of its key or an error. *)
Record CSR := MkCSR { cs_Len : Z; cs_Check : result string string }.

(** The connection a call comes on ([nodelink.Peer], [nodelink.IngressPeer]). *)
Record Caller := MkCaller { cl_Name : string; cl_Serial : string; cl_Addr : string }.

Definition error_text (e : id_error) : string :=
  match e with
  | NoRow => "no such row"
  | MeshExhausted => "every /96 of the pod network has been handed out"
  | MeshKeyTaken => "the WireGuard key is another peer's"
  | IngressKeyFixed => "the mesh key of the ingress is fixed; join it again to change it"
  | IngressKeyRetired => "the mesh key of the ingress was retired by its join again"
  | NotMeshed => "the cluster is not meshed"
  | Duplicate => "duplicate key value violates unique constraint"
  | BadRow => "new row violates check constraint"
  | Status _ text => text
  end.

Definition answer (A : Type) : Type := result (StatusCode * string) A.

(** [rpcError]: a status as it is, any other error as UNAVAILABLE. *)
Definition rpcError (what : string) (e : id_error) : StatusCode * string :=
  match e with Status c t => (c, t) | e => (Unavailable, what +:+ ": " +:+ error_text e) end.

Definition answered {A} (what : string) (r : result id_error A * IDB) : answer A * IDB :=
  match r with (Ok a, d) => (Ok a, d) | (Err e, d) => (Err (rpcError what e), d) end.

Definition refuse {A} (code : StatusCode) (text : string) (d : IDB) : answer A * IDB := (Err (code, text), d).

Definition of_result {A} (code : StatusCode) (pre : string) (r : result string A) : itx A :=
  match r with Ok a => mret a | Err text => ifail (Status code (pre +:+ text)) end.

Definition name_rule : string :=
  "1 to 63 lowercase letters, digits and " +:+ quoted "-" +:+ ", beginning and ending with a letter or a digit".

(** ** Nodes: join (fleet/join.go) *)

Definition joinRetryWindow : Duration := 10 * Minute.
Definition DefaultJoinTokenTTL : Duration := Hour.

(** [IssueJoinToken] of a node and of an ingress; the secret's hash and the
    row's ID are drawn.  A bad name is answered with HTTP's 400. *)
Definition IssueJoinToken (kind : JoinKind) (createdBy node : string) (ttl : Duration) (id : UUID) (hash : string)
    : itx JoinToken :=
  if negb (String.eqb node "") && negb (IsNodeName node) then
    ifail (Status InvalidArgument
      (match kind with
       | JoinKindNode => "node " +:+ quoted node +:+ " is not a node name: "
       | JoinKindIngress => "ingress name " +:+ quoted node +:+ " is not a name: "
       end +:+ name_rule))
  else CreateJoinToken id hash createdBy kind node (if ttl <=? 0 then DefaultJoinTokenTTL else ttl).

(** [firstAnswer]. *)
Definition firstAnswer (t : JoinToken) : itx (option NodeCert) :=
  o ← catch_no_row (LockNode (jt_UsedName t));
  match o with
  | None => mret None
  | Some n =>
      if bool_decide (n_Status n = NodeRemoved) || Forked n then mret None else
      o ← catch_no_row (GetNodeCert (jt_UsedSerial t));
      match o with
      | None => mret None
      | Some c =>
          if negb (String.eqb (nc_Node c) (jt_UsedName t)) || negb (IsZero (nc_RevokedAt c)) then mret None else mret (Some c)
      end
  end.

Definition recordNodeCert (node : string) (kind : CertKind) (leaf : Leaf) (keyHash peer previous : string) : itx unit :=
  imodify (λ d, d <| i_activity ::= cons (MkCertEvent node
    ("node certificate issued (" +:+ match kind with CertJoin => "join" | CertRejoin => "rejoin" | CertRenew => "renew" end +:+ ")")
    (lf_Serial leaf) kind keyHash peer (lf_NotAfter leaf) previous) |>).

Definition node_cert (leaf : Leaf) (node : string) (kind : CertKind) (keyHash previous : string) (token : UUID) (peer : string)
    : NodeCert :=
  MkNodeCert (lf_Serial leaf) node kind keyHash previous token peer (lf_NotBefore leaf) (lf_NotAfter leaf) zeroTime zeroTime
    zeroTime NotRevoked.

Definition issueNodeCert (t : JoinToken) (name : string) (kind : CertKind) (keyHash peer : string) (leaf : result string Leaf)
    : itx string :=
  leaf ← of_result InvalidArgument "issue the node's certificate: " leaf;
  InsertNodeCert (node_cert leaf name kind keyHash "" (jt_ID t) peer);;
  recordNodeCert name kind leaf keyHash peer "";;
  mret (lf_Serial leaf).

(** The transaction of [join]: the name and the serial it answers with. *)
Definition join_tx (hash name peer : string) (csr : CSR) (leaf : result string Leaf) : itx (string * string) :=
  t ← no_row_is (LockJoinToken hash) (Status PermissionDenied "unknown join token");
  if negb (bool_decide (jt_Kind t = JoinKindNode)) then ifail (Status PermissionDenied "this join token is for an ingress") else
  keyHash ← of_result InvalidArgument "" (cs_Check csr);
  now ← igets i_now;
  if Used t then
    if negb (String.eqb (jt_UsedKeyHash t) keyHash) || negb (now - joinRetryWindow <? jt_UsedAt t)
    then ifail (Status PermissionDenied "join token already used") else
    first ← firstAnswer t;
    match first with
    | None => ifail (Status PermissionDenied "join token already used")
    | Some c =>
        serial ← issueNodeCert t (jt_UsedName t) (nc_Kind c) keyHash peer leaf;
        mret (jt_UsedName t, serial)
    end
  else if negb (now <? jt_ExpiresAt t) then ifail (Status PermissionDenied "join token expired") else
    '(name, kind) ←
      (if negb (String.eqb (jt_NodeName t) "") then RejoinNode (jt_NodeName t);; mret (jt_NodeName t, CertRejoin)
       else
         created ← InsertNode name;
         if negb created then ifail (Status AlreadyExists ("node " +:+ name +:+ " exists; join it with a token pinned to its name"))
         else mret (name, CertJoin));
    serial ← issueNodeCert t name kind keyHash peer leaf;
    MarkJoinTokenUsed hash name keyHash serial peer;;
    mret (name, serial).

(** [join]; [admitted] says that the limits of joins let it through. *)
Definition join (peer token name : string) (admitted : bool) (csr : CSR) (leaf : result string Leaf) (d : IDB)
    : answer (string * string) * IDB :=
  if HasPrefix token IngressJoinTokenPrefix then refuse InvalidArgument "this join token is for an ingress" d
  else if negb (HasPrefix token JoinTokenPrefix) || negb (String.length token =? JoinSecretLen)%nat
  then refuse InvalidArgument "the join token is not feos-join-<secret>: send it without the pin" d
  else if negb (IsNodeName name) then refuse InvalidArgument ("node name " +:+ quoted name +:+ ": " +:+ name_rule) d
  else if (cs_Len csr =? 0) || (MaxCSRBytes <? cs_Len csr)
  then refuse InvalidArgument "the certificate signing request must hold 1 to 16384 bytes" d
  else if negb admitted then refuse ResourceExhausted "too many joins" d
  else answered "join" (in_tx (join_tx (HashJoinSecret token) name peer csr leaf) d).

(** ** Nodes: the certificate's check (fleet/check.go) *)

Definition reason_text (r : RevokedReason) : string :=
  match r with
  | NotRevoked => "" | RevokedRejoined => "rejoined" | RevokedSuperseded => "superseded"
  | RevokedRemoved => "removed" | RevokedForked => "forked"
  end.

Definition forkedText (node : string) : string :=
  "identity of node " +:+ node +:+ " forked; join it again with a token pinned to its name".

(** [refusalText], [""] when nothing refuses. *)
Definition refusalText (node : string) (c : NodeCertCheck) : string :=
  if negb (cc_Found c) then "certificate of node " +:+ node +:+ " is unknown; join it again"
  else if bool_decide (cc_NodeStatus c = NodeRemoved) then "node " +:+ node +:+ " was removed; join it again"
  else if negb (IsZero (cc_ForkedAt c)) then forkedText node
  else if Revoked c && negb (bool_decide (cc_RevokedReason c = RevokedSuperseded))
  then "certificate of node " +:+ node +:+ " was revoked (" +:+ reason_text (cc_RevokedReason c) +:+ "); join it again"
  else "".

Definition supersededPast (c : NodeCertCheck) : bool :=
  Revoked c && bool_decide (cc_RevokedReason c = RevokedSuperseded).

Definition supersededText : string := "certificate superseded; reconnect with the node's newest certificate".

Definition checkInTx (node serial : string) : itx unit :=
  c ← CheckNodeCert node serial;
  if negb (String.eqb (refusalText node c) "") then ifail (Status PermissionDenied (refusalText node c))
  else if supersededPast c then ifail (Status Unavailable supersededText)
  else mret tt.

(** What [CheckNode] answers: the time until which the certificate is valid
    (zero: no end), a refusal, a superseded certificate, or an error. *)
Inductive check_answer : Type :=
| Allowed (revokeAt : Time) | RefusedFor (text : string) | CertSuperseded | CheckFailed.

Definition fork_tx (node serial peerAddr : string) : itx check_answer :=
  LockNode node;;
  c ← CheckNodeCert node serial;
  if negb (String.eqb (refusalText node c) "") then mret (RefusedFor (refusalText node c))
  else if negb (supersededPast c) then mret (Allowed (RevokeAhead c))
  else
    ForkNode node ("identity forked: a superseded certificate was presented at " +:+ format_rfc3339 (cc_Now c) +:+
                   " from " +:+ peerAddr +:+ "; join the node again with a token pinned to its name");;
    mret (RefusedFor (forkedText node)).

Definition fork (node serial peerAddr : string) (d : IDB) : check_answer * IDB :=
  match in_tx (fork_tx node serial peerAddr) d with
  | (Ok a, d') => (a, d')
  | (Err _, d') => (CheckFailed, d')
  end.

(** [CheckNode]: [read] is the database the check reads, [d] that of the
    transaction of a fork. *)
Definition CheckNode (node serial peerAddr : string) (atAccept : bool) (read d : IDB) : check_answer * IDB :=
  match (CheckNodeCert node serial read).1 with
  | Err _ => (CheckFailed, d)
  | Ok c =>
      if negb (String.eqb (refusalText node c) "") then (RefusedFor (refusalText node c), d)
      else if supersededPast c then if negb atAccept then (CertSuperseded, d) else fork node serial peerAddr d
      else (Allowed (RevokeAhead c), d)
  end.

(** [OnPresented]. *)
Definition OnPresented (node serial : string) (grace : Duration) (d : IDB) : IDB :=
  if negb (PresentationNews node serial d) then d else (in_tx (RecordPresentation node serial grace) d).2.

(** ** Nodes: renewal and the mesh (fleet/renew.go, fleet/mesh.go) *)

Definition renew_tx (p : Caller) (csr : CSR) (leaf : result string Leaf) : itx string :=
  no_row_is (LockNode (cl_Name p)) (Status PermissionDenied ("node " +:+ cl_Name p +:+ " is unknown; join it again"));;
  checkInTx (cl_Name p) (cl_Serial p);;
  keyHash ← of_result InvalidArgument "" (cs_Check csr);
  leaf ← of_result InvalidArgument "issue the node's certificate: " leaf;
  InsertNodeCert (node_cert leaf (cl_Name p) CertRenew keyHash (cl_Serial p) uuidNil (cl_Addr p));;
  recordNodeCert (cl_Name p) CertRenew leaf keyHash (cl_Addr p) (cl_Serial p);;
  mret (lf_Serial leaf).

Definition renewCertificate (p : Caller) (csr : CSR) (leaf : result string Leaf) (d : IDB) : answer string * IDB :=
  answered "renew the certificate" (in_tx (renew_tx p csr leaf) d).

Section calls.
(** X25519 with the fixed probe gives all zeros: the key is a point of small
    order. *)
Context (small_order : list Z → bool).

(** [mesh.CheckKey]. *)
Definition CheckKey (key : list Z) : result string unit :=
  if negb (length key =? meshKeyLen)%nat
  then Err ("the key has " +:+ pretty (Z.of_nat (length key)) +:+ " bytes, not 32")
  else if small_order key then Err "the key is a point of small order, which is nobody's key"
  else Ok tt.

Definition mesh_errors (node : string) (ula : Prefix) (what : string) (r : result id_error MeshJoin * IDB)
    : answer MeshJoin * IDB :=
  match r with
  | (Err MeshExhausted, d) =>
      (Err (ResourceExhausted, "every /96 of the pod network " +:+ Prefix_String ula +:+ " has been handed out"), d)
  | (Err MeshKeyTaken, d) =>
      (Err (FailedPrecondition, "the mesh key of node " +:+ node +:+ " is another peer's; make a new one"), d)
  | r => answered what r
  end.

Definition joinMesh_tx (p : Caller) (ula : Prefix) (joining : bool) (key : list Z) (endpoint : string) : itx MeshJoin :=
  n ← no_row_is (LockNode (cl_Name p)) (Status PermissionDenied ("node " +:+ cl_Name p +:+ " is unknown; join it again"));
  checkInTx (cl_Name p) (cl_Serial p);;
  if negb joining then mret (MkMeshJoin 0 "" false) else JoinMesh n ula key endpoint.

(** [joinMesh]; [ula] is the network the instance was configured with. *)
Definition joinMesh (p : Caller) (ula : Prefix) (key : list Z) (endpoint : string) (d : IDB) : answer MeshJoin * IDB :=
  match
    match key with
    | [] => Ok ""
    | _ =>
        if negb (length key =? meshKeyLen)%nat
        then Err ("public_key has " +:+ pretty (Z.of_nat (length key)) +:+ " bytes, not 32")
        else match CheckKey key with
        | Err text => Err ("public_key: " +:+ text)
        | Ok _ => match CheckEndpoint endpoint with Err text => Err (Clean text) | Ok ep => Ok ep end
        end
    end
  with
  | Err text => refuse InvalidArgument text d
  | Ok endpoint =>
      let joining := IsValid ula && negb (bool_decide (key = [])) in
      mesh_errors (cl_Name p) ula "join the mesh" (in_tx (joinMesh_tx p ula joining key endpoint) d)
  end.

(** ** Ingresses: join (ingress/service/join.go) *)

Definition ingress_firstAnswer (t : JoinToken) : itx (option IngressCert) :=
  o ← catch_no_row (LockIngress (jt_UsedName t));
  match o with
  | None => mret None
  | Some g =>
      if bool_decide (g_Status g = IngressRemoved) then mret None else
      o ← catch_no_row (GetIngressCert (jt_UsedSerial t));
      match o with
      | None => mret None
      | Some c =>
          if negb (String.eqb (ic_Ingress c) (jt_UsedName t)) || negb (IsZero (ic_RevokedAt c)) then mret None else mret (Some c)
      end
  end.

Definition ingress_cert (leaf : Leaf) (name : string) (kind : CertKind) (keyHash previous : string) (token : UUID)
    (peer : string) : IngressCert :=
  MkIngressCert (lf_Serial leaf) name kind keyHash previous token peer (lf_NotBefore leaf) (lf_NotAfter leaf) zeroTime
    zeroTime NotRevoked.

Definition issueJoinCert (t : JoinToken) (name : string) (kind : CertKind) (keyHash peer : string) (leaf : result string Leaf)
    : itx string :=
  leaf ← of_result InvalidArgument "issue the ingress's certificate: " leaf;
  InsertIngressCert (ingress_cert leaf name kind keyHash "" (jt_ID t) peer);;
  mret (lf_Serial leaf).

Definition ingress_join_tx (hash name keyHash peer : string) (leaf : result string Leaf) : itx (string * string) :=
  t ← no_row_is (LockJoinToken hash) (Status PermissionDenied "unknown join token");
  if negb (bool_decide (jt_Kind t = JoinKindIngress)) then ifail (Status PermissionDenied "this join token is for a node") else
  now ← igets i_now;
  if Used t then
    if negb (String.eqb (jt_UsedKeyHash t) keyHash) || negb (now - joinRetryWindow <? jt_UsedAt t)
    then ifail (Status PermissionDenied "join token already used") else
    first ← ingress_firstAnswer t;
    match first with
    | None => ifail (Status PermissionDenied "join token already used")
    | Some c =>
        serial ← issueJoinCert t (jt_UsedName t) (ic_Kind c) keyHash peer leaf;
        mret (jt_UsedName t, serial)
    end
  else if negb (now <? jt_ExpiresAt t) then ifail (Status PermissionDenied "join token expired") else
    '(joined, kind) ←
      (if negb (String.eqb (jt_NodeName t) "") then RejoinIngress (jt_NodeName t);; mret (jt_NodeName t, CertRejoin)
       else
         created ← InsertIngress name;
         if negb created then ifail (Status AlreadyExists ("ingress " +:+ name +:+ " exists; join it with a token pinned to its name"))
         else mret (name, CertJoin));
    serial ← issueJoinCert t joined kind keyHash peer leaf;
    MarkJoinTokenUsed hash joined keyHash serial peer;;
    mret (joined, serial).

(** [Join]. *)
Definition Join (peer token name : string) (admitted : bool) (csr : CSR) (leaf : result string Leaf) (d : IDB)
    : answer (string * string) * IDB :=
  if HasPrefix token JoinTokenPrefix then refuse InvalidArgument "this join token is for a node" d
  else if negb (IsIngressJoinSecret token)
  then refuse InvalidArgument "the join token is not feos-ingress-join-<secret>: send it without the pin" d
  else if negb (IsNodeName name) then refuse InvalidArgument ("ingress name " +:+ quoted name +:+ ": " +:+ name_rule) d
  else if (cs_Len csr =? 0) || (MaxCSRBytes <? cs_Len csr)
  then refuse InvalidArgument "the certificate signing request must hold 1 to 16384 bytes" d
  else if negb admitted then refuse ResourceExhausted "too many joins" d
  else match cs_Check csr with
  | Err text => refuse InvalidArgument text d
  | Ok keyHash => answered "join" (in_tx (ingress_join_tx (HashJoinSecret token) name keyHash peer leaf) d)
  end.

(** ** Ingresses: check, renewal, Hello *)

Definition ingress_refusalText (name serial : string) (c : IngressCertCheck) : string :=
  if negb (gc_Found c) then "certificate " +:+ serial +:+ " is not ingress " +:+ name +:+ "'s"
  else if bool_decide (gc_IngressStatus c = IngressRemoved) then "ingress " +:+ name +:+ " was removed; join it again"
  else if ingress_Revoked c && bool_decide (gc_RevokedReason c = RevokedSuperseded)
  then "certificate " +:+ serial +:+ " of ingress " +:+ name +:+ " was superseded; reconnect with the newest certificate"
  else if ingress_Revoked c
  then "certificate " +:+ serial +:+ " of ingress " +:+ name +:+ " was revoked (" +:+ reason_text (gc_RevokedReason c) +:+
       "); join it again"
  else if Expired c then "certificate " +:+ serial +:+ " of ingress " +:+ name +:+ " expired; join it again"
  else "".

Definition CheckIngress (name serial : string) (d : IDB) : check_answer :=
  match (CheckIngressCert name serial d).1 with
  | Err _ => CheckFailed
  | Ok c =>
      if negb (String.eqb (ingress_refusalText name serial c) "") then RefusedFor (ingress_refusalText name serial c)
      else Allowed (ingress_RevokeAhead c)
  end.

Definition ingress_checkInTx (name serial : string) : itx unit :=
  c ← CheckIngressCert name serial;
  if negb (String.eqb (ingress_refusalText name serial c) "")
  then ifail (Status PermissionDenied (ingress_refusalText name serial c)) else mret tt.

Definition not_its (p : Caller) : id_error :=
  Status PermissionDenied ("certificate " +:+ cl_Serial p +:+ " is not ingress " +:+ cl_Name p +:+ "'s").

Definition renewRefusal (name : string) (c : IngressCert) (newest keyHash : string) (now : Time) (early : Duration)
    : option id_error :=
  if negb (IsZero (ic_RevokedAt c))
  then Some (Status PermissionDenied ("certificate " +:+ ic_Serial c +:+ " of ingress " +:+ name +:+
               " was superseded; renew the newest certificate"))
  else if negb (String.eqb (ic_Serial c) newest)
  then Some (Status PermissionDenied ("certificate " +:+ ic_Serial c +:+ " is not the newest certificate of ingress " +:+ name +:+
               "; renew the newest one"))
  else if negb (String.eqb (ic_KeyHash c) keyHash)
  then Some (Status InvalidArgument ("the signing request is not for the key of certificate " +:+ ic_Serial c +:+
               "; a certificate is renewed for its key, a new key needs a join"))
  else
    let from := ic_NotBefore c + Z.quot (ic_NotAfter c - ic_NotBefore c) 2 - early in
    if now <? from
    then Some (Status FailedPrecondition ("certificate " +:+ ic_Serial c +:+ " of ingress " +:+ name +:+ " is renewed from " +:+
                 format_rfc3339 from +:+ " on"))
    else None.

Definition ingress_renew_tx (p : Caller) (keyHash : string) (early : Duration) (leaf : result string Leaf) : itx string :=
  g ← no_row_is (LockIngress (cl_Name p)) (not_its p);
  ingress_checkInTx (cl_Name p) (cl_Serial p);;
  presented ← no_row_is (GetIngressCert (cl_Serial p)) (not_its p);
  newest ← (if String.eqb (g_CurrentSerial g) "" then NewestIngressCert (cl_Name p) else mret (g_CurrentSerial g));
  now ← igets i_now;
  match renewRefusal (cl_Name p) presented newest keyHash now early with
  | Some e => ifail e
  | None =>
      leaf ← of_result InvalidArgument "issue the ingress's certificate: " leaf;
      InsertIngressCert (ingress_cert leaf (cl_Name p) CertRenew keyHash (cl_Serial p) uuidNil (cl_Addr p));;
      mret (lf_Serial leaf)
  end.

(** [RenewCertificate] of the ingress. *)
Definition RenewCertificate (p : Caller) (csr : CSR) (early : Duration) (leaf : result string Leaf) (d : IDB)
    : answer string * IDB :=
  if (cs_Len csr =? 0) || (MaxCSRBytes <? cs_Len csr)
  then refuse InvalidArgument "the certificate signing request must hold 1 to 16384 bytes" d
  else match cs_Check csr with
  | Err text => refuse InvalidArgument text d
  | Ok keyHash => answered "renew the certificate" (in_tx (ingress_renew_tx p keyHash early leaf) d)
  end.

Definition notMeshedText : string := "the cluster is not meshed; the ingress needs the pods' mesh".
Definition maxVersionLen : nat := 128.

Definition hello_tx (p : Caller) (ula : Prefix) (key : list Z) (endpoint version : string) (grace : Duration)
    : itx IngressMeshJoin :=
  g ← no_row_is (LockIngress (cl_Name p)) (not_its p);
  if bool_decide (g_Status g = IngressRemoved)
  then ifail (Status PermissionDenied ("ingress " +:+ cl_Name p +:+ " was removed; join it again")) else
  ingress_checkInTx (cl_Name p) (cl_Serial p);;
  no_row_is (PresentIngressCert (cl_Name p) (cl_Serial p) grace) (not_its p);;
  j ← JoinIngressMesh g ula key endpoint;
  SeenIngress (cl_Name p) version;;
  mret j.

Definition hello_error (name : string) (ula : Prefix) (e : id_error) : StatusCode * string :=
  match e with
  | IngressKeyFixed => (FailedPrecondition, "the mesh key of ingress " +:+ name +:+ " is fixed; join it again to change it")
  | IngressKeyRetired =>
      (FailedPrecondition, "the mesh key of ingress " +:+ name +:+ " was retired by its join again; make a new one")
  | MeshKeyTaken => (FailedPrecondition, "the mesh key of ingress " +:+ name +:+ " is another peer's; make a new one")
  | MeshExhausted => (ResourceExhausted, "every /96 of the pod network " +:+ Prefix_String ula +:+ " has been handed out")
  | NotMeshed => (FailedPrecondition, notMeshedText)
  | e => rpcError "hello" e
  end.

Definition Hello (p : Caller) (ula : Prefix) (key : list Z) (endpoint version : string) (grace : Duration) (d : IDB)
    : answer IngressMeshJoin * IDB :=
  if negb (IsValid ula) then refuse FailedPrecondition notMeshedText d
  else if negb (length key =? meshKeyLen)%nat
  then refuse InvalidArgument ("publicKey has " +:+ pretty (Z.of_nat (length key)) +:+ " bytes, not 32") d
  else match CheckKey key with
  | Err text => refuse InvalidArgument ("publicKey: " +:+ text) d
  | Ok _ =>
      match CheckEndpoint endpoint with
      | Err text => refuse InvalidArgument (Clean text) d
      | Ok endpoint =>
          if (maxVersionLen <? String.length version)%nat
          then refuse InvalidArgument "version has more than 128 bytes" d
          else match in_tx (hello_tx p ula key endpoint version grace) d with
          | (Ok j, d') => (Ok j, d')
          | (Err e, d') => (Err (hello_error (cl_Name p) ula e), d')
          end
      end
  end.
End calls.

(** ** The cluster's network (config.go, server.go) *)

(** [config.ParsePodNetwork]; the reason net/netip gives is left out. *)
Definition ParsePodNetwork (s : string) : result string Prefix :=
  match ParsePrefix s with
  | None => Err (quoted s +:+ " is neither empty, mesh nor a ULA /64")
  | Some p =>
      if negb (match pf_Addr p with Addr6 _ => true | _ => false end) || Is4In6 (pf_Addr p)
      then Err (quoted s +:+ " is not an IPv6 prefix")
      else if negb (pf_Bits p =? NetworkBits) && negb (pf_Bits p =? 48) then Err (quoted s +:+ " is not a /64")
      else if negb (bool_decide (Masked p = p)) then Err (quoted s +:+ " has host bits set")
      else if negb (Z.shiftr (As16 (pf_Addr p)) 120 =? 253) then Err (quoted s +:+ " is not a ULA of fd00::/8")
      else Ok (if pf_Bits p =? 48 then FromLegacy p else p)
  end.

Definition PodNetworkRouted : string := "".
Definition PodNetworkMesh : string := "mesh".

Definition samePodNetwork (want : string) (have : Prefix) : bool :=
  match ParsePodNetwork want with Ok p => bool_decide (p = have) | Err _ => false end.

(** [bootstrapPodNetwork]: the instance's network, [None] for a routed cluster;
    [drawn] is the ULA that [mesh.Draw] would draw. *)
Definition bootstrapPodNetwork (want : string) (drawn : Prefix) : itx (option Prefix) :=
  have ← PodNetwork;
  match have with
  | Some have =>
      if String.eqb want PodNetworkRouted
      then ifail (Status FailedPrecondition ("the database's cluster is meshed on " +:+ Prefix_String have +:+
             ", and --pod-network is empty (routed): set it to mesh or " +:+ Prefix_String have))
      else if negb (String.eqb want PodNetworkMesh) && negb (samePodNetwork want have)
      then ifail (Status FailedPrecondition ("the database's cluster is meshed on " +:+ Prefix_String have +:+
             ", not on --pod-network " +:+ want))
      else mret (Some have)
  | None =>
      if String.eqb want PodNetworkRouted then mret None
      else
        ula ← (if String.eqb want PodNetworkMesh then mret drawn
               else of_result FailedPrecondition "--pod-network: " (ParsePodNetwork want));
        InsertPodNetwork ula;;
        mret (Some ula)
  end.

(** ** The control plane as a machine *)

(** The database, the wall clock, and every serial and token ID drawn so far:
    pki and PostgreSQL draw them at random, never one twice. *)
Record world := MkWorld {
  w_db : IDB;
  w_clock : Time;
  w_serials : gset string;
  w_tokens : gset UUID
}.

#[export] Instance eta_world : Eta world := λ w, MkWorld (w_db w) (w_clock w) (w_serials w) (w_tokens w).

Inductive event : Type :=
| EvTick (dt : Duration)
| EvStart (want : string) (r1 r2 r3 r4 r5 : Z)
| EvIssueToken (kind : JoinKind) (createdBy node : string) (ttl : Duration) (id : UUID) (hash : string)
| EvJoin (peer token name : string) (admitted : bool) (csr : CSR) (leaf : result string Leaf)
| EvIngressJoin (peer token name : string) (admitted : bool) (csr : CSR) (leaf : result string Leaf)
| EvFork (node serial peer : string)
| EvPresented (node serial : string) (grace : Duration)
| EvRenew (p : Caller) (csr : CSR) (leaf : result string Leaf)
| EvIngressRenew (p : Caller) (csr : CSR) (early : Duration) (leaf : result string Leaf)
| EvJoinMesh (p : Caller) (meshed : bool) (key : list Z) (endpoint : string)
| EvHello (p : Caller) (meshed : bool) (key : list Z) (endpoint version : string) (grace : Duration)
| EvRemoveNode (name : string)
| EvRemoveIngress (name : string)
| EvDeleteToken (id : UUID)
| EvDeleteStaleTokens (keep : Duration)
| EvDeleteOldCerts (keep : Duration)
| EvGroupVersion (node : string) (v : Z)
| EvSeenIngress (name version : string)
| EvNodeColumns (name : string) (n : Node).

(** The columns of a node's row that its identity is made of; the other
    statements of the store leave them, as they leave a removed node removed
    and the others not. *)
Definition identity_columns (n : Node) :=
  (n_Name n, bool_decide (n_Status n = NodeRemoved), n_RemovedAt n, n_CurrentSerial n, n_IdentityForkedAt n,
   (n_MeshSubnet n, n_MeshPrefix n, n_MeshPublicKey n, n_MeshEndpoint n), n_IngressGroupVersion n).

Definition set_node_columns (name : string) (n : Node) (d : IDB) : option IDB :=
  old ← i_nodes d !! name;
  if bool_decide (identity_columns n = identity_columns old) then Some (d <| i_nodes ::= <[name := n]> |>) else None.

(** The network an instance is configured with: the database's, or none when it
    started as an instance of a routed cluster. *)
Definition configured (meshed : bool) (d : IDB) : Prefix :=
  match i_pod_network d with
  | Some p => if meshed then pn_ula p else MkPrefix NoAddr 0
  | None => MkPrefix NoAddr 0
  end.

(** A leaf's serial is drawn for it. *)
Definition draw_serial (leaf : result string Leaf) (w : world) : option world :=
  match leaf with
  | Err _ => Some w
  | Ok l =>
      if bool_decide (lf_Serial l ∈ w_serials w) || String.eqb (lf_Serial l) "" then None
      else Some (w <| w_serials ::= union {[lf_Serial l]} |>)
  end.

Definition draw_token (id : UUID) (w : world) : option world :=
  if bool_decide (id ∈ w_tokens w) || bool_decide (id = uuidNil) then None
  else Some (w <| w_tokens ::= union {[id]} |>).

Definition is_byte (z : Z) : bool := (0 <=? z) && (z <? 256).

Section machine.
Context (small_order : list Z → bool).

(** What an event makes of the database. *)
Definition run_event (e : event) (d : IDB) : option IDB :=
  match e with
  | EvTick _ => Some d
  | EvStart want r1 r2 r3 r4 r5 =>
      if is_byte r1 && is_byte r2 && is_byte r3 && is_byte r4 && is_byte r5
      then Some (in_tx (bootstrapPodNetwork want (Draw r1 r2 r3 r4 r5)) d).2 else None
  | EvIssueToken kind createdBy node ttl id hash => Some (in_tx (IssueJoinToken kind createdBy node ttl id hash) d).2
  | EvJoin peer token name admitted csr leaf => Some (join peer token name admitted csr leaf d).2
  | EvIngressJoin peer token name admitted csr leaf => Some (Join peer token name admitted csr leaf d).2
  | EvFork node serial peer => Some (fork node serial peer d).2
  | EvPresented node serial grace => Some (OnPresented node serial grace d)
  | EvRenew p csr leaf => Some (renewCertificate p csr leaf d).2
  | EvIngressRenew p csr early leaf => Some (RenewCertificate p csr early leaf d).2
  | EvJoinMesh p meshed key endpoint =>
      if forallb is_byte key then Some (joinMesh small_order p (configured meshed d) key endpoint d).2 else None
  | EvHello p meshed key endpoint version grace =>
      if forallb is_byte key then Some (Hello small_order p (configured meshed d) key endpoint version grace d).2 else None
  | EvRemoveNode name => Some (in_tx (RemoveNode name) d).2
  | EvRemoveIngress name => Some (in_tx (RemoveIngress name) d).2
  | EvDeleteToken id => Some (in_tx (DeleteJoinToken id) d).2
  | EvDeleteStaleTokens keep => Some (in_tx (DeleteStaleJoinTokens keep) d).2
  | EvDeleteOldCerts keep => Some (in_tx (DeleteOldNodeCerts keep) d).2
  | EvGroupVersion node v => Some (in_tx (SetNodeIngressGroupVersion node v) d).2
  | EvSeenIngress name version => Some (in_tx (SeenIngress name version) d).2
  | EvNodeColumns name n => set_node_columns name n d
  end.

(** What is drawn for an event. *)
Definition draw (e : event) (w : world) : option world :=
  match e with
  | EvTick dt => if 0 <=? dt then Some (w <| w_clock ::= Z.add dt |>) else None
  | EvIssueToken _ _ _ _ id _ => draw_token id w
  | EvJoin _ _ _ _ _ leaf | EvIngressJoin _ _ _ _ _ leaf | EvRenew _ _ leaf | EvIngressRenew _ _ _ leaf =>
      draw_serial leaf w
  | _ => Some w
  end.

(** One event, whose transaction began at [t]. *)
Definition step (t : Time) (e : event) (w : world) : option world :=
  if (0 <? t) && (t <=? w_clock w) then
    w ← draw e w;
    d ← run_event e ((w_db w) <| i_now := t |>);
    Some (w <| w_db := d |>)
  else None.

Fixpoint run (es : list (Time * event)) (w : world) : option world :=
  match es with
  | [] => Some w
  | (t, e) :: es' => w ← step t e w; run es' w
  end.
End machine.

Definition empty_db : IDB := MkIDB 0 ∅ ∅ ∅ ∅ ∅ None 0 [] [].
Definition start (clock : Time) : world := MkWorld empty_db clock ∅ ∅.

Definition reachable (small_order : list Z → bool) (w : world) : Prop :=
  ∃ clock es, run small_order es (start clock) = Some w.

(** ** A run *)

Definition ex_token : string := "feos-join-AAAAAAAAAAAAAAAAAAAAAAAAAAAAAAAAAAAAAAAAAAA".
Definition ex_token2 : string := "feos-join-BBBBBBBBBBBBBBBBBBBBBBBBBBBBBBBBBBBBBBBBBBB".
Definition ex_ingress_token : string := "feos-ingress-join-CCCCCCCCCCCCCCCCCCCCCCCCCCCCCCCCCCCCCCCCCCC".
Definition ex_csr (key : string) : CSR := MkCSR 300 (Ok key).
Definition ex_leaf (serial : string) : result string Leaf := Ok (MkLeaf serial 100 1000000000000000).
Definition ex_key (b : Z) : list Z := repeat b 32.
Definition ex_order (key : list Z) : bool := false.

(** A meshed cluster: the node n1 joins and takes its seat. *)
Definition ex_node_events : list (Time * event) :=
  [(100, EvStart "mesh" 1 2 3 4 5);
   (100, EvIssueToken JoinKindNode "op" "" 0 1%N (HashJoinSecret ex_token));
   (100, EvJoin "192.0.2.1:1" ex_token "n1" true (ex_csr "k1") (ex_leaf "a1"));
   (100, EvJoinMesh (MkCaller "n1" "a1" "192.0.2.1:1") true (ex_key 1) "192.0.2.1:51820")].

Definition ex_node_world : world := Eval vm_compute in default (start 0) (run ex_order ex_node_events (start 100)).

(** The ingress i1 joins and takes its seat. *)
Definition ex_ingress_events : list (Time * event) :=
  [(100, EvIssueToken JoinKindIngress "op" "" 0 2%N (HashJoinSecret ex_ingress_token));
   (100, EvIngressJoin "192.0.2.2:1" ex_ingress_token "i1" true (ex_csr "k2") (ex_leaf "b1"));
   (100, EvHello (MkCaller "i1" "b1" "192.0.2.2:1") true (ex_key 2) "192.0.2.2:51820" "v1" 0)].

Definition ex_world : world := Eval vm_compute in default (start 0) (run ex_order (ex_node_events ++ ex_ingress_events) (start 100)).
