(* ===== verification/MeshSpec.v ===== *)
(** * The mesh as its users see it

    What the tables of [Identity] promise about the pods' mesh, without the
    tables: every node and every ingress has at most one seat, a change changes
    one seat, the peers' version goes up when a peer changes and the group's
    when a member does.  [mstep] is that promise; [minv] is what follows of it,
    and two facts about runs: a version names one set of peers, and an ingress
    has been a member since its group's version.  That the control plane keeps
    the promise is proved in [MeshRefine]. *)

From S2P Require Import Prelude Mesh Wg NetText Identity Joins.

(** ** Seats *)

Inductive who : Type := OfNode (name : string) | OfIngress (name : string).

#[export] Instance who_eq_dec : EqDecision who.
Proof. solve_decision. Defined.

Definition name_of (x : who) : string := match x with OfNode n | OfIngress n => n end.

Record seat := MkSeat {
  se_subnet : Z;
  se_prefix : string;
  se_address : string;
  se_key : list Z;
  se_endpoint : string;
  se_live : bool;
  se_group : Z
}.

Record mstate := MkMstate { m_row : who → option seat; m_net : option pod_network; m_seq : Z }.

Definition peers_version (m : mstate) : Z := match m_net m with Some p => pn_peers_version p | None => 0 end.
Definition group_version (m : mstate) : Z := match m_net m with Some p => pn_ingress_group_version p | None => 0 end.
Definition m_ula (m : mstate) : option Prefix := pn_ula <$> m_net m.

Definition is_peer (s : seat) : bool :=
  negb (se_subnet s =? 0) && negb (bool_decide (se_key s = [])) && negb (String.eqb (se_endpoint s) "") && se_live s.

(** What the others see of a seat: the peer it is, and the member of the group
    of ingresses. *)
Definition peer_part (s : seat) : option (list Z * string * string) :=
  if is_peer s then Some (se_key s, se_endpoint s, se_prefix s) else None.

Definition member_part (x : who) (s : seat) : option string :=
  match x with
  | OfNode _ => None
  | OfIngress _ => if se_live s && negb (String.eqb (se_address s) "") then Some (se_address s) else None
  end.

(** A /96 of the cluster's ULA, and the address in it of an ingress. *)
Definition placed (ula : Prefix) (x : who) (s : seat) : Prop :=
  se_prefix s = Prefix_String (NodePrefix ula (se_subnet s)) ∧
  se_address s = match x with
                 | OfNode _ => ""%string
                 | OfIngress _ => Addr_String (HostAddress (NodePrefix ula (se_subnet s))) ""
                 end.

(** No other live peer has the key. *)
Definition free (m : mstate) (x : who) (key : list Z) : Prop :=
  ∀ y t, y ≠ x → m_row m y = Some t → se_live t = true → se_key t ≠ key.

Definition is_key (key : list Z) : Prop := length key = meshKeyLen ∧ forallb is_byte key = true.

Definition blank (s : seat) : Prop := s = MkSeat 0 "" "" [] "" true 0.

Definition ula_fd (ula : Prefix) : Prop := ula_ok ula ∧ Z.shiftr (As16 (pf_Addr ula)) 120 = 253.

(** ** Steps *)

Definition set_row (m m' : mstate) (x : who) (s : seat) : Prop :=
  m_row m' x = Some s ∧ ∀ y, y ≠ x → m_row m' y = m_row m y.

Definition key_change (m : mstate) (x : who) (s s' : seat) : Prop :=
  se_key s' = [] ∨
  (se_key s' = se_key s ∧ (se_live s' = true → se_live s = true)) ∨
  (is_key (se_key s') ∧ free m x (se_key s')).

Definition subnet_change (m m' : mstate) (x : who) (s s' : seat) : Prop :=
  (se_subnet s' = 0 ∧ se_prefix s' = ""%string ∧ se_address s' = ""%string) ∨
  (se_subnet s' = se_subnet s ∧ se_prefix s' = se_prefix s ∧ se_address s' = se_address s) ∨
  (∃ ula, m_ula m = Some ula ∧ placed ula x s' ∧
     (se_subnet s ≠ 0 ∧ se_subnet s' = se_subnet s ∨ m_seq m < se_subnet s' ≤ m_seq m')).

Definition endpoint_change (s s' : seat) : Prop :=
  se_endpoint s' = ""%string ∨ se_endpoint s' = se_endpoint s ∨ CheckEndpoint (se_endpoint s') = Ok (se_endpoint s').

(** The versions after a change of the seat of [x]. *)
Definition versions (m m' : mstate) (x : who) (s s' : seat) : Prop :=
  (peers_version m' = peers_version m ∧ peer_part s' = peer_part s ∨ peers_version m' = peers_version m + 1) ∧
  (group_version m' = group_version m ∧ member_part x s' = member_part x s ∧ se_group s' = se_group s ∨
   group_version m' = group_version m + 1 ∧ se_group s' = group_version m').

Inductive mstep (m m' : mstate) : Prop :=
| ms_seq :
    (∀ x, m_row m' x = m_row m x) → m_net m' = m_net m → m_seq m ≤ m_seq m' ≤ LastSubnet → mstep m m'
| ms_network ula :
    (∀ x, m_row m' x = m_row m x) → m_net m = None → m_net m' = Some (MkPodNetwork ula 0 0) → ula_fd ula →
    m_seq m' = m_seq m → mstep m m'
| ms_new x s :
    m_row m x = None → set_row m m' x s → blank s → IsNodeName (name_of x) = true →
    m_net m' = m_net m → m_seq m' = m_seq m → mstep m m'
| ms_set x s s' :
    m_row m x = Some s → set_row m m' x s' → m_ula m' = m_ula m → m_seq m ≤ m_seq m' ≤ LastSubnet →
    key_change m x s s' → subnet_change m m' x s s' → endpoint_change s s' → versions m m' x s s' → mstep m m'.

(** ** The invariant *)

Definition seat_ok (m : mstate) (x : who) (s : seat) : Prop :=
  ((se_subnet s = 0 ∧ se_prefix s = ""%string ∧ se_address s = ""%string) ∨
   (1 ≤ se_subnet s ≤ m_seq m ∧ ∃ ula, m_ula m = Some ula ∧ placed ula x s)) ∧
  (se_key s = [] ∨ is_key (se_key s)) ∧
  (se_endpoint s = ""%string ∨ CheckEndpoint (se_endpoint s) = Ok (se_endpoint s)) ∧
  se_group s ≤ group_version m ∧
  IsNodeName (name_of x) = true.

Record minv (m : mstate) : Prop := {
  mi_seat : ∀ x s, m_row m x = Some s → seat_ok m x s;
  mi_subnets : ∀ x y s t, m_row m x = Some s → m_row m y = Some t → se_subnet s = se_subnet t → se_subnet s ≠ 0 → x = y;
  mi_keys : ∀ x y s t, m_row m x = Some s → m_row m y = Some t → se_live s = true → se_live t = true →
    se_key s = se_key t → se_key s ≠ [] → x = y;
  mi_seq : 0 ≤ m_seq m ≤ LastSubnet;
  mi_group : 0 ≤ group_version m;
  mi_ula : ∀ ula, m_ula m = Some ula → ula_fd ula
}.

Lemma set_row_cases m m' x s y t : set_row m m' x s → m_row m' y = Some t → y = x ∧ t = s ∨ y ≠ x ∧ m_row m y = Some t.
Proof.
  intros [H1 H2] Hy. destruct (decide (y = x)) as [->|Hn]; [left; split; congruence|right]. by rewrite <- H2.
Qed.

Lemma group_version_mono m m' : mstep m m' → group_version m ≤ group_version m'.
Proof.
  unfold group_version. intros [? -> ?|? ? -> -> ? ?|? ? ? ? ? ? -> ?|x s s' _ _ _ _ _ _ _ [_ Hv]]; [lia|cbn; lia|lia|].
  unfold group_version in Hv. destruct Hv as [[? _]|[? _]]; lia.
Qed.

Lemma peers_version_mono m m' : mstep m m' → peers_version m ≤ peers_version m'.
Proof.
  unfold peers_version. intros [? -> ?|? ? -> -> ? ?|? ? ? ? ? ? -> ?|x s s' _ _ _ _ _ _ _ [Hv _]]; [lia|cbn; lia|lia|].
  unfold peers_version in Hv. destruct Hv as [[? _]|?]; lia.
Qed.

Lemma m_seq_mono m m' : mstep m m' → m_seq m ≤ m_seq m'.
Proof. intros [| | |]; lia. Qed.

(** The seats that stay are as they should be after the step, too. *)
Lemma seat_ok_mono m m' x s :
  seat_ok m x s → m_seq m ≤ m_seq m' → group_version m ≤ group_version m' →
  (∀ ula, m_ula m = Some ula → m_ula m' = Some ula) → seat_ok m' x s.
Proof.
  intros (H1 & H2 & H3 & H4 & H5) Hs Hg Hu. split; [|split; [done|split; [done|split; [lia|done]]]].
  destruct H1 as [H1|(Hr & ula & Hm & Hp)]; [by left|right]. split; [lia|]. exists ula. split; [by apply Hu|done].
Qed.

Lemma mstep_seat m m' x s : minv m → mstep m m' → m_row m' x = Some s → seat_ok m' x s.
Proof.
  intros Hi Hst Hx. pose proof (group_version_mono m m' Hst) as Hg. pose proof (m_seq_mono m m' Hst) as Hq.
  assert (Hold : ∀ s, m_row m x = Some s → (∀ ula, m_ula m = Some ula → m_ula m' = Some ula) → seat_ok m' x s).
  { intros s0 H0 Hu. eapply seat_ok_mono; [by apply (mi_seat m Hi)|done..]. }
  destruct Hst as [Hr Hn _|ula Hr Hn Hn' _ _|y t Hy Ht Hb Hname Hn _|y t t' Hy Ht Hu _ Hk Hsub He Hv].
  - apply Hold; [by rewrite <- Hr|]. unfold m_ula. by rewrite Hn.
  - apply Hold; [by rewrite <- Hr|]. unfold m_ula. by rewrite Hn.
  - destruct (set_row_cases m m' y t x s Ht Hx) as [[-> ->]|[Hne Hx']]; [|apply Hold; [done|unfold m_ula; by rewrite Hn]].
    rewrite Hb. pose proof (mi_group m Hi). split; [by left|]. cbn. repeat split; [by left..|lia|done].
  - destruct (set_row_cases m m' y t' x s Ht Hx) as [[-> ->]|[Hne Hx']]; [|apply Hold; [done|by rewrite Hu]].
    destruct (mi_seat m Hi y t Hy) as (Is & Ik & Ie & Ig & In). split; [|split; [|split; [|split; [|done]]]].
    + destruct Hsub as [?|[(E1 & E2 & E3)|(ula & Hm & Hp & Hs)]]; [by left|..].
      * rewrite E1, E2, E3. destruct Is as [?|(Hrange & ula & Hm & Hp)]; [by left|right]. split; [lia|].
        exists ula. rewrite Hu. split; [done|]. unfold placed in *. by rewrite E1, E2, E3.
      * right. split; [|exists ula; by rewrite Hu].
        pose proof (mi_seq m Hi). destruct Is as [(E & _)|(Hrange & _)]; destruct Hs as [[? ?]|?]; lia.
    + destruct Hk as [?|[[-> _]|[? _]]]; [by left|done|by right].
    + destruct He as [?|[->|?]]; [by left|done|by right].
    + destruct Hv as [_ [(E1 & _ & ->)|(E1 & ->)]]; lia.
Qed.

Lemma free_own m x s s' y t :
  minv m → m_row m x = Some s → key_change m x s s' → se_live s' = true → se_key s' ≠ [] →
  y ≠ x → m_row m y = Some t → se_live t = true → se_key t ≠ se_key s'.
Proof.
  intros Hi Hx [?|[[Ek Hl]|[_ Hf]]] Hlive Hne Hy Ht Hlt; [done|..|by eapply Hf].
  rewrite Ek in *. intros E. apply Hy. apply (mi_keys m Hi y x t s); [done..|by apply Hl|done|by rewrite E].
Qed.

Lemma subnet_own m m' x s s' y t :
  minv m → m_row m x = Some s → subnet_change m m' x s s' → se_subnet s' ≠ 0 →
  y ≠ x → m_row m y = Some t → se_subnet t ≠ se_subnet s'.
Proof.
  intros Hi Hx Hsub Hne Hy Ht E.
  assert (Hold : se_subnet s' = se_subnet s → False).
  { intros E'. apply Hy. apply (mi_subnets m Hi y x t s); [done..|congruence|congruence]. }
  destruct Hsub as [[? _]|[[? _]|(ula & _ & _ & [[_ ?]|Hr])]]; [done|by apply Hold|by apply Hold|].
  destruct (mi_seat m Hi y t Ht) as ([[? _]|[? _]] & _); lia.
Qed.

Lemma minv_step m m' : minv m → mstep m m' → minv m'.
Proof.
  intros Hi Hst. split; [intros x s; by apply (mstep_seat m m')|..].
  - intros x y s t Hx Hy E Hne. destruct Hst as [Hr _ _|ula Hr _ _ _ _|z u Hz Hset Hb _ _ _|z u u' Hz Hset _ _ _ Hsub _ _].
    + rewrite Hr in Hx, Hy. by apply (mi_subnets m Hi x y s t).
    + rewrite Hr in Hx, Hy. by apply (mi_subnets m Hi x y s t).
    + destruct (set_row_cases _ _ _ _ _ _ Hset Hx) as [[-> ->]|[? Hx']]; [by rewrite Hb in Hne|].
      destruct (set_row_cases _ _ _ _ _ _ Hset Hy) as [[-> ->]|[? Hy']]; [by rewrite E, Hb in Hne|].
      by apply (mi_subnets m Hi x y s t).
    + destruct (set_row_cases _ _ _ _ _ _ Hset Hx) as [[-> ->]|[? Hx']];
        destruct (set_row_cases _ _ _ _ _ _ Hset Hy) as [[-> ->]|[? Hy']]; [done|..|by apply (mi_subnets m Hi x y s t)].
      * by destruct (subnet_own m m' z u u' y t Hi Hz Hsub Hne).
      * by destruct (subnet_own m m' z u u' x s Hi Hz Hsub ltac:(congruence)).
  - intros x y s t Hx Hy Hls Hlt E Hne. destruct Hst as [Hr _ _|ula Hr _ _ _ _|z u Hz Hset Hb _ _ _|z u u' Hz Hset _ _ Hk _ _ _].
    + rewrite Hr in Hx, Hy. by apply (mi_keys m Hi x y s t).
    + rewrite Hr in Hx, Hy. by apply (mi_keys m Hi x y s t).
    + destruct (set_row_cases _ _ _ _ _ _ Hset Hx) as [[-> ->]|[? Hx']]; [by rewrite Hb in Hne|].
      destruct (set_row_cases _ _ _ _ _ _ Hset Hy) as [[-> ->]|[? Hy']]; [by rewrite E, Hb in Hne|].
      by apply (mi_keys m Hi x y s t).
    + destruct (set_row_cases _ _ _ _ _ _ Hset Hx) as [[-> ->]|[? Hx']];
        destruct (set_row_cases _ _ _ _ _ _ Hset Hy) as [[-> ->]|[? Hy']]; [done|..|by apply (mi_keys m Hi x y s t)].
      * by destruct (free_own m z u u' y t Hi Hz Hk Hls Hne).
      * by destruct (free_own m z u u' x s Hi Hz Hk Hlt ltac:(congruence)).
  - pose proof (mi_seq m Hi). destruct Hst; lia.
  - pose proof (mi_group m Hi). pose proof (group_version_mono m m' Hst). lia.
  - intros ula Hu. destruct Hst as [_ Hn _|ula' _ _ Hn Hfd _|? ? _ _ _ _ Hn _|? ? ? _ _ Hn _ _ _ _ _].
    + apply (mi_ula m Hi). unfold m_ula in *. by rewrite <- Hn.
    + unfold m_ula in Hu. rewrite Hn in Hu. cbn in Hu. by injection Hu as <-.
    + apply (mi_ula m Hi). unfold m_ula in *. by rewrite <- Hn.
    + apply (mi_ula m Hi). congruence.
Qed.

Lemma minv_steps m m' : minv m → rtc mstep m m' → minv m'.
Proof. intros Hi Hr. induction Hr as [|? ? ? H _ IH]; [done|]. apply IH. by eapply minv_step. Qed.

(** ** Runs *)

Lemma steps_mono (f : mstate → Z) m m' :
  (∀ m m', mstep m m' → f m ≤ f m') → rtc mstep m m' → f m ≤ f m'.
Proof. intros Hf Hr. induction Hr as [|? ? ? H _ IH]; [lia|]. apply Hf in H. lia. Qed.

Lemma mstep_peers m m' x :
  mstep m m' → peers_version m' = peers_version m → m_row m' x ≫= peer_part = m_row m x ≫= peer_part.
Proof.
  intros [Hr _ _|ula Hr _ _ _ _|z u Hz Hset -> _ _ _|z u u' Hz Hset _ _ _ _ _ [Hv _]] E; [by rewrite Hr..| |].
  - destruct Hset as [H1 H2]. destruct (decide (x = z)) as [->|Hn]; [by rewrite H1, Hz|by rewrite H2].
  - destruct Hset as [H1 H2]. destruct (decide (x = z)) as [->|Hn]; [|by rewrite H2]. rewrite H1, Hz. cbn.
    destruct Hv as [[_ ?]|?]; [done|lia].
Qed.

(** While the peers' version stays, so do the peers. *)
Lemma steps_peers m m' x :
  rtc mstep m m' → peers_version m' = peers_version m → m_row m' x ≫= peer_part = m_row m x ≫= peer_part.
Proof.
  intros Hr. induction Hr as [|m m1 m2 H Hr IH]; intros E; [done|].
  pose proof (peers_version_mono m m1 H). pose proof (steps_mono peers_version m1 m2 peers_version_mono Hr).
  rewrite IH by lia. apply mstep_peers; [done|lia].
Qed.

(** A member of the group has been one since the version of its entry. *)
Lemma steps_member m m' x a :
  rtc mstep m m' → ∀ s', m_row m' x = Some s' → member_part x s' = Some a → se_group s' ≤ group_version m →
  ∃ s, m_row m x = Some s ∧ member_part x s = Some a.
Proof.
  revert m'. refine (rtc_ind_r (λ m', ∀ s', m_row m' x = Some s' → member_part x s' = Some a →
    se_group s' ≤ group_version m → ∃ s, m_row m x = Some s ∧ member_part x s = Some a) m _ _); [by eauto|]. intros m1 m2 Hr Hst IH s' Hx Ha Hg.
  pose proof (steps_mono group_version m m1 group_version_mono Hr).
  destruct Hst as [Hrow _ _|ula Hrow _ _ _ _|z u Hz Hset Hb _ _ _|z u u' Hz Hset _ _ _ _ _ [_ Hv]].
  - rewrite Hrow in Hx. by apply (IH s').
  - rewrite Hrow in Hx. by apply (IH s').
  - destruct (set_row_cases _ _ _ _ _ _ Hset Hx) as [[-> ->]|[_ Hx']]; [|by apply (IH s')].
    rewrite Hb in Ha. by destruct z.
  - destruct (set_row_cases _ _ _ _ _ _ Hset Hx) as [[-> ->]|[_ Hx']]; [|by apply (IH s')].
    destruct Hv as [(_ & Em & Eg)|(Eg & Es)]; [|lia]. apply (IH u); [done|congruence|lia].
Qed.

Lemma mstep_group m m' x :
  mstep m m' → group_version m' = group_version m → m_row m' x ≫= member_part x = m_row m x ≫= member_part x.
Proof.
  intros [Hr _ _|ula Hr _ _ _ _|z u Hz Hset -> _ _ _|z u u' Hz Hset _ _ _ _ _ [_ Hv]] E; [by rewrite Hr..| |].
  - destruct Hset as [H1 H2]. destruct (decide (x = z)) as [->|Hn]; [rewrite H1, Hz; by destruct z|by rewrite H2].
  - destruct Hset as [H1 H2]. destruct (decide (x = z)) as [->|Hn]; [|by rewrite H2]. rewrite H1, Hz. cbn.
    destruct Hv as [(_ & ? & _)|[? _]]; [done|lia].
Qed.

(** While the group's version stays, so do the members. *)
Lemma steps_group m m' x :
  rtc mstep m m' → group_version m' = group_version m → m_row m' x ≫= member_part x = m_row m x ≫= member_part x.
Proof.
  intros Hr. induction Hr as [|m m1 m2 H Hr IH]; intros E; [done|].
  pose proof (group_version_mono m m1 H). pose proof (steps_mono group_version m1 m2 group_version_mono Hr).
  rewrite IH by lia. apply mstep_group; [done|lia].
Qed.
