(* ===== verification/MeshRefine.v ===== *)
(** * The control plane keeps the promise of the mesh

    [abs] is the mesh of a database ([MeshSpec]).  Every transaction of
    [Joins.step] refines steps of [MeshSpec.mstep]; so what is proved there
    holds of every database the control plane reaches. *)

From S2P Require Import Prelude Text PodId Rows Mesh Wg NetText HostLabels Identity Joins MeshSpec.

(** ** The mesh of a database *)

Definition node_seat (n : Node) : seat :=
  MkSeat (n_MeshSubnet n) (n_MeshPrefix n) "" (n_MeshPublicKey n) (n_MeshEndpoint n)
    (negb (bool_decide (n_Status n = NodeRemoved))) 0.

Definition ingress_seat (g : Ingress) : seat :=
  MkSeat (g_MeshSubnet g) (g_MeshPrefix g) (g_MeshAddress g) (g_MeshPublicKey g) (g_MeshEndpoint g)
    (negb (bool_decide (g_Status g = IngressRemoved))) (g_GroupVersion g).

Definition row_of (d : IDB) (x : who) : option seat :=
  match x with
  | OfNode n => node_seat <$> i_nodes d !! n
  | OfIngress n => ingress_seat <$> i_ingresses d !! n
  end.

Definition abs (d : IDB) : mstate := MkMstate (row_of d) (i_pod_network d) (i_mesh_subnets d).

Definition names_match (nodes : gmap string Node) (ingresses : gmap string Ingress) : Prop :=
  map_Forall (λ k n, n_Name n = k) nodes ∧ map_Forall (λ k g, g_Name g = k) ingresses.

Definition names_ok (d : IDB) : Prop := names_match (i_nodes d) (i_ingresses d).

Record dinv (d : IDB) : Prop := { di_names : names_ok d; di_mesh : minv (abs d) }.

(** ** Refinement *)

(** A computation that changes nothing of the mesh. *)
Definition same_mesh (d d' : IDB) : Prop :=
  (∀ x, row_of d' x = row_of d x) ∧ i_pod_network d' = i_pod_network d ∧ i_mesh_subnets d' = i_mesh_subnets d ∧
  (names_ok d → names_ok d').

Definition quiet {A} (m : itx A) : Prop := ∀ d, same_mesh d (m d).2.

Definition refines {A} (m : itx A) : Prop := ∀ d, dinv d → rtc mstep (abs d) (abs (m d).2) ∧ names_ok (m d).2.

#[export] Instance same_mesh_po : PreOrder same_mesh.
Proof.
  split; [by intros d|]. intros d1 d2 d3 (R1 & N1 & S1 & O1) (R2 & N2 & S2 & O2). split; [by intros x; rewrite R2, R1|].
  split; [congruence|]. split; [congruence|auto].
Qed.

Lemma same_mesh_steps d d' : dinv d → same_mesh d d' → rtc mstep (abs d) (abs d') ∧ names_ok d'.
Proof.
  intros [Hn Hm] (R & N & S & O). split; [|by apply O]. apply rtc_once, ms_seq; [done..|]. cbn. rewrite S.
  pose proof (mi_seq _ Hm). cbn in *. lia.
Qed.

Lemma dinv_steps d d' : dinv d → rtc mstep (abs d) (abs d') ∧ names_ok d' → dinv d'.
Proof. intros [Hn Hm] [Hs Hn']. split; [done|]. by eapply minv_steps. Qed.

Lemma quiet_refines {A} (m : itx A) : quiet m → refines m.
Proof. intros Hq d Hd. by apply same_mesh_steps. Qed.

Lemma bind_run {A B} (m : itx A) (f : A → itx B) d :
  (m ≫= f) d = match m d with (Ok a, d') => f a d' | (Err e, d') => (Err e, d') end.
Proof. done. Qed.

Lemma quiet_bind {A B} (m : itx A) (f : A → itx B) : quiet m → (∀ a, quiet (f a)) → quiet (m ≫= f).
Proof.
  intros Hm Hf d. rewrite bind_run. specialize (Hm d). destruct (m d) as [[a|e] d']; [|done]. cbn in *.
  by transitivity d'; [|apply Hf].
Qed.

Lemma refines_bind {A B} (m : itx A) (f : A → itx B) : refines m → (∀ a, refines (f a)) → refines (m ≫= f).
Proof.
  intros Hm Hf d Hd. rewrite bind_run. specialize (Hm d Hd). pose proof (dinv_steps _ _ Hd Hm) as Hd'.
  destruct (m d) as [[a|e] d']; [|done]. cbn in *. destruct (Hf a d' Hd') as [Hs Hn]. split; [|done].
  etrans; [apply Hm|done].
Qed.

(** A failed transaction leaves the sequence, and is undone otherwise. *)
Lemma tx_steps {A} (m : itx A) d :
  dinv d → rtc mstep (abs d) (abs (m d).2) ∧ names_ok (m d).2 → rtc mstep (abs d) (abs (in_tx m d).2) ∧ names_ok (in_tx m d).2.
Proof.
  intros Hd Hm. pose proof (dinv_steps _ _ Hd Hm) as Hd'. unfold in_tx.
  destruct (m d) as [[a|e] d']; cbn in *; [done|].
  destruct Hd as [Hn Hi]. split; [|done]. apply rtc_once, ms_seq; [done..|]. cbn.
  split; [apply (steps_mono m_seq (abs d) (abs d') m_seq_mono), Hm|apply (mi_seq _ (di_mesh _ Hd'))].
Qed.

Create HintDb mesh.
#[export] Hint Resolve quiet_bind : mesh.

Lemma quiet_ret {A} (a : A) : quiet (mret a).
Proof. by intros d. Qed.
Lemma quiet_fail {A} (e : id_error) : quiet (A := A) (ifail e).
Proof. by intros d. Qed.
Lemma quiet_gets {A} (f : IDB → A) : quiet (igets f).
Proof. by intros d. Qed.
Lemma quiet_notify c p : quiet (Notify c p).
Proof. by intros d. Qed.
Lemma quiet_of_result {A} c p (r : result string A) : quiet (of_result c p r).
Proof. by destruct r. Qed.
Lemma quiet_no_row_is {A} (m : itx A) e : quiet m → quiet (no_row_is m e).
Proof. intros Hm d. unfold no_row_is. specialize (Hm d). by destruct (m d) as [[a|[]] d']. Qed.
Lemma quiet_catch {A} (m : itx A) : quiet m → quiet (catch_no_row m).
Proof. intros Hm d. unfold catch_no_row. specialize (Hm d). by destruct (m d) as [[a|[]] d']. Qed.
Lemma quiet_lock_node name : quiet (LockNode name).
Proof. intros d. unfold LockNode, row. by destruct (_ !! _). Qed.
Lemma quiet_lock_ingress name : quiet (LockIngress name).
Proof. intros d. unfold LockIngress, row. by destruct (_ !! _). Qed.
Lemma quiet_lock_token hash : quiet (LockJoinToken hash).
Proof. intros d. unfold LockJoinToken, row. by destruct (_ !! _). Qed.
Lemma quiet_get_cert serial : quiet (GetNodeCert serial).
Proof. intros d. unfold GetNodeCert, row. by destruct (_ !! _). Qed.
Lemma quiet_get_ingress_cert serial : quiet (GetIngressCert serial).
Proof. intros d. unfold GetIngressCert, row. by destruct (_ !! _). Qed.
Lemma quiet_insert_cert c : quiet (InsertNodeCert c).
Proof. intros d. unfold InsertNodeCert. by destruct (_ !! _). Qed.
Lemma quiet_insert_ingress_cert c : quiet (InsertIngressCert c).
Proof. intros d. unfold InsertIngressCert. by destruct (_ !! _). Qed.
Lemma quiet_revoke node reason except : quiet (RevokeNodeCerts node reason except).
Proof. by intros d. Qed.
Lemma quiet_check node serial : quiet (CheckNodeCert node serial).
Proof. intros d. unfold CheckNodeCert. by repeat case_match. Qed.
Lemma quiet_check_ingress name serial : quiet (CheckIngressCert name serial).
Proof. intros d. unfold CheckIngressCert. by repeat case_match. Qed.
Lemma quiet_mark hash name key serial peer : quiet (MarkJoinTokenUsed hash name key serial peer).
Proof. intros d. unfold MarkJoinTokenUsed. by destruct (_ !! _). Qed.
Lemma quiet_record node kind leaf key peer previous : quiet (recordNodeCert node kind leaf key peer previous).
Proof. by intros d. Qed.

(** A change of a row that leaves its seat. *)
Lemma quiet_update_node name f :
  (∀ n, node_seat (f n) = node_seat n ∧ n_Name (f n) = n_Name n) → quiet (update_node name f).
Proof.
  intros Hf d. split; [|split; [done|split; [done|]]].
  - intros [x|x]; [|done]. cbn. destruct (decide (x = name)) as [->|Hne].
    + rewrite lookup_alter_eq. destruct (i_nodes d !! name) as [n|]; [|done]. cbn. by destruct (Hf n) as [-> _].
    + by rewrite lookup_alter_ne.
  - intros [Hn Hg]. split; [|done]. intros k n Hk. cbn in Hk. apply lookup_alter_Some in Hk as [(-> & m & Hm & ->)|[_ Hk]].
    + destruct (Hf m) as [_ ->]. by apply Hn.
    + by apply Hn.
Qed.

Lemma quiet_update_ingress name f :
  (∀ g, ingress_seat (f g) = ingress_seat g ∧ g_Name (f g) = g_Name g) → quiet (update_ingress name f).
Proof.
  intros Hf d. split; [|split; [done|split; [done|]]].
  - intros [x|x]; [done|]. cbn. destruct (decide (x = name)) as [->|Hne].
    + rewrite lookup_alter_eq. destruct (i_ingresses d !! name) as [n|]; [|done]. cbn. by destruct (Hf n) as [-> _].
    + by rewrite lookup_alter_ne.
  - intros [Hn Hg]. split; [done|]. intros k n Hk. cbn in Hk. apply lookup_alter_Some in Hk as [(-> & m & Hm & ->)|[_ Hk]].
    + destruct (Hf m) as [_ ->]. by apply Hg.
    + by apply Hg.
Qed.

Lemma quiet_certs f : quiet (imodify (λ d, d <| i_node_certs ::= f |>)).
Proof. by intros d. Qed.
Lemma quiet_ingress_certs f : quiet (imodify (λ d, d <| i_ingress_certs ::= f |>)).
Proof. by intros d. Qed.

#[export] Hint Resolve quiet_ret quiet_fail quiet_gets quiet_notify quiet_of_result quiet_no_row_is quiet_catch
  quiet_lock_node quiet_lock_ingress quiet_lock_token quiet_get_cert quiet_get_ingress_cert quiet_insert_cert
  quiet_insert_ingress_cert quiet_revoke quiet_check quiet_check_ingress quiet_mark quiet_record quiet_certs
  quiet_ingress_certs : mesh.

(** Goes through a computation and closes the calls that the database of hints
    knows. *)
Ltac through :=
  repeat first
    [ solve [auto with mesh nocore]
    | apply quiet_bind; [|intros ?]
    | match goal with
      | |- quiet (if ?b then _ else _) => destruct b
      | |- quiet (match ?x with _ => _ end) => destruct x
      | |- quiet (let '(_, _) := ?x in _) => destruct x
      | |- quiet (update_node _ _) => apply quiet_update_node; by intros []
      | |- quiet (update_ingress _ _) => apply quiet_update_ingress; by intros []
      end ].

Lemma quiet_revoke_ingress name reason : quiet (RevokeIngressCerts name reason).
Proof.
  intros d. unfold RevokeIngressCerts. match goal with |- same_mesh d ((?m) ?d').2 => assert (H : quiet m) by through end.
  etrans; [|apply H]. done.
Qed.

Lemma quiet_fork_node name description : quiet (ForkNode name description).
Proof. unfold ForkNode. through. Qed.
#[export] Hint Resolve quiet_revoke_ingress quiet_fork_node : mesh.

Lemma quiet_checkInTx node serial : quiet (checkInTx node serial).
Proof. unfold checkInTx. through. Qed.
Lemma quiet_ingress_checkInTx name serial : quiet (ingress_checkInTx name serial).
Proof. unfold ingress_checkInTx. through. Qed.
Lemma quiet_first t : quiet (firstAnswer t).
Proof. unfold firstAnswer. through. Qed.
Lemma quiet_ingress_first t : quiet (ingress_firstAnswer t).
Proof. unfold ingress_firstAnswer. through. Qed.
Lemma quiet_issue t name kind key peer leaf : quiet (issueNodeCert t name kind key peer leaf).
Proof. unfold issueNodeCert. through. Qed.
Lemma quiet_issue_ingress t name kind key peer leaf : quiet (issueJoinCert t name kind key peer leaf).
Proof. unfold issueJoinCert. through. Qed.
Lemma quiet_newest name : quiet (NewestIngressCert name).
Proof. unfold NewestIngressCert. through. Qed.
Lemma quiet_seen name version : quiet (SeenIngress name version).
Proof. unfold SeenIngress. through. Qed.
Lemma quiet_present_ingress name serial grace : quiet (PresentIngressCert name serial grace).
Proof. unfold PresentIngressCert. through. Qed.
#[export] Hint Resolve quiet_checkInTx quiet_ingress_checkInTx quiet_first quiet_ingress_first quiet_issue
  quiet_issue_ingress quiet_newest quiet_seen quiet_present_ingress : mesh.

Lemma quiet_present node serial grace : quiet (RecordPresentation node serial grace).
Proof. unfold RecordPresentation. through. intros d. match goal with b : bool |- _ => by destruct b end. Qed.

(** ** Changes of a row *)

Definition bump_peers (p : pod_network) : pod_network := p <| pn_peers_version ::= Z.succ |>.
Definition bump_group (p : pod_network) : pod_network := p <| pn_ingress_group_version ::= Z.succ |>.

Lemma bumpMeshPeers_run d :
  ∃ v d', bumpMeshPeers d = (Ok v, d') ∧ i_pod_network d' = bump_peers <$> i_pod_network d ∧ i_nodes d' = i_nodes d ∧
    i_ingresses d' = i_ingresses d ∧ i_mesh_subnets d' = i_mesh_subnets d.
Proof.
  unfold bumpMeshPeers. destruct (i_pod_network d) as [p|] eqn:E.
  - do 2 eexists. split; [reflexivity|]. done.
  - exists 0, d. rewrite E. done.
Qed.

(** Both kinds of peers of the source are the peers of the promise. *)
Lemma node_peer_seat m n :
  seat_ok m (OfNode (n_Name n)) (node_seat n) →
  Node_MeshPeer n && negb (bool_decide (n_Status n = NodeRemoved)) = is_peer (node_seat n).
Proof.
  intros (_ & Hk & _). unfold Node_MeshPeer, is_peer. cbn in *. destruct Hk as [->|[Hk _]]; cbn; [by rewrite !andb_false_r|].
  rewrite (bool_decide_eq_false_2 (n_MeshPublicKey n = [])) by (intros E; by rewrite E in Hk).
  by rewrite Hk, !andb_true_r.
Qed.

Lemma ingress_peer_seat m g :
  seat_ok m (OfIngress (g_Name g)) (ingress_seat g) →
  Ingress_MeshPeer g && negb (bool_decide (g_Status g = IngressRemoved)) = is_peer (ingress_seat g).
Proof.
  intros (_ & Hk & _). unfold Ingress_MeshPeer, is_peer. cbn in *. destruct Hk as [->|[Hk _]]; cbn; [by rewrite !andb_false_r|].
  rewrite (bool_decide_eq_false_2 (g_MeshPublicKey g = [])) by (intros E; by rewrite E in Hk).
  by rewrite Hk, !andb_true_r.
Qed.

(** Without a network nobody has a seat of it. *)
Lemma no_net_no_subnet m x s : minv m → m_row m x = Some s → m_net m = None → se_subnet s = 0 ∧ se_address s = ""%string.
Proof.
  intros Hi Hx Hn. destruct (mi_seat m Hi x s Hx) as ([(? & _ & ?)|(_ & ula & Hu & _)] & _); [done|].
  unfold m_ula in Hu. by rewrite Hn in Hu.
Qed.

Lemma not_peer s : se_subnet s = 0 → is_peer s = false.
Proof. unfold is_peer. by intros ->. Qed.

(** The version after a change that bumps it when the seat was a peer's and
    leaves no peer. *)
Lemma bumped_versions d d' (b : bool) s s' net :
  minv (abs d) → ∀ x, row_of d x = Some s → b = is_peer s → is_peer s' = false →
  i_pod_network d' = (if b then bump_peers <$> net else net) →
  pn_peers_version <$> net = pn_peers_version <$> i_pod_network d →
  peers_version (abs d') = peers_version (abs d) ∧ peer_part s' = peer_part s ∨
  peers_version (abs d') = peers_version (abs d) + 1.
Proof.
  intros Hi x Hx -> Hs' Hn Hnet. unfold peers_version. cbn. rewrite Hn. unfold peer_part. rewrite Hs'.
  destruct (i_pod_network d) as [p|] eqn:E, net as [q|]; try done.
  - injection Hnet as Hnet. destruct (is_peer s); [right; cbn; lia|left; by rewrite Hnet].
  - destruct (no_net_no_subnet (abs d) x s Hi Hx E) as [E0 _]. rewrite not_peer by done. by left.
Qed.

(** A transaction that changed one row of the nodes. *)
Lemma node_change d d' name n f :
  dinv d → i_nodes d !! name = Some n → i_nodes d' = alter f name (i_nodes d) → i_ingresses d' = i_ingresses d →
  n_Name (f n) = n_Name n → m_ula (abs d') = m_ula (abs d) → i_mesh_subnets d ≤ i_mesh_subnets d' ≤ LastSubnet →
  key_change (abs d) (OfNode name) (node_seat n) (node_seat (f n)) →
  subnet_change (abs d) (abs d') (OfNode name) (node_seat n) (node_seat (f n)) →
  endpoint_change (node_seat n) (node_seat (f n)) →
  versions (abs d) (abs d') (OfNode name) (node_seat n) (node_seat (f n)) →
  rtc mstep (abs d) (abs d') ∧ names_ok d'.
Proof.
  intros [[Hnn Hng] Hi] Hn En Eg Hname Hu Hs Hk Hsub He Hv. split.
  - apply rtc_once, (ms_set _ _ (OfNode name) (node_seat n) (node_seat (f n))); [by cbn; rewrite Hn| |done..].
    split; [cbn; by rewrite En, lookup_alter_eq, Hn|]. intros [y|y] Hy; cbn; [|by rewrite Eg].
    rewrite En, lookup_alter_ne; [done|congruence].
  - split; [rewrite En|by rewrite Eg]. intros k r Hr. apply lookup_alter_Some in Hr as [(<- & r' & Hr & ->)|[_ Hr]]; [|by apply Hnn].
    assert (r' = n) as -> by congruence. rewrite Hname. by apply Hnn.
Qed.

Lemma ingress_change d d' name g f :
  dinv d → i_ingresses d !! name = Some g → i_ingresses d' = alter f name (i_ingresses d) → i_nodes d' = i_nodes d →
  g_Name (f g) = g_Name g → m_ula (abs d') = m_ula (abs d) → i_mesh_subnets d ≤ i_mesh_subnets d' ≤ LastSubnet →
  key_change (abs d) (OfIngress name) (ingress_seat g) (ingress_seat (f g)) →
  subnet_change (abs d) (abs d') (OfIngress name) (ingress_seat g) (ingress_seat (f g)) →
  endpoint_change (ingress_seat g) (ingress_seat (f g)) →
  versions (abs d) (abs d') (OfIngress name) (ingress_seat g) (ingress_seat (f g)) →
  rtc mstep (abs d) (abs d') ∧ names_ok d'.
Proof.
  intros [[Hnn Hng] Hi] Hn En Eg Hname Hu Hs Hk Hsub He Hv. split.
  - apply rtc_once, (ms_set _ _ (OfIngress name) (ingress_seat g) (ingress_seat (f g))); [by cbn; rewrite Hn| |done..].
    split; [cbn; by rewrite En, lookup_alter_eq, Hn|]. intros [y|y] Hy; cbn; [by rewrite Eg|].
    rewrite En, lookup_alter_ne; [done|congruence].
  - split; [by rewrite Eg|rewrite En]. intros k r Hr. apply lookup_alter_Some in Hr as [(<- & r' & Hr & ->)|[_ Hr]]; [|by apply Hng].
    assert (r' = g) as -> by congruence. rewrite Hname. by apply Hng.
Qed.

Lemma ret_run {A} (a : A) d : mret (M := itx) a d = (Ok a, d).
Proof. done. Qed.
Lemma notify_run c p d : Notify c p d = (Ok tt, d <| i_notes ::= cons (c, p) |>).
Proof. done. Qed.
Lemma update_node_run name f d : update_node name f d = (Ok tt, d <| i_nodes ::= alter f name |>).
Proof. done. Qed.
Lemma update_ingress_run name f d : update_ingress name f d = (Ok tt, d <| i_ingresses ::= alter f name |>).
Proof. done. Qed.
Lemma gets_run {A} (f : IDB → A) d : igets f d = (Ok (f d), d).
Proof. done. Qed.

Lemma nodes_set f d : i_nodes (d <| i_nodes ::= f |>) = f (i_nodes d).
Proof. done. Qed.

Lemma ingresses_set f d : i_ingresses (d <| i_ingresses ::= f |>) = f (i_ingresses d).
Proof. done. Qed.
Lemma net_set_ingresses f d : i_pod_network (d <| i_ingresses ::= f |>) = i_pod_network d.
Proof. done. Qed.

(** One computation after the other. *)
Ltac runs :=
  repeat first
    [ rewrite bind_run | rewrite ret_run | rewrite notify_run | rewrite update_node_run | rewrite update_ingress_run
    | rewrite gets_run | progress cbn beta iota zeta ].

(** Runs [bumpMeshPeers], and reads off the database at the end. *)
Ltac bump :=
  match goal with |- context [bumpMeshPeers ?x] =>
    let v := fresh "v" in let d' := fresh "d" in let E := fresh "E" in
    let E1 := fresh "Enet" in let E2 := fresh "Enodes" in let E3 := fresh "Eings" in let E4 := fresh "Eseq" in
    destruct (bumpMeshPeers_run x) as (v & d' & E & E1 & E2 & E3 & E4); rewrite E; clear E
  end.

Ltac after :=
  repeat split; cbn;
  repeat match goal with H : i_pod_network _ = _ |- _ => rewrite H | H : i_nodes _ = _ |- _ => rewrite H
    | H : i_ingresses _ = _ |- _ => rewrite H | H : i_mesh_subnets _ = _ |- _ => rewrite H end; try done.

Definition rejoined (r : Node) : Node :=
  r <| n_Status := NodeJoined |> <| n_RemovedAt := zeroTime |> <| n_IdentityForkedAt := zeroTime |>
    <| n_CurrentSerial := ""%string |> <| n_StatusDescription := ""%string |> <| n_MeshSubnet := 0 |>
    <| n_MeshPrefix := ""%string |> <| n_MeshPublicKey := [] |> <| n_MeshEndpoint := ""%string |>
    <| n_IngressGroupVersion := 0 |>.

(** What the database is after a transaction that changed one row and bumped the
    peers' version when [b]. *)
Definition after_node (d d' : IDB) (name : string) (f : Node → Node) (b : bool) : Prop :=
  i_nodes d' = alter f name (i_nodes d) ∧ i_ingresses d' = i_ingresses d ∧ i_mesh_subnets d' = i_mesh_subnets d ∧
  i_pod_network d' = (if b then bump_peers <$> i_pod_network d else i_pod_network d).

Lemma RejoinNode_run name d n :
  i_nodes d !! name = Some n →
  ∃ d', RejoinNode name d = (Ok tt, d') ∧
    after_node d d' name rejoined (Node_MeshPeer n && negb (bool_decide (n_Status n = NodeRemoved))).
Proof.
  intros Hn. unfold RejoinNode, InsertNode, LockNode, row, RevokeNodeCerts. runs. rewrite Hn. runs. rewrite Hn. runs.
  destruct (_ && _); runs; [bump; runs|]; (destruct (negb _); runs; (eexists; split; [reflexivity|]; after)).
Qed.

Definition removed_node (now : Time) (r : Node) : Node :=
  r <| n_Status := NodeRemoved |> <| n_RemovedAt := if IsZero (n_RemovedAt r) then now else n_RemovedAt r |>.

Lemma RemoveNode_run name d n :
  i_nodes d !! name = Some n →
  ∃ d', RemoveNode name d = (Ok (removed_node (i_now d) n), d') ∧
    after_node d d' name (removed_node (i_now d)) (Node_MeshPeer n && negb (bool_decide (n_Status n = NodeRemoved))).
Proof.
  intros Hn. unfold RemoveNode, LockNode, row, RevokeNodeCerts. runs. rewrite Hn. runs.
  rewrite nodes_set, lookup_alter_eq, Hn. cbn [fmap option_fmap option_map]. runs.
  destruct (Node_MeshPeer n && _); runs; [bump; runs|]; (eexists; split; [reflexivity|]; after).
Qed.

Lemma InsertNode_refines name : refines (InsertNode name).
Proof.
  intros d Hd. unfold InsertNode. destruct (i_nodes d !! name) eqn:E; [by apply same_mesh_steps|].
  destruct (IsNodeName name) eqn:En; [|by apply same_mesh_steps]. destruct Hd as [[Hn Hg] Hi]. cbn. split.
  - apply rtc_once, (ms_new _ _ (OfNode name) (node_seat (new_node name (i_now d)))); [by cbn; rewrite E| |done..].
    split; [cbn; by rewrite lookup_insert_eq|]. intros [y|y] Hy; [|done]. cbn. rewrite lookup_insert_ne; [done|congruence].
  - split; [|done]. intros k n Hk. cbn in Hk. apply lookup_insert_Some in Hk as [[<- <-]|[_ Hk]]; [done|by apply Hn].
Qed.

Lemma InsertIngress_refines name : refines (InsertIngress name).
Proof.
  intros d Hd. unfold InsertIngress. destruct (i_ingresses d !! name) eqn:E; [by apply same_mesh_steps|].
  destruct (IsNodeName name) eqn:En; [|by apply same_mesh_steps]. destruct Hd as [[Hn Hg] Hi]. cbn. split.
  - apply rtc_once, (ms_new _ _ (OfIngress name) (ingress_seat (new_ingress name (i_now d)))); [by cbn; rewrite E| |done..].
    split; [cbn; by rewrite lookup_insert_eq|]. intros [y|y] Hy; [done|]. cbn. rewrite lookup_insert_ne; [done|congruence].
  - split; [done|]. intros k n Hk. cbn in Hk. apply lookup_insert_Some in Hk as [[<- <-]|[_ Hk]]; [done|by apply Hg].
Qed.

(** A node's seat given up, or its node removed. *)
Lemma after_node_refines d d' name n f :
  dinv d → i_nodes d !! name = Some n →
  after_node d d' name f (Node_MeshPeer n && negb (bool_decide (n_Status n = NodeRemoved))) →
  n_Name (f n) = n_Name n → is_peer (node_seat (f n)) = false →
  (n_MeshPublicKey (f n) = [] ∨ n_MeshPublicKey (f n) = n_MeshPublicKey n ∧ n_Status (f n) = NodeRemoved) →
  (n_MeshSubnet (f n) = 0 ∧ n_MeshPrefix (f n) = ""%string ∨
   n_MeshSubnet (f n) = n_MeshSubnet n ∧ n_MeshPrefix (f n) = n_MeshPrefix n) →
  (n_MeshEndpoint (f n) = ""%string ∨ n_MeshEndpoint (f n) = n_MeshEndpoint n) →
  rtc mstep (abs d) (abs d') ∧ names_ok d'.
Proof.
  intros Hd Hn (En & Eg & Es & Ep) Hname Hpeer Hk Hs He. pose proof (di_mesh d Hd) as Hi.
  assert (Hrow : row_of d (OfNode (n_Name n)) = Some (node_seat n)).
  { destruct (di_names d Hd) as [Hnn _]. cbn. by rewrite (Hnn name n Hn), Hn. }
  pose proof (mi_seat _ Hi _ _ Hrow) as Hok. apply (node_change d d' name n f); try done.
  - unfold m_ula. cbn. rewrite Ep. destruct (_ && _), (i_pod_network d); done.
  - rewrite Es. pose proof (mi_seq _ Hi). cbn in *. lia.
  - unfold key_change. cbn. destruct Hk as [->|[-> ->]]; [by left|right; left]. by split.
  - unfold subnet_change. cbn. destruct Hs as [[-> ->]|[-> ->]]; [by left|by right; left].
  - unfold endpoint_change. cbn. destruct He as [->| ->]; [by left|by right; left].
  - split; [|left].
    + exact (bumped_versions d d' _ _ _ _ Hi _ Hrow (node_peer_seat _ _ Hok) Hpeer Ep eq_refl).
    + split; [|done]. unfold group_version. cbn. rewrite Ep. destruct (_ && _), (i_pod_network d); done.
Qed.

Lemma RejoinNode_refines name : refines (RejoinNode name).
Proof.
  unfold RejoinNode. apply refines_bind; [apply InsertNode_refines|]. intros _ d Hd.
  destruct (i_nodes d !! name) as [n|] eqn:E.
  - destruct (RejoinNode_run name d n E) as (d' & Er & Ha). unfold RejoinNode in Er. rewrite bind_run in Er.
    unfold InsertNode in Er. rewrite E in Er. rewrite Er. eapply (after_node_refines d d' name n rejoined); eauto.
  - rewrite bind_run. unfold LockNode, row. rewrite E. by apply same_mesh_steps.
Qed.

Lemma RemoveNode_refines name : refines (RemoveNode name).
Proof.
  intros d Hd. destruct (i_nodes d !! name) as [n|] eqn:E.
  - destruct (RemoveNode_run name d n E) as (d' & -> & Ha). 
    eapply (after_node_refines d d' name n (removed_node (i_now d))); eauto. unfold is_peer. cbn. by rewrite andb_false_r.
  - unfold RemoveNode. rewrite bind_run. unfold LockNode, row. rewrite E. by apply same_mesh_steps.
Qed.

(** ** Taking a seat *)

Lemma named_row m x s : minv m → m_row m x = Some s → name_of x ≠ ""%string.
Proof. intros Hi Hx E. destruct (mi_seat m Hi x s Hx) as (_ & _ & _ & _ & Hn). by rewrite E in Hn. Qed.

Lemma checkMeshKey_run key x d :
  minv (abs d) →
  let r := checkMeshKey key (match x with OfNode n => n | OfIngress _ => "" end)
             (match x with OfIngress n => n | OfNode _ => "" end) d in
  r = (Err MeshKeyTaken, d) ∨ r = (Ok tt, d) ∧ free (abs d) x key.
Proof.
  intros Hi. cbv zeta. unfold checkMeshKey. destruct (_ || _) eqn:E; [by left|right]. split; [done|].
  apply orb_false_iff in E as [E1 E2]. intros y t Hy Ht Hl Hk.
  pose proof (named_row (abs d) y t Hi Ht) as Hname.
  rewrite <- not_true_iff_false, existsb_exists in E1, E2. destruct y as [y|y]; cbn in Ht.
  - destruct (i_nodes d !! y) as [n|] eqn:En; [|done]. injection Ht as <-. apply E1. exists (y, n).
    split; [by apply list_elem_of_In, elem_of_map_to_list|]. unfold holds_node_key. cbn in *. rewrite Hk, Hl.
    rewrite bool_decide_eq_true_2 by done. cbn. destruct (String.eqb_spec y (match x with OfNode n0 => n0 | OfIngress _ => "" end)) as [->|]; [|done].
    by destruct x.
  - destruct (i_ingresses d !! y) as [n|] eqn:En; [|done]. injection Ht as <-. apply E2. exists (y, n).
    split; [by apply list_elem_of_In, elem_of_map_to_list|]. unfold holds_ingress_key. cbn in *. rewrite Hk, Hl.
    rewrite bool_decide_eq_true_2 by done. cbn. destruct (String.eqb_spec y (match x with OfIngress n0 => n0 | OfNode _ => "" end)) as [->|]; [|done].
    by destruct x.
Qed.

(** The subnet of a seat: the one it had, or the next of the sequence. *)
Lemma next_subnet_run (old : Z) d :
  minv (abs d) →
  let r := (if old =? 0 then nextMeshSubnet else mret old) d in
  r = (Err MeshExhausted, d) ∨
  ∃ subnet d', r = (Ok subnet, d') ∧ d' = d <| i_mesh_subnets := i_mesh_subnets d' |> ∧
    i_mesh_subnets d ≤ i_mesh_subnets d' ≤ LastSubnet ∧
    (old ≠ 0 ∧ subnet = old ∧ d' = d ∨ old = 0 ∧ i_mesh_subnets d < subnet ≤ i_mesh_subnets d').
Proof.
  intros Hi. pose proof (mi_seq _ Hi) as Hs. cbn in Hs. cbv zeta. destruct (Z.eqb_spec old 0) as [E|E].
  - unfold nextMeshSubnet. destruct (Z.leb_spec LastSubnet (i_mesh_subnets d)); [by left|right].
    do 2 eexists. split; [reflexivity|]. split; [done|]. cbn. split; [lia|]. right. lia.
  - right. exists old, d. split; [done|]. split; [by destruct d|]. split; [lia|]. by left.
Qed.

Lemma JoinMesh_refines n ula key endpoint d :
  dinv d → i_nodes d !! n_Name n = Some n → m_ula (abs d) = Some ula → is_key key →
  CheckEndpoint endpoint = Ok endpoint →
  let d' := (JoinMesh n ula key endpoint d).2 in rtc mstep (abs d) (abs d') ∧ names_ok d'.
Proof.
  intros Hd Hn Hu Hlen Hep. pose proof (di_mesh d Hd) as Hi. cbv zeta. unfold JoinMesh. rewrite bind_run.
  assert (Hk : (if bool_decide (key = n_MeshPublicKey n) then mret tt else checkMeshKey key (n_Name n) "") d = (Err MeshKeyTaken, d) ∨
    (if bool_decide (key = n_MeshPublicKey n) then mret tt else checkMeshKey key (n_Name n) "") d = (Ok tt, d) ∧
    (key = n_MeshPublicKey n ∨ free (abs d) (OfNode (n_Name n)) key)).
  { case_bool_decide as Ek; [right; split; [done|by left]|].
    destruct (checkMeshKey_run key (OfNode (n_Name n)) d Hi) as [E|[E Hf]]; [by left|right; split; [done|by right]]. }
  destruct Hk as [->|[-> Hk]]; [by apply same_mesh_steps|]. rewrite bind_run.
  destruct (next_subnet_run (n_MeshSubnet n) d Hi) as [->|(subnet & d1 & -> & Ed1 & Hseq & Hsub)]; [by apply same_mesh_steps|].
  cbv zeta. destruct (negb (negb (subnet =? n_MeshSubnet n) || _ || _ || _)) eqn:Ech.
  - assert (d1 = d) as ->.
    { destruct Hsub as [(_ & _ & ->)|[E0 Hr]]; [done|]. apply negb_true_iff in Ech. repeat (apply orb_false_iff in Ech as [Ech _]).
      pose proof (mi_seq _ Hi). cbn in *. lia. }
    by apply same_mesh_steps.
  - clear Ech. runs. bump. runs. set (f := λ r : Node, _) in *.
    assert (E1 : i_nodes d1 = i_nodes d ∧ i_ingresses d1 = i_ingresses d ∧ i_pod_network d1 = i_pod_network d) by (rewrite Ed1; done).
    destruct E1 as (En1 & Eg1 & Ep1). cbn in Enet, Enodes, Eings, Eseq. rewrite En1 in Enodes. rewrite Eg1 in Eings. rewrite Ep1 in Enet.
    unfold m_ula in Hu. cbn in Hu. destruct (i_pod_network d) as [p|] eqn:Ep; [|done]. injection Hu as <-.
    apply (node_change d d0 (n_Name n) n f); try done.
    + unfold m_ula. cbn. by rewrite Enet, Ep.
    + by rewrite Eseq.
    + right. destruct Hk as [->|Hk]; [by left|by right].
    + right. right. exists (pn_ula p). unfold m_ula. cbn. rewrite Ep, Eseq. split; [done|]. split; [done|].
      destruct Hsub as [(? & -> & _)|[_ ?]]; [by left|by right].
    + right. by right.
    + unfold versions, peers_version, group_version. cbn. rewrite Enet, Ep. split; [by right|by left].
Qed.

(** ** Ingresses *)

Lemma group_run (b : bool) (old : Z) d :
  let r := (if b then bumpIngressGroup else mret old) d in
  r = (Err NotMeshed, d) ∨
  ∃ v d', r = (Ok v, d') ∧ i_nodes d' = i_nodes d ∧ i_ingresses d' = i_ingresses d ∧ i_mesh_subnets d' = i_mesh_subnets d ∧
    i_now d' = i_now d ∧ i_pod_network d' = (if b then bump_group <$> i_pod_network d else i_pod_network d) ∧
    (b = true → is_Some (i_pod_network d)) ∧ v = if b then group_version (abs d) + 1 else old.
Proof.
  cbv zeta. destruct b; [|right; exists old, d; done]. unfold bumpIngressGroup, group_version. cbn.
  destruct (i_pod_network d) as [p|]; [right|by left]. do 2 eexists. split; [reflexivity|]. repeat split; done.
Qed.

Lemma RevokeIngressCerts_run name reason d :
  ∃ v d', RevokeIngressCerts name reason d = (Ok v, d') ∧ i_nodes d' = i_nodes d ∧ i_ingresses d' = i_ingresses d ∧
    i_mesh_subnets d' = i_mesh_subnets d ∧ i_pod_network d' = i_pod_network d.
Proof.
  unfold RevokeIngressCerts. rewrite bind_run. destruct (0 <? _); runs; (do 2 eexists; split; [reflexivity|done]).
Qed.

(** The row of an ingress changed to [f], the peers' version bumped when [b] and
    the group's when [c]. *)
Definition after_ingress (d d' : IDB) (name : string) (f : Ingress → Ingress) (b c : bool) : Prop :=
  i_ingresses d' = alter f name (i_ingresses d) ∧ i_nodes d' = i_nodes d ∧ i_mesh_subnets d' = i_mesh_subnets d ∧
  i_pod_network d' =
    (let net := if c then bump_group <$> i_pod_network d else i_pod_network d in if b then bump_peers <$> net else net) ∧
  (c = true → is_Some (i_pod_network d)).

Definition rejoined_ingress (version : Z) (r : Ingress) : Ingress :=
  r <| g_Status := IngressJoined |> <| g_RemovedAt := zeroTime |>
    <| g_PreviousMeshPublicKey := if bool_decide (g_MeshPublicKey r = []) then g_PreviousMeshPublicKey r
                                  else g_MeshPublicKey r |>
    <| g_MeshPublicKey := [] |> <| g_MeshEndpoint := ""%string |> <| g_CurrentSerial := ""%string |>
    <| g_GroupVersion := version |>.

Definition removed_ingress (now version : Z) (r : Ingress) : Ingress :=
  r <| g_Status := IngressRemoved |> <| g_RemovedAt := if IsZero (g_RemovedAt r) then now else g_RemovedAt r |>
    <| g_GroupVersion := version |>.

(** The version of the group an ingress's row gets. *)
Definition row_version (d : IDB) (g : Ingress) (c : bool) : Z := if c then group_version (abs d) + 1 else g_GroupVersion g.

Ltac revoke :=
  match goal with |- context [RevokeIngressCerts ?n ?r ?x] =>
    let v := fresh "v" in let d' := fresh "d" in let E := fresh "E" in
    let E1 := fresh "Enodes" in let E2 := fresh "Eings" in let E3 := fresh "Eseq" in let E4 := fresh "Enet" in
    destruct (RevokeIngressCerts_run n r x) as (v & d' & E & E1 & E2 & E3 & E4); rewrite E; clear E
  end.

Lemma RejoinIngress_run name d g :
  i_ingresses d !! name = Some g →
  let c := bool_decide (g_Status g = IngressRemoved) && negb (String.eqb (g_MeshAddress g) "") in
  RejoinIngress name d = (Err NotMeshed, d) ∨
  ∃ d', RejoinIngress name d = (Ok tt, d') ∧
    after_ingress d d' name (rejoined_ingress (row_version d g c))
      (Ingress_MeshPeer g && negb (bool_decide (g_Status g = IngressRemoved))) c.
Proof.
  intros Hg. cbv zeta. unfold RejoinIngress, InsertIngress, LockIngress, row. runs. rewrite Hg. runs. rewrite Hg. runs.
  set (c := bool_decide _ && negb _).
  destruct (group_run c (g_GroupVersion g) d) as [E|(v & d1 & E & H1 & H2 & H3 & Hnow & H4 & H5 & Hv)]; rewrite E; [by left|right].
  fold (row_version d g c) in Hv. runs. revoke. runs.
  destruct (Ingress_MeshPeer g && _); runs; [bump; runs|]; (eexists; split; [reflexivity|]); after; by rewrite ?ingresses_set, ?net_set_ingresses, ?Hv, ?H1, ?H2, ?H3, ?H4.
Qed.

Lemma RemoveIngress_run name d g :
  i_ingresses d !! name = Some g →
  RemoveIngress name d = (Err NotMeshed, d) ∨
  ∃ d', RemoveIngress name d = (Ok true, d') ∧
    after_ingress d d' name (removed_ingress (i_now d) (row_version d g (member g)))
      (Ingress_MeshPeer g && negb (bool_decide (g_Status g = IngressRemoved))) (member g).
Proof.
  intros Hg. unfold RemoveIngress, catch_no_row, LockIngress, row. runs. rewrite Hg. runs.
  destruct (group_run (member g) (g_GroupVersion g) d) as [E|(v & d1 & E & H1 & H2 & H3 & Hnow & H4 & H5 & Hv)];
    rewrite E; [by left|right].
  fold (row_version d g (member g)) in Hv. runs. rewrite Hnow. revoke. runs.
  destruct (Ingress_MeshPeer g && _); runs; [bump; runs|]; (eexists; split; [reflexivity|]); after;
    by rewrite ?ingresses_set, ?net_set_ingresses, ?Hv, ?H1, ?H2, ?H3, ?H4.
Qed.

Lemma after_ingress_refines d d' name g f c :
  dinv d → i_ingresses d !! name = Some g →
  after_ingress d d' name f (Ingress_MeshPeer g && negb (bool_decide (g_Status g = IngressRemoved))) c →
  g_Name (f g) = g_Name g → is_peer (ingress_seat (f g)) = false →
  (g_MeshPublicKey (f g) = [] ∨ g_MeshPublicKey (f g) = g_MeshPublicKey g ∧ g_Status (f g) = IngressRemoved) →
  (g_MeshSubnet (f g), g_MeshPrefix (f g), g_MeshAddress (f g)) = (g_MeshSubnet g, g_MeshPrefix g, g_MeshAddress g) →
  (g_MeshEndpoint (f g) = ""%string ∨ g_MeshEndpoint (f g) = g_MeshEndpoint g) →
  g_GroupVersion (f g) = row_version d g c →
  (c = false → member_part (OfIngress name) (ingress_seat (f g)) = member_part (OfIngress name) (ingress_seat g)) →
  rtc mstep (abs d) (abs d') ∧ names_ok d'.
Proof.
  intros Hd Hg (Eg & En & Es & Ep & Hc) Hname Hpeer Hk [= E1 E2 E3] He Hv Hm. pose proof (di_mesh d Hd) as Hi.
  assert (Hrow : row_of d (OfIngress (g_Name g)) = Some (ingress_seat g)).
  { destruct (di_names d Hd) as [_ Hng]. cbn. by rewrite (Hng name g Hg), Hg. }
  pose proof (mi_seat _ Hi _ _ Hrow) as Hok. apply (ingress_change d d' name g f); try done.
  - unfold m_ula. cbn. rewrite Ep. cbv zeta. destruct c, (_ && _), (i_pod_network d); done.
  - rewrite Es. pose proof (mi_seq _ Hi). cbn in *. lia.
  - unfold key_change. cbn. destruct Hk as [->|[-> ->]]; [by left|right; left]. by split.
  - right. left. cbn. by rewrite E1, E2, E3.
  - unfold endpoint_change. cbn. destruct He as [->| ->]; [by left|by right; left].
  - split.
    + eapply (bumped_versions d d' _ _ _ _ Hi _ Hrow (ingress_peer_seat _ _ Hok) Hpeer Ep). by destruct c, (i_pod_network d).
    + unfold row_version in Hv. unfold group_version in *. cbn in *. rewrite Ep. cbv zeta. destruct c.
      * right. destruct (Hc eq_refl) as [p Hp]. rewrite Hp in *. rewrite Hv. destruct (_ && _); by cbn.
      * left. rewrite Hv. split; [by destruct (_ && _), (i_pod_network d)|]. split; [by apply Hm|done].
Qed.

Lemma RejoinIngress_refines name : refines (RejoinIngress name).
Proof.
  unfold RejoinIngress. apply refines_bind; [apply InsertIngress_refines|]. intros _ d Hd.
  destruct (i_ingresses d !! name) as [g|] eqn:E.
  - pose proof (RejoinIngress_run name d g E) as Hr. cbv zeta in Hr. unfold RejoinIngress in Hr. rewrite bind_run in Hr.
    unfold InsertIngress in Hr. rewrite E in Hr. destruct Hr as [->|(d' & -> & Ha)]; [by apply same_mesh_steps|].
    eapply (after_ingress_refines d d' name g); [done..| | | | | |].
    + unfold is_peer. cbn. by rewrite andb_false_r.
    + by left.
    + done.
    + by left.
    + done.
    + intros Hc. cbn. revert Hc. clear. by destruct (g_Status g), (String.eqb (g_MeshAddress g) ""%string).
  - rewrite bind_run. unfold LockIngress, row. rewrite E. by apply same_mesh_steps.
Qed.

Lemma RemoveIngress_refines name : refines (RemoveIngress name).
Proof.
  intros d Hd. destruct (i_ingresses d !! name) as [g|] eqn:E.
  - destruct (RemoveIngress_run name d g E) as [->|(d' & -> & Ha)]; [by apply same_mesh_steps|].
    eapply (after_ingress_refines d d' name g); [done..| | | | | |].
    + unfold is_peer. cbn. by rewrite andb_false_r.
    + by right.
    + done.
    + by right.
    + done.
    + unfold member. cbn. by intros ->.
  - unfold RemoveIngress, catch_no_row. rewrite bind_run. unfold LockIngress, row. rewrite E. by apply same_mesh_steps.
Qed.

(** The key of an ingress that takes its seat: the one it has, or a free one. *)
Lemma ingress_key_run g key d :
  minv (abs d) →
  let r := (if bool_decide (g_MeshPublicKey g = []) then
              if negb (bool_decide (g_PreviousMeshPublicKey g = [])) && bool_decide (key = g_PreviousMeshPublicKey g)
              then ifail IngressKeyRetired
              else checkMeshKey key "" (g_Name g)
            else mret tt) d in
  (negb (bool_decide (g_MeshPublicKey g = [])) && negb (bool_decide (key = g_MeshPublicKey g)) = false) →
  (∃ e, r = (Err e, d)) ∨ r = (Ok tt, d) ∧ (key = g_MeshPublicKey g ∨ free (abs d) (OfIngress (g_Name g)) key).
Proof.
  intros Hi. cbv zeta. do 2 case_bool_decide; cbn [negb andb]; intros Hk; try discriminate Hk.
  1, 2: destruct (negb _ && _); [by left; eexists|];
    destruct (checkMeshKey_run key (OfIngress (g_Name g)) d Hi) as [->|[-> Hf]]; [by left; eexists|]; right; auto.
  right. auto.
Qed.

Definition seated (subnet : Z) (ptext address : string) (key : list Z) (endpoint : string) (version : Z) (r : Ingress) : Ingress :=
  r <| g_MeshSubnet := subnet |> <| g_MeshPrefix := ptext |> <| g_MeshAddress := address |> <| g_MeshPublicKey := key |>
    <| g_MeshEndpoint := endpoint |> <| g_GroupVersion := version |>.

(** A draw of the sequence that nothing else follows. *)
Lemma sequence_steps d d1 :
  dinv d → d1 = d <| i_mesh_subnets := i_mesh_subnets d1 |> → i_mesh_subnets d ≤ i_mesh_subnets d1 ≤ LastSubnet →
  rtc mstep (abs d) (abs d1) ∧ names_ok d1.
Proof. intros [Hn _] -> Hs. split; [by apply rtc_once, ms_seq|done]. Qed.

(** The rest of [JoinIngressMesh]: the row and the versions. *)
Lemma take_seat_run g subnet ptext address key endpoint (moved changed : bool) j d :
  let m : itx IngressMeshJoin :=
    version ← (if moved then bumpIngressGroup else mret (g_GroupVersion g));
    update_ingress (g_Name g) (seated subnet ptext address key endpoint version);;
    (if changed then bumpMeshPeers;; mret tt else mret tt);;
    Notify chanIngress (IngressNamePayload (g_Name g));;
    mret j in
  let r := m d in
  r = (Err NotMeshed, d) ∨
  ∃ d', r = (Ok j, d') ∧
    after_ingress d d' (g_Name g) (seated subnet ptext address key endpoint (row_version d g moved)) changed moved.
Proof.
  cbv zeta. runs.
  destruct (group_run moved (g_GroupVersion g) d) as [E|(v & d1 & E & H1 & H2 & H3 & _ & H4 & H5 & Hv)]; rewrite E; [by left|right].
  fold (row_version d g moved) in Hv. runs.
  destruct changed; runs; [bump; runs|]; (eexists; split; [reflexivity|]); after;
    by rewrite ?ingresses_set, ?net_set_ingresses, ?Hv, ?H1, ?H2, ?H3, ?H4.
Qed.

Lemma seat_peer_part s s' :
  se_subnet s' = se_subnet s → se_prefix s' = se_prefix s → se_key s' = se_key s → se_endpoint s' = se_endpoint s →
  se_live s' = se_live s → peer_part s' = peer_part s.
Proof. unfold peer_part, is_peer. by intros -> -> -> -> ->. Qed.

Lemma seat_member_part name s s' :
  se_address s' = se_address s → se_live s' = se_live s → member_part (OfIngress name) s' = member_part (OfIngress name) s.
Proof. unfold member_part. by intros -> ->. Qed.

Lemma JoinIngressMesh_refines g r ula key endpoint d :
  dinv d → i_ingresses d !! g_Name g = Some r → ingress_seat r = ingress_seat g → g_Name r = g_Name g →
  g_Status g ≠ IngressRemoved →
  m_ula (abs d) = Some ula → is_key key → CheckEndpoint endpoint = Ok endpoint →
  let d' := (JoinIngressMesh g ula key endpoint d).2 in rtc mstep (abs d) (abs d') ∧ names_ok d'.
Proof.
  intros Hd Hr Es Hname Hlive Hu Hlen Hep. pose proof (di_mesh d Hd) as Hi. cbv zeta. unfold JoinIngressMesh.
  destruct (negb (IsValid ula)); [by apply same_mesh_steps|].
  destruct (negb _ && _) eqn:Ek; [by apply same_mesh_steps|]. rewrite bind_run.
  destruct (ingress_key_run g key d Hi Ek) as [[e ->]|[-> Hk]]; [by apply same_mesh_steps|]. rewrite bind_run.
  destruct (next_subnet_run (g_MeshSubnet g) d Hi) as [->|(subnet & d1 & -> & Ed1 & Hseq & Hsub)]; [by apply same_mesh_steps|].
  cbv zeta. set (prefix := NodePrefix ula subnet). set (address := Addr_String (HostAddress prefix) "").
  set (moved := negb (String.eqb address (g_MeshAddress g))).
  set (changed := _ || negb (String.eqb endpoint (g_MeshEndpoint g))).
  destruct (negb changed && negb moved) eqn:Ech.
  - by apply sequence_steps.
  - clear Ech. rewrite (bool_decide_eq_false_2 _ Hlive), !andb_true_r.
    destruct (take_seat_run g subnet (Prefix_String prefix) address key endpoint moved changed
                (MkIngressMeshJoin subnet (Prefix_String prefix) address changed moved) d1) as [E|(d' & E & Ha)];
      unfold seated in E; rewrite E; clear E; [by apply sequence_steps|]. cbn [snd].
    assert (E1 : i_nodes d1 = i_nodes d ∧ i_ingresses d1 = i_ingresses d ∧ i_pod_network d1 = i_pod_network d) by (rewrite Ed1; done).
    destruct E1 as (En1 & Eg1 & Ep1), Ha as (Eg & En & Eq & Ep & Hc). rewrite En1 in En. rewrite Eg1 in Eg. rewrite Ep1 in Ep, Hc.
    unfold m_ula in Hu. cbn in Hu. destruct (i_pod_network d) as [p|] eqn:Enet; [|done]. injection Hu as <-.
    set (f := seated _ _ _ _ _ _) in Eg. pose proof (f_equal se_live Es) as El.
    apply (ingress_change d d' (g_Name g) r f); rewrite ?Es; try done.
    + unfold m_ula. cbn. rewrite Enet, Ep. cbv zeta. by destruct moved, changed.
    + by rewrite Eq.
    + right. destruct Hk as [->|Hk]; [left|by right]. split; [done|]. intros _. cbn. by rewrite bool_decide_eq_false_2.
    + right. right. exists (pn_ula p). unfold m_ula. cbn. rewrite Enet, Eq. split; [done|]. split; [done|].
      destruct Hsub as [(? & -> & _)|[_ ?]]; [by left|by right].
    + right. by right.
    + split.
      * destruct changed eqn:Ec; [right; unfold peers_version; cbn; rewrite Ep, Enet; cbv zeta; by destruct moved|left].
        split; [unfold peers_version; cbn; rewrite Ep, Enet; by destruct moved|].
        unfold changed in Ec. repeat (apply orb_false_iff in Ec as [Ec ?]).
        apply negb_false_iff in Ec, H, H0, H1. apply Z.eqb_eq in Ec.
        apply String.eqb_eq in H, H1. apply bool_decide_eq_true in H0.
        apply seat_peer_part; [exact Ec|exact H1|exact H0|exact H|exact El].
      * assert (Eg0 : group_version (abs d') = if moved then group_version (abs d) + 1 else group_version (abs d)).
        { unfold group_version. cbn. rewrite Ep, Enet. by destruct moved, changed. }
        rewrite Eg0. destruct moved eqn:Em; [right; split; [done|]|left; split; [done|split]].
        -- change (group_version (abs d1) + 1 = group_version (abs d) + 1). unfold group_version. cbn. by rewrite Ep1, Enet.
        -- apply negb_false_iff, String.eqb_eq in Em.
           apply seat_member_part; [exact Em|exact El].
        -- reflexivity.
Qed.

(** ** The network *)

Lemma set_byte_high i b a : 1 ≤ i ≤ 15 → 0 ≤ b < 256 → Z.shiftr (set_byte i b a) 120 = Z.shiftr a 120.
Proof.
  intros Hi Hb. unfold set_byte. cbv zeta. rewrite Z.shiftr_lor, Z.shiftr_ldiff.
  assert (Hz : ∀ c, 0 ≤ c < 256 → Z.shiftr (Z.shiftl c (8 * (15 - i))) 120 = 0).
  { intros c Hc. rewrite Z.shiftr_div_pow2, Z.shiftl_mul_pow2 by lia. apply Z.div_small.
    pose proof (Z.pow_pos_nonneg 2 (8 * (15 - i)) ltac:(lia) ltac:(lia)).
    assert (E : 2 ^ 120 = 2 ^ (120 - 8 - 8 * (15 - i)) * 2 ^ 8 * 2 ^ (8 * (15 - i))) by (rewrite <- !Z.pow_add_r by lia; f_equal; lia).
    pose proof (Z.pow_pos_nonneg 2 (120 - 8 - 8 * (15 - i)) ltac:(lia) ltac:(lia)). rewrite E. change (2 ^ 8) with 256. nia. }
  rewrite !Hz by lia. by rewrite Z.ldiff_0_r, Z.lor_0_r.
Qed.

Lemma fd_network a : Z.shiftr a 120 = 253 → ula_fd (MkPrefix (Addr6 a) NetworkBits).
Proof.
  intros Ha. split; [|done]. exists a. split; [done|]. rewrite Z.shiftr_div_pow2 in Ha by lia.
  pose proof (Z.div_mod a (2 ^ 120) ltac:(lia)). pose proof (Z.mod_pos_bound a (2 ^ 120) ltac:(lia)). lia.
Qed.

Lemma Draw_fd r1 r2 r3 r4 r5 :
  is_byte r1 && is_byte r2 && is_byte r3 && is_byte r4 && is_byte r5 = true → ula_fd (Draw r1 r2 r3 r4 r5).
Proof. unfold is_byte. intros H. apply fd_network. by rewrite !set_byte_high by lia. Qed.

Lemma ParsePodNetwork_fd s p : ParsePodNetwork s = Ok p → ula_fd p.
Proof.
  unfold ParsePodNetwork. destruct (ParsePrefix s) as [[[|a|a] bits]|]; [done..| |done]. cbn [pf_Addr pf_Bits negb orb].
  destruct (Is4In6 _); [done|]. destruct (negb (bits =? NetworkBits) && _) eqn:Eb; [done|].
  destruct (bool_decide _) eqn:Em; [|done]. destruct (Z.eqb_spec (Z.shiftr (As16 (Addr6 a)) 120) 253) as [Ea|]; [|done].
  apply bool_decide_eq_true in Em. cbn [negb]. destruct (Z.eqb_spec bits 48) as [E48|Hb]; intros [= <-].
  - rewrite E48 in *. unfold FromLegacy. apply (f_equal pf_Addr) in Em. change (masked_addr (MkPrefix (Addr6 a) 48) = Addr6 a) in Em.
    rewrite Em. by apply fd_network.
  - assert (bits = NetworkBits) as -> by lia. by apply fd_network.
Qed.

Lemma bootstrap_refines want drawn : ula_fd drawn → refines (bootstrapPodNetwork want drawn).
Proof.
  intros Hfd d Hd. unfold bootstrapPodNetwork, PodNetwork. rewrite bind_run, gets_run.
  destruct (i_pod_network d) as [p|] eqn:E; cbn [fmap option_fmap option_map].
  - repeat case_match; by apply same_mesh_steps.
  - destruct (String.eqb want PodNetworkRouted); [by apply same_mesh_steps|]. rewrite bind_run.
    assert (Hu : (∃ e, (if String.eqb want PodNetworkMesh then mret drawn
                 else of_result FailedPrecondition "--pod-network: " (ParsePodNetwork want)) d = (Err e, d)) ∨
               ∃ ula, (if String.eqb want PodNetworkMesh then mret drawn
                 else of_result FailedPrecondition "--pod-network: " (ParsePodNetwork want)) d = (Ok ula, d) ∧ ula_fd ula).
    { destruct (String.eqb want PodNetworkMesh); [right; by exists drawn|].
      destruct (ParsePodNetwork want) as [p|t] eqn:Ep; [right|left; by eexists].
      exists p. split; [done|by eapply ParsePodNetwork_fd]. }
    destruct Hu as [[e ->]|(ula & -> & Hu)]; [by apply same_mesh_steps|]. rewrite bind_run. unfold InsertPodNetwork. rewrite E.
    split; [|by destruct Hd]. by apply rtc_once, (ms_network _ _ ula).
Qed.

(** ** The handlers *)

#[export] Hint Resolve InsertNode_refines InsertIngress_refines RejoinNode_refines RejoinIngress_refines : mesh.

Ltac refining :=
  repeat first
    [ solve [auto with mesh nocore]
    | solve [apply quiet_refines; through]
    | apply refines_bind; [|intros ?]
    | match goal with
      | |- refines (if ?b then _ else _) => destruct b
      | |- refines (match ?x with _ => _ end) => destruct x
      | |- refines (let '(_, _) := ?x in _) => destruct x
      end ].

Lemma join_tx_refines hash name peer csr leaf : refines (join_tx hash name peer csr leaf).
Proof. unfold join_tx. refining. Qed.

Lemma ingress_join_tx_refines hash name keyHash peer leaf : refines (ingress_join_tx hash name keyHash peer leaf).
Proof. unfold ingress_join_tx. refining. Qed.

Lemma fork_tx_quiet node serial peer : quiet (fork_tx node serial peer).
Proof. unfold fork_tx. through. Qed.

Lemma renew_tx_quiet p csr leaf : quiet (renew_tx p csr leaf).
Proof. unfold renew_tx. through. Qed.

Lemma ingress_renew_tx_quiet p keyHash early leaf : quiet (ingress_renew_tx p keyHash early leaf).
Proof. unfold ingress_renew_tx. through. Qed.

Lemma group_version_quiet node v : quiet (SetNodeIngressGroupVersion node v).
Proof.
  intros d. unfold SetNodeIngressGroupVersion. destruct (i_nodes d !! node) as [n|]; [|done].
  destruct (_ =? v); [done|]. match goal with |- same_mesh d ((?m) d).2 => assert (H : quiet m) by through end. apply H.
Qed.

Lemma issue_token_quiet kind by_ node ttl id hash : quiet (IssueJoinToken kind by_ node ttl id hash).
Proof. unfold IssueJoinToken. through. intros d. unfold CreateJoinToken. by repeat case_match. Qed.

Lemma bind_ok_or {A B} (m : itx A) (f : A → itx B) d :
  quiet m → dinv d →
  (∀ a d', m d = (Ok a, d') → same_mesh d d' → dinv d' → rtc mstep (abs d') (abs (f a d').2) ∧ names_ok (f a d').2) →
  rtc mstep (abs d) (abs ((m ≫= f) d).2) ∧ names_ok ((m ≫= f) d).2.
Proof.
  intros Hq Hd Hf. rewrite bind_run. pose proof (same_mesh_steps d _ Hd (Hq d)) as Hs.
  pose proof (dinv_steps _ _ Hd Hs) as Hd'. specialize (Hq d). destruct (m d) as [[a|e] d'] eqn:E; [|done]. cbn in *.
  destruct (Hf a d' eq_refl Hq Hd') as [Hs' Hn]. split; [etrans; [apply Hs|done]|done].
Qed.

Lemma bind_then {A B} (m : itx A) (f : A → itx B) d :
  dinv d → rtc mstep (abs d) (abs (m d).2) ∧ names_ok (m d).2 → (∀ a, refines (f a)) →
  rtc mstep (abs d) (abs ((m ≫= f) d).2) ∧ names_ok ((m ≫= f) d).2.
Proof.
  intros Hd Hm Hf. rewrite bind_run. pose proof (dinv_steps _ _ Hd Hm) as Hd'. destruct (m d) as [[a|e] d']; [|done]. cbn in *.
  destruct (Hf a d' Hd') as [Hs' Hn]. split; [etrans; [apply Hm|done]|done].
Qed.

Lemma lock_node_run name e d n d' :
  no_row_is (LockNode name) e d = (Ok n, d') → d' = d ∧ i_nodes d !! name = Some n.
Proof. unfold no_row_is, LockNode, row. destruct (i_nodes d !! name); [by intros [= -> ->]|done]. Qed.

Lemma lock_ingress_run name e d g d' :
  no_row_is (LockIngress name) e d = (Ok g, d') → d' = d ∧ i_ingresses d !! name = Some g.
Proof. unfold no_row_is, LockIngress, row. destruct (i_ingresses d !! name); [by intros [= -> ->]|done]. Qed.

(** The checks of a certificate only read. *)
Lemma checkInTx_run node serial d : (checkInTx node serial d).2 = d.
Proof. unfold checkInTx, CheckNodeCert. rewrite bind_run. repeat case_match; simplify_eq; done. Qed.

Lemma joinMesh_tx_refines p ula (joining : bool) key endpoint d :
  dinv d → (joining = true → m_ula (abs d) = Some ula ∧ is_key key ∧ CheckEndpoint endpoint = Ok endpoint) →
  rtc mstep (abs d) (abs (joinMesh_tx p ula joining key endpoint d).2) ∧ names_ok (joinMesh_tx p ula joining key endpoint d).2.
Proof.
  intros Hd Hj. unfold joinMesh_tx. apply bind_ok_or; [through|done|]. intros n d' [-> Hn]%lock_node_run _ _.
  apply bind_ok_or; [through|done|]. intros [] d' E _ _.
  pose proof (checkInTx_run (cl_Name p) (cl_Serial p) d) as E'. rewrite E in E'. cbn in E'. subst d'.
  destruct joining; cbn [negb]; [|by apply same_mesh_steps]. destruct (Hj eq_refl) as (Hu & Hk & He).
  destruct (di_names d Hd) as [Hnn _]. apply JoinMesh_refines; try done. by rewrite (Hnn _ _ Hn).
Qed.

Lemma hello_tx_refines p ula key endpoint version grace d :
  dinv d → m_ula (abs d) = Some ula → is_key key → CheckEndpoint endpoint = Ok endpoint →
  let d' := (hello_tx p ula key endpoint version grace d).2 in rtc mstep (abs d) (abs d') ∧ names_ok d'.
Proof.
  intros Hd Hu Hk He. cbv zeta. unfold hello_tx. apply bind_ok_or; [through|done|]. intros g d' [-> Hg]%lock_ingress_run _ _.
  case_bool_decide as Hlive; [by apply same_mesh_steps|].
  apply bind_ok_or; [through|done|]. intros [] d1 _ Hm1 Hd1. apply bind_ok_or; [through|done|]. intros _ d2 _ Hm2 Hd2.
  destruct (transitivity Hm1 Hm2) as (Hrow & Hnet & _). apply bind_then; [done| |intros ?; refining].
  specialize (Hrow (OfIngress (cl_Name p))). cbn in Hrow. rewrite Hg in Hrow. cbn in Hrow.
  destruct (i_ingresses d2 !! cl_Name p) as [r|] eqn:Er; [|done]. injection Hrow as Hrow.
  destruct (di_names d Hd) as [_ Hn], (di_names d2 Hd2) as [_ Hn2]. 
  apply (JoinIngressMesh_refines g r); try done; rewrite ?(Hn _ _ Hg), ?(Hn2 _ _ Er); try done.
  - unfold ingress_seat. congruence.
  - unfold m_ula in *. cbn in *. by rewrite Hnet.
Qed.

Lemma configured_ula meshed d : IsValid (configured meshed d) = true → m_ula (abs d) = Some (configured meshed d).
Proof. unfold configured, m_ula. cbn. by destruct (i_pod_network d), meshed. Qed.

Lemma join_steps peer token name admitted csr leaf d :
  dinv d → let d' := (join peer token name admitted csr leaf d).2 in rtc mstep (abs d) (abs d') ∧ names_ok d'.
Proof.
  intros Hd. cbv zeta. unfold join. repeat (case_match; [by apply same_mesh_steps|]). unfold answered. 
  pose proof (tx_steps _ d Hd (join_tx_refines (HashJoinSecret token) name peer csr leaf d Hd)) as Hs. by destruct (in_tx _ d) as [[?|?] ?].
Qed.

Lemma Join_steps peer token name admitted csr leaf d :
  dinv d → let d' := (Join peer token name admitted csr leaf d).2 in rtc mstep (abs d) (abs d') ∧ names_ok d'.
Proof.
  intros Hd. cbv zeta. unfold Join. repeat (case_match; [by apply same_mesh_steps|]). destruct (cs_Check csr) as [keyHash|?]; [|by apply same_mesh_steps].
  pose proof (tx_steps _ d Hd (ingress_join_tx_refines (HashJoinSecret token) name keyHash peer leaf d Hd)) as Hs.
  unfold answered. by destruct (in_tx _ d) as [[?|?] ?].
Qed.

Lemma joinMesh_steps small_order p meshed key endpoint d :
  dinv d → forallb is_byte key = true → let d' := (joinMesh small_order p (configured meshed d) key endpoint d).2 in rtc mstep (abs d) (abs d') ∧ names_ok d'.
Proof.
  intros Hd Hb. cbv zeta. unfold joinMesh. set (pre := match key with [] => _ | _ => _ end).
  destruct pre as [ep|text] eqn:Epre; [|by apply same_mesh_steps]. cbv zeta.
  assert (Hpre : key ≠ [] → is_key key ∧ CheckEndpoint ep = Ok ep).
  { subst pre. destruct key as [|b key]; [done|]. intros _. destruct (Nat.eqb_spec (length (b :: key)) meshKeyLen) as [El|]; [|done].
    cbn [negb] in Epre. destruct (CheckKey _ _); [|done]. destruct (CheckEndpoint endpoint) eqn:Ee; [|done].
    injection Epre as <-. split; [done|by eapply CheckEndpoint_again]. }
  set (joining := _ && _). assert (Hj : joining = true → m_ula (abs d) = Some (configured meshed d) ∧ is_key key ∧ CheckEndpoint ep = Ok ep).
  { intros [Hv Hk]%andb_true_iff. split; [by apply configured_ula|]. apply Hpre. intros ->. done. }
  pose proof (tx_steps _ d Hd (joinMesh_tx_refines p _ joining key ep d Hd Hj)) as Hs.
  unfold mesh_errors, answered. by destruct (in_tx _ d) as [[?|[]] ?].
Qed.

Lemma Hello_steps small_order p meshed key endpoint version grace d :
  dinv d → forallb is_byte key = true → let d' := (Hello small_order p (configured meshed d) key endpoint version grace d).2 in rtc mstep (abs d) (abs d') ∧ names_ok d'.
Proof.
  intros Hd Hb. cbv zeta. unfold Hello. destruct (IsValid _) eqn:Ev; cbn [negb]; [|by apply same_mesh_steps].
  destruct (Nat.eqb_spec (length key) meshKeyLen) as [El|]; [|by apply same_mesh_steps]. cbn [negb].
  destruct (CheckKey _ _); [|by apply same_mesh_steps]. destruct (CheckEndpoint endpoint) as [ep|] eqn:Ee; [|by apply same_mesh_steps].
  destruct (_ <? _)%nat; [by apply same_mesh_steps|].
  pose proof (tx_steps _ d Hd (hello_tx_refines p _ key ep version grace d Hd (configured_ula _ _ Ev) (conj El Hb) (CheckEndpoint_again _ _ Ee))) as Hs.
  by destruct (in_tx _ d) as [[?|?] ?].
Qed.

Lemma quiet_steps {A} (m : itx A) d : quiet m → dinv d → rtc mstep (abs d) (abs (in_tx m d).2) ∧ names_ok (in_tx m d).2.
Proof. intros Hq Hd. by apply tx_steps, quiet_refines. Qed.

Lemma columns_steps name n d d' :
  dinv d → set_node_columns name n d = Some d' → rtc mstep (abs d) (abs d') ∧ names_ok d'.
Proof.
  intros Hd. unfold set_node_columns. destruct (i_nodes d !! name) as [old|] eqn:E; [|done]. cbn [mbind option_bind].
  case_bool_decide as Hc; [|done]. intros [= <-]. injection Hc as E1 E2 E3 E4 E5 E6 E7 E8 E9 E10.
  apply same_mesh_steps; [done|]. split; [|split; [done|split; [done|]]].
  - intros [x|x]; [|done]. cbn. destruct (decide (name = x)) as [<-|Hne]; [|by rewrite lookup_insert_ne].
    rewrite lookup_insert_eq, E. cbn. unfold node_seat. congruence.
  - intros [Hn Hg]. split; [|done]. apply map_Forall_insert_2; [|done]. rewrite E1. by apply Hn.
Qed.

Lemma run_event_steps small_order e d d' :
  dinv d → run_event small_order e d = Some d' → rtc mstep (abs d) (abs d') ∧ names_ok d'.
Proof.
  intros Hd. destruct e; cbn [run_event]; try (intros [= <-]).
  - by apply same_mesh_steps.
  - destruct (_ && _) eqn:E; [|done]. intros [= <-]. apply tx_steps, bootstrap_refines; [done|by apply Draw_fd|done].
  - by apply quiet_steps; [apply issue_token_quiet|].
  - by apply join_steps.
  - by apply Join_steps.
  - unfold fork. pose proof (quiet_steps _ d (fork_tx_quiet node serial peer) Hd) as Hs. by destruct (in_tx _ d) as [[?|?] ?].
  - unfold OnPresented. destruct (negb _); [by apply same_mesh_steps|]. by apply quiet_steps; [apply quiet_present|].
  - unfold renewCertificate, answered. pose proof (quiet_steps _ d (renew_tx_quiet p csr leaf) Hd) as Hs. by destruct (in_tx _ d) as [[?|?] ?].
  - unfold RenewCertificate, answered. destruct (_ || _); [by apply same_mesh_steps|].
    destruct (cs_Check csr) as [k|]; [|by apply same_mesh_steps].
    pose proof (quiet_steps _ d (ingress_renew_tx_quiet p k early leaf) Hd) as Hs. by destruct (in_tx _ d) as [[?|?] ?].
  - destruct (forallb is_byte key) eqn:Hb; [|done]. intros [= <-]. by apply joinMesh_steps.
  - destruct (forallb is_byte key) eqn:Hb; [|done]. intros [= <-]. by apply Hello_steps.
  - by apply tx_steps, RemoveNode_refines.
  - by apply tx_steps, RemoveIngress_refines.
  - by apply same_mesh_steps.
  - by apply same_mesh_steps.
  - by apply same_mesh_steps.
  - by apply quiet_steps; [apply group_version_quiet|].
  - by apply quiet_steps; [apply quiet_seen|].
  - by apply columns_steps.
Qed.

Lemma at_time t d : dinv d → dinv (d <| i_now := t |>).
Proof. intros Hd. by apply (dinv_steps d), same_mesh_steps. Qed.

Lemma step_refines small_order t e w w' :
  dinv (w_db w) → step small_order t e w = Some w' →
  rtc mstep (abs (w_db w)) (abs (w_db w')) ∧ names_ok (w_db w').
Proof.
  intros Hd. unfold step. destruct (_ && _); [|done]. destruct (draw e w) as [w1|] eqn:Ew; [|done]. cbn [mbind option_bind].
  assert (w_db w1 = w_db w) as Edb.
  { destruct e; cbn in Ew; unfold draw_token, draw_serial in Ew; repeat case_match; by simplify_eq. }
  destruct (run_event _ _ _) as [d'|] eqn:Er; [|done]. cbn [mbind option_bind]. intros [= <-].
  rewrite Edb in Er. exact (run_event_steps small_order e ((w_db w) <| i_now := t |>) d' (at_time t _ Hd) Er).
Qed.

Lemma run_refines small_order es w w' :
  dinv (w_db w) → run small_order es w = Some w' → rtc mstep (abs (w_db w)) (abs (w_db w')) ∧ dinv (w_db w').
Proof.
  revert w. induction es as [|[t e] es IH]; intros w Hd; cbn; [by intros [= <-]|].
  destruct (step _ _ _ _) as [w1|] eqn:E; [|done]. cbn. pose proof (step_refines _ _ _ _ _ Hd E) as Hs.
  intros Hr. destruct (IH w1 (dinv_steps _ _ Hd Hs) Hr) as [? ?]. split; [etrans; [apply Hs|done]|done].
Qed.

Lemma start_dinv clock : dinv (w_db (start clock)).
Proof.
  split; [by split; apply map_Forall_empty|]. split; try done; cbn.
  - intros [x|x] s; cbn; by rewrite lookup_empty.
  - intros [x|x] [y|y] s t; cbn; by rewrite lookup_empty.
  - intros [x|x] [y|y] s t; cbn; by rewrite lookup_empty.
Qed.

Lemma reachable_dinv small_order w : reachable small_order w → dinv (w_db w).
Proof. intros (clock & es & Hr). by eapply run_refines; [apply start_dinv|]. Qed.
