(* ===== verification/MeshRuns.v ===== *)
(** * What the mesh's versions mean in a run

    The peers of a database are those of its rows ([mesh_peer]), so what
    [MeshSpec] says of rows holds of [MeshPeers] and of [IngressGroup] in every
    run of the control plane: a version of the peers names one set of peers, a
    version of the group one set of members, and the version in an ingress's
    row says which versions of the group admit it. *)

From S2P Require Import Prelude Text PodId Rows Mesh Wg NetText HostLabels Identity Joins MeshSpec MeshRefine.

(** ** The peers and the members of the rows *)

Definition peer_name (x : who) : string := match x with OfNode n => n | OfIngress n => IngressPeerName n end.

Definition peer_of (x : who) (s : seat) : option Peer :=
  (λ '(key, endpoint, prefix), MkPeer (peer_name x) key endpoint prefix) <$> peer_part s.

Lemma node_not_ingress name other : IsNodeName name = true → name ≠ IngressPeerName other.
Proof. intros Hn ->. apply andb_true_iff in Hn as [_ Hn]. by vm_compute in Hn. Qed.

Lemma ingress_peer_name a b : IngressPeerName a = IngressPeerName b → a = b.
Proof. unfold IngressPeerName. by intros E%(inj (String.append _)). Qed.

Lemma peer_name_inj d x y s t :
  dinv d → row_of d x = Some s → row_of d y = Some t → peer_name x = peer_name y → x = y.
Proof.
  intros Hd Hx Hy E. destruct (mi_seat _ (di_mesh d Hd) x s Hx) as (_ & _ & _ & _ & Nx).
  destruct (mi_seat _ (di_mesh d Hd) y t Hy) as (_ & _ & _ & _ & Ny). destruct x as [x|x], y as [y|y]; cbn in *.
  - by rewrite E.
  - by destruct (node_not_ingress x y Nx).
  - by destruct (node_not_ingress y x Ny).
  - by rewrite (ingress_peer_name _ _ E).
Qed.

Lemma lookup_node_peers d k p :
  names_ok d → node_peers (i_nodes d) !! k = Some p ↔ ∃ s, row_of d (OfNode k) = Some s ∧ peer_of (OfNode k) s = Some p.
Proof.
  intros [Hn _]. unfold node_peers. rewrite lookup_omap. cbn. destruct (i_nodes d !! k) as [n|] eqn:E; cbn; [|naive_solver].
  pose proof (Hn k n E) as En. cbn in En. unfold peer_of, peer_part, is_peer. cbn.
  split.
  - intros H. exists (node_seat n). split; [done|]. cbn. rewrite <- En. destruct (_ && _); [|done]. by rewrite <- H.
  - intros (s & [= <-] & H). cbn in H. rewrite <- En in H. destruct (_ && _); [|done]. by rewrite <- H.
Qed.

Lemma elem_of_ingress_peers d k p :
  names_ok d →
  (k, p) ∈ ingress_peers (i_ingresses d) ↔
  ∃ x s, k = peer_name (OfIngress x) ∧ row_of d (OfIngress x) = Some s ∧ peer_of (OfIngress x) s = Some p.
Proof.
  intros [_ Hn]. unfold ingress_peers. rewrite list_elem_of_omap. cbn. split.
  - intros ([x g] & Hg%elem_of_map_to_list & E). cbv zeta in E. pose proof (Hn x g Hg) as En. cbn in En, E.
    exists x, (ingress_seat g). rewrite Hg. unfold peer_of, peer_part, is_peer. cbn. rewrite En in E.
    destruct (_ && _); [|done]. injection E as <- <-. done.
  - intros (x & s & -> & Hs & E). destruct (i_ingresses d !! x) as [g|] eqn:Hg; [|done]. injection Hs as <-.
    pose proof (Hn x g Hg) as En. cbn in En. exists (x, g). split; [by apply elem_of_map_to_list|].
    unfold peer_of, peer_part, is_peer in E. cbn in *. rewrite En. destruct (_ && _); [|done]. by injection E as <-.
Qed.

Lemma lookup_ingress_peers d k p :
  names_ok d →
  (list_to_map (ingress_peers (i_ingresses d)) : gmap string Peer) !! k = Some p ↔ (k, p) ∈ ingress_peers (i_ingresses d).
Proof.
  intros Hn. split; [apply elem_of_list_to_map_2|]. intros Hp. apply elem_of_list_to_map_1'; [|done]. intros q Hq.
  apply elem_of_ingress_peers in Hp as (x & s & -> & Hx & Ex); [|done].
  apply elem_of_ingress_peers in Hq as (y & t & E & Hy & Ey); [|done]. apply ingress_peer_name in E as <-. congruence.
Qed.

(** The peers of the database: those of the rows, under their names. *)
Lemma mesh_peer d k p :
  dinv d → ps_Nodes (MeshPeers d) !! k = Some p ↔ ∃ x s, k = peer_name x ∧ row_of d x = Some s ∧ peer_of x s = Some p.
Proof.
  intros Hd. pose proof (di_names d Hd) as Hn. unfold MeshPeers. destruct (i_pod_network d) as [net|] eqn:E; cbn [ps_Nodes].
  - rewrite lookup_union_Some_raw, lookup_ingress_peers, elem_of_ingress_peers, lookup_node_peers by done. split.
    + intros [(x & s & H)|(_ & s & H)]; [by exists (OfIngress x), s|by exists (OfNode k), s].
    + intros ([x|x] & s & -> & Hs & Hp); [right|left; by exists x, s]. split; [|by exists s].
      destruct (list_to_map _ !! _) as [q|] eqn:Eq; [|done]. apply lookup_ingress_peers, elem_of_ingress_peers in Eq as (y & t & Ey & Ht & _); [|done..].
      by specialize (peer_name_inj d (OfNode x) (OfIngress y) s t Hd Hs Ht Ey).
  - split; [done|]. intros (x & s & -> & Hs & Hp). destruct (no_net_no_subnet (abs d) x s (di_mesh d Hd) Hs E) as [E0 _].
    unfold peer_of, peer_part in Hp. by rewrite not_peer in Hp.
Qed.

Lemma mesh_version d : ps_Version (MeshPeers d) = peers_version (abs d).
Proof. unfold MeshPeers, peers_version. cbn. by destruct (i_pod_network d). Qed.

Lemma group_member d a :
  dinv d → a ∈ (IngressGroup d).1 ↔ ∃ x s, row_of d (OfIngress x) = Some s ∧ member_part (OfIngress x) s = Some a.
Proof.
  intros Hd. unfold IngressGroup. destruct (i_pod_network d) as [net|] eqn:E; cbn [fst].
  - rewrite sort_by_perm, list_elem_of_fmap. split.
    + intros (g & -> & [Hm Hg]%list_elem_of_filter). apply list_elem_of_fmap in Hg as ([x g'] & -> & Hg%elem_of_map_to_list).
      exists x, (ingress_seat g'). cbn in *. rewrite Hg. split; [done|]. unfold member in Hm. by rewrite Hm.
    + intros (x & s & Hs & Hm). cbn in *. destruct (i_ingresses d !! x) as [g|] eqn:Eg; [|done]. injection Hs as <-.
      exists g. cbn in *. destruct (_ && _) eqn:Em; [|done]. injection Hm as <-. split; [done|].
      apply list_elem_of_filter. split; [done|]. apply list_elem_of_fmap. exists (x, g). split; [done|by apply elem_of_map_to_list].
  - split; [by intros ?%elem_of_nil|]. intros (x & s & Hs & Hm).
    destruct (no_net_no_subnet (abs d) _ s (di_mesh d Hd) Hs E) as [_ E0]. cbn in Hm. rewrite E0, andb_false_r in Hm. done.
Qed.

Lemma group_version_of d : (IngressGroup d).2 = group_version (abs d).
Proof. unfold IngressGroup, group_version. cbn. by destruct (i_pod_network d). Qed.

(** Rows with the same peers make the same peers. *)
Lemma same_parts_same_peers d d' :
  dinv d → dinv d' → (∀ x, row_of d' x ≫= peer_part = row_of d x ≫= peer_part) →
  ps_Nodes (MeshPeers d') = ps_Nodes (MeshPeers d).
Proof.
  assert (Hsub : ∀ d d', dinv d → dinv d' → (∀ x, row_of d' x ≫= peer_part = row_of d x ≫= peer_part) →
    ps_Nodes (MeshPeers d') ⊆ ps_Nodes (MeshPeers d)).
  { intros e e' He He' Hp. apply map_subseteq_spec. intros k p. rewrite !mesh_peer by done.
    intros (x & s & -> & Hs & E). unfold peer_of in E. specialize (Hp x). rewrite Hs in Hp. cbn [mbind option_bind] in Hp.
    destruct (peer_part s) as [part|] eqn:Epart; [|done]. destruct (row_of e x) as [t|] eqn:Et; [|done]. cbn in Hp.
    exists x, t. unfold peer_of. by rewrite <- Hp. }
  intros Hd Hd' Hp. apply (anti_symm (⊆)); apply Hsub; auto.
Qed.

Lemma version_peers small_order es w w' :
  dinv (w_db w) → run small_order es w = Some w' →
  ps_Version (MeshPeers (w_db w')) = ps_Version (MeshPeers (w_db w)) → MeshPeers (w_db w') = MeshPeers (w_db w).
Proof.
  intros Hw Hr E. destruct (run_refines _ _ _ _ Hw Hr) as [Hs Hw'].
  assert (En : ps_Nodes (MeshPeers (w_db w')) = ps_Nodes (MeshPeers (w_db w))).
  { apply same_parts_same_peers; [done..|]. intros x. rewrite !mesh_version in E.
    by apply (steps_peers (abs (w_db w)) (abs (w_db w'))). }
  destruct (MeshPeers (w_db w)), (MeshPeers (w_db w')). cbn in *. congruence.
Qed.

Lemma run_app small_order es es' w :
  run small_order (es ++ es') w = w' ← run small_order es w; run small_order es' w'.
Proof.
  revert w. induction es as [|[t e] es IH]; intros w; cbn; [done|].
  destruct (step _ _ _ _) as [w1|]; cbn; [apply IH|done].
Qed.

(** The peers that a read of the database after the first [n] steps of a run
    gives. *)
Definition peers_at (small_order : list Z → bool) (clock : Time) (es : list (Time * event)) (n : nat) (p : Peers) : Prop :=
  ∃ w, run small_order (take n es) (start clock) = Some w ∧ p = MeshPeers (w_db w).

Lemma peers_at_grow small_order clock es n n' p p' :
  (n ≤ n')%nat → peers_at small_order clock es n p → peers_at small_order clock es n' p' →
  ps_Version p ≤ ps_Version p' ∧ (ps_Version p' = ps_Version p → p' = p).
Proof.
  intros Hn (w & Hw & ->) (w' & Hw' & ->). rewrite <- (take_drop n (take n' es)), take_take, Nat.min_l in Hw' by lia.
  rewrite run_app, Hw in Hw'. cbn in Hw'.
  assert (Hd : dinv (w_db w)) by (apply (reachable_dinv small_order); by exists clock, (take n es)).
  split; [|by eapply version_peers]. destruct (run_refines _ _ _ _ Hd Hw') as [Hs _].
  rewrite !mesh_version. by apply (steps_mono peers_version _ _ peers_version_mono).
Qed.

Lemma peers_at_one small_order clock es n n' p p' :
  peers_at small_order clock es n p → peers_at small_order clock es n' p' → ps_Version p = ps_Version p' → p = p'.
Proof.
  intros Hp Hp' E. destruct (Nat.le_ge_cases n n') as [Hn|Hn].
  - symmetry. by apply (peers_at_grow _ _ _ _ _ _ _ Hn Hp Hp').
  - by apply (peers_at_grow _ _ _ _ _ _ _ Hn Hp' Hp).
Qed.

Lemma peers_at_named small_order clock es n p : peers_at small_order clock es n p → named p.
Proof.
  intros (w & Hw & ->) name q Hq. assert (Hd : dinv (w_db w)) by (apply (reachable_dinv small_order); by exists clock, (take n es)).
  apply mesh_peer in Hq as (x & s' & -> & _ & E); [|done]. unfold peer_of in E. destruct (peer_part s') as [[[key endpoint] prefix]|]; [|done].
  by injection E as <-.
Qed.

(** C4: In every run of the control plane the version of the mesh's peers
    only grows, and names one set of peers: two databases of the run with the
    same version have the same peers. *)
Theorem mesh_version_names_peers small_order es w w' :
  reachable small_order w → run small_order es w = Some w' →
  ps_Version (MeshPeers (w_db w)) ≤ ps_Version (MeshPeers (w_db w')) ∧
  (ps_Version (MeshPeers (w_db w')) = ps_Version (MeshPeers (w_db w)) → MeshPeers (w_db w') = MeshPeers (w_db w)).
Proof.
  intros Hw%reachable_dinv Hr. split; [|by eapply version_peers]. destruct (run_refines _ _ _ _ Hw Hr) as [Hs _].
  rewrite !mesh_version. by apply (steps_mono peers_version _ _ peers_version_mono).
Qed.

(** C5: In every run of the control plane the version of the group of
    ingresses only grows and names one set of members; and an ingress with the
    version v in its row, a member now, was a member at its address in every
    earlier database whose group had a version of v or more.  So a node that
    applied such a group admits it. *)
Theorem group_version_admits small_order es w w' :
  reachable small_order w → run small_order es w = Some w' →
  (IngressGroup (w_db w)).2 ≤ (IngressGroup (w_db w')).2 ∧
  ((IngressGroup (w_db w')).2 = (IngressGroup (w_db w)).2 →
     ∀ a, a ∈ (IngressGroup (w_db w')).1 ↔ a ∈ (IngressGroup (w_db w)).1) ∧
  (∀ name g, i_ingresses (w_db w') !! name = Some g → member g = true → g_GroupVersion g ≤ (IngressGroup (w_db w)).2 →
     g_MeshAddress g ∈ (IngressGroup (w_db w)).1).
Proof.
  intros Hw%reachable_dinv Hr. destruct (run_refines _ _ _ _ Hw Hr) as [Hs Hw']. rewrite !group_version_of.
  split; [|split].
  - by apply (steps_mono group_version _ _ group_version_mono).
  - intros E a. rewrite !group_member by done.
    pose proof (λ x, steps_group (abs (w_db w)) (abs (w_db w')) x Hs E) as Hx. cbn in Hx.
    split; intros (x & s & Hrow & Hm); specialize (Hx (OfIngress x)); rewrite Hrow in Hx; cbn [mbind option_bind] in Hx; rewrite Hm in Hx;
      [destruct (row_of (w_db w) (OfIngress x)) as [t|] eqn:Et|destruct (row_of (w_db w') (OfIngress x)) as [t|] eqn:Et]; try done; by exists x, t.
  - intros name g Hg Hm Hv. apply group_member; [done|]. exists name.
    apply (steps_member (abs (w_db w)) (abs (w_db w')) (OfIngress name) _ Hs (ingress_seat g)); cbn; [by rewrite Hg| |done].
    unfold member in Hm. by rewrite Hm.
Qed.

Lemma ex_world_reachable : reachable ex_order ex_world.
Proof. exists 100, (ex_node_events ++ ex_ingress_events). vm_compute. reflexivity. Qed.

Definition ex_later : list (Time * event) :=
  [(100, EvTick 50); (150, EvRenew (MkCaller "n1" "a1" "192.0.2.1:1") (ex_csr "k1") (ex_leaf "a2"))].
Definition ex_world' : world := Eval vm_compute in default ex_world (run ex_order ex_later ex_world).

Lemma mesh_version_names_peers_witness :
  ps_Version (MeshPeers (w_db ex_world)) = 2 ∧ MeshPeers (w_db ex_world') = MeshPeers (w_db ex_world).
Proof.
  split; [vm_compute; reflexivity|].
  apply (mesh_version_names_peers ex_order ex_later ex_world ex_world' ex_world_reachable); vm_compute; reflexivity.
Defined.

Lemma group_version_admits_witness :
  (IngressGroup (w_db ex_world)).2 = 1 ∧
  from_option g_MeshAddress ""%string (i_ingresses (w_db ex_world') !! "i1"%string) ∈ (IngressGroup (w_db ex_world)).1.
Proof.
  split; [vm_compute; reflexivity|].
  destruct (i_ingresses (w_db ex_world') !! "i1"%string) as [g|] eqn:E; [|vm_compute in E; discriminate E].
  apply (group_version_admits ex_order ex_later ex_world ex_world' ex_world_reachable ltac:(vm_compute; reflexivity)) with "i1"%string.
  - exact E.
  - vm_compute in E. injection E as <-. reflexivity.
  - vm_compute in E. injection E as <-. vm_compute. discriminate.
Defined.
