(* ===== verification/MeshSender.v ===== *)
(** * Sending the mesh's peers to the nodes (fleet/mesh.go, pod-service's mesh)

    The leader's memory of what it sent ([meshSender]), the sends of a run of
    its loop, and the node that takes them: whole, or as a delta from the
    version it has.  A call may be lost before or after the node executed it,
    the node may fail to keep a change or to set its device, and a node's
    connection may end at any time, which forgets what the leader knows of it.
    Proved: what the leader takes a node to have, the node has. *)

From stdpp Require Import functions.
From S2P Require Import Prelude Text Mesh Wg NetText Identity Joins MeshSpec MeshRefine MeshRuns.

(** ** The node (crates/services/pod-service/src/network/mesh.rs) *)

(** [Mesh] and its [State]: whether it has an assignment, its public key, the
    version and the peers by node, as kept; and the peers its device was last
    given. *)
Record node_mesh := MkNodeMesh {
  nm_assigned : bool;
  nm_public_key : list Z;
  nm_version : Z;
  nm_peers : gmap string Peer;
  nm_device : gmap string Peer
}.

#[export] Instance eta_node_mesh : Eta node_mesh := λ s,
  MkNodeMesh (nm_assigned s) (nm_public_key s) (nm_version s) (nm_peers s) (nm_device s).

(** The codes the leader tells apart. *)
Inductive code : Type := OK | FAILED_PRECONDITION | UNIMPLEMENTED | OTHER.

#[export] Instance code_eq_dec : EqDecision code.
Proof. solve_decision. Defined.

Section node.
(** Whether a text parses as a socket address, and as a v6 prefix of 64 or 96
    bits; the theorems hold of any parsers. *)
Context (parse_endpoint parse_prefix : string → bool).

(** [wireguard_peer], as [check_peer] asks it. *)
Definition check_peer (p : Peer) : bool :=
  negb (String.eqb (pe_Node p) "") && (Z.of_nat (length (pe_PublicKey p)) =? 32) && parse_endpoint (pe_Endpoint p) &&
  parse_prefix (pe_PodPrefix p).

(** [peers]: the peers kept that the device takes, none with its own key. *)
Definition device_peers (own : list Z) (m : gmap string Peer) : gmap string Peer :=
  filter (λ '(_, p), check_peer p && negb (bool_decide (pe_PublicKey p = own))) m.

(** [change]; [kept]: the state was written, [set]: the device took its
    peers. *)
Definition change (f : node_mesh → option node_mesh) (kept set : bool) (s : node_mesh) : code * node_mesh :=
  if negb (nm_assigned s) then (FAILED_PRECONDITION, s) else
  match f s with
  | None => (FAILED_PRECONDITION, s)
  | Some next =>
      if negb kept then (OTHER, s)
      else if negb set then (OTHER, next)
      else (OK, next <| nm_device := device_peers (nm_public_key next) (nm_peers next) |>)
  end.

(** A map of peers by node, the last of a node's winning. *)
Definition by_node (peers : list Peer) (m : gmap string Peer) : gmap string Peer := foldl (λ m p, <[pe_Node p := p]> m) m peers.

Definition put (version : Z) (peers : list Peer) (kept set : bool) (s : node_mesh) : code * node_mesh :=
  if negb (forallb check_peer peers) then (OTHER, s)
  else change (λ s, Some (s <| nm_version := version |> <| nm_peers := by_node peers ∅ |>)) kept set s.

Definition update (from version : Z) (puts : list Peer) (removes : list string) (kept set : bool) (s : node_mesh)
    : code * node_mesh :=
  if negb (forallb check_peer puts) then (OTHER, s)
  else change (λ s,
    if negb (nm_version s =? from) then None
    else Some (s <| nm_version := version |> <| nm_peers ::= λ m, by_node puts (foldl (λ m n, delete n m) m removes) |>)) kept set s.
End node.

(** ** The leader's memory (fleet/mesh.go) *)

(** [meshSender]; [ms_sent] is [None] before the first run. *)
Record meshSender := MkMeshSender {
  ms_term : Time;
  ms_sent : option (gmap string Z);
  ms_older : gset string;
  ms_gen : gmap string Z;
  ms_sets : gmap Z Peers
}.

#[export] Instance eta_meshSender : Eta meshSender := λ m,
  MkMeshSender (ms_term m) (ms_sent m) (ms_older m) (ms_gen m) (ms_sets m).

Definition new_sender : meshSender := MkMeshSender zeroTime None ∅ ∅ ∅.

(** [meshJob]. *)
Record meshJob := MkMeshJob { mj_node : string; mj_from : option Peers; mj_gen : Z }.

#[export] Instance Peers_eq_dec : EqDecision Peers.
Proof. solve_decision. Defined.

#[export] Instance meshJob_eq_dec : EqDecision meshJob.
Proof. solve_decision. Defined.

Definition gen_of (m : meshSender) (node : string) : Z := default 0 (ms_gen m !! node).

(** [plan]. *)
Definition plan_job (m : meshSender) (sent : gmap string Z) (peers : Peers) (node : string) : option meshJob :=
  match ps_Nodes peers !! node with
  | None => None
  | Some _ =>
      if bool_decide (node ∈ ms_older m) then None else
      match sent !! node with
      | Some v =>
          if v =? ps_Version peers then None else Some (MkMeshJob node (ms_sets m !! v) (gen_of m node))
      | None => Some (MkMeshJob node None (gen_of m node))
      end
  end.

Definition new_term (term : Time) (m : meshSender) : bool :=
  match ms_sent m with None => true | Some _ => negb (ms_term m =? term) end.

Definition plan (term : Time) (peers : Peers) (connected : list string) (m : meshSender) : list meshJob * meshSender :=
  let m := if new_term term m
           then MkMeshSender term (Some ∅) ∅ (ms_gen m) ∅ else m in
  let m := m <| ms_sets ::= <[ps_Version peers := peers]> |> in
  (omap (plan_job m (default ∅ (ms_sent m)) peers) connected, m).

(** [took]. *)
Definition took (job : meshJob) (version : Z) (m : meshSender) : meshSender :=
  match ms_sent m with
  | Some sent => if gen_of m (mj_node job) =? mj_gen job then m <| ms_sent := Some (<[mj_node job := version]> sent) |> else m
  | None => m
  end.

(** [isOlder]. *)
Definition isOlder (job : meshJob) (m : meshSender) : bool * meshSender :=
  if negb (gen_of m (mj_node job) =? mj_gen job) || bool_decide (mj_node job ∈ ms_older m) then (false, m)
  else (true, m <| ms_older ::= union {[mj_node job]} |>).

(** [forget]; the counter is 64 bits wide. *)
Definition forget (node : string) (m : meshSender) : meshSender :=
  m <| ms_gen ::= <[node := (gen_of m node + 1) mod 2 ^ 64]> |> <| ms_sent ::= fmap (delete node) |>
    <| ms_older ::= λ s, s ∖ {[node]} |>.

(** [prune]. *)
Definition prune (current : Z) (m : meshSender) : meshSender :=
  let used := current :: (map_to_list (default ∅ (ms_sent m))).*2 in
  m <| ms_sets ::= filter (λ '(v, _), v ∈ used) |>.

(** [sentPeers]. *)
Definition sentPeers (job : meshJob) (version : Z) (c : code) (m : meshSender) : meshSender :=
  match c with
  | OK => took job version m
  | UNIMPLEMENTED => (isOlder job m).2
  | _ => m
  end.

(** ** The sends *)

(** What happens to a call: it never reaches the node, the node's feosd does
    not serve it, or the node executes it, and its answer arrives or not. *)
Inductive fate : Type := Lost | Unserved | Executed (kept set answered : bool).

Section sends.
Context (parse_endpoint parse_prefix : string → bool).

(** A call of the node as the leader sees it. *)
Definition call (f : bool → bool → node_mesh → code * node_mesh) (x : fate) (s : node_mesh) : code * node_mesh :=
  match x with
  | Lost => (OTHER, s)
  | Unserved => (UNIMPLEMENTED, s)
  | Executed kept set answered => let '(c, s') := f kept set s in (if answered then c else OTHER, s')
  end.

(** [sendPeers]: the code it ends with. *)
Definition sendPeers (job : meshJob) (to : Peers) (x y : fate) (s : node_mesh) : code * node_mesh :=
  let whole s := call (put parse_endpoint parse_prefix (ps_Version to) (For to (mj_node job))) y s in
  match mj_from job with
  | None => whole s
  | Some from =>
      let '(puts, removes) := Delta from to (mj_node job) in
      let '(c, s') := call (update parse_endpoint parse_prefix (ps_Version from) (ps_Version to) puts removes) x s in
      if negb (bool_decide (c = FAILED_PRECONDITION)) then (c, s') else whole s'
  end.

(** ** The leader and the nodes as a machine *)

(** The sender, the nodes, those whose connection ended before the leader heard
    of it, and the run of [sendMeshPeers] in progress: the peers it sends, the
    jobs it has not begun, and the ends of the others that are not recorded
    yet. *)
Record sending := MkSending {
  sg_sender : meshSender;
  sg_nodes : string → node_mesh;
  sg_dropped : gset string;
  sg_run : option (Peers * list meshJob * list (meshJob * code))
}.

(** A run plans the sends of the peers it read to the nodes that are connected;
    when another instance led since the last one, the nodes are as that left
    them.  A send executes its calls, and its end is recorded later, other
    sends between; a run ends with its last send, and prunes, or sooner, when
    its context ends.  A node whose connection ends may have any state after,
    until the leader hears of it, which [forget]s it; and a node keeps its
    assignment when it joins the mesh. *)
Inductive sevent : Type :=
| SPlan (term : Time) (others : string → node_mesh) (peers : Peers) (connected : list string)
| SSend (job : meshJob) (x y : fate)
| SRecord (job : meshJob) (c : code)
| SEnd
| SStop
| SDrop (node : string) (after : node_mesh)
| SForget (node : string)
| SAssign (node : string).

(** A step of the machine; [None] when it is not one. *)
Definition sstep (e : sevent) (g : sending) : option sending :=
  let '(MkSending m nodes dropped running) := g in
  match e, running with
  | SPlan term others peers connected, None =>
      if bool_decide (NoDup connected) then
        let '(jobs, m') := plan term peers connected m in
        Some (MkSending m' (if new_term term m then others else nodes) dropped (Some (peers, jobs, [])))
      else None
  | SSend job x y, Some (to, jobs, ended) =>
      if bool_decide (job ∈ jobs) then
        let '(c, s) := sendPeers job to x y (nodes (mj_node job)) in
        Some (MkSending m (<[mj_node job := s]> nodes) dropped
                (Some (to, filter (λ j, j ≠ job) jobs, (job, c) :: ended)))
      else None
  | SRecord job c, Some (to, jobs, ended) =>
      if bool_decide ((job, c) ∈ ended) then
        Some (MkSending (sentPeers job (ps_Version to) c m) nodes dropped (Some (to, jobs, filter (λ x, x ≠ (job, c)) ended)))
      else None
  | SEnd, Some (to, [], []) => Some (MkSending (prune (ps_Version to) m) nodes dropped None)
  | SStop, Some (_, _, []) => Some (MkSending m nodes dropped None)
  | SDrop node after, _ => Some (MkSending m (<[node := after]> nodes) (dropped ∪ {[node]}) running)
  | SForget node, _ => Some (MkSending (forget node m) nodes (dropped ∖ {[node]}) running)
  | SAssign node, _ => Some (MkSending m (<[node := (nodes node) <| nm_assigned := true |>]> nodes) dropped running)
  | _, _ => None
  end.

Fixpoint srun (es : list sevent) (g : sending) : option sending :=
  match es with
  | [] => Some g
  | e :: es' => g ← sstep e g; srun es' g
  end.

(** Before the leader's first run. *)
Definition new_sending (nodes : string → node_mesh) : sending := MkSending new_sender nodes ∅ None.
End sends.

(** ** What a send does to its node *)

Lemma by_node_foldr ps m : by_node ps m = foldr (λ p, <[pe_Node p := p]>) m (reverse ps).
Proof.
  revert m. induction ps as [|p ps IH]; intros m; [done|]. change (by_node (p :: ps) m) with (by_node ps (<[pe_Node p := p]> m)).
  by rewrite IH, reverse_cons, foldr_app.
Qed.

Lemma delete_all_foldr (names : list string) (m : gmap string Peer) :
  foldl (λ m n, delete n m) m names = foldr delete m (reverse names).
Proof. revert m. induction names as [|n names IH]; intros m; [done|]. rewrite reverse_cons, foldr_app. apply (IH (delete n m)). Qed.

Lemma by_node_eq ps (m to : gmap string Peer) :
  (∀ p, p ∈ ps → to !! pe_Node p = Some p) → (∀ name, (∀ p, p ∈ ps → pe_Node p ≠ name) → m !! name = to !! name) →
  by_node ps m = to.
Proof.
  intros Hp Hm. apply map_eq. intros name. rewrite by_node_foldr.
  destruct (decide (Exists (λ p, pe_Node p = name) ps)) as [(p & Hin & <-)%list.Exists_exists|Hno].
  - rewrite Hp by done. apply lookup_put; [by apply elem_of_reverse|]. intros q Hq E. rewrite elem_of_reverse in Hq.
    pose proof (Hp q Hq) as Hq'. rewrite E, (Hp p Hin) in Hq'. congruence.
  - assert (Hne : ∀ p, p ∈ ps → pe_Node p ≠ name) by (intros p ? ?; apply Hno, list.Exists_exists; eauto).
    rewrite lookup_unput; [by apply Hm|]. intros q Hq. rewrite elem_of_reverse in Hq. by apply Hne.
Qed.

Lemma elem_of_For p node q : named p → q ∈ For p node ↔ ps_Nodes p !! pe_Node q = Some q ∧ pe_Node q ≠ node.
Proof.
  intros Hn. unfold For. rewrite sort_by_perm, list_elem_of_omap. split.
  - intros ([name x] & Hx%elem_of_map_to_list & E). pose proof (Hn name x Hx) as En. cbn in En.
    destruct (String.eqb_spec name node); [done|]. injection E as <-. by subst.
  - intros [Hq Hne]. exists (pe_Node q, q). split; [by apply elem_of_map_to_list|]. by destruct (String.eqb_spec (pe_Node q) node).
Qed.

(** The peers of a whole put, and those of a delta on the version it is from. *)
Lemma whole_peers to node : named to → by_node (For to node) ∅ = peers_of to node.
Proof.
  intros Hn. apply by_node_eq; unfold peers_of.
  - intros p [Hp Hne]%elem_of_For; [|done]. by rewrite lookup_delete_ne.
  - intros name Hno. rewrite lookup_empty. symmetry. destruct (decide (name = node)) as [->|Hne]; [apply lookup_delete_eq|].
    rewrite lookup_delete_ne by done. destruct (ps_Nodes to !! name) as [p|] eqn:E; [|done].
    pose proof (Hn name p E) as En. cbn in En. subst name. by destruct (Hno p); [apply elem_of_For|].
Qed.

Lemma delta_peers from to node :
  named to →
  by_node (Delta from to node).1 (foldl (λ m n, delete n m) (peers_of from node) (Delta from to node).2) = peers_of to node.
Proof.
  intros Hn. apply by_node_eq; unfold peers_of.
  - intros p (Hp & Hne & _)%elem_of_put; [|done]. by rewrite lookup_delete_ne.
  - intros name Hno. rewrite delete_all_foldr, lookup_gone. destruct (decide (name = node)) as [->|Hne].
    { rewrite !lookup_delete_eq. by case_decide. }
    rewrite !lookup_delete_ne by done. case_decide as Hg.
    + rewrite elem_of_reverse in Hg. by apply elem_of_gone in Hg as (_ & _ & ->).
    + rewrite elem_of_reverse, elem_of_gone in Hg. destruct (ps_Nodes to !! name) as [p|] eqn:Et.
      * pose proof (Hn name p Et) as En. cbn in En. subst name. destruct (decide (ps_Nodes from !! pe_Node p = Some p)); [done|].
        by destruct (Hno p); [apply elem_of_put|].
      * destruct (ps_Nodes from !! name) eqn:Ef; [|done]. destruct Hg. eauto.
Qed.

Section sender.
Context (parse_endpoint parse_prefix : string → bool).

(** The node has the peers [p], kept and in its device. *)
Definition has (p : Peers) (node : string) (s : node_mesh) : Prop :=
  nm_version s = ps_Version p ∧ nm_peers s = peers_of p node ∧
  nm_device s = device_peers parse_endpoint parse_prefix (nm_public_key s) (nm_peers s).

(** If the node is at the version of [p], its peers are those of [p]. *)
Definition agrees (p : Peers) (node : string) (s : node_mesh) : Prop :=
  nm_version s = ps_Version p → nm_peers s = peers_of p node.

#[local] Abbreviation put := (put parse_endpoint parse_prefix).
#[local] Abbreviation update := (update parse_endpoint parse_prefix).
#[local] Abbreviation sendPeers := (sendPeers parse_endpoint parse_prefix).

(** A change that ends well gave the device the state it kept. *)
Lemma change_ok f kept set s s' :
  change parse_endpoint parse_prefix f kept set s = (OK, s') →
  ∃ t, f s = Some t ∧ nm_version s' = nm_version t ∧ nm_peers s' = nm_peers t ∧
    nm_device s' = device_peers parse_endpoint parse_prefix (nm_public_key s') (nm_peers s').
Proof.
  unfold change. destruct (nm_assigned s); cbn; [|done]. destruct (f s) as [t|]; [|done].
  destruct kept; cbn; [|done]. destruct set; cbn; [|done]. intros [= <-]. by exists t.
Qed.

Lemma change_state f kept set s :
  (change parse_endpoint parse_prefix f kept set s).2 = s ∨
  ∃ t, f s = Some t ∧ nm_version (change parse_endpoint parse_prefix f kept set s).2 = nm_version t.
Proof.
  unfold change. destruct (nm_assigned s); cbn; [|by left]. destruct (f s) as [t|]; [|by left].
  destruct kept; cbn; [|by left]. right. exists t. by destruct set.
Qed.

Lemma put_state v ps kept set s : (put v ps kept set s).2 = s ∨ nm_version (put v ps kept set s).2 = v.
Proof.
  unfold MeshSender.put. destruct (forallb _ _); cbn; [|by left]. destruct (change_state (λ s, Some (s <| nm_version := v |> <| nm_peers := by_node ps ∅ |>)) kept set s) as [?|(t & [= <-] & ?)]; [by left|by right].
Qed.

Lemma update_state f v ps ns kept set s : (update f v ps ns kept set s).2 = s ∨ nm_version (update f v ps ns kept set s).2 = v.
Proof.
  unfold MeshSender.update. destruct (forallb _ _); cbn [negb snd]; [|by left].
  edestruct (change_state) as [->|(t & E & ->)]; [by left|]. right. destruct (negb _); [done|]. by injection E as <-.
Qed.

Lemma call_state (v : Z) f x s :
  (∀ kept set, (f kept set s).2 = s ∨ nm_version (f kept set s).2 = v) → (call f x s).2 = s ∨ nm_version (call f x s).2 = v.
Proof.
  intros Hf. destruct x as [| |kept set answered]; cbn; [by left..|]. specialize (Hf kept set).
  by destruct (f kept set s).
Qed.

Lemma call_ok f x s s' : call f x s = (OK, s') → ∃ kept set, f kept set s = (OK, s').
Proof.
  destruct x as [| |kept set answered]; cbn; [done..|]. intros E. exists kept, set. destruct (f kept set s) as [c s1].
  destruct answered; congruence.
Qed.

(** A send leaves its node as it was, or at the version it sends. *)
Lemma send_state job to x y s :
  (sendPeers job to x y s).2 = s ∨ nm_version (sendPeers job to x y s).2 = ps_Version to.
Proof.
  unfold MeshSender.sendPeers. destruct (mj_from job) as [from|]; [|apply call_state; intros; apply put_state].
  destruct (Delta from to (mj_node job)) as [puts removes].
  pose proof (call_state (ps_Version to) (update (ps_Version from) (ps_Version to) puts removes) x s
    ltac:(intros; apply update_state)) as Hu.
  destruct (call _ x s) as [c s1]. cbn in Hu. destruct (negb _); [done|].
  pose proof (call_state (ps_Version to) (put (ps_Version to) (For to (mj_node job))) y s1 ltac:(intros; apply put_state)) as [->|?];
    [done|by right].
Qed.

Lemma put_ok to node kept set s s' :
  named to → put (ps_Version to) (For to node) kept set s = (OK, s') → has to node s'.
Proof.
  intros Hn. unfold MeshSender.put. destruct (forallb _ _); cbn; [|done]. intros (t & [= <-] & Hv & Hp & Hd)%change_ok.
  split; [done|]. split; [|done]. by rewrite Hp, <- (whole_peers to node Hn).
Qed.

Lemma update_ok from to node kept set s s' :
  named to → agrees from node s →
  update (ps_Version from) (ps_Version to) (Delta from to node).1 (Delta from to node).2 kept set s = (OK, s') → has to node s'.
Proof.
  intros Hn Ha. unfold MeshSender.update. destruct (forallb _ _); cbn; [|done]. intros (t & E & Hv & Hp & Hd)%change_ok.
  destruct (Z.eqb_spec (nm_version s) (ps_Version from)) as [Ev|]; [|done]. injection E as <-.
  split; [done|]. split; [|done]. by rewrite Hp, <- (delta_peers from to node Hn), <- (Ha Ev).
Qed.

(** A send that ends well leaves its node with the peers it sends. *)
Lemma sendPeers_ok job to x y s s' :
  named to → (∀ from, mj_from job = Some from → agrees from (mj_node job) s) →
  sendPeers job to x y s = (OK, s') → has to (mj_node job) s'.
Proof.
  intros Hn Ha. unfold MeshSender.sendPeers. destruct (mj_from job) as [from|].
  - rewrite (surjective_pairing (Delta from to (mj_node job))). destruct (call _ x s) as [c s1] eqn:Ec.
    destruct (bool_decide (c = FAILED_PRECONDITION)); cbn [negb].
    + intros (kept & set & E)%call_ok. by eapply put_ok.
    + intros [= -> ->]. apply call_ok in Ec as (kept & set & E). by eapply update_ok; eauto.
  - intros (kept & set & E)%call_ok. by eapply put_ok.
Qed.

(** A send whose calls the node executes ends well, when the node has its
    assignment and the peers are ones it takes; a delta it refuses included. *)
Lemma send_executed job to s :
  named to → nm_assigned s = true → forallb (check_peer parse_endpoint parse_prefix) (For to (mj_node job)) = true →
  (sendPeers job to (Executed true true true) (Executed true true true) s).1 = OK.
Proof.
  intros Hn Hs Hc. assert (Hput : ∀ s, nm_assigned s = true →
    (call (put (ps_Version to) (For to (mj_node job))) (Executed true true true) s).1 = OK).
  { intros t Ht. cbn. unfold MeshSender.put. rewrite Hc. cbn. unfold change. by rewrite Ht. }
  unfold MeshSender.sendPeers. destruct (mj_from job) as [from|]; [|by apply Hput].
  destruct (Delta from to (mj_node job)) as [puts removes] eqn:Ed. cbn -[MeshSender.put].
  assert (Hc' : forallb (check_peer parse_endpoint parse_prefix) puts = true).
  { apply forallb_forall. intros p Hp%list_elem_of_In. rewrite forallb_forall in Hc. apply Hc, list_elem_of_In, elem_of_For; [done|].
    change puts with (puts, removes).1 in Hp. rewrite <- Ed, elem_of_put in Hp by done. tauto. }
  unfold MeshSender.update, change. rewrite Hc', Hs. cbn -[MeshSender.put].
  destruct (nm_version s =? ps_Version from); cbn -[MeshSender.put]; [done|]. by apply Hput.
Qed.

(** ** What the leader knows *)

(** What the machine has of a node: the sender's counter of its forgets and the
    version it takes the node to have, whether its connection ended unheard,
    and the node. *)
Record view := MkView { v_gen : Z; v_sent : option Z; v_drop : bool; v_node : node_mesh }.

Definition sent_at (m : meshSender) (node : string) : option Z := default ∅ (ms_sent m) !! node.

Definition view_of (g : sending) (node : string) : view :=
  MkView (gen_of (sg_sender g) node) (sent_at (sg_sender g) node) (bool_decide (node ∈ sg_dropped g)) (sg_nodes g node).

(** The peers of the versions: one per version, each under its name. *)
Context (version : Peers → Prop).
Context (version_one : ∀ p q, version p → version q → ps_Version p = ps_Version q → p = q).
Context (version_named : ∀ p, version p → named p).

(** The version the sender takes a node to have: no newer than the last it
    planned; the node has its peers, unless a later send reached it whose end
    is unknown; and if it is the last, the node has it. *)
Definition sent_ok (last : option Peers) (node : string) (w : view) : Prop :=
  ∀ v, v_sent w = Some v → ∃ q p, last = Some q ∧ version p ∧ ps_Version p = v ∧ v ≤ ps_Version q ∧
    (v_drop w = false → agrees p node (v_node w) ∧ (v = ps_Version q → has q node (v_node w))).

Definition job_ok (to : Peers) (job : meshJob) (w : view) : Prop :=
  mj_gen job ≤ v_gen w ∧ v_sent w ≠ Some (ps_Version to) ∧
  (v_drop w = false → v_gen w = mj_gen job → ∀ from, mj_from job = Some from → agrees from (mj_node job) (v_node w)).

Definition end_ok (to : Peers) (job : meshJob) (c : code) (w : view) : Prop :=
  mj_gen job ≤ v_gen w ∧ (c = OK → v_drop w = false → v_gen w = mj_gen job → has to (mj_node job) (v_node w)).

Definition run_ok (last : option Peers) (g : sending) : Prop :=
  match sg_run g with
  | None => True
  | Some (to, jobs, ended) =>
      last = Some to ∧ NoDup (mj_node <$> jobs ++ ended.*1) ∧
      (∀ j, j ∈ jobs → job_ok to j (view_of g (mj_node j))) ∧
      (∀ j c, (j, c) ∈ ended → end_ok to j c (view_of g (mj_node j)))
  end.

(** After [k] steps, the last of them to plan having planned [last]. *)
Definition sinv (k : Z) (last : option Peers) (g : sending) : Prop :=
  (∀ node, 0 ≤ v_gen (view_of g node) ≤ k) ∧
  (∀ v p, ms_sets (sg_sender g) !! v = Some p → version p ∧ ps_Version p = v) ∧
  (∀ q, last = Some q → version q) ∧
  (∀ node, sent_ok last node (view_of g node)) ∧ run_ok last g.

(** The peers planned are versions, and never older than those before. *)
Fixpoint growing (last : option Peers) (es : list sevent) : Prop :=
  match es with
  | [] => True
  | SPlan _ _ p _ :: es' => version p ∧ (∀ q, last = Some q → ps_Version q ≤ ps_Version p) ∧ growing (Some p) es'
  | _ :: es' => growing last es'
  end.

Fixpoint last_planned (last : option Peers) (es : list sevent) : option Peers :=
  match es with
  | [] => last
  | SPlan _ _ p _ :: es' => last_planned (Some p) es'
  | _ :: es' => last_planned last es'
  end.

(** A step that changes what the machine has of one node only. *)
Lemma sinv_frame k k' last g g' n :
  sinv k last g → k ≤ k' → (∀ v p, ms_sets (sg_sender g') !! v = Some p → ms_sets (sg_sender g) !! v = Some p) →
  (∀ x, x ≠ n → view_of g' x = view_of g x) → 0 ≤ v_gen (view_of g' n) ≤ k' → sent_ok last n (view_of g' n) →
  run_ok last g' → sinv k' last g'.
Proof.
  intros (Hg & Hs & Hl & Hn & _) Hk Hs' Hx Hg' Hn' Hr. split; [|split; [|split; [done|split; [|done]]]].
  - intros x. destruct (decide (x = n)) as [->|Hne]; [done|]. rewrite Hx by done. specialize (Hg x). lia.
  - intros v p Hp. by apply Hs, Hs'.
  - intros x. destruct (decide (x = n)) as [->|Hne]; [done|]. by rewrite Hx.
Qed.

Lemma run_frame last g g' n :
  run_ok last g → sg_run g' = sg_run g → (∀ x, x ≠ n → view_of g' x = view_of g x) →
  (∀ to j, mj_node j = n → job_ok to j (view_of g n) → job_ok to j (view_of g' n)) →
  (∀ to j c, mj_node j = n → end_ok to j c (view_of g n) → end_ok to j c (view_of g' n)) →
  run_ok last g'.
Proof.
  unfold run_ok. intros Hr -> Hx Hj He. destruct (sg_run g) as [[[to jobs] ended]|]; [|done].
  destruct Hr as (Hl & Hd & Hjobs & Hends). split_and!; [done..| |].
  - intros j Hin. specialize (Hjobs j Hin). destruct (decide (mj_node j = n)) as [E|Hne]; [|by rewrite Hx].
    rewrite E in *. by apply Hj.
  - intros j c Hin. specialize (Hends j c Hin). destruct (decide (mj_node j = n)) as [E|Hne]; [|by rewrite Hx].
    rewrite E in *. by apply He.
Qed.

(** A connection that ends, unheard. *)
Lemma sinv_drop k last m nodes dropped running n after :
  sinv k last (MkSending m nodes dropped running) →
  sinv (k + 1) last (MkSending m (<[n := after]> nodes) (dropped ∪ {[n]}) running).
Proof.
  intros Hi. pose proof Hi as (Hg & Hs & Hl & Hn & Hr).
  assert (Hx : ∀ x, x ≠ n → view_of (MkSending m (<[n := after]> nodes) (dropped ∪ {[n]}) running) x =
    view_of (MkSending m nodes dropped running) x).
  { intros x Hne. unfold view_of. cbn. rewrite fn_lookup_insert_ne by done. f_equal. apply bool_decide_ext. set_solver. }
  assert (Hdrop : v_drop (view_of (MkSending m (<[n := after]> nodes) (dropped ∪ {[n]}) running) n) = true).
  { apply bool_decide_eq_true. set_solver. }
  eapply (sinv_frame k _ _ _ _ n Hi); [lia|done|done| | |].
  - specialize (Hg n). cbn in *. lia.
  - intros v Hv. destruct (Hn n v Hv) as (q & p & ? & ? & ? & ? & _). exists q, p. rewrite Hdrop. by repeat split.
  - eapply (run_frame _ _ _ n Hr); [done|done| |].
    + intros to j <- (? & ? & _). unfold job_ok. rewrite Hdrop. by repeat split.
    + intros to j c <- (? & _). unfold end_ok. rewrite Hdrop. by repeat split.
Qed.

(** The leader forgets a node. *)
Lemma sinv_forget k last m nodes dropped running n :
  k < 2 ^ 64 - 1 → sinv k last (MkSending m nodes dropped running) →
  sinv (k + 1) last (MkSending (forget n m) nodes (dropped ∖ {[n]}) running).
Proof.
  intros Hk Hi. pose proof Hi as (Hg & Hs & Hl & Hn & Hr).
  assert (Hgen : gen_of (forget n m) n = gen_of m n + 1).
  { unfold gen_of at 1, forget. cbn. rewrite lookup_insert_eq. cbn. specialize (Hg n). cbn in Hg. apply Z.mod_small. lia. }
  assert (Hsent : sent_at (forget n m) n = None).
  { unfold sent_at, forget. cbn. destruct (ms_sent m); cbn; [apply lookup_delete_eq|done]. }
  assert (Hx : ∀ x, x ≠ n → view_of (MkSending (forget n m) nodes (dropped ∖ {[n]}) running) x =
    view_of (MkSending m nodes dropped running) x).
  { intros x Hne. unfold view_of. cbn. f_equal.
    - unfold gen_of at 1, forget. cbn. by rewrite lookup_insert_ne.
    - unfold sent_at, forget. cbn. destruct (ms_sent m); cbn; [by rewrite lookup_delete_ne|done].
    - apply bool_decide_ext. set_solver. }
  eapply (sinv_frame k _ _ _ _ n Hi); [lia|done|done| | |].
  - specialize (Hg n). cbn -[forget] in *. lia.
  - intros v Hv. cbn -[forget] in Hv. congruence.
  - eapply (run_frame _ _ _ n Hr); [done|done| |].
    + intros to j <- (? & _). cbn in *. unfold job_ok. cbn -[forget]. rewrite Hgen, Hsent. split; [lia|]. split; [done|]. lia.
    + intros to j c <- (? & _). cbn in *. unfold end_ok. cbn -[forget]. rewrite Hgen. split; [lia|]. lia.
Qed.

(** A node's assignment. *)
Lemma sinv_assign k last m nodes dropped running n :
  sinv k last (MkSending m nodes dropped running) →
  sinv (k + 1) last (MkSending m (<[n := (nodes n) <| nm_assigned := true |>]> nodes) dropped running).
Proof.
  intros Hi. pose proof Hi as (Hg & Hs & Hl & Hn & Hr).
  eapply (sinv_frame k _ _ _ _ n Hi); [lia|done| | | |].
  - intros x Hne. unfold view_of. cbn. by rewrite fn_lookup_insert_ne.
  - specialize (Hg n). cbn in *. lia.
  - intros v Hv. specialize (Hn n v Hv). cbn in *. by rewrite fn_lookup_insert.
  - eapply (run_frame _ _ _ n Hr); [done| | |].
    + intros x Hne. unfold view_of. cbn. by rewrite fn_lookup_insert_ne.
    + intros to j <- Hj. unfold job_ok in *. cbn in *. by rewrite fn_lookup_insert.
    + intros to j c <- Hj. unfold end_ok in *. cbn in *. by rewrite fn_lookup_insert.
Qed.

(** A job is of one node. *)
Lemma job_split (job : meshJob) jobs (ended : list (meshJob * code)) c :
  job ∈ jobs → NoDup (mj_node <$> jobs ++ ended.*1) →
  NoDup (mj_node <$> filter (λ j, j ≠ job) jobs ++ ((job, c) :: ended).*1) ∧
  (∀ j, j ∈ filter (λ j, j ≠ job) jobs → mj_node j ≠ mj_node job) ∧ (∀ j c, (j, c) ∈ ended → mj_node j ≠ mj_node job).
Proof.
  intros Hin. induction jobs as [|j jobs IH]; [by apply not_elem_of_nil in Hin|]. cbn [app fmap list_fmap].
  rewrite NoDup_cons. intros [Hni Hnd].
  assert (Hends : ∀ j c, (j, c) ∈ ended → mj_node j ∈ mj_node <$> jobs ++ ended.*1).
  { intros j' c' Hj'. apply list_elem_of_fmap_2, elem_of_app. right. by apply (list_elem_of_fmap_2 fst _ (j', c')). }
  destruct (decide (j = job)) as [->|Hne].
  - assert (Hf : filter (λ j, j ≠ job) jobs = jobs).
    { apply filter_all, list.Forall_forall. intros x Hx ->. apply Hni. apply list_elem_of_fmap_2, elem_of_app. by left. }
    rewrite filter_cons_False by (intros Hc; by apply Hc). rewrite Hf. split_and!.
    + rewrite fmap_app. cbn. rewrite <- Permutation_middle. rewrite fmap_app in *. by constructor.
    + intros x Hx E. apply Hni. rewrite <- E. apply list_elem_of_fmap_2, elem_of_app. by left.
    + intros x c' Hx E. apply Hni. rewrite <- E. eauto.
  - rewrite filter_cons_True by done. apply elem_of_cons in Hin as [->|Hin]; [done|]. destruct (IH Hin Hnd) as (Hnd' & Hj & He).
    cbn [app fmap list_fmap]. split_and!; [|intros x [->|Hx]%elem_of_cons; [|by apply Hj]|done].
    + constructor; [|done]. intros Hx. apply Hni. revert Hx. rewrite !fmap_app, !elem_of_app. intros [Hx|Hx].
      * left. apply list_elem_of_fmap in Hx as (y & -> & [_ Hy]%list_elem_of_filter). by apply list_elem_of_fmap_2.
      * cbn in Hx. apply elem_of_cons in Hx as [->|Hx]; [|by right]. left. by apply list_elem_of_fmap_2.
    + intros E. apply Hni. rewrite E. apply list_elem_of_fmap_2, elem_of_app. by left.
Qed.

(** A send. *)
Lemma sinv_send k last m nodes dropped to jobs ended job x y :
  job ∈ jobs → sinv k last (MkSending m nodes dropped (Some (to, jobs, ended))) →
  sinv (k + 1) last (MkSending m (<[mj_node job := (sendPeers job to x y (nodes (mj_node job))).2]> nodes) dropped
    (Some (to, filter (λ j, j ≠ job) jobs, (job, (sendPeers job to x y (nodes (mj_node job))).1) :: ended))).
Proof.
  intros Hin Hi. pose proof Hi as (Hg & Hs & Hl & Hn & (-> & Hnd & Hjobs & Hends)).
  destruct (job_split job jobs ended (sendPeers job to x y (nodes (mj_node job))).1 Hin Hnd) as (Hnd' & Hj' & He').
  pose proof (Hjobs job Hin) as (Hgen & Hsent & Hag). cbn in Hgen, Hsent, Hag.
  eapply (sinv_frame k _ _ _ _ (mj_node job) Hi); [lia|done| | | |].
  - intros z Hne. unfold view_of. cbn. by rewrite fn_lookup_insert_ne.
  - specialize (Hg (mj_node job)). cbn in *. lia.
  - intros v Hv. destruct (Hn (mj_node job) v Hv) as (q & p & [= <-] & Hp & Ev & Hle & Hd). exists to, p. cbn in Hv, Hd |- *.
    rewrite fn_lookup_insert. split_and!; [done..|]. intros Hdr. destruct (Hd Hdr) as [Ha _]. split; [|intros ->; congruence].
    intros E'. destruct (send_state job to x y (nodes (mj_node job))) as [E|E]; rewrite E in *; [by apply Ha|congruence].
  - split_and!; [done..| |].
    + intros j Hj. pose proof (Hj' j Hj). apply list_elem_of_filter in Hj as [_ Hj]. specialize (Hjobs j Hj).
      unfold job_ok in *. cbn in *. by rewrite fn_lookup_insert_ne.
    + intros j c [[= -> ->]|Hj]%elem_of_cons.
      * split; [done|]. cbn. rewrite fn_lookup_insert. intros Eok Hdr Eg. eapply sendPeers_ok; [|by apply Hag|].
        { apply version_named. by apply Hl. }
        by rewrite <- Eok, <- surjective_pairing.
      * pose proof (He' j c Hj). specialize (Hends j c Hj). unfold end_ok in *. cbn in *. by rewrite fn_lookup_insert_ne.
Qed.

Lemma NoDup_fmap_inj {A B} (f : A → B) (l : list A) x y : NoDup (f <$> l) → x ∈ l → y ∈ l → f x = f y → x = y.
Proof.
  intros Hnd [i Hi]%list_elem_of_lookup [j Hj]%list_elem_of_lookup E. assert (i = j); [|congruence].
  eapply (NoDup_lookup _ i j (f x) Hnd); rewrite list_lookup_fmap; [by rewrite Hi|by rewrite Hj, E].
Qed.

(** The end of a send, recorded. *)
Lemma sentPeers_memory job v c m :
  ms_sets (sentPeers job v c m) = ms_sets m ∧ (∀ x, gen_of (sentPeers job v c m) x = gen_of m x) ∧
  (∀ x, x ≠ mj_node job → sent_at (sentPeers job v c m) x = sent_at m x) ∧
  (sent_at (sentPeers job v c m) (mj_node job) = sent_at m (mj_node job) ∨
   c = OK ∧ gen_of m (mj_node job) = mj_gen job ∧ sent_at (sentPeers job v c m) (mj_node job) = Some v).
Proof.
  destruct c; cbn -[gen_of]; [|by auto| |by auto].
  - unfold took. destruct (ms_sent m) as [sent|] eqn:Es; [|by auto].
    destruct (Z.eqb_spec (gen_of m (mj_node job)) (mj_gen job)); [|by auto]. unfold sent_at. cbn. rewrite Es. cbn.
    split_and!; [done..| |].
    + intros x Hne. by rewrite lookup_insert_ne.
    + right. by rewrite lookup_insert_eq.
  - unfold isOlder. destruct (_ || _); cbn; by auto.
Qed.

Lemma sinv_record k last m nodes dropped to jobs ended job c :
  (job, c) ∈ ended → sinv k last (MkSending m nodes dropped (Some (to, jobs, ended))) →
  sinv (k + 1) last (MkSending (sentPeers job (ps_Version to) c m) nodes dropped
    (Some (to, jobs, filter (λ x, x ≠ (job, c)) ended))).
Proof.
  intros Hin Hi. pose proof Hi as (Hg & Hs & Hl & Hn & (-> & Hnd & Hjobs & Hends)).
  destruct (sentPeers_memory job (ps_Version to) c m) as (Es & Eg & Ex & Ej).
  assert (Hx : ∀ x r, x ≠ mj_node job →
    view_of (MkSending (sentPeers job (ps_Version to) c m) nodes dropped r) x =
    view_of (MkSending m nodes dropped (Some (to, jobs, ended))) x).
  { intros x r Hne. unfold view_of. cbn -[sentPeers]. by rewrite Eg, Ex. }
  rewrite fmap_app, NoDup_app in Hnd. destruct Hnd as (Hndj & Hdis & Hnde). rewrite <- list_fmap_compose in Hdis, Hnde.
  eapply (sinv_frame k _ _ _ _ (mj_node job) Hi); [lia| | | | |].
  - cbn -[sentPeers]. by rewrite Es.
  - intros x. apply Hx.
  - specialize (Hg (mj_node job)). cbn -[sentPeers] in *. rewrite Eg. lia.
  - intros v. cbn -[sentPeers]. destruct Ej as [->|(Eok & Egen & ->)]; [apply Hn|]. intros [= <-]. exists to, to.
    split_and!; [done|by apply Hl|done|done|]. intros Hd. destruct (Hends job c Hin) as [_ Hhas]. specialize (Hhas Eok Hd Egen).
    split; [|done]. intros _. apply Hhas.
  - split_and!; [done| | |].
    + rewrite fmap_app, NoDup_app, <- list_fmap_compose. split_and!; [done| |].
      * intros x Hx1 (y & -> & [_ Hy]%list_elem_of_filter)%list_elem_of_fmap. eapply Hdis; [done|]. by apply list_elem_of_fmap_2.
      * eapply sublist_NoDup; [exact Hnde|]. apply fmap_sublist, sublist_filter.
    + intros j Hj. rewrite Hx; [by apply Hjobs|]. intros E. eapply (Hdis (mj_node j)); [by apply list_elem_of_fmap_2|].
      rewrite E. by apply (list_elem_of_fmap_2 (mj_node ∘ fst) _ (job, c)).
    + intros j c' [Hne Hj]%list_elem_of_filter. rewrite Hx; [by apply Hends|]. intros E. apply Hne.
      by eapply (NoDup_fmap_inj (mj_node ∘ fst)).
Qed.

(** The end of a run. *)
Lemma sinv_end k last m m' nodes dropped running :
  ms_gen m' = ms_gen m → ms_sent m' = ms_sent m → (∀ v p, ms_sets m' !! v = Some p → ms_sets m !! v = Some p) →
  sinv k last (MkSending m nodes dropped running) → sinv (k + 1) last (MkSending m' nodes dropped None).
Proof.
  intros Eg Es Hsub (Hg & Hs & Hl & Hn & _).
  assert (Hv : ∀ x, view_of (MkSending m' nodes dropped None) x = view_of (MkSending m nodes dropped running) x).
  { intros x. unfold view_of, gen_of, sent_at. cbn. by rewrite Eg, Es. }
  split_and!; [| |done| |done].
  - intros x. rewrite Hv. specialize (Hg x). lia.
  - intros v p Hp. by apply Hs, Hsub.
  - intros x. rewrite Hv. apply Hn.
Qed.

(** A plan. *)
Lemma plan_memory term peers connected m :
  (∀ x, gen_of (plan term peers connected m).2 x = gen_of m x) ∧
  (∀ x, sent_at (plan term peers connected m).2 x = if new_term term m then None else sent_at m x) ∧
  (∀ v p, ms_sets (plan term peers connected m).2 !! v = Some p →
     v = ps_Version peers ∧ p = peers ∨ ms_sets m !! v = Some p).
Proof.
  unfold plan. destruct (new_term term m); cbn; split_and!; try done.
  - intros v p. rewrite lookup_insert_Some, lookup_empty. naive_solver.
  - intros v p. rewrite lookup_insert_Some. naive_solver.
Qed.

Lemma plan_jobs term peers connected m job :
  job ∈ (plan term peers connected m).1 →
  mj_gen job = gen_of m (mj_node job) ∧
  sent_at (plan term peers connected m).2 (mj_node job) ≠ Some (ps_Version peers) ∧
  (∀ from, mj_from job = Some from → ∃ v, sent_at (plan term peers connected m).2 (mj_node job) = Some v ∧
     ms_sets (plan term peers connected m).2 !! v = Some from).
Proof.
  destruct (plan_memory term peers connected m) as (Eg & _ & _). rewrite <- Eg. unfold plan. cbn [fst snd].
  intros (node & _ & E)%list_elem_of_omap. unfold plan_job in E. destruct (ps_Nodes peers !! node); [|done].
  case_bool_decide; [done|].
  match type of E with context [?m <| ms_sets ::= _ |>] => set (m' := m <| ms_sets ::= <[ps_Version peers := peers]> |>) in * end.
  fold (sent_at m' node) in E. destruct (sent_at m' node) as [v|] eqn:Es.
  - destruct (Z.eqb_spec v (ps_Version peers)) as [|Hne]; [done|]. injection E as <-. cbn [mj_node mj_gen mj_from].
    rewrite Es. split_and!; [done|congruence|]. eauto.
  - injection E as <-. cbn [mj_node mj_gen mj_from]. rewrite Es. by split_and!.
Qed.

Lemma plan_nodes term peers connected m : NoDup connected → NoDup (mj_node <$> (plan term peers connected m).1).
Proof.
  unfold plan. cbn [fst]. match goal with |- context [plan_job ?m ?s] => generalize m, s end. intros m' sent.
  assert (Hnode : ∀ node job, plan_job m' sent peers node = Some job → mj_node job = node).
  { intros node job. unfold plan_job. repeat case_match; naive_solver. }
  induction 1 as [|node nodes Hni Hnd IH]; [constructor|]. cbn. destruct (plan_job m' sent peers node) as [job|] eqn:E; [|done].
  cbn. constructor; [|done]. rewrite (Hnode _ _ E). intros (j & Ej & (x & Hx & Ex)%list_elem_of_omap)%list_elem_of_fmap.
  rewrite (Hnode _ _ Ex) in Ej. by subst.
Qed.

Lemma sinv_plan k last m nodes dropped term others peers connected :
  NoDup connected → version peers → (∀ q, last = Some q → ps_Version q ≤ ps_Version peers) →
  sinv k last (MkSending m nodes dropped None) →
  sinv (k + 1) (Some peers) (MkSending (plan term peers connected m).2 (if new_term term m then others else nodes) dropped
    (Some (peers, (plan term peers connected m).1, []))).
Proof.
  intros Hc Hp Hq (Hg & Hs & Hl & Hn & _). destruct (plan_memory term peers connected m) as (Eg & Es & Hsets).
  assert (Hs' : ∀ v p, ms_sets (plan term peers connected m).2 !! v = Some p → version p ∧ ps_Version p = v).
  { intros v p [[-> ->]|H]%Hsets; [done|by apply Hs]. }
  assert (Hn' : ∀ node, sent_ok (Some peers) node (view_of (MkSending (plan term peers connected m).2
    (if new_term term m then others else nodes) dropped (Some (peers, (plan term peers connected m).1, []))) node)).
  { intros node v. cbn -[plan]. rewrite Es. destruct (new_term term m); [done|]. intros Hv.
    destruct (Hn node v Hv) as (q & p & Eq & Hp' & Ev & Hle & Hd). pose proof (Hq q Eq). exists peers, p.
    split_and!; [done..|lia|]. intros Hdr. destruct (Hd Hdr) as [Ha Hh]. split; [done|]. intros Ev'.
    rewrite (version_one peers q) by (done || (by apply Hl) || lia). apply Hh. lia. }
  split_and!; [|done|by intros ? [= <-]|done|].
  - intros node. cbn -[plan]. rewrite Eg. specialize (Hg node). cbn in Hg. lia.
  - cbn -[plan]. rewrite app_nil_r. split_and!; [done|by apply plan_nodes| |by intros ?? ?%elem_of_nil].
    intros j Hj. destruct (plan_jobs _ _ _ _ _ Hj) as (Ej & Hne & Hfrom). unfold job_ok. cbn -[plan]. rewrite Eg.
    split_and!; [lia|done|]. intros Hdr _ from (v & Ev & Hv)%Hfrom.
    destruct (Hn' (mj_node j) v Ev) as (q & p & [= <-] & Hp' & Evp & _ & Hd). destruct (Hs' v from Hv) as [Hf Ef].
    rewrite (version_one from p) by (done || lia). by apply Hd.
Qed.

(** A node that a plan passes over, on the mesh and served, has its version. *)
Lemma plan_skips term peers connected m node :
  new_term term m = false → node ∈ connected → is_Some (ps_Nodes peers !! node) → node ∉ ms_older m →
  (∀ job, job ∈ (plan term peers connected m).1 → mj_node job ≠ node) → sent_at m node = Some (ps_Version peers).
Proof.
  intros Et Hc [p Hp] Ho Hno. unfold plan in Hno. rewrite Et in Hno. cbn [fst] in Hno.
  assert (Hj : plan_job (m <| ms_sets ::= <[ps_Version peers := peers]> |>) (default ∅ (ms_sent m)) peers node = None).
  { destruct (plan_job _ _ peers node) as [job|] eqn:E; [|done]. destruct (Hno job).
    - apply list_elem_of_omap. eauto.
    - revert E. unfold plan_job. repeat case_match; naive_solver. }
  unfold plan_job in Hj. rewrite Hp in Hj. case_bool_decide as Hb; [by destruct Ho|]. clear Hb.
  unfold sent_at. destruct (default ∅ (ms_sent m) !! node) as [v|]; [|done].
  destruct (Z.eqb_spec v (ps_Version peers)); congruence.
Qed.

Lemma sinv_start nodes : sinv 0 None (new_sending nodes).
Proof. split_and!; try done. Qed.

Lemma sinv_step k last e g g' :
  k < 2 ^ 64 - 1 → growing last [e] → sinv k last g → sstep parse_endpoint parse_prefix e g = Some g' →
  sinv (k + 1) (last_planned last [e]) g'.
Proof.
  intros Hk Hgr Hi. destruct g as [m nodes dropped running]. destruct e; cbn -[plan MeshSender.sendPeers sentPeers forget prune].
  - destruct running; [done|]. case_bool_decide; [|done]. destruct Hgr as (Hp & Hq & _).
    rewrite (surjective_pairing (plan _ _ _ _)). intros [= <-]. by eapply sinv_plan.
  - destruct running as [[[to jobs] ended]|]; [|done]. case_bool_decide; [|done].
    rewrite (surjective_pairing (sendPeers _ _ _ _ _)). intros [= <-]. by apply sinv_send.
  - destruct running as [[[to jobs] ended]|]; [|done]. case_bool_decide; [|done]. intros [= <-]. by apply sinv_record.
  - destruct running as [[[to [|]] [|]]|]; try done. intros [= <-]. eapply sinv_end; [..|done]; try done.
    intros v p. cbn. by intros [? _]%map_lookup_filter_Some.
  - destruct running as [[[to jobs] [|]]|]; try done. intros [= <-]. by eapply sinv_end.
  - intros [= <-]. by apply sinv_drop.
  - intros [= <-]. by apply sinv_forget.
  - intros [= <-]. by apply sinv_assign.
Qed.

Lemma sinv_run es k last g g' :
  k + Z.of_nat (length es) < 2 ^ 64 → growing last es → sinv k last g → srun parse_endpoint parse_prefix es g = Some g' →
  sinv (k + Z.of_nat (length es)) (last_planned last es) g'.
Proof.
  revert k last g. induction es as [|e es IH]; intros k last g Hk Hgr Hi Hr.
  { injection Hr as <-. change (Z.of_nat (length [])) with 0. by rewrite Z.add_0_r. }
  cbn [length] in *. cbn [srun] in Hr. destruct (sstep _ _ e g) as [g1|] eqn:E; [|done].
  assert (H1 : growing last [e] ∧ growing (last_planned last [e]) es) by (by destruct e; cbn in *; tauto).
  replace (k + Z.of_nat (S (length es))) with (k + 1 + Z.of_nat (length es)) by lia.
  replace (last_planned last (e :: es)) with (last_planned (last_planned last [e]) es) by (by destruct e).
  eapply IH; [lia|apply H1| |exact Hr]. eapply sinv_step; [|apply H1|exact Hi|exact E]. lia.
Qed.
End sender.

(** ** The leader and the nodes, in a run of the control plane *)

(** Each plan's peers are read from the database, after as many steps of a run
    of the control plane as the plans before it or more. *)
Fixpoint reads (small_order : list Z → bool) (clock : Time) (es : list (Time * event)) (n : nat) (evs : list sevent) : Prop :=
  match evs with
  | [] => True
  | SPlan _ _ p _ :: evs' => ∃ n', (n ≤ n')%nat ∧ peers_at small_order clock es n' p ∧ reads small_order clock es n' evs'
  | _ :: evs' => reads small_order clock es n evs'
  end.

Lemma reads_grow small_order clock es n evs last :
  (∀ q, last = Some q → ∃ n0, (n0 ≤ n)%nat ∧ peers_at small_order clock es n0 q) →
  reads small_order clock es n evs → growing (λ p, ∃ n, peers_at small_order clock es n p) last evs.
Proof.
  revert n last. induction evs as [|e evs IH]; intros n last Hl Hr; [done|]. destruct e; cbn in *; try by eapply IH.
  destruct Hr as (n' & Hn & Hp & Hr). split_and!.
  - eauto.
  - intros q (n0 & Hn0 & Hq)%Hl. eapply (peers_at_grow _ _ _ n0 n'); [lia|done|done].
  - eapply (IH n'); [|done]. intros q [= <-]. by exists n'.
Qed.

Lemma growing_app version last evs evs' :
  growing version last (evs ++ evs') → growing version last evs ∧ growing version (last_planned last evs) evs'.
Proof.
  revert last. induction evs as [|e evs IH]; intros last; [done|]. destruct e; cbn; try apply IH.
  intros (? & ? & ?%IH). tauto.
Qed.


(** A node gets its peers whole, the answer lost once; then as a delta. *)
Definition ex_all_events : list (Time * event) := ex_node_events ++ ex_ingress_events.
Definition ex_any (s : string) : bool := true.
Definition ex_node (n : string) : node_mesh := MkNodeMesh true (ex_key 1) 0 ∅ ∅.
Definition ex_peers1 : Peers := Eval vm_compute in MeshPeers (w_db ex_node_world).
Definition ex_peers2 : Peers := Eval vm_compute in MeshPeers (w_db ex_world).
Definition ex_calls : fate := Executed true true true.

Definition ex_sends : list sevent :=
  [SPlan 5 ex_node ex_peers1 ["n1"]; SSend (MkMeshJob "n1" None 0) Lost (Executed true true false);
   SRecord (MkMeshJob "n1" None 0) OTHER; SEnd;
   SPlan 5 ex_node ex_peers1 ["n1"]; SSend (MkMeshJob "n1" None 0) Lost ex_calls; SRecord (MkMeshJob "n1" None 0) OK; SEnd;
   SPlan 5 ex_node ex_peers2 ["n1"]; SSend (MkMeshJob "n1" (Some ex_peers1) 0) ex_calls Lost;
   SRecord (MkMeshJob "n1" (Some ex_peers1) 0) OK; SEnd]%string.

Lemma ex_reads : reads ex_order 100 ex_all_events 0 (ex_sends ++ [SPlan 5 ex_node ex_peers2 ["n1"%string]]).
Proof.
  assert (H1 : peers_at ex_order 100 ex_all_events 4 ex_peers1) by (exists ex_node_world; split; vm_compute; reflexivity).
  assert (H2 : peers_at ex_order 100 ex_all_events 7 ex_peers2) by (exists ex_world; split; vm_compute; reflexivity).
  exists 4%nat. split; [lia|]. split; [done|]. exists 4%nat. split; [lia|]. split; [done|]. exists 7%nat. split; [lia|]. split; [done|].
  exists 7%nat. split; [lia|]. by split.
Qed.

