(* ===== verification/Certificates.v ===== *)
(** * Certificates and join tokens over the runs of the control plane

    [certs_go] is what a transaction may do to the rows of the certificates of
    nodes and of ingresses: a row keeps its holder, a revocation stays and only
    comes nearer, and a new row has the serial drawn for it.  Every
    transaction of [Joins.step] keeps to it, so a certificate that was revoked
    is never taken again; the bound this has is the start of the transaction
    that asks. *)

From S2P Require Import Prelude Text PodId Rows Mesh Wg NetText HostLabels Identity Joins MeshSpec MeshRefine MeshRuns.

(** ** The rows *)

(** The holder of a certificate and its revocation, zero for none. *)
Definition cert_row (d : IDB) (kind : JoinKind) (serial : string) : option (string * Time) :=
  match kind with
  | JoinKindNode => (λ c, (nc_Node c, nc_RevokedAt c)) <$> i_node_certs d !! serial
  | JoinKindIngress => (λ c, (ic_Ingress c, ic_RevokedAt c)) <$> i_ingress_certs d !! serial
  end.

Definition row_goes (o o' : option (string * Time)) : Prop :=
  match o, o' with
  | Some (name, r), Some (name', r') => name' = name ∧ (r ≠ zeroTime → r' ≠ zeroTime ∧ r' ≤ r)
  | None, Some _ => False
  | _, None => True
  end.

#[export] Instance row_goes_po : PreOrder row_goes.
Proof.
  split.
  - intros [[name r]|]; cbn; [|done]. split; [done|]. intros ?. split; [done|lia].
  - intros [[n1 r1]|] [[n2 r2]|] [[n3 r3]|]; cbn; try done. intros [-> H1] [-> H2]. split; [done|]. intros H.
    destruct (H1 H) as [H3 ?]. destruct (H2 H3). split; [done|lia].
Qed.

(** The rows of the nodes' certificates are under their serials. *)
Definition keyed (d : IDB) : Prop := map_Forall (λ serial c, nc_Serial c = serial) (i_node_certs d).

(** [drawn] are the serials drawn for the transaction. *)
Definition certs_go (drawn : gset string) (d d' : IDB) : Prop :=
  i_now d' = i_now d ∧ (keyed d → keyed d') ∧ ∀ kind serial, serial ∉ drawn → row_goes (cert_row d kind serial) (cert_row d' kind serial).

#[export] Instance certs_go_po drawn : PreOrder (certs_go drawn).
Proof.
  split; [by intros d|]. intros d1 d2 d3 (N1 & K1 & R1) (N2 & K2 & R2). split; [congruence|]. split; [auto|]. intros kind s Hs. etrans; eauto.
Qed.

Definition keeps {A} (drawn : gset string) (m : itx A) : Prop := ∀ d, zeroTime < i_now d → certs_go drawn d (m d).2.

Lemma keeps_bind {A B} drawn (m : itx A) (f : A → itx B) : keeps drawn m → (∀ a, keeps drawn (f a)) → keeps drawn (m ≫= f).
Proof.
  intros Hm Hf d Hd. rewrite bind_run. specialize (Hm d Hd). destruct (m d) as [[a|e] d']; [|done]. cbn in *.
  etrans; [done|]. apply Hf. by rewrite (proj1 Hm).
Qed.

(** A statement that reads, or changes other tables. *)
Lemma keeps_other {A} drawn (m : itx A) :
  (∀ d, i_now (m d).2 = i_now d ∧ i_node_certs (m d).2 = i_node_certs d ∧ i_ingress_certs (m d).2 = i_ingress_certs d) →
  keeps drawn m.
Proof.
  intros Hm d _. destruct (Hm d) as (En & Ec & Ei). split; [done|]. split; [unfold keyed; by rewrite Ec|]. intros [] s _; cbn; by rewrite ?Ec, ?Ei.
Qed.

(** The row of a certificate, under its serial. *)
Lemma update_where_rows {A} (f : A → string * Time) sel set (m : gmap string A) s :
  (∀ c, sel c = true → row_goes (Some (f c)) (Some (f (set c)))) →
  row_goes (f <$> m !! s) (f <$> update_where sel set m !! s).
Proof.
  intros Hs. unfold update_where. rewrite lookup_fmap. destruct (m !! s) as [c|]; [|done]. cbn -[row_goes].
  destruct (sel c) eqn:E; [by apply Hs|reflexivity].
Qed.

Lemma update_where_keyed {A} (f : A → string) sel set (m : gmap string A) :
  (∀ c, f (set c) = f c) → map_Forall (λ serial c, f c = serial) m → map_Forall (λ serial c, f c = serial) (update_where sel set m).
Proof.
  intros Hs Hm k c. unfold update_where. rewrite lookup_fmap. destruct (m !! k) as [c0|] eqn:E; [|done]. cbn. intros [= <-].
  destruct (sel c0); [rewrite Hs|]; by apply Hm.
Qed.

Lemma filter_rows {A} (f : A → string * Time) (P : string * A → Prop) `{∀ x, Decision (P x)} (m : gmap string A) s :
  row_goes (f <$> m !! s) (f <$> filter P m !! s).
Proof.
  destruct (filter P m !! s) as [c|] eqn:E; [|destruct (m !! s) as [a|]; [|done]; unfold row_goes; by destruct (f <$> Some a) as [[]|]].
  apply map_lookup_filter_Some in E as [-> _]. reflexivity.
Qed.

Lemma revoke_row now (name : string) r :
  zeroTime < now → not_in_effect now r = true → row_goes (Some (name, r)) (Some (name, now)).
Proof.
  intros Hn Hr. split; [done|]. intros Hz. unfold not_in_effect, IsZero in Hr. split; [lia|].
  destruct (Z.eqb_spec r zeroTime); [done|]. cbn in Hr. lia.
Qed.

Lemma keeps_revoke drawn node reason except : keeps drawn (RevokeNodeCerts node reason except).
Proof.
  intros d Hd. split; [done|]. split; [by apply (update_where_keyed nc_Serial)|]. intros [] s _; [|done]. cbn. apply (update_where_rows (λ c, (nc_Node c, nc_RevokedAt c))).
  intros c [_ Hc]%andb_true_iff. by apply revoke_row.
Qed.

Lemma keeps_insert drawn c : nc_Serial c ∈ drawn → keeps drawn (InsertNodeCert c).
Proof.
  intros Hs d _. unfold InsertNodeCert. cbv zeta. destruct (_ !! _); [done|]. split; [done|].
  split; [intros Hk; by apply map_Forall_insert_2|]. intros [] s Hn; [|done].
  cbn. rewrite lookup_insert_ne; [done|]. intros <-. done.
Qed.

Lemma keeps_insert_ingress drawn c : ic_Serial c ∈ drawn → keeps drawn (InsertIngressCert c).
Proof.
  intros Hs d _. unfold InsertIngressCert. cbv zeta. destruct (_ !! _); [done|]. split; [done|]. split; [done|]. intros [] s Hn; [done|].
  cbn. rewrite lookup_insert_ne; [done|]. intros <-. done.
Qed.

(** ** The statements and the transactions *)

Create HintDb certs.
#[export] Hint Resolve keeps_revoke keeps_insert keeps_insert_ingress : certs.

Ltac other := apply keeps_other; intros ?; cbn; repeat case_match; by simplify_eq.

Ltac keeping :=
  repeat first
    [ solve [auto with certs nocore]
    | apply keeps_bind; [|intros ?]
    | match goal with
      | |- keeps _ (if ?b then _ else _) => destruct b
      | |- keeps _ (match ?x with _ => _ end) => destruct x
      | |- keeps _ (let '(_, _) := ?x in _) => destruct x
      end
    | solve [other] ].

Lemma keeps_no_row_is {A} drawn (m : itx A) e : keeps drawn m → keeps drawn (no_row_is m e).
Proof. intros Hm d Hd. unfold no_row_is. specialize (Hm d Hd). by destruct (m d) as [[a|[]] d']. Qed.
Lemma keeps_catch {A} drawn (m : itx A) : keeps drawn m → keeps drawn (catch_no_row m).
Proof. intros Hm d Hd. unfold catch_no_row. specialize (Hm d Hd). by destruct (m d) as [[a|[]] d']. Qed.
Lemma keeps_ret {A} drawn (a : A) : keeps drawn (mret a).
Proof. other. Qed.
Lemma keeps_fail {A} drawn (e : id_error) : keeps (A := A) drawn (ifail e).
Proof. other. Qed.
Lemma keeps_gets {A} drawn (f : IDB → A) : keeps drawn (igets f).
Proof. other. Qed.
Lemma keeps_notify drawn c p : keeps drawn (Notify c p).
Proof. other. Qed.
Lemma keeps_of_result {A} drawn c p (r : result string A) : keeps drawn (of_result c p r).
Proof. unfold of_result. destruct r; other. Qed.
Lemma keeps_lock_node drawn name : keeps drawn (LockNode name).
Proof. unfold LockNode, row. other. Qed.
Lemma keeps_lock_ingress drawn name : keeps drawn (LockIngress name).
Proof. unfold LockIngress, row. other. Qed.
Lemma keeps_lock_token drawn hash : keeps drawn (LockJoinToken hash).
Proof. unfold LockJoinToken, row. other. Qed.
Lemma keeps_get_cert drawn serial : keeps drawn (GetNodeCert serial).
Proof. unfold GetNodeCert, row. other. Qed.
Lemma keeps_get_ingress_cert drawn serial : keeps drawn (GetIngressCert serial).
Proof. unfold GetIngressCert, row. other. Qed.
Lemma keeps_check drawn node serial : keeps drawn (CheckNodeCert node serial).
Proof. unfold CheckNodeCert. other. Qed.
Lemma keeps_check_ingress drawn name serial : keeps drawn (CheckIngressCert name serial).
Proof. unfold CheckIngressCert. other. Qed.
Lemma keeps_mark drawn hash name key serial peer : keeps drawn (MarkJoinTokenUsed hash name key serial peer).
Proof. unfold MarkJoinTokenUsed. other. Qed.
Lemma keeps_record drawn node kind leaf key peer previous : keeps drawn (recordNodeCert node kind leaf key peer previous).
Proof. unfold recordNodeCert. other. Qed.
Lemma keeps_update_node drawn name f : keeps drawn (update_node name f).
Proof. other. Qed.
Lemma keeps_update_ingress drawn name f : keeps drawn (update_ingress name f).
Proof. other. Qed.
Lemma keeps_insert_node drawn name : keeps drawn (InsertNode name).
Proof. unfold InsertNode. other. Qed.
Lemma keeps_insert_ingress_row drawn name : keeps drawn (InsertIngress name).
Proof. unfold InsertIngress. other. Qed.
Lemma keeps_subnet drawn : keeps drawn nextMeshSubnet.
Proof. unfold nextMeshSubnet. other. Qed.
Lemma keeps_key drawn key node ingress : keeps drawn (checkMeshKey key node ingress).
Proof. unfold checkMeshKey. other. Qed.
Lemma keeps_peers drawn : keeps drawn bumpMeshPeers.
Proof. unfold bumpMeshPeers. other. Qed.
Lemma keeps_group drawn : keeps drawn bumpIngressGroup.
Proof. unfold bumpIngressGroup. other. Qed.
#[export] Hint Resolve keeps_no_row_is keeps_catch keeps_ret keeps_fail keeps_gets keeps_notify keeps_of_result keeps_lock_node
  keeps_lock_ingress keeps_lock_token keeps_get_cert keeps_get_ingress_cert keeps_check keeps_check_ingress keeps_mark
  keeps_record keeps_update_node keeps_update_ingress keeps_insert_node keeps_insert_ingress_row keeps_subnet keeps_key
  keeps_peers keeps_group : certs.

Lemma keeps_revoke_ingress drawn name reason : keeps drawn (RevokeIngressCerts name reason).
Proof.
  intros d Hd. unfold RevokeIngressCerts. cbv zeta. set (d1 := d <| i_ingress_certs ::= _ |>).
  match goal with |- certs_go drawn d ((?m) d1).2 => assert (Hm : keeps drawn m) by keeping end.
  transitivity d1; [|by apply Hm]. split; [done|]. split; [done|]. intros [] s _; [done|].
  apply (update_where_rows (λ c, (ic_Ingress c, ic_RevokedAt c))). intros c [_ Hc]%andb_true_iff. by apply revoke_row.
Qed.
#[export] Hint Resolve keeps_revoke_ingress : certs.

(** A supersession revokes rows that are not revoked. *)
Lemma supersede_row (name : string) r r' : IsZero r = true → row_goes (Some (name, r)) (Some (name, r')).
Proof. intros Hr. split; [done|]. unfold IsZero in Hr. intros ?. destruct (Z.eqb_spec r zeroTime); done. Qed.

Lemma keeps_present drawn node serial grace : keeps drawn (RecordPresentation node serial grace).
Proof.
  unfold RecordPresentation. keeping.
  - intros d _. match goal with b : bool |- _ => destruct b end; [|reflexivity]. split; [done|]. split.
    { intros Hk k c Hc. cbn in Hc. apply lookup_alter_Some in Hc as [(-> & c0 & Hc & ->)|[_ Hc]]; exact (Hk _ _ Hc). }
    intros [] s _; [|done]. cbn. destruct (decide (s = serial)) as [->|Hne]; [|by rewrite lookup_alter_ne]. rewrite lookup_alter_eq.
    destruct (_ !! serial); cbn; [|done]. by split.
  - intros d _. split; [done|]. split; [by apply (update_where_keyed nc_Serial)|]. intros [] s _; [|done].
    apply (update_where_rows (λ c, (nc_Node c, nc_RevokedAt c))).
    intros x [[[_ _]%andb_true_iff Hz]%andb_true_iff _]%andb_true_iff. by apply supersede_row.
Qed.

Lemma keeps_present_ingress drawn name serial grace : keeps drawn (PresentIngressCert name serial grace).
Proof.
  unfold PresentIngressCert. keeping.
  intros d _. split; [done|]. split; [done|]. intros [] s _; [done|]. apply (update_where_rows (λ c, (ic_Ingress c, ic_RevokedAt c))).
  intros x [[[_ _]%andb_true_iff Hz]%andb_true_iff _]%andb_true_iff. by apply supersede_row.
Qed.
#[export] Hint Resolve keeps_present keeps_present_ingress : certs.

(** The serial drawn for a leaf. *)
Definition drawn_for (leaf : result string Leaf) : gset string := match leaf with Ok l => {[lf_Serial l]} | Err _ => ∅ end.

Lemma keeps_leaf {B} drawn c p (leaf : result string Leaf) (f : Leaf → itx B) :
  (∀ l, leaf = Ok l → keeps drawn (f l)) → keeps drawn (of_result c p leaf ≫= f).
Proof. intros Hf d Hd. destruct leaf as [l|t]; [by apply (Hf l)|]. rewrite bind_run. reflexivity. Qed.

Lemma drawn_leaf leaf l : leaf = Ok l → lf_Serial l ∈ drawn_for leaf.
Proof. intros ->. cbn. set_solver. Qed.

Lemma keeps_issue t name kind key peer leaf : keeps (drawn_for leaf) (issueNodeCert t name kind key peer leaf).
Proof. unfold issueNodeCert. apply keeps_leaf. intros l E%drawn_leaf. keeping. Qed.
Lemma keeps_issue_ingress t name kind key peer leaf : keeps (drawn_for leaf) (issueJoinCert t name kind key peer leaf).
Proof. unfold issueJoinCert. apply keeps_leaf. intros l E%drawn_leaf. keeping. Qed.
Lemma keeps_checkInTx drawn node serial : keeps drawn (checkInTx node serial).
Proof. unfold checkInTx. keeping. Qed.
Lemma keeps_ingress_checkInTx drawn name serial : keeps drawn (ingress_checkInTx name serial).
Proof. unfold ingress_checkInTx. keeping. Qed.
Lemma keeps_first drawn t : keeps drawn (firstAnswer t).
Proof. unfold firstAnswer. keeping. Qed.
Lemma keeps_ingress_first drawn t : keeps drawn (ingress_firstAnswer t).
Proof. unfold ingress_firstAnswer. keeping. Qed.
Lemma keeps_rejoin drawn name : keeps drawn (RejoinNode name).
Proof. unfold RejoinNode. keeping. Qed.
Lemma keeps_rejoin_ingress drawn name : keeps drawn (RejoinIngress name).
Proof. unfold RejoinIngress. keeping. Qed.
Lemma keeps_fork drawn name text : keeps drawn (ForkNode name text).
Proof. unfold ForkNode. keeping. Qed.
Lemma keeps_newest drawn name : keeps drawn (NewestIngressCert name).
Proof. unfold NewestIngressCert. keeping. Qed.
Lemma keeps_seen drawn name version : keeps drawn (SeenIngress name version).
Proof. unfold SeenIngress. keeping. Qed.
Lemma keeps_join_mesh drawn n ula key endpoint : keeps drawn (JoinMesh n ula key endpoint).
Proof. unfold JoinMesh. keeping. Qed.
Lemma keeps_join_ingress_mesh drawn g ula key endpoint : keeps drawn (JoinIngressMesh g ula key endpoint).
Proof. unfold JoinIngressMesh. keeping. Qed.
#[export] Hint Resolve keeps_issue keeps_issue_ingress keeps_checkInTx keeps_ingress_checkInTx keeps_first keeps_ingress_first
  keeps_rejoin keeps_rejoin_ingress keeps_fork keeps_newest keeps_seen keeps_join_mesh keeps_join_ingress_mesh : certs.

Lemma keeps_join_tx hash name peer csr leaf : keeps (drawn_for leaf) (join_tx hash name peer csr leaf).
Proof. unfold join_tx. keeping. Qed.
Lemma keeps_ingress_join_tx hash name keyHash peer leaf : keeps (drawn_for leaf) (ingress_join_tx hash name keyHash peer leaf).
Proof. unfold ingress_join_tx. keeping. Qed.
Lemma keeps_fork_tx drawn node serial peer : keeps drawn (fork_tx node serial peer).
Proof. unfold fork_tx. keeping. Qed.
Lemma keeps_renew_tx p csr leaf : keeps (drawn_for leaf) (renew_tx p csr leaf).
Proof.
  unfold renew_tx. apply keeps_bind; [keeping|intros ?]. apply keeps_bind; [keeping|intros ?].
  apply keeps_bind; [keeping|intros ?]. apply keeps_leaf. intros l E%drawn_leaf. keeping.
Qed.
Lemma keeps_ingress_renew_tx p keyHash early leaf : keeps (drawn_for leaf) (ingress_renew_tx p keyHash early leaf).
Proof.
  unfold ingress_renew_tx. do 5 (apply keeps_bind; [keeping|intros ?]). destruct (renewRefusal _ _ _ _ _ _); [keeping|].
  apply keeps_leaf. intros l E%drawn_leaf. keeping.
Qed.
Lemma keeps_joinMesh_tx drawn p ula joining key endpoint : keeps drawn (joinMesh_tx p ula joining key endpoint).
Proof. unfold joinMesh_tx. keeping. Qed.
Lemma keeps_hello_tx drawn p ula key endpoint version grace : keeps drawn (hello_tx p ula key endpoint version grace).
Proof. unfold hello_tx. keeping. Qed.
Lemma keeps_remove drawn name : keeps drawn (RemoveNode name).
Proof. unfold RemoveNode. keeping. Qed.
Lemma keeps_remove_ingress drawn name : keeps drawn (RemoveIngress name).
Proof. unfold RemoveIngress. keeping. Qed.

(** ** The events *)

Lemma in_tx_keeps {A} drawn (m : itx A) d : keeps drawn m → zeroTime < i_now d → certs_go drawn d (in_tx m d).2.
Proof.
  intros Hm Hd. specialize (Hm d Hd). unfold in_tx. destruct (m d) as [[a|e] d']; [done|]. split; [done|]. split; [done|]. by intros [] s _.
Qed.

Definition drawn_serials (e : event) : gset string :=
  match e with
  | EvJoin _ _ _ _ _ leaf | EvIngressJoin _ _ _ _ _ leaf | EvRenew _ _ leaf | EvIngressRenew _ _ _ leaf => drawn_for leaf
  | _ => ∅
  end.

Lemma answered_db {A} what (r : result id_error A * IDB) : (answered what r).2 = r.2.
Proof. by destruct r as [[a|e] d]. Qed.

Lemma run_event_keeps small_order e d d' :
  zeroTime < i_now d → run_event small_order e d = Some d' → certs_go (drawn_serials e) d d'.
Proof.
  intros Hd. destruct e; cbn [run_event drawn_serials]; try (intros [= <-]).
  - reflexivity.
  - destruct (_ && _); [|done]. intros [= <-]. apply in_tx_keeps; [|done]. unfold bootstrapPodNetwork, InsertPodNetwork. keeping.
  - apply in_tx_keeps; [|done]. unfold IssueJoinToken. keeping. unfold CreateJoinToken. other.
  - unfold join. repeat (case_match; [reflexivity|]). rewrite answered_db. by apply in_tx_keeps; [apply keeps_join_tx|].
  - unfold Join. repeat (case_match; [reflexivity|]). destruct (cs_Check csr); [|reflexivity]. rewrite answered_db.
    by apply in_tx_keeps; [apply keeps_ingress_join_tx|].
  - unfold fork. pose proof (in_tx_keeps ∅ _ d (keeps_fork_tx ∅ node serial peer) Hd) as H. by destruct (in_tx _ d) as [[?|?] ?].
  - unfold OnPresented. destruct (negb _); [reflexivity|]. by apply in_tx_keeps; [apply keeps_present|].
  - unfold renewCertificate. rewrite answered_db. by apply in_tx_keeps; [apply keeps_renew_tx|].
  - unfold RenewCertificate. destruct (_ || _); [reflexivity|]. destruct (cs_Check csr); [|reflexivity]. rewrite answered_db.
    by apply in_tx_keeps; [apply keeps_ingress_renew_tx|].
  - destruct (forallb is_byte key); [|done]. intros [= <-]. unfold joinMesh.
    match goal with |- context [match key with [] => ?a | _ :: _ => ?b end] => set (pre := match key with [] => a | _ :: _ => b end) end.
    destruct pre as [ep|text]; [|reflexivity]. cbv zeta. unfold mesh_errors.
    match goal with |- context [in_tx ?m d] => pose proof (in_tx_keeps ∅ m d ltac:(apply keeps_joinMesh_tx) Hd) as H end.
    by destruct (in_tx _ d) as [[?|[]] ?].
  - destruct (forallb is_byte key); [|done]. intros [= <-]. unfold Hello. repeat (case_match; [reflexivity|]).
    destruct (CheckKey _ _); [|reflexivity]. destruct (CheckEndpoint _); [|reflexivity]. destruct (_ <? _)%nat; [reflexivity|].
    match goal with |- context [in_tx ?m d] => pose proof (in_tx_keeps ∅ m d ltac:(apply keeps_hello_tx) Hd) as Htx end.
    by destruct (in_tx _ d) as [[?|?] ?].
  - by apply in_tx_keeps; [apply keeps_remove|].
  - by apply in_tx_keeps; [apply keeps_remove_ingress|].
  - split; [done|]. split; [done|]. by intros [] s _.
  - split; [done|]. split; [done|]. by intros [] s _.
  - split; [done|]. split; [intros Hk k c [Hc _]%map_lookup_filter_Some; by apply Hk|].
    intros [] s _; [|done]. apply filter_rows.
  - apply in_tx_keeps; [|done]. unfold SetNodeIngressGroupVersion. other.
  - by apply in_tx_keeps; [apply keeps_seen|].
  - unfold set_node_columns. destruct (i_nodes d !! name); [|done]. cbn [mbind option_bind]. case_bool_decide; [|done].
    intros [= <-]. split; [done|]. split; [done|]. by intros [] s _.
Qed.

(** ** The runs *)

(** Every row is under a serial that was drawn, and none of those is empty. *)
Definition rows_drawn (w : world) : Prop :=
  keyed (w_db w) ∧ ""%string ∉ w_serials w ∧ ∀ kind serial, is_Some (cert_row (w_db w) kind serial) → serial ∈ w_serials w.

(** What is drawn is new. *)
Lemma draw_new e w w1 :
  draw e w = Some w1 → w_db w1 = w_db w ∧ w_serials w ⊆ w_serials w1 ∧ drawn_serials e ⊆ w_serials w1 ∖ w_serials w ∧
  (""%string ∉ w_serials w → ""%string ∉ w_serials w1).
Proof.
  destruct e; cbn -[difference]; unfold draw_token, draw_serial; repeat case_match; intros E; simplify_eq; cbn -[difference];
    (split; [done|]); try set_solver.
  all: match goal with H : (_ || _) = false |- _ => apply orb_false_iff in H as [H%bool_decide_eq_false Hne%String.eqb_neq] end; set_solver.
Qed.

Lemma step_goes small_order t e w w' :
  rows_drawn w → step small_order t e w = Some w' →
  rows_drawn w' ∧ (∀ kind serial, serial ∈ w_serials w → row_goes (cert_row (w_db w) kind serial) (cert_row (w_db w') kind serial)) ∧
  w_serials w ⊆ w_serials w'.
Proof.
  intros Hw. unfold step. destruct ((0 <? t) && (t <=? w_clock w)) eqn:Et; [|done]. apply andb_true_iff in Et as [Et _].
  destruct (draw e w) as [w1|] eqn:Ew; [|done]. cbn [mbind option_bind]. destruct (draw_new _ _ _ Ew) as (Edb & Hsub & Hnew & Hempty).
  destruct Hw as (Hk & He & Hw).
  destruct (run_event _ _ _) as [d'|] eqn:Er; [|done]. cbn [mbind option_bind]. intros [= <-]. rewrite Edb in Er.
  apply run_event_keeps in Er as (_ & Hk' & Hgo); [|cbn; unfold zeroTime; lia]. cbn.
  split; [|split; [|done]].
  - split; [by apply Hk'|]. split; [by apply Hempty|].
    intros kind s Hs. cbn. destruct (decide (s ∈ drawn_serials e)) as [Hin|Hni]; [set_solver|]. apply Hsub, (Hw kind).
    specialize (Hgo kind s Hni). change (cert_row _ kind s) with (cert_row (w_db w) kind s) in Hgo at 1. destruct Hs as [[n r] E].
    cbn [w_db] in E. change (w_db _) with d' in E. rewrite E in Hgo. destruct (cert_row (w_db w) kind s); [by eexists|done].
  - intros kind s Hs. apply (Hgo kind s). set_solver.
Qed.

Lemma run_goes small_order es w w' :
  rows_drawn w → run small_order es w = Some w' →
  rows_drawn w' ∧ (∀ kind serial, serial ∈ w_serials w → row_goes (cert_row (w_db w) kind serial) (cert_row (w_db w') kind serial)).
Proof.
  revert w. induction es as [|[t e] es IH]; intros w Hw; cbn; [intros [= <-]; split; [done|]; by intros|].
  destruct (step _ _ _ _) as [w1|] eqn:E; [|done]. cbn. destruct (step_goes _ _ _ _ _ Hw E) as (Hw1 & Hgo & Hsub).
  intros Hr. destruct (IH w1 Hw1 Hr) as [Hw' Hgo']. split; [done|]. intros kind s Hs. etrans; [by apply Hgo|]. apply Hgo'. set_solver.
Qed.

Lemma reachable_drawn small_order w : reachable small_order w → rows_drawn w.
Proof.
  intros (clock & es & Hr). eapply run_goes; [|exact Hr]. split; [by apply map_Forall_empty|]. split; [set_solver|]. intros [] s [x Hx]; cbn in Hx; by rewrite lookup_empty in Hx.
Qed.

(** A certificate whose revocation has begun is refused, and so is one whose
    row is gone. *)
Definition out (o : option (string * Time)) (now : Time) : Prop :=
  match o with Some (_, r) => r ≠ zeroTime ∧ r ≤ now | None => True end.

Lemma out_goes o o' now : row_goes o o' → out o now → out o' now.
Proof. destruct o as [[n r]|], o' as [[n' r']|]; cbn; try done. intros [_ H] [Hz Hr]. destruct (H Hz). split; [done|lia]. Qed.

Lemma out_refused node serial d :
  out (cert_row d JoinKindNode serial) (i_now d) → ∃ e, (checkInTx node serial d).1 = Err e.
Proof.
  intros Ho. unfold checkInTx. rewrite bind_run. unfold CheckNodeCert. cbn in Ho.
  destruct (i_node_certs d !! serial) as [c|]; [|by eexists]. destruct (i_nodes d !! node) as [n|]; [|by eexists].
  destruct (String.eqb _ node); [|by eexists]. cbn in Ho. destruct Ho as [Hz Hr].
  set (cc := MkNodeCertCheck _ _ _ _ _ _). assert (Hrev : Revoked cc = true).
  { unfold Revoked, IsZero. cbn. apply andb_true_iff. split; [by apply negb_true_iff, Z.eqb_neq|]. apply negb_true_iff. lia. }
  destruct (negb (String.eqb (refusalText node cc) "")) eqn:Et; [by eexists|]. unfold supersededPast. rewrite Hrev.
  case_bool_decide as Hs; [by eexists|]. unfold refusalText in Et.
  rewrite Hrev, (bool_decide_eq_false_2 _ Hs) in Et. by repeat case_match.
Qed.

Lemma out_ingress_refused name serial d :
  out (cert_row d JoinKindIngress serial) (i_now d) → ∃ e, (ingress_checkInTx name serial d).1 = Err e.
Proof.
  intros Ho. unfold ingress_checkInTx. rewrite bind_run. unfold CheckIngressCert. cbn in Ho.
  destruct (i_ingress_certs d !! serial) as [c|]; [|by eexists]. destruct (i_ingresses d !! name) as [n|]; [|by eexists].
  destruct (String.eqb _ name); [|by eexists]. cbn in Ho. destruct Ho as [Hz Hr].
  set (cc := MkIngressCertCheck _ _ _ _ _ _). assert (Hrev : ingress_Revoked cc = true).
  { unfold ingress_Revoked, IsZero. cbn. apply andb_true_iff. split; [by apply negb_true_iff, Z.eqb_neq|]. apply negb_true_iff. lia. }
  destruct (negb (String.eqb (ingress_refusalText name serial cc) "")) eqn:Et; [by eexists|].
  unfold ingress_refusalText in Et. rewrite Hrev in Et. repeat case_match; done.
Qed.

(** ** Locking a holder out *)

(** The rows are under their serials, and none has an empty one. *)
Definition sound (d : IDB) : Prop := keyed d ∧ i_node_certs d !! ""%string = None.

Lemma sound_goes drawn d d' : ""%string ∉ drawn → certs_go drawn d d' → sound d → sound d'.
Proof.
  intros Hdr (_ & Hk & Hgo) [Hd He]. split; [auto|]. specialize (Hgo JoinKindNode _ Hdr). cbn in Hgo. rewrite He in Hgo.
  by destruct (i_node_certs d' !! ""%string).
Qed.

Section lock_out.
Context (drawn : gset string) (drawn_serial : ""%string ∉ drawn) (kind : JoinKind) (name : string).

(** A computation that, when it succeeds with an answer of [good], leaves the
    holder no certificate but those drawn for it. *)
Definition closes {A} (good : A → Prop) (m : itx A) : Prop :=
  ∀ d a d', zeroTime < i_now d → sound d → m d = (Ok a, d') → good a →
    ∀ serial r, serial ∉ drawn → cert_row d' kind serial = Some (name, r) → r ≠ zeroTime ∧ r ≤ i_now d.

Lemma closes_first {A B} good (m : itx A) (f : A → itx B) :
  keeps drawn m → closes (λ _, True) m → (∀ a, keeps drawn (f a)) → closes good (m ≫= f).
Proof.
  intros Hk Hm Hf d b d' Hd Hs E Hb s r Hdr Hr. rewrite bind_run in E. specialize (Hk d Hd).
  destruct (m d) as [[a|e] d1] eqn:Em; [|done]. cbn in Hk. destruct Hk as (Hn & _).
  assert (Hd1 : zeroTime < i_now d1) by (by rewrite Hn).
  destruct (Hf a d1 Hd1) as (_ & _ & Hgo). rewrite E in Hgo. cbn in Hgo. specialize (Hgo kind s Hdr). rewrite Hr in Hgo.
  destruct (cert_row d1 kind s) as [[n1 r1]|] eqn:E1; [|done]. destruct Hgo as [En Hle]. rewrite <- En in E1.
  destruct (Hm d a d1 Hd Hs Em I s r1 Hdr E1) as [Hz ?]. destruct (Hle Hz). split; [done|lia].
Qed.

Lemma closes_next {A B} good (m : itx A) (f : A → itx B) :
  keeps drawn m → (∀ a, closes good (f a)) → closes good (m ≫= f).
Proof.
  intros Hm Hf d b d' Hd Hs E Hb s r Hdr Hr. rewrite bind_run in E. specialize (Hm d Hd).
  destruct (m d) as [[a|e] d1] eqn:Em; [|done]. pose proof (sound_goes _ _ _ drawn_serial Hm Hs) as Hs1.
  destruct Hm as (Hn & _). cbn in Hn, Hs1. rewrite <- Hn.
  assert (Hd1 : zeroTime < i_now d1) by (by rewrite Hn). exact (Hf a d1 b d' Hd1 Hs1 E Hb s r Hdr Hr).
Qed.

Lemma closes_if {A} good (b : bool) (m m' : itx A) : closes good m → closes good m' → closes good (if b then m else m').
Proof. by destruct b. Qed.

Lemma closes_fail {A} good (e : id_error) : closes (A := A) good (ifail e).
Proof. by intros d a d'. Qed.
End lock_out.

Lemma revoked_after now r : zeroTime < now → let r' := if not_in_effect now r then now else r in r' ≠ zeroTime ∧ r' ≤ now.
Proof.
  unfold not_in_effect, IsZero. destruct (Z.eqb_spec r zeroTime) as [|Hz]; cbn; intros ?; [split; lia|].
  destruct (Z.ltb_spec now r); split; lia.
Qed.

Lemma closes_revoke drawn name reason good : closes drawn JoinKindNode name good (RevokeNodeCerts name reason "").
Proof.
  intros d a d' Hd [Hk He] E _ s r _ Hr. injection E as _ <-. cbn in Hr. unfold update_where in Hr. rewrite lookup_fmap in Hr.
  destruct (i_node_certs d !! s) as [c|] eqn:Ec; [|done]. cbn in Hr. pose proof (Hk s c Ec) as Es. cbn in Es.
  assert (Hne : String.eqb (nc_Serial c) "" = false) by (apply String.eqb_neq; intros E; congruence).
  rewrite Hne, andb_true_r in Hr. pose proof (revoked_after (i_now d) (nc_RevokedAt c) Hd) as Hra.
  destruct (String.eqb_spec (nc_Node c) name) as [En|En]; cbn [andb] in Hr.
  - destruct (not_in_effect _ _); injection Hr as _ <-; exact Hra.
  - injection Hr as ? _. congruence.
Qed.

Lemma closes_revoke_ingress drawn name reason good : closes drawn JoinKindIngress name good (RevokeIngressCerts name reason).
Proof.
  intros d a d' Hd _ E _ s r _ Hr. unfold RevokeIngressCerts in E. cbv zeta in E.
  assert (Ei : i_ingress_certs d' = update_where (λ c, String.eqb (ic_Ingress c) name && not_in_effect (i_now d) (ic_RevokedAt c))
    (λ c, c <| ic_RevokedAt := i_now d |> <| ic_RevokedReason := reason |>) (i_ingress_certs d)).
  { rewrite bind_run in E. destruct (0 <? _) in E; injection E as _ <-; done. }
  cbn in Hr. rewrite Ei in Hr. unfold update_where in Hr. rewrite lookup_fmap in Hr.
  destruct (i_ingress_certs d !! s) as [c|] eqn:Ec; [|done]. cbn in Hr.
  pose proof (revoked_after (i_now d) (ic_RevokedAt c) Hd) as Hra.
  destruct (String.eqb_spec (ic_Ingress c) name) as [En|En]; cbn [andb] in Hr.
  - destruct (not_in_effect _ _); injection Hr as _ <-; exact Hra.
  - injection Hr as ? _. congruence.
Qed.

(** Goes to the revocation, and past it. *)
Ltac closing :=
  repeat first
    [ apply closes_fail
    | apply closes_first; [keeping|solve [apply closes_revoke | apply closes_revoke_ingress]|intros ?; keeping]
    | apply closes_next; [done|keeping|intros ?]
    | apply closes_if ].

Lemma closes_rejoin drawn name good : ""%string ∉ drawn → closes drawn JoinKindNode name good (RejoinNode name).
Proof. intros Hd. unfold RejoinNode. closing. Qed.
Lemma closes_remove drawn name good : ""%string ∉ drawn → closes drawn JoinKindNode name good (RemoveNode name).
Proof. intros Hd. unfold RemoveNode. closing. Qed.
Lemma closes_fork drawn name text good : ""%string ∉ drawn → closes drawn JoinKindNode name good (ForkNode name text).
Proof. intros Hd. unfold ForkNode. closing. Qed.
Lemma closes_rejoin_ingress drawn name good : ""%string ∉ drawn → closes drawn JoinKindIngress name good (RejoinIngress name).
Proof. intros Hd. unfold RejoinIngress. closing. Qed.
Lemma closes_remove_ingress drawn name :
  ""%string ∉ drawn → closes drawn JoinKindIngress name (λ removed, removed = true) (RemoveIngress name).
Proof.
  intros Hd. unfold RemoveIngress. apply closes_next; [done|keeping|]. intros [g|]; [closing|]. by intros d a d' _ _ [= <- _].
Qed.

(** A join with an unused token pinned to a name. *)
Lemma join_closes hash sent peer csr leaf d t a d' :
  zeroTime < i_now d → sound d → ""%string ∉ drawn_for leaf →
  i_join_tokens d !! hash = Some t → Used t = false → jt_NodeName t ≠ ""%string → join_tx hash sent peer csr leaf d = (Ok a, d') →
  ∀ serial r, serial ∉ drawn_for leaf → cert_row d' JoinKindNode serial = Some (jt_NodeName t, r) → r ≠ zeroTime ∧ r ≤ i_now d.
Proof.
  intros Hd Hs Hdr Ht Hu Hn. apply String.eqb_neq in Hn. unfold join_tx. rewrite bind_run.
  unfold no_row_is, LockJoinToken, row. rewrite Ht. intros E.
  eapply (closes_if _ _ _ (λ _, True)); [apply closes_fail| |done|done|exact E|done].
  apply closes_next; [done|keeping|intros key]. apply closes_next; [done|keeping|intros now]. rewrite Hu, Hn. cbn [negb].
  apply closes_if; [apply closes_fail|]. apply closes_first; [keeping| |intros [name kind]; keeping].
  apply closes_first; [keeping|by apply closes_rejoin|keeping].
Qed.

Lemma ingress_join_closes hash sent keyHash peer leaf d t a d' :
  zeroTime < i_now d → sound d → ""%string ∉ drawn_for leaf →
  i_join_tokens d !! hash = Some t → Used t = false → jt_NodeName t ≠ ""%string →
  ingress_join_tx hash sent keyHash peer leaf d = (Ok a, d') →
  ∀ serial r, serial ∉ drawn_for leaf → cert_row d' JoinKindIngress serial = Some (jt_NodeName t, r) → r ≠ zeroTime ∧ r ≤ i_now d.
Proof.
  intros Hd Hs Hdr Ht Hu Hn. apply String.eqb_neq in Hn. unfold ingress_join_tx. rewrite bind_run.
  unfold no_row_is, LockJoinToken, row. rewrite Ht. intros E.
  eapply (closes_if _ _ _ (λ _, True)); [apply closes_fail| |done|done|exact E|done].
  apply closes_next; [done|keeping|intros now]. rewrite Hu, Hn. cbn [negb].
  apply closes_if; [apply closes_fail|]. apply closes_first; [keeping| |intros [name kind]; keeping].
  apply closes_first; [keeping|by apply closes_rejoin_ingress|keeping].
Qed.

(** The events that lock a holder out: its removal, its join again with a token
    pinned to its name, and, of a node, its fork, which a superseded
    certificate past its grace causes. *)
Inductive locks_out (d : IDB) : JoinKind → string → event → Prop :=
| lo_remove name : is_Some (i_nodes d !! name) → locks_out d JoinKindNode name (EvRemoveNode name)
| lo_rejoin peer token sent csr leaf t serial :
    i_join_tokens d !! HashJoinSecret token = Some t → Used t = false → jt_NodeName t ≠ ""%string →
    (join peer token sent true csr leaf d).1 = Ok (jt_NodeName t, serial) →
    locks_out d JoinKindNode (jt_NodeName t) (EvJoin peer token sent true csr leaf)
| lo_fork name serial peer c :
    (CheckNodeCert name serial d).1 = Ok c → refusalText name c = ""%string → supersededPast c = true →
    locks_out d JoinKindNode name (EvFork name serial peer)
| lo_remove_ingress name : (in_tx (RemoveIngress name) d).1 = Ok true → locks_out d JoinKindIngress name (EvRemoveIngress name)
| lo_rejoin_ingress peer token sent csr leaf t serial :
    i_join_tokens d !! HashJoinSecret token = Some t → Used t = false → jt_NodeName t ≠ ""%string →
    (Join peer token sent true csr leaf d).1 = Ok (jt_NodeName t, serial) →
    locks_out d JoinKindIngress (jt_NodeName t) (EvIngressJoin peer token sent true csr leaf).

Lemma in_tx_ok {A} (m : itx A) d a : (in_tx m d).1 = Ok a → m d = (Ok a, (in_tx m d).2).
Proof. unfold in_tx. destruct (m d) as [[b|e] d']; [|done]. cbn. by intros [= ->]. Qed.

Lemma answered_ok {A} what (r : result id_error A * IDB) a : (answered what r).1 = Ok a → r.1 = Ok a.
Proof. destruct r as [[b|e] d']; cbn; [by intros [= ->]|done]. Qed.

Lemma RemoveNode_ok name d : is_Some (i_nodes d !! name) → ∃ n, (in_tx (RemoveNode name) d).1 = Ok n.
Proof.
  intros [n Hn]. destruct (RemoveNode_run name d n Hn) as (d' & E & _). unfold in_tx. rewrite E. by eexists.
Qed.

Lemma CheckNodeCert_run node serial d : CheckNodeCert node serial d = ((CheckNodeCert node serial d).1, d).
Proof. unfold CheckNodeCert. by repeat case_match. Qed.

Lemma fork_tx_run name serial peer d c :
  (CheckNodeCert name serial d).1 = Ok c → refusalText name c = ""%string → supersededPast c = true →
  ∃ text d', ForkNode name text d = (Ok tt, d') ∧ fork_tx name serial peer d = (Ok (RefusedFor (forkedText name)), d').
Proof.
  intros Hc Htext Hpast. assert (Hn : is_Some (i_nodes d !! name)).
  { unfold CheckNodeCert in Hc. destruct (i_node_certs d !! serial), (i_nodes d !! name); try done; by injection Hc as <-. }
  destruct Hn as [n Hn]. pose proof (CheckNodeCert_run name serial d) as Er. rewrite Hc in Er.
  eexists _, _. split; cycle 1.
  - unfold fork_tx. rewrite bind_run. unfold LockNode at 1, row. rewrite Hn. rewrite bind_run, Er. rewrite Htext, Hpast.
    cbn [negb String.eqb]. rewrite bind_run. unfold ForkNode, LockNode, row. rewrite bind_run, Hn. reflexivity.
  - unfold ForkNode, LockNode, row. rewrite bind_run, Hn. reflexivity.
Qed.

(** What the event leaves the holder. *)
Lemma locks_out_rows small_order kind name e d d' :
  zeroTime < i_now d → sound d → ""%string ∉ drawn_serials e → locks_out d kind name e → run_event small_order e d = Some d' →
  ∀ serial r, serial ∉ drawn_serials e → cert_row d' kind serial = Some (name, r) → r ≠ zeroTime ∧ r ≤ i_now d.
Proof.
  intros Hd Hs Hdr Hl. destruct Hl as [name Hn|peer token sent csr leaf t serial Ht Hu Hp E|name serial peer c Hc Htext Hpast|name E|
    peer token sent csr leaf t serial Ht Hu Hp E]; cbn [run_event drawn_serials] in *; intros [= <-].
  - destruct (RemoveNode_ok name d Hn) as [n E%in_tx_ok]. by apply (closes_remove ∅ name (λ _, True) Hdr d n).
  - unfold join in *. repeat (case_match; [done|]). apply answered_ok, in_tx_ok in E. rewrite answered_db.
    by eapply join_closes.
  - destruct (fork_tx_run name serial peer d c Hc Htext Hpast) as (text & d' & Ef & E). unfold fork, in_tx. rewrite E. cbn [snd].
    by apply (closes_fork ∅ name text (λ _, True) Hdr d tt).
  - apply in_tx_ok in E. by apply (closes_remove_ingress ∅ name Hdr d true).
  - unfold Join in *. repeat (case_match; [done|]). destruct (cs_Check csr); [|done]. apply answered_ok, in_tx_ok in E. rewrite answered_db.
    by eapply ingress_join_closes.
Qed.

(** ** The calls of a certificate *)

(** No call of the node with this certificate succeeds, and no connection. *)
Definition node_refused (small_order : list Z → bool) (p : Caller) (d : IDB) : Prop :=
  (∀ csr leaf, ∃ e, (renewCertificate p csr leaf d).1 = Err e) ∧
  (∀ ula key endpoint, ∃ e, (joinMesh small_order p ula key endpoint d).1 = Err e) ∧
  ∀ atAccept until, (CheckNode (cl_Name p) (cl_Serial p) (cl_Addr p) atAccept d d).1 ≠ Allowed until.

Definition ingress_refused (small_order : list Z → bool) (p : Caller) (d : IDB) : Prop :=
  (∀ csr early leaf, ∃ e, (RenewCertificate p csr early leaf d).1 = Err e) ∧
  (∀ ula key endpoint version grace, ∃ e, (Hello small_order p ula key endpoint version grace d).1 = Err e) ∧
  ∀ until, CheckIngress (cl_Name p) (cl_Serial p) d ≠ Allowed until.

Lemma bind_err {A B} (m : itx A) (f : A → itx B) d : (∃ e, (m d).1 = Err e) → ∃ e, ((m ≫= f) d).1 = Err e.
Proof. intros [e E]. rewrite bind_run. destruct (m d) as [[a|e'] d']; [done|by eexists]. Qed.

Lemma in_tx_err {A} (m : itx A) d : (∃ e, (m d).1 = Err e) → ∃ e, (in_tx m d).1 = Err e.
Proof. intros [e E]. unfold in_tx. destruct (m d) as [[a|e'] d']; [done|by eexists]. Qed.

Lemma answered_err {A} what (r : result id_error A * IDB) : (∃ e, r.1 = Err e) → ∃ e, (answered what r).1 = Err e.
Proof. intros [e E]. destruct r as [[b|e'] d']; [done|]. by eexists. Qed.

Lemma lock_then_err {A B} (lock : itx A) (f : A → itx B) d :
  (lock d).2 = d → (∀ a, ∃ e, (f a d).1 = Err e) → ∃ e, ((lock ≫= f) d).1 = Err e.
Proof. intros E Hf. rewrite bind_run. destruct (lock d) as [[a|e'] d'] eqn:El; cbn in E; subst d'; [apply Hf|by eexists]. Qed.

Lemma lock_node_same name e d : (no_row_is (LockNode name) e d).2 = d.
Proof. unfold no_row_is, LockNode, row. by destruct (_ !! _). Qed.

Lemma lock_ingress_same name e d : (no_row_is (LockIngress name) e d).2 = d.
Proof. unfold no_row_is, LockIngress, row. by destruct (_ !! _). Qed.

Lemma CheckNode_out node serial peer atAccept until d :
  out (cert_row d JoinKindNode serial) (i_now d) → (CheckNode node serial peer atAccept d d).1 ≠ Allowed until.
Proof.
  intros Ho. destruct (out_refused node serial d Ho) as [e He]. unfold checkInTx in He. rewrite bind_run, CheckNodeCert_run in He.
  unfold CheckNode. destruct (CheckNodeCert node serial d).1 as [c|] eqn:Ec; [|done].
  destruct (String.eqb (refusalText node c) "") eqn:Et; [|done]. cbn [negb] in *. destruct (supersededPast c) eqn:Ep; [|done].
  destruct (negb atAccept); [done|]. unfold fork. apply String.eqb_eq in Et.
  destruct (fork_tx_run node serial peer d c Ec Et Ep) as (text & d' & _ & E). unfold in_tx. by rewrite E.
Qed.

Lemma out_node_refused small_order p d :
  out (cert_row d JoinKindNode (cl_Serial p)) (i_now d) → node_refused small_order p d.
Proof.
  intros Ho. pose proof (out_refused (cl_Name p) (cl_Serial p) d Ho) as Hc. split; [|split].
  - intros csr leaf. apply answered_err, in_tx_err, lock_then_err; [apply lock_node_same|]. intros _. by apply bind_err.
  - intros ula key endpoint. unfold joinMesh.
    match goal with |- context [match key with [] => ?a | _ :: _ => ?b end] => set (pre := match key with [] => a | _ :: _ => b end) end.
    destruct pre as [ep|text]; [|by eexists]. cbv zeta.
    assert (Hj : ∃ e, (in_tx (joinMesh_tx p ula (IsValid ula && negb (bool_decide (key = []))) key ep) d).1 = Err e).
    { apply in_tx_err, lock_then_err; [apply lock_node_same|]. intros n. by apply bind_err. }
    destruct Hj as [e Ej]. destruct (in_tx _ d) as [[j|e'] d']; [done|]. destruct e'; by eexists.
  - intros. by apply CheckNode_out.
Qed.

Lemma out_ingress_calls small_order p d :
  out (cert_row d JoinKindIngress (cl_Serial p)) (i_now d) → ingress_refused small_order p d.
Proof.
  intros Ho. pose proof (out_ingress_refused (cl_Name p) (cl_Serial p) d Ho) as Hc. split; [|split].
  - intros csr early leaf. unfold RenewCertificate. destruct (_ || _); [by eexists|]. destruct (cs_Check csr); [|by eexists].
    apply answered_err, in_tx_err, lock_then_err; [apply lock_ingress_same|]. intros g. by apply bind_err.
  - intros ula key endpoint version grace. unfold Hello. repeat (case_match; [by eexists|]). destruct (CheckKey _ _); [|by eexists].
    destruct (CheckEndpoint endpoint) as [ep|]; [|by eexists]. destruct (_ <? _)%nat; [by eexists|].
    assert (Hh : ∃ e, (in_tx (hello_tx p ula key ep version grace) d).1 = Err e).
    { apply in_tx_err, lock_then_err; [apply lock_ingress_same|]. intros g. case_bool_decide; [by eexists|]. by apply bind_err. }
    destruct Hh as [e Eh]. destruct (in_tx _ d) as [[j|e'] d']; [done|]. by eexists.
  - intros u. unfold CheckIngress. destruct Hc as [e He]. unfold ingress_checkInTx in He. rewrite bind_run in He.
    destruct (CheckIngressCert _ _ d) as [[c|e'] d']; [|done]. cbn [fst]. by destruct (negb _).
Qed.

(** C7: A holder is locked out for good: after its removal, its join again
    with a token pinned to its name, or its fork, in a transaction that began
    at t, every certificate it had is refused, whatever happens later, in
    every transaction that begins at t or after: it renews nothing, takes no
    seat on the mesh, and no connection with it is allowed. *)
Theorem locked_out_for_good small_order kind t e w w1 es w' p r now :
  reachable small_order w → locks_out ((w_db w) <| i_now := t |>) kind (cl_Name p) e → step small_order t e w = Some w1 →
  cert_row (w_db w) kind (cl_Serial p) = Some (cl_Name p, r) → run small_order es w1 = Some w' → t ≤ now →
  match kind with
  | JoinKindNode => node_refused small_order p ((w_db w') <| i_now := now |>)
  | JoinKindIngress => ingress_refused small_order p ((w_db w') <| i_now := now |>)
  end.
Proof.
  intros Hw%reachable_drawn Hl Hstep Hrow Hrun Hnow. destruct (step_goes _ _ _ _ _ Hw Hstep) as (Hw1 & Hgo & Hsub).
  pose proof Hw as (Hk & Hne & Hd). assert (Hs : cl_Serial p ∈ w_serials w) by (apply (Hd kind); by eexists).
  assert (Hout : out (cert_row (w_db w1) kind (cl_Serial p)) t).
  { specialize (Hgo kind _ Hs). rewrite Hrow in Hgo. destruct (cert_row (w_db w1) kind (cl_Serial p)) as [[n1 r1]|] eqn:E1; [|done].
    destruct Hgo as [En _]. subst n1. unfold step in Hstep. destruct ((0 <? t) && (t <=? w_clock w)) eqn:Et; [|done].
    apply andb_true_iff in Et as [Et _]. destruct (draw e w) as [w0|] eqn:Ew; [|done]. cbn [mbind option_bind] in Hstep.
    destruct (draw_new _ _ _ Ew) as (Edb & Hsub0 & Hnew & Hempty). rewrite Edb in Hstep.
    destruct (run_event _ _ _) as [d'|] eqn:Er; [|done]. injection Hstep as <-. cbn in E1.
    assert (Hsound : sound ((w_db w) <| i_now := t |>)).
    { split; [done|]. destruct (i_node_certs (w_db w) !! ""%string) eqn:E; [|done]. destruct Hne. apply (Hd JoinKindNode). cbn. rewrite E. by eexists. }
    specialize (Hempty Hne). assert (Hnow0 : zeroTime < i_now ((w_db w) <| i_now := t |>)) by (cbn; unfold zeroTime; lia).
    eapply (locks_out_rows small_order kind (cl_Name p) e _ d' Hnow0 Hsound ltac:(set_solver) Hl Er); [|exact E1]. set_solver. }
  destruct (run_goes _ _ _ _ Hw1 Hrun) as [_ Hgo']. specialize (Hgo' kind _ (Hsub _ Hs)).
  assert (Hout' : out (cert_row ((w_db w') <| i_now := now |>) kind (cl_Serial p)) now).
  { pose proof (out_goes _ _ _ Hgo' Hout) as Ho. change (cert_row (_ <| i_now := now |>) kind) with (cert_row (w_db w') kind).
    destruct (cert_row (w_db w') kind (cl_Serial p)) as [[n2 r2]|]; [|done]. cbn in *. split; [apply Ho|lia]. }
  destruct kind; [by apply out_node_refused|by apply out_ingress_calls].
Qed.

(** C40: A revocation does not bind a transaction that began before it: [now()]
    is the time the transaction began, and the checks compare the revocation
    with it.  A renewal that waited for the node's row while a join again
    revoked its certificate passes, and issues a certificate that nothing
    revoked. *)
Theorem renewal_outlives_revocation p csr key l n c d :
  i_nodes d !! cl_Name p = Some n → n_Status n ≠ NodeRemoved → n_IdentityForkedAt n = zeroTime →
  i_node_certs d !! cl_Serial p = Some c → nc_Node c = cl_Name p → i_now d < nc_RevokedAt c →
  cs_Check csr = Ok key → i_node_certs d !! lf_Serial l = None →
  (renewCertificate p csr (Ok l) d).1 = Ok (lf_Serial l) ∧
  cert_row (renewCertificate p csr (Ok l) d).2 JoinKindNode (lf_Serial l) = Some (cl_Name p, zeroTime).
Proof.
  intros Hn Hst Hf Hc Ho Hr Hk Hl. set (cc := MkNodeCertCheck true (nc_RevokedAt c) (nc_RevokedReason c) (n_Status n) (n_IdentityForkedAt n) (i_now d)).
  assert (Hcheck : CheckNodeCert (cl_Name p) (cl_Serial p) d = (Ok cc, d)).
  { unfold CheckNodeCert. rewrite Hc, Hn, Ho, String.eqb_refl. done. }
  assert (Hrev : Revoked cc = false).
  { unfold Revoked. cbn. apply Z.ltb_lt in Hr. by rewrite Hr, andb_false_r. }
  assert (Htx : checkInTx (cl_Name p) (cl_Serial p) d = (Ok tt, d)).
  { unfold checkInTx. rewrite bind_run, Hcheck. assert (Et : refusalText (cl_Name p) cc = ""%string).
    { unfold refusalText. cbn [cc_Found negb]. rewrite Hrev. cbn. rewrite bool_decide_eq_false_2 by done. by rewrite Hf. }
    rewrite Et. unfold supersededPast. by rewrite Hrev. }
  unfold renewCertificate, in_tx, renew_tx. rewrite bind_run. unfold no_row_is, LockNode, row. rewrite Hn. rewrite bind_run, Htx.
  rewrite bind_run, Hk. cbn [of_result]. rewrite ret_run. cbv beta iota. rewrite bind_run, ret_run. cbv beta iota.
  set (c' := (node_cert l (cl_Name p) CertRenew key (cl_Serial p) uuidNil (cl_Addr p)) <| nc_IssuedAt := i_now d |>).
  assert (Hins : InsertNodeCert (node_cert l (cl_Name p) CertRenew key (cl_Serial p) uuidNil (cl_Addr p)) d =
    (Ok c', d <| i_node_certs ::= <[lf_Serial l := c']> |>)).
  { unfold InsertNodeCert. cbv zeta. match goal with |- context [i_node_certs d !! ?k] => change k with (lf_Serial l) end. by rewrite Hl. }
  rewrite bind_run, Hins. split; [reflexivity|].
  transitivity ((λ c, (nc_Node c, nc_RevokedAt c)) <$> <[lf_Serial l := c']> (i_node_certs d) !! lf_Serial l); [reflexivity|].
  by rewrite lookup_insert_eq.
Qed.

(** ** Examples *)

(** The node n1 is removed, and joins again with a token pinned to its name. *)
Definition ex_rejoin_events : list (Time * event) :=
  [(100, EvIssueToken JoinKindNode "op" "n1" 0 9%N (HashJoinSecret ex_token2));
   (100, EvJoin "192.0.2.1:1" ex_token2 "n1" true (ex_csr "k3") (ex_leaf "c1"))].

Definition ex_removed_world : world :=
  Eval vm_compute in default (start 0) (run ex_order [(100, EvRemoveNode "n1")] ex_node_world).

Definition ex_rejoined_world : world := Eval vm_compute in default (start 0) (run ex_order ex_rejoin_events ex_removed_world).

Lemma ex_node_reachable : reachable ex_order ex_node_world.
Proof. exists 100, ex_node_events. vm_compute. reflexivity. Qed.

Lemma locked_out_for_good_witness :
  run ex_order ex_rejoin_events ex_removed_world = Some ex_rejoined_world ∧
  node_refused ex_order (MkCaller "n1" "a1" "192.0.2.1:1") ((w_db ex_rejoined_world) <| i_now := 100 |>).
Proof.
  split; [vm_compute; reflexivity|].
  apply (locked_out_for_good ex_order JoinKindNode 100 (EvRemoveNode "n1") ex_node_world ex_removed_world ex_rejoin_events
    ex_rejoined_world (MkCaller "n1" "a1" "192.0.2.1:1") 0 100 ex_node_reachable).
  - apply lo_remove. vm_compute. by eexists.
  - vm_compute. reflexivity.
  - vm_compute. reflexivity.
  - vm_compute. reflexivity.
  - lia.
Defined.

(** n1 joins again at 120; a renewal with its old certificate began at 119. *)
Definition ex_race_events : list (Time * event) :=
  ex_node_events ++
  [(100, EvIssueToken JoinKindNode "op" "n1" 0 9%N (HashJoinSecret ex_token2)); (100, EvTick 20);
   (120, EvJoin "192.0.2.1:1" ex_token2 "n1" true (ex_csr "k3") (ex_leaf "b1"))].

Definition ex_race_world : world := Eval vm_compute in default (start 0) (run ex_order ex_race_events (start 100)).

Lemma renewal_outlives_revocation_witness :
  reachable ex_order ex_race_world ∧ cert_row (w_db ex_race_world) JoinKindNode "a1" = Some ("n1"%string, 120) ∧
  (renewCertificate (MkCaller "n1" "a1" "192.0.2.9:1") (ex_csr "k4") (ex_leaf "d1") ((w_db ex_race_world) <| i_now := 119 |>)).1 =
    Ok "d1"%string.
Proof.
  split; [exists 100, ex_race_events; vm_compute; reflexivity|]. split; [vm_compute; reflexivity|].
  refine (proj1 (renewal_outlives_revocation (MkCaller "n1" "a1" "192.0.2.9:1") (ex_csr "k4") "k4" (MkLeaf "d1" 100 1000000000000000)
    _ _ ((w_db ex_race_world) <| i_now := 119 |>) _ _ _ _ _ _ _ _)); try (vm_compute; reflexivity).
  vm_compute. discriminate.
Defined.
