(* ===== verification/AgentMesh.v ===== *)
(** * The ingress's WireGuard device (ingress/agent, ingress/table)

    What an ingress makes of the mesh's peers: the nodes of its table
    ([BuildMesh]), as peers of its WireGuard device ([wgPeers]); and the agent
    that configures the device, keeps its peers and moves it to another port
    when nodes no longer answer.  The agent's mutexes are kept: [meshMu] is
    held from the begin of a section to its end, and what only takes [mu] may
    happen in between.  The device is an interface, [MeshDevice]; the kernel's,
    driven by the messages of [Wg], is an instance of it. *)

From S2P Require Import Prelude Text Json Wire Mesh Wg WgSync NetText.

(** ** The table's mesh (ingress/table/build.go) *)

(** [BuildMesh]. *)
Definition BuildMesh (peers : Peers) : Wire.Mesh :=
  MkMesh (ps_Version peers)
    (Some (omap (λ name,
       if IsIngressPeer name then None
       else (λ p, Wire.MkPeer name (Some (bytes_str (pe_PublicKey p))) (pe_Endpoint p) (pe_PodPrefix p)) <$>
            ps_Nodes peers !! name)
     (sort_by String.leb (map_to_list (ps_Nodes peers)).*1))).

(** ** The device's peers (ingress/agent/mesh.go) *)

Definition minMTU : Z := 1280.
Definition maxMTU : Z := 1420.
Definition wireGuardOverhead : Z := 80.
Definition peerKeepalive : Duration := 25 * Second.
Definition meshStale : Duration := 180 * Second.
Definition meshRepairEvery : Duration := 60 * Second.
Definition meshPorts : Z := 16.

Definition ComputeMTU (ifMTU : Z) : Z := Z.min maxMTU (Z.max minMTU (ifMTU - wireGuardOverhead)).

(** Why a node is left out. *)
Inductive problem : Type :=
| KeyBytes (node : string) (n : nat) | KeyTwice (node : string) (k : Key)
| BadEndpoint (node endpoint : string) | BadPrefix (node prefix : string).

Definition key_of (p : Wire.Peer) : Key := from_option str_bytes [] (Wire.wp_PublicKey p).

(** [wgPeers]. *)
Fixpoint wg_loop (seen : gset Key) (ps : list Wire.Peer) : list WgPeer * list problem :=
  match ps with
  | [] => ([], [])
  | p :: ps' =>
      let name := wp_Name p in
      let k := key_of p in
      let skip x := let '(peers, problems) := wg_loop seen ps' in (peers, x :: problems) in
      if negb (length k =? KeyLen)%nat then skip (KeyBytes name (length k))
      else if bool_decide (k ∈ seen) then skip (KeyTwice name k)
      else
        match (if String.eqb (Wire.wp_Endpoint p) "" then Some noAddrPort else ParseAddrPort (Wire.wp_Endpoint p)) with
        | None => skip (BadEndpoint name (Wire.wp_Endpoint p))
        | Some ep =>
            match ParsePrefix (wp_Prefix p) with
            | None => skip (BadPrefix name (wp_Prefix p))
            | Some pfx =>
                let '(peers, problems) := wg_loop ({[k]} ∪ seen) ps' in
                (MkWgPeer k ep [Masked pfx] peerKeepalive :: peers, problems)
            end
        end
  end.

Definition wgPeers (m : Wire.Mesh) : list WgPeer * list problem := wg_loop ∅ (default [] (wm_Peers m)).

(** ** The device *)

Record MeshConfig := MkMeshConfig {
  mc_Device : string;
  mc_PrivateKey : Key;
  mc_ListenPort : Z;
  mc_MTU : Z;
  mc_Endpoint : AddrPort;
  mc_Address : Prefix;
  mc_PodNetwork : Prefix
}.

#[export] Instance eta_MeshConfig : Eta MeshConfig := λ c,
  MkMeshConfig (mc_Device c) (mc_PrivateKey c) (mc_ListenPort c) (mc_MTU c) (mc_Endpoint c) (mc_Address c) (mc_PodNetwork c).

#[export] Instance MeshConfig_eq_dec : EqDecision MeshConfig.
Proof. solve_decision. Defined.

Definition noMeshConfig : MeshConfig :=
  MkMeshConfig "" [] 0 0 noAddrPort (MkPrefix NoAddr 0) (MkPrefix NoAddr 0).

(** Peers that can be set together on a device with the public key [own]. *)
Definition settable (own : Key) (ps : list WgPeer) : Prop :=
  NoDup (wp_PublicKey <$> ps) ∧ Forall wf_peer ps ∧
  Forall (λ p, valid_addr (ap_Addr (wp_Endpoint p)) = true → numbered_zone (wp_Endpoint p)) ps ∧
  (∀ p q, p ∈ ps → q ∈ ps → p ≠ q → disjoint_ips p q) ∧ own ∉ wp_PublicKey <$> ps.

(** The device's peers are [ps]. *)
Definition has_peers (have : gmap Key WgPeer) (ps : list WgPeer) : Prop :=
  (∀ k, is_Some (have !! k) ↔ k ∈ wp_PublicKey <$> ps) ∧
  (∀ p, p ∈ ps → ∃ q, have !! wp_PublicKey p = Some q ∧ samePeer q p = true).

(** [MeshDevice]: a call says whether it succeeded; what a failed one leaves is
    open. *)
Class MeshDevice := {
  dev : Type;
  dev_own : Key;
  dev_peers : dev → gmap Key WgPeer;
  Configure : MeshConfig → dev → bool * dev;
  dev_SetPeers : list WgPeer → dev → bool * dev;
  dev_SetPeers_ok ps d d' : settable dev_own ps → dev_SetPeers ps d = (true, d') → has_peers (dev_peers d') ps
}.

(** [KernelMesh.SetPeers] over the messages of [Wg]: it reads the device's
    peers, whose parser refuses keys of another length, and delivers the
    messages; the configuration of the kernel's device is an argument. *)
Section kernel.
Context (little : bool) `{W : WireGuard} (family : Z) (name : string) (configure : MeshConfig → wg_state → bool * wg_state).
Hypothesis Hfamily : 0 ≤ family < 65536.

Definition kernel_SetPeers (ps : list WgPeer) (s : wg_state) : bool * wg_state :=
  if negb (bool_decide (Forall (λ p, length (wp_PublicKey (st_Peer p)) = KeyLen) (wg_dump s))) then (false, s) else
  match SetPeers little family name (wg_dump s) ps with
  | Err _ => (false, s)
  | Ok msgs => match deliver little s msgs with Ok s' => (true, s') | Err _ => (false, s) end
  end.

Lemma kernel_SetPeers_ok ps s s' :
  settable wg_own ps → kernel_SetPeers ps s = (true, s') → has_peers (wg_peers s') ps.
Proof.
  intros (Hnd & Hwf & Hz & Hd & Ho). unfold kernel_SetPeers. case_bool_decide as Hk; [|done]. cbn [negb].
  destruct (SetPeers _ _ _ _ _) as [msgs|] eqn:E; [|done].
  destruct (set_peers_run little s ps family name msgs Hfamily Hk Hwf Hz Hd Ho E) as (_ & s1 & -> & Hdom & Hsame & _).
  intros [= <-]. by split.
Qed.

Definition kernel_mesh : MeshDevice :=
  {| dev := wg_state; dev_own := wg_own; dev_peers := wg_peers; Configure := configure; dev_SetPeers := kernel_SetPeers;
     dev_SetPeers_ok := kernel_SetPeers_ok |}.
End kernel.

(** ** The agent *)

Record agent_config := MkAgentConfig {
  ac_MeshDevice : string;
  ac_MeshPort : Z;
  ac_MeshMTU : Z;
  ac_MeshEndpoint : string;
  ac_endpoint : AddrPort;
  ac_MeshRepairEvery : Duration
}.

Record agent := MkAgent {
  a_wgKey : Key;
  a_meshWant : MeshConfig;
  a_meshCfg : MeshConfig;
  a_meshOK : bool;
  a_peersSet : bool;
  a_peersVer : Z;
  a_meshPort : Z;
  a_meshSince : gmap Key Time;
  a_lastRepair : Time;
  a_repairs : Z;
  a_state : option State
}.

#[export] Instance eta_agent : Eta agent := λ a,
  MkAgent (a_wgKey a) (a_meshWant a) (a_meshCfg a) (a_meshOK a) (a_peersSet a) (a_peersVer a) (a_meshPort a) (a_meshSince a)
    (a_lastRepair a) (a_repairs a) (a_state a).

(** What holds [meshMu], with what it read under [mu]. *)
Inductive section : Type :=
| Ensuring (want : MeshConfig)
| Syncing (m : Wire.Mesh)
| Repairing (now : Time) (cfg : MeshConfig) (m : Wire.Mesh) (lost : list WgPeer).

(** The agent, its device, and the section that holds [meshMu]. *)
Record mesh_agent (D : Type) := MkMeshAgent { ma_agent : agent; ma_dev : D; ma_held : option section }.

Arguments MkMeshAgent {D} _ _ _.
Arguments ma_agent {D} _.
Arguments ma_dev {D} _.
Arguments ma_held {D} _.

Section agent.
Context (cfg : agent_config).

(** [portMoves]. *)
Definition portMoves : bool :=
  (ap_Port (ac_endpoint cfg) =? ac_MeshPort cfg) && (ac_MeshPort cfg + meshPorts - 1 <=? 65535).

(** [meshEndpointLocked]. *)
Definition meshEndpointLocked (a : agent) : string :=
  if (a_meshPort a =? ac_MeshPort cfg) || negb portMoves then ac_MeshEndpoint cfg
  else AddrPort_String (MkAddrPort (ap_Addr (ac_endpoint cfg)) (ap_Zone (ac_endpoint cfg)) (a_meshPort a mod 2 ^ 16)).

(** [meshConfigFor]; the texts of the errors name the argument refused. *)
Definition meshConfigFor (a : agent) (podNetwork address : string) : result string MeshConfig :=
  match ParsePrefix podNetwork with
  | Some ula =>
      if negb (match pf_Addr ula with Addr6 _ => true | _ => false end) || Is4In6 (pf_Addr ula) then Err podNetwork
      else match ParseAddr address with
      | Some (addr, zone) =>
          if negb (match addr with Addr6 _ => true | _ => false end) || negb (String.eqb zone "") || negb (Contains ula addr)
          then Err address
          else Ok (MkMeshConfig (ac_MeshDevice cfg) (a_wgKey a) (a_meshPort a) (ac_MeshMTU cfg) (ac_endpoint cfg)
                     (PrefixFrom addr 128) (Masked ula))
      | None => Err address
      end
  | None => Err podNetwork
  end.

(** The first part of [wantMesh] and of [newMeshKey], under [mu]; both then
    call [ensureMesh]. *)
Definition want_config (c : MeshConfig) (a : agent) : agent :=
  a <| a_meshWant := c <| mc_ListenPort := a_meshPort a |> |>.

Definition new_key (k : Key) (a : agent) : agent :=
  let a := a <| a_wgKey := k |> in
  if String.eqb (mc_Device (a_meshWant a)) "" then a else a <| a_meshWant ::= λ c, c <| mc_PrivateKey := k |> |>.

(** [ensureMesh] until it calls the device: [None] when there is nothing to do. *)
Definition ensure_begin (a : agent) : option section :=
  let want := a_meshWant a in
  if String.eqb (mc_Device want) "" || a_meshOK a && bool_decide (a_meshCfg a = want) then None else Some (Ensuring want).

(** [syncPeers] until it calls the device. *)
Definition sync_begin (a : agent) : option section :=
  match a_state a with
  | Some s =>
      if negb (a_meshOK a) || a_peersSet a && (a_peersVer a =? wm_Version (s_Mesh s)) then None else Some (Syncing (s_Mesh s))
  | None => None
  end.

(** [repairMesh] until it calls the device. *)
Definition repair_begin (now : Time) (lost : list WgPeer) (a : agent) : option section * agent :=
  let a' := a <| a_lastRepair := now |> in
  match a_state a with
  | Some s =>
      if a_meshOK a && bool_decide (a_meshCfg a = a_meshWant a) then (Some (Repairing now (a_meshCfg a) (s_Mesh s) lost), a')
      else (None, a')
  | None => (None, a')
  end.

(** [endpointNodes]. *)
Definition endpointNodes (envs : gmap string Env) : gset string :=
  list_to_set ('(_, e) ← map_to_list envs; svc ← default [] (env_Services e); ep ← default [] (wv_Endpoints svc); [we_Node ep]).

(** The time between repairs: [meshRepairEvery], unless configured. *)
Definition repair_every : Duration := if 0 <? ac_MeshRepairEvery cfg then ac_MeshRepairEvery cfg else meshRepairEvery.

(** [lostNodes], with the names of the nodes. *)
Definition lostNodes (now : Time) (handshakes : gmap string Time) (a : agent) : list (WgPeer * string) :=
  match a_state a with
  | None => []
  | Some s =>
      if now - a_lastRepair a <? repair_every then [] else
      let peers := (wgPeers (s_Mesh s)).1 in
      omap (λ p,
        let k := key_of p in
        if negb (length k =? KeyLen)%nat then None else
        match list_find (λ w, wp_PublicKey w = k) peers with
        | None => None
        | Some (_, w) =>
            let hs := default zeroTime (handshakes !! wp_Name p) in
            if negb (IsZero hs) && (now - hs <? meshStale) then None else
            match a_meshSince a !! k with
            | None => None
            | Some since =>
                if now - since <? repair_every then None
                else if bool_decide (wp_Name p ∈ endpointNodes (s_Envs s)) then Some (w, wp_Name p) else None
            end
        end) (default [] (wm_Peers (s_Mesh s)))
  end.

(** [pollMesh] until it reads the device: the keys wanted since when. *)
Definition wanted_keys (a : agent) : gmap Key string :=
  match a_state a with
  | Some s =>
      foldl (λ names p, if (length (key_of p) =? KeyLen)%nat then <[key_of p := wp_Name p]> names else names) ∅
        (default [] (wm_Peers (s_Mesh s)))
  | None => ∅
  end.

Definition poll_since (now : Time) (a : agent) : agent :=
  a <| a_meshSince ::= λ since, map_imap (λ k _, Some (default now (since !! k))) (wanted_keys a) |>.

(** Its handshakes by name, of the device's peers. *)
Definition poll_handshakes (a : agent) (have : list PeerState) : gmap string Time :=
  foldl (λ m p, match wanted_keys a !! wp_PublicKey (st_Peer p) with
                | Some name => <[name := st_LastHandshake p]> m
                | None => m
                end) ∅ have.

Context `{MeshDevice}.

(** The ports a repair tries, one after the other. *)
Fixpoint move_port (n : nat) (i : Z) (c : MeshConfig) (d : dev) : MeshConfig * dev :=
  match n with
  | O => (c, d)
  | S n' =>
      let next := c <| mc_ListenPort := ac_MeshPort cfg + Z.rem (mc_ListenPort c - ac_MeshPort cfg + i) meshPorts |> in
      let '(ok, d') := Configure next d in
      if ok then (next, d') else move_port n' (i + 1) c d'
  end.

(** [ensureMesh], [syncPeers] and [repairMesh] from their calls of the device
    on: those, and what they then write under [mu]. *)
Definition ensure_end (want : MeshConfig) (a : agent) (d : dev) : agent * dev :=
  let '(ok, d') := Configure want d in
  (if ok then a <| a_meshCfg := want |> <| a_meshOK := true |> <| a_peersSet := false |>
   else a <| a_meshOK := false |>, d').

Definition sync_end (m : Wire.Mesh) (a : agent) (d : dev) : agent * dev :=
  let '(ok, d') := dev_SetPeers (wgPeers m).1 d in
  (if ok then a <| a_peersSet := true |> <| a_peersVer := wm_Version m |> else a <| a_peersSet := false |>, d').

Definition repairMesh_end (now : Time) (c : MeshConfig) (m : Wire.Mesh) (lost : list WgPeer) (a : agent) (d : dev) : agent * dev :=
  let '(c', d1) := if portMoves then move_port (Z.to_nat (meshPorts - 1)) 1 c d else (c, d) in
  let peers := (wgPeers m).1 in
  let keep := filter (λ p, wp_PublicKey p ∉ wp_PublicKey <$> lost) peers in
  let '(ok1, d2) := dev_SetPeers keep d1 in
  let '(ok, d3) := if ok1 then dev_SetPeers peers d2 else (false, d2) in
  let a := a <| a_meshCfg := c' |> <| a_meshWant := c' |> <| a_meshPort := mc_ListenPort c' |> in
  let a := if ok then a <| a_peersSet := true |> <| a_peersVer := wm_Version m |> else a <| a_peersSet := false |> in
  (a <| a_meshSince ::= λ since, foldl (λ m p, <[wp_PublicKey p := now]> m) since lost |> <| a_repairs ::= Z.succ |>, d3).

Definition section_end (s : section) : agent → dev → agent * dev :=
  match s with
  | Ensuring want => ensure_end want
  | Syncing m => sync_end m
  | Repairing now c m lost => repairMesh_end now c m lost
  end.

(** ** The agent as a machine *)

Inductive aevent : Type :=
| AWant (c : MeshConfig)
| ANewKey (k : Key)
| AState (s : State)
| APoll (now : Time) (readable : bool)
| AEnsure
| ASync
| ARepair (now : Time) (lost : list WgPeer)
| AEnd.

(** A section begins when none holds the mutex. *)
Definition begin_section (o : option section) (a : agent) (m : mesh_agent dev) : option (mesh_agent dev) :=
  match ma_held m with Some _ => None | None => Some (MkMeshAgent a (ma_dev m) o) end.

Definition astep (e : aevent) (m : mesh_agent dev) : option (mesh_agent dev) :=
  let a := ma_agent m in
  match e with
  | AWant c => Some (MkMeshAgent (want_config c a) (ma_dev m) (ma_held m))
  | ANewKey k => Some (MkMeshAgent (new_key k a) (ma_dev m) (ma_held m))
  | AState s => Some (MkMeshAgent (a <| a_state := Some s |>) (ma_dev m) (ma_held m))
  | APoll now readable =>
      let a' := poll_since now a in
      Some (MkMeshAgent (if a_meshOK a && negb readable then a' <| a_meshOK := false |> else a') (ma_dev m) (ma_held m))
  | AEnsure => begin_section (ensure_begin a) a m
  | ASync => begin_section (sync_begin a) a m
  | ARepair now lost => let '(o, a') := repair_begin now lost a in begin_section o a' m
  | AEnd =>
      match ma_held m with
      | Some s => let '(a', d') := section_end s a (ma_dev m) in Some (MkMeshAgent a' d' None)
      | None => None
      end
  end.

Fixpoint arun (es : list aevent) (m : mesh_agent dev) : option (mesh_agent dev) :=
  match es with
  | [] => Some m
  | e :: es' => m ← astep e m; arun es' m
  end.

(** [New]: the agent before its first connection. *)
Definition new_agent (key : Key) : agent :=
  MkAgent key noMeshConfig noMeshConfig false false 0 (ac_MeshPort cfg) ∅ zeroTime 0 None.
End agent.
