(* ===== verification/IngressMesh.v ===== *)
(** * From the tables to an ingress's device

    [Identity]'s tables, [BuildMesh] and [wgPeers] compose: the nodes on the
    mesh of any database the control plane reaches are peers an ingress can
    set, without a problem, with distinct keys and disjoint prefixes; and a
    WireGuard device on which it sets them has exactly those peers.  Then the
    agent: whatever happens while it configures, syncs and repairs its device,
    the device has its table's peers whenever the agent takes it to. *)

From S2P Require Import Prelude Text Json Wire PodId Rows Mesh Wg WgSync NetText HostLabels Identity Joins.
From S2P Require Import MeshSpec MeshRefine MeshRuns AgentMesh.

(** ** The prefixes of nodes *)

Lemma fd_range a : Z.shiftr a 120 = 253 → 253 * 2 ^ 120 ≤ a < 2 ^ 128.
Proof.
  intros Ha. rewrite Z.shiftr_div_pow2 in Ha by lia.
  pose proof (Z.div_mod a (2 ^ 120) ltac:(lia)). pose proof (Z.mod_pos_bound a (2 ^ 120) ltac:(lia)). lia.
Qed.

Lemma fd_not_mapped a : Z.shiftr a 120 = 253 → Is4In6 (Addr6 a) = false.
Proof.
  intros Ha%fd_range. unfold Is4In6. apply Z.eqb_neq.
  pose proof (Z.div_le_mono (253 * 2 ^ 120) a (2 ^ 32) ltac:(lia) ltac:(lia)) as H.
  change (253 * 2 ^ 120 / 2 ^ 32) with (253 * 2 ^ 88) in H. lia.
Qed.

Lemma node_fd ula id : ula_fd ula → Z.shiftr (node_number ula id) 120 = 253.
Proof.
  intros ((u & -> & _) & Hu). cbn in Hu. rewrite <- Hu. apply (shiftr_eq_bits _ _ 120); [done|]. intros n Hn.
  rewrite testbit_NodePrefix by lia. replace ((32 <=? n) && (n <? 64)) with false by lia.
  rewrite masked_ula by lia. by replace (64 <=? n) with true by lia.
Qed.

Lemma node_masked ula id : ula_fd ula → Masked (NodePrefix ula id) = NodePrefix ula id.
Proof.
  intros Hu. unfold Masked. change (IsValid (NodePrefix ula id)) with true. cbv iota.
  change (masked_addr (NodePrefix ula id)) with (Addr6 (clear_low 32 (node_number ula id))).
  change (NodePrefix ula id) with (MkPrefix (Addr6 (node_number ula id)) PrefixBits) at 2. f_equal. f_equal.
  apply Z.bits_inj'. intros n Hn. rewrite testbit_clear_low by lia. destruct (Z.leb_spec 32 n) as [Hl|Hl]; [done|]. symmetry.
  rewrite testbit_NodePrefix by lia. replace ((32 <=? n) && (n <? 64)) with false by lia.
  destruct Hu as ((u & -> & _) & _). rewrite masked_ula by lia. by replace (64 <=? n) with false by lia.
Qed.

Lemma node_prefix_text ula id : ula_fd ula → ParsePrefix (Prefix_String (NodePrefix ula id)) = Some (NodePrefix ula id).
Proof.
  intros Hu%(node_fd _ id). apply ParsePrefix_String; [done| |by apply fd_not_mapped].
  pose proof (fd_range _ Hu). unfold node_number in *. cbn [pf_Addr NodePrefix is_addr As16] in *. apply andb_true_iff. lia.
Qed.

Lemma NodePrefix_inj ula id id' :
  1 ≤ id ≤ LastSubnet → 1 ≤ id' ≤ LastSubnet → NodePrefix ula id = NodePrefix ula id' → id = id'.
Proof. intros H1 H2 E. apply (node_id_bits ula); [done..|]. intros n _. unfold node_number. by rewrite E. Qed.

(** ** Keys as bytes *)

Lemma str_bytes_str b : forallb is_byte b = true → str_bytes (bytes_str b) = b.
Proof.
  induction b as [|x b IH]; [done|]. cbn [forallb]. intros [Hx Hb]%andb_true_iff. cbn. rewrite IH by done. f_equal.
  unfold is_byte in Hx. unfold byteZ. rewrite Ascii.N_ascii_embedding by lia. lia.
Qed.

(** ** The nodes on the mesh *)

Definition on_mesh (n : Node) : bool := Node_MeshPeer n && negb (bool_decide (n_Status n = NodeRemoved)).

(** A node of the cluster [ula] as a peer of a device. *)
Definition node_wg (ula : Prefix) (n : Node) : WgPeer :=
  MkWgPeer (n_MeshPublicKey n) (default noAddrPort (ParseAddrPort (n_MeshEndpoint n))) [NodePrefix ula (n_MeshSubnet n)]
    peerKeepalive.

Definition node_wire (n : Node) : Wire.Peer :=
  Wire.MkPeer (n_Name n) (Some (bytes_str (n_MeshPublicKey n))) (n_MeshEndpoint n) (n_MeshPrefix n).

(** What the tables say of a node on the mesh. *)
Lemma on_mesh_seat d name n :
  dinv d → i_nodes d !! name = Some n → on_mesh n = true →
  ∃ ula, m_ula (abs d) = Some ula ∧ ula_fd ula ∧ 1 ≤ n_MeshSubnet n ≤ LastSubnet ∧
    n_MeshPrefix n = Prefix_String (NodePrefix ula (n_MeshSubnet n)) ∧ is_key (n_MeshPublicKey n) ∧
    ∃ ap, ParseAddrPort (n_MeshEndpoint n) = Some ap ∧ endpoint_addr ap ∧ n_MeshEndpoint n ≠ ""%string.
Proof.
  intros Hd Hn Hm. destruct (di_names d Hd) as [Hnn _]. pose proof (Hnn name n Hn) as En. cbn in En.
  assert (Hrow : row_of d (OfNode name) = Some (node_seat n)) by (cbn; by rewrite Hn).
  destruct (mi_seat _ (di_mesh d Hd) _ _ Hrow) as (Hs & Hk & He & _ & _). cbn in Hs, Hk, He.
  unfold on_mesh, Node_MeshPeer in Hm. rewrite !andb_true_iff, !negb_true_iff in Hm. destruct Hm as [[[Hs0 Hk0] He0] _].
  apply Z.eqb_neq in Hs0. apply Nat.eqb_eq in Hk0. apply String.eqb_neq in He0.
  destruct Hs as [[? _]|(Hr & ula & Hu & Hp & _)]; [done|]. exists ula. split; [done|].
  split; [by apply (mi_ula _ (di_mesh d Hd))|]. split; [pose proof (mi_seq _ (di_mesh d Hd)); cbn in *; lia|]. split; [done|].
  split; [destruct Hk as [Hk|Hk]; [by rewrite Hk in Hk0|done]|].
  destruct He as [?|(ap & Hap & _ & Hok)%CheckEndpoint_spec]; [done|]. by exists ap.
Qed.

(** The seat of a node is a peer's exactly when the node is on the mesh. *)
Lemma on_mesh_peer d name n : dinv d → i_nodes d !! name = Some n → on_mesh n = is_peer (node_seat n).
Proof.
  intros Hd Hn. destruct (di_names d Hd) as [Hnn _]. pose proof (Hnn name n Hn) as En. cbn in En.
  apply (node_peer_seat (abs d)). apply (mi_seat _ (di_mesh d Hd)). cbn. by rewrite En, Hn.
Qed.

Lemma HasPrefix_spec s p : HasPrefix s p = true ↔ ∃ t, s = (p +:+ t)%string.
Proof.
  unfold HasPrefix. revert s. induction p as [|c p IH]; intros s.
  - split; [intros _; by exists s|]. by destruct s.
  - destruct s as [|c' s]; cbn; [split; [done|]; by intros (t & ?)|]. destruct (Ascii.ascii_dec c c') as [<-|Hn].
    + rewrite IH. split; intros (t & E); exists t; [by rewrite E|by injection E].
    + split; [done|]. intros (t & E). by injection E.
Qed.

(** The nodes' names are not those of ingresses. *)
Lemma node_name_no_ingress name : IsNodeName name = true → IsIngressPeer name = false.
Proof.
  intros Hn. destruct (IsIngressPeer name) eqn:E; [|done]. exfalso. unfold IsIngressPeer in E.
  apply HasPrefix_spec in E as [other ->]. by destruct (node_not_ingress _ other Hn).
Qed.

(** A peer of the mesh that is not an ingress is a node on the mesh. *)
Lemma mesh_peer_node d name :
  dinv d → IsIngressPeer name = false →
  ps_Nodes (MeshPeers d) !! name =
  (λ n, MkPeer name (n_MeshPublicKey n) (n_MeshEndpoint n) (n_MeshPrefix n)) <$>
  (n ← i_nodes d !! name; if on_mesh n then Some n else None).
Proof.
  intros Hd Hi. apply option_eq. intros p. rewrite mesh_peer by done. split.
  - intros ([x|x] & s & -> & Hs & Hp); cbn in *.
    + destruct (i_nodes d !! x) as [n|] eqn:Hn; [|done]. injection Hs as <-. cbn [mbind option_bind].
      rewrite (on_mesh_peer d x n Hd Hn). unfold peer_of, peer_part in Hp. destruct (is_peer _); [|done]. by injection Hp as <-.
    + exfalso. apply not_true_iff_false in Hi. apply Hi, HasPrefix_spec. by exists x.
  - destruct (i_nodes d !! name) as [n|] eqn:Hn; cbn [mbind option_bind]; [|done]. rewrite (on_mesh_peer d name n Hd Hn).
    destruct (is_peer _) eqn:Ep; [|done]. intros [= <-]. exists (OfNode name), (node_seat n). cbn. rewrite Hn. split; [done|].
    split; [done|]. unfold peer_of, peer_part. by rewrite Ep.
Qed.

(** The nodes of the table's mesh. *)
Lemma mesh_nodes d :
  dinv d → ∃ l : list Node,
    wm_Peers (BuildMesh (MeshPeers d)) = Some (node_wire <$> l) ∧ NoDup (n_Name <$> l) ∧
    ∀ n, n ∈ l ↔ i_nodes d !! n_Name n = Some n ∧ on_mesh n = true.
Proof.
  intros Hd. destruct (di_names d Hd) as [Hnn _]. set (names := sort_by String.leb (map_to_list (ps_Nodes (MeshPeers d))).*1).
  set (at_ := λ name, if IsIngressPeer name then None else n ← i_nodes d !! name; if on_mesh n then Some n else None).
  exists (omap at_ names). assert (Hat : ∀ name n, at_ name = Some n → n_Name n = name ∧ i_nodes d !! name = Some n ∧ on_mesh n = true).
  { intros name n. unfold at_. destruct (IsIngressPeer name); [done|]. destruct (i_nodes d !! name) as [r|] eqn:E; cbn; [|done].
    destruct (on_mesh r) eqn:Em; [|done]. intros [= <-]. by split; [apply Hnn|]. }
  split; [|split].
  - cbn [wm_Peers BuildMesh]. fold names. f_equal. clearbody names. induction names as [|name names IH]; [done|].
    cbn [omap list_omap]. rewrite IH.
    assert (E : (if IsIngressPeer name then None
                 else (λ p, Wire.MkPeer name (Some (bytes_str (pe_PublicKey p))) (pe_Endpoint p) (pe_PodPrefix p)) <$>
                      ps_Nodes (MeshPeers d) !! name) = node_wire <$> at_ name); [|rewrite E; by destruct (at_ name)].
    unfold at_. destruct (IsIngressPeer name) eqn:Hi; [done|]. rewrite (mesh_peer_node d name Hd Hi).
    destruct (i_nodes d !! name) as [n|] eqn:E; cbn; [|done]. destruct (on_mesh n); [|done]. cbn. unfold node_wire.
    by rewrite (Hnn name n E).
  - assert (Hnames : NoDup names) by (unfold names; rewrite sort_by_perm; apply NoDup_fst_map_to_list).
    clearbody names. induction names as [|name names IH]; [constructor|]. apply NoDup_cons in Hnames as [Hni Hnd].
    cbn [omap list_omap]. destruct (at_ name) as [n|] eqn:E; [|by apply IH]. cbn [fmap list_fmap]. constructor; [|by apply IH].
    intros (m & Em & (name' & Hn' & E')%list_elem_of_omap)%list_elem_of_fmap.
    destruct (Hat _ _ E) as (E1 & _). destruct (Hat _ _ E') as (E2 & _). congruence.
  - intros n. rewrite list_elem_of_omap. split.
    + intros (name & _ & E). by destruct (Hat _ _ E) as (-> & ?).
    + intros [Hn Hm]. exists (n_Name n).
      assert (Hi : IsIngressPeer (n_Name n) = false).
      { apply node_name_no_ingress. assert (Hrow : row_of d (OfNode (n_Name n)) = Some (node_seat n)) by (cbn; by rewrite Hn).
        by destruct (mi_seat _ (di_mesh d Hd) _ _ Hrow) as (_ & _ & _ & _ & ?). }
      split; [|unfold at_; rewrite Hi, Hn; cbn; by rewrite Hm]. unfold names. rewrite sort_by_perm, list_elem_of_fmap.
      pose proof (mesh_peer_node d (n_Name n) Hd Hi) as E. rewrite Hn in E. cbn in E. rewrite Hm in E. cbn in E.
      eexists (n_Name n, _). split; [done|]. apply elem_of_map_to_list. exact E.
Qed.

(** ** Their peers *)

Definition cluster_ula (d : IDB) : Prefix := from_option pn_ula (MkPrefix NoAddr 0) (i_pod_network d).

(** A node whose columns are those of a seat in the cluster [ula]. *)
Definition seated_node (ula : Prefix) (n : Node) : Prop :=
  ula_fd ula ∧ 1 ≤ n_MeshSubnet n ≤ LastSubnet ∧ n_MeshPrefix n = Prefix_String (NodePrefix ula (n_MeshSubnet n)) ∧
  is_key (n_MeshPublicKey n) ∧ n_MeshEndpoint n ≠ ""%string ∧ ∃ ap, ParseAddrPort (n_MeshEndpoint n) = Some ap ∧ endpoint_addr ap.

Lemma seated_row d name n :
  dinv d → i_nodes d !! name = Some n → on_mesh n = true → seated_node (cluster_ula d) n.
Proof.
  intros Hd Hn Hm. destruct (on_mesh_seat d name n Hd Hn Hm) as (ula & Hu & Hfd & Hr & Hp & Hk & ap & Hap & Hok & He).
  assert (cluster_ula d = ula) as ->.
  { unfold m_ula in Hu. cbn in Hu. unfold cluster_ula. destruct (i_pod_network d); [|done]. by injection Hu. }
  do 5 (split; [done|]). by exists ap.
Qed.

Lemma wg_loop_nodes ula seen l :
  Forall (seated_node ula) l → NoDup (n_MeshPublicKey <$> l) → (∀ n, n ∈ l → n_MeshPublicKey n ∉ seen) →
  wg_loop seen (node_wire <$> l) = (node_wg ula <$> l, []).
Proof.
  intros Hl. revert seen. induction Hl as [|n l (Hfd & Hr & Hp & [Hlen Hb] & He & ap & Hap & Hok) Hl IH]; intros seen Hnd Hs; [done|].
  cbn [fmap list_fmap] in *. apply NoDup_cons in Hnd as [Hni Hnd].
  assert (Ek : key_of (node_wire n) = n_MeshPublicKey n) by (cbn; by rewrite str_bytes_str).
  cbn [wg_loop]. rewrite Ek, Hlen. cbn [meshKeyLen KeyLen Nat.eqb negb]. change (KeyLen =? KeyLen)%nat with true.
  rewrite bool_decide_eq_false_2 by (apply Hs; by left). cbn [Wire.wp_Endpoint node_wire]. rewrite (proj2 (String.eqb_neq _ _) He), Hap.
  change (wp_Prefix _) with (n_MeshPrefix n). rewrite Hp, node_prefix_text by done. rewrite IH; [| |].
  - unfold node_wg at 2. rewrite Hap, node_masked by done. done.
  - done.
  - intros m Hm. rewrite not_elem_of_union, not_elem_of_singleton. split; [|apply Hs; by right].
    intros E. apply Hni. rewrite <- E. by apply list_elem_of_fmap_2.
Qed.

Lemma seated_wf ula n : seated_node ula n → wf_peer (node_wg ula n).
Proof.
  intros (Hfd & _ & _ & [Hlen _] & _ & ap & Hap & _). unfold wf_peer, node_wg. cbn [wp_PublicKey wp_Endpoint wp_AllowedIPs]. rewrite Hap.
  destruct (ParseAddrPort_range _ _ Hap) as (_ & Ha & Hp). cbn [default]. split; [done|].
  split; [split; [done|cbn; lia]|]. constructor; [|done]. split; [done|].
  pose proof (fd_range _ (node_fd ula (n_MeshSubnet n) Hfd)). unfold wf_prefix, node_number in *.
  cbn [pf_Addr NodePrefix is_addr As16] in *. apply andb_true_iff. lia.
Qed.

Lemma seated_settable ula own l :
  Forall (seated_node ula) l → NoDup (n_MeshPublicKey <$> l) → NoDup (n_MeshSubnet <$> l) →
  own ∉ n_MeshPublicKey <$> l → settable own (node_wg ula <$> l).
Proof.
  intros Hl Hk Hs Ho. assert (Ek : wp_PublicKey <$> (node_wg ula <$> l) = n_MeshPublicKey <$> l) by (by rewrite <- list_fmap_compose).
  rewrite Forall_forall in Hl. split; [by rewrite Ek|]. split; [|split; [|split; [|by rewrite Ek]]].
  - apply Forall_fmap, Forall_forall. intros n Hn. by apply seated_wf, Hl.
  - apply Forall_fmap, Forall_forall. intros n Hn _. destruct (Hl n Hn) as (_ & _ & _ & _ & _ & ap & Hap & Hz & _).
    cbn. rewrite Hap. unfold numbered_zone. cbn [from_option id ap_Zone ap_Addr]. unfold id. rewrite Hz. by destruct (is4 _).
  - intros p q (n & -> & Hn)%list_elem_of_fmap (m & -> & Hm)%list_elem_of_fmap Hne x.
    destruct (Hl n Hn) as (Hfd & Hr & _), (Hl m Hm) as (_ & Hr' & _).
    change (x ∈ [Masked (NodePrefix ula (n_MeshSubnet n))] → x ∉ [Masked (NodePrefix ula (n_MeshSubnet m))]).
    rewrite !node_masked by done.
    intros ->%list_elem_of_singleton E%list_elem_of_singleton. apply Hne. apply NodePrefix_inj in E; [|done..].
    f_equal. apply list_elem_of_lookup in Hn as [i Hi], Hm as [j Hj].
    assert (i = j) as ->; [|congruence].
    apply (NoDup_lookup _ i j (n_MeshSubnet n) Hs); [by rewrite list_lookup_fmap, Hi|by rewrite list_lookup_fmap, Hj, E].
Qed.

(** Columns that tell the rows apart. *)
Lemma distinct_column {A} (f : Node → A) d l :
  NoDup (n_Name <$> l) → (∀ n, n ∈ l → i_nodes d !! n_Name n = Some n ∧ on_mesh n = true) →
  (∀ n m, i_nodes d !! n_Name n = Some n → i_nodes d !! n_Name m = Some m → on_mesh n = true → on_mesh m = true →
     f n = f m → n_Name n = n_Name m) →
  NoDup (f <$> l).
Proof.
  intros Hn Hl Hf. induction l as [|n l IH]; [constructor|]. cbn [fmap list_fmap] in *. apply NoDup_cons in Hn as [Hni Hnd].
  constructor; [|apply IH; [done|]; intros m Hm; apply Hl; by right].
  intros (m & E & Hm)%list_elem_of_fmap. apply Hni.
  destruct (Hl n) as [H1 H2]; [by left|]. destruct (Hl m) as [H3 H4]; [by right|].
  rewrite (Hf n m H1 H3 H2 H4 E). by apply list_elem_of_fmap_2.
Qed.

Lemma live_node d name n : i_nodes d !! name = Some n → on_mesh n = true → row_of d (OfNode name) = Some (node_seat n) ∧ se_live (node_seat n) = true.
Proof. intros Hn [_ Hl]%andb_true_iff. cbn. by rewrite Hn. Qed.

(** The peers an ingress makes of the tables: the nodes on the mesh. *)
Lemma wgPeers_nodes d :
  dinv d → ∃ l,
    wgPeers (BuildMesh (MeshPeers d)) = (node_wg (cluster_ula d) <$> l, []) ∧
    (∀ n, n ∈ l ↔ i_nodes d !! n_Name n = Some n ∧ on_mesh n = true) ∧
    Forall (seated_node (cluster_ula d)) l ∧ NoDup (n_MeshPublicKey <$> l) ∧ NoDup (n_MeshSubnet <$> l).
Proof.
  intros Hd. destruct (mesh_nodes d Hd) as (l & Hp & Hnd & Hl). exists l.
  assert (Hseat : Forall (seated_node (cluster_ula d)) l).
  { apply Forall_forall. intros n [Hn Hm]%Hl. by eapply seated_row. }
  assert (Hin : ∀ n, n ∈ l → i_nodes d !! n_Name n = Some n ∧ on_mesh n = true) by (intros n; by rewrite Hl).
  assert (Hkeys : NoDup (n_MeshPublicKey <$> l)).
  { apply (distinct_column _ d); [done..|]. intros n m Hn Hm On Om E.
    destruct (live_node _ _ _ Hn On), (live_node _ _ _ Hm Om). assert (OfNode (n_Name n) = OfNode (n_Name m)) as [= ?]; [|done].
    apply (mi_keys _ (di_mesh d Hd) _ _ (node_seat n) (node_seat m)); try done. cbn. intros E0.
    destruct (seated_row d _ n Hd Hn On) as (_ & _ & _ & [Hlen _] & _). by rewrite E0 in Hlen. }
  assert (Hsubs : NoDup (n_MeshSubnet <$> l)).
  { apply (distinct_column _ d); [done..|]. intros n m Hn Hm On Om E.
    destruct (live_node _ _ _ Hn On), (live_node _ _ _ Hm Om). assert (OfNode (n_Name n) = OfNode (n_Name m)) as [= ?]; [|done].
    apply (mi_subnets _ (di_mesh d Hd) _ _ (node_seat n) (node_seat m)); try done. cbn.
    destruct (seated_row d _ n Hd Hn On) as (_ & Hr & _). lia. }
  split; [|done]. unfold wgPeers. rewrite Hp. by apply wg_loop_nodes.
Qed.

Lemma node_prefix_apart ula id id' a :
  1 ≤ id ≤ LastSubnet → 1 ≤ id' ≤ LastSubnet →
  Contains (NodePrefix ula id) a = true → Contains (NodePrefix ula id') a = true → id = id'.
Proof.
  intros H1 H2. destruct a as [|z|z]; [done..|]. rewrite !contains_number. intros Ha Ha'.
  apply (node_id_bits ula); [done..|]. intros n Hn. by rewrite Ha, Ha'.
Qed.

(** The key of a live ingress is no node's. *)
Lemma ingress_key_apart d name g n :
  dinv d → i_ingresses d !! name = Some g → g_Status g ≠ IngressRemoved → g_MeshPublicKey g ≠ [] →
  i_nodes d !! n_Name n = Some n → on_mesh n = true → n_MeshPublicKey n ≠ g_MeshPublicKey g.
Proof.
  intros Hd Hg Hl Hk Hn Hm E. destruct (live_node _ _ _ Hn Hm) as [Hrow Hlive].
  assert (Hrow' : row_of d (OfIngress name) = Some (ingress_seat g)) by (cbn; by rewrite Hg).
  assert (OfNode (n_Name n) = OfIngress name) by
    (apply (mi_keys _ (di_mesh d Hd) _ _ (node_seat n) (ingress_seat g)); try done; cbn;
     [by rewrite bool_decide_eq_false_2|by rewrite E]).
  done.
Qed.

(** C8: From the tables to the kernel: in every database the control plane
    reaches, the peers an ingress makes of the mesh have no problem, and when
    it sets them on its WireGuard device, whatever peers that had, the call
    succeeds and the device then has exactly the nodes on the mesh as peers,
    each with its key, its endpoint and its /96 alone; no address is in the
    /96s of two nodes, so every packet has one peer. *)
Theorem ingress_device_has_nodes (little : bool) `{W : WireGuard} small_order w name g (s : wg_state) family device :
  reachable small_order w →
  i_ingresses (w_db w) !! name = Some g → g_Status g ≠ IngressRemoved → g_MeshPublicKey g = wg_own → wg_own ≠ [] →
  Forall (λ p, length (wp_PublicKey (st_Peer p)) = KeyLen) (wg_dump s) →
  checkName device = true → 0 ≤ family < 65536 →
  let peers := (wgPeers (BuildMesh (MeshPeers (w_db w)))).1 in
  let node n := i_nodes (w_db w) !! n_Name n = Some n ∧ on_mesh n = true in
  (wgPeers (BuildMesh (MeshPeers (w_db w)))).2 = [] ∧
  (∃ msgs s', SetPeers little family device (wg_dump s) peers = Ok msgs ∧ deliver little s msgs = Ok s' ∧
     (∀ k, is_Some (wg_peers s' !! k) ↔ ∃ n, node n ∧ n_MeshPublicKey n = k) ∧
     (∀ n, node n → ∃ q, wg_peers s' !! n_MeshPublicKey n = Some q ∧
        samePeer q (node_wg (cluster_ula (w_db w)) n) = true)) ∧
  (∀ n m a, node n → node m → Contains (NodePrefix (cluster_ula (w_db w)) (n_MeshSubnet n)) a = true →
     Contains (NodePrefix (cluster_ula (w_db w)) (n_MeshSubnet m)) a = true → n_Name n = n_Name m).
Proof.
  intros Hw%reachable_dinv Hg Hl Hk Hne Hdump Hname Hf. cbv zeta.
  destruct (wgPeers_nodes (w_db w) Hw) as (l & -> & Hl' & Hseat & Hkeys & Hsubs). cbn [fst snd]. split; [done|]. split.
  - assert (Hset : settable wg_own (node_wg (cluster_ula (w_db w)) <$> l)).
    { apply seated_settable; [done..|]. intros (n & E & [Hn Hm]%Hl')%list_elem_of_fmap.
      apply (ingress_key_apart (w_db w) name g n); try done; congruence. }
    destruct Hset as (Hnd & Hwf & Hz & Hd & Ho).
    destruct (SetPeers_total little family device (wg_dump s) (node_wg (cluster_ula (w_db w)) <$> l)) as [msgs Hmsgs]; try done.
    { apply Forall_fmap, Forall_forall. intros n _. cbn. lia. }
    destruct (set_peers_run little s _ family device msgs Hf Hdump Hwf Hz Hd Ho Hmsgs) as (_ & s' & Hdel & Hdom & Hsame & _).
    exists msgs, s'. split; [done|]. split; [done|]. split.
    + intros k. rewrite Hdom, <- list_fmap_compose, list_elem_of_fmap. split.
      * intros (n & -> & Hn). exists n. by rewrite <- Hl'.
      * intros (n & Hn & <-). exists n. by rewrite Hl'.
    + intros n Hn. apply (Hsame (node_wg (cluster_ula (w_db w)) n)). apply list_elem_of_fmap_2. by rewrite Hl'.
  - intros n m a [Hn On] [Hm Om] Ha Ha'. rewrite Forall_forall in Hseat.
    destruct (Hseat n) as (_ & Hr & _); [by rewrite Hl'|]. destruct (Hseat m) as (_ & Hr' & _); [by rewrite Hl'|].
    pose proof (node_prefix_apart _ _ _ _ Hr Hr' Ha Ha') as E.
    destruct (live_node _ _ _ Hn On), (live_node _ _ _ Hm Om).
    assert (OfNode (n_Name n) = OfNode (n_Name m)) as [= ?]; [|done].
    apply (mi_subnets _ (di_mesh _ Hw) _ _ (node_seat n) (node_seat m)); try done. cbn. lia.
Qed.

(** ** The agent keeps its device *)

Section agent_runs.
Context (cfg : agent_config) `{MeshDevice} (ok : Wire.Mesh → Prop).

(** The tables' meshes: one per version, that can be set on the device. *)
Hypothesis one_per_version : ∀ m m', ok m → ok m' → wm_Version m = wm_Version m' → m = m'.
Hypothesis can_be_set : ∀ m, ok m → settable dev_own (wgPeers m).1.

Definition fed (e : aevent) : Prop := match e with AState s => ok (s_Mesh s) | _ => True end.

(** The port of the device is the agent's, and in its range. *)
Definition port_ok (a : agent) : Prop :=
  (mc_Device (a_meshWant a) ≠ ""%string → mc_ListenPort (a_meshWant a) = a_meshPort a) ∧
  (a_meshOK a = true → mc_Device (a_meshCfg a) ≠ ""%string ∧ mc_ListenPort (a_meshCfg a) = a_meshPort a) ∧
  ac_MeshPort cfg ≤ a_meshPort a < ac_MeshPort cfg + meshPorts ∧
  (portMoves cfg = false → a_meshPort a = ac_MeshPort cfg).

Definition section_ok (a : agent) (s : option section) : Prop :=
  match s with
  | Some (Ensuring want) => mc_Device want ≠ ""%string ∧ mc_ListenPort want = a_meshPort a
  | Some (Syncing m) => ok m
  | Some (Repairing _ c m _) => ok m ∧ mc_Device c ≠ ""%string ∧ mc_ListenPort c = a_meshPort a
  | None => True
  end.

Definition peers_ok (a : agent) (d : dev) : Prop :=
  a_meshOK a = true → a_peersSet a = true →
  ∃ m, ok m ∧ wm_Version m = a_peersVer a ∧ has_peers (dev_peers d) (wgPeers m).1.

Definition state_ok (a : agent) : Prop := ∀ s, a_state a = Some s → ok (s_Mesh s).

Definition ainv (m : mesh_agent dev) : Prop :=
  port_ok (ma_agent m) ∧ section_ok (ma_agent m) (ma_held m) ∧ peers_ok (ma_agent m) (ma_dev m) ∧ state_ok (ma_agent m).

Lemma ainv_start key d : ainv (MkMeshAgent (new_agent cfg key) d None).
Proof. repeat split; try done; cbn; unfold meshPorts; lia. Qed.

(** A repair moves the port within the range and changes nothing else. *)
Lemma move_port_spec n i c d c' d' :
  move_port cfg n i c d = (c', d') → 0 ≤ i → ac_MeshPort cfg ≤ mc_ListenPort c < ac_MeshPort cfg + meshPorts →
  c' = c <| mc_ListenPort := mc_ListenPort c' |> ∧ ac_MeshPort cfg ≤ mc_ListenPort c' < ac_MeshPort cfg + meshPorts.
Proof.
  revert i c d c' d'. induction n as [|n IH]; intros i c d c' d'; cbn [move_port].
  - intros [= <- <-] _ Hr. by destruct c.
  - destruct (Configure _ d) as [[|] d1].
    + intros [= <- <-] Hi Hr. split; [done|]. cbn. unfold meshPorts in *.
      pose proof (Z.rem_bound_pos (mc_ListenPort c - ac_MeshPort cfg + i) 16 ltac:(lia) ltac:(lia)). lia.
    + intros E Hi Hr. apply (IH _ _ _ _ _ E); [lia|done].
Qed.

(** The end of a repair in one equation. *)
Lemma repair_end now c m lost a d a' d' :
  section_end cfg (Repairing now c m lost) a d = (a', d') →
  ac_MeshPort cfg ≤ mc_ListenPort c < ac_MeshPort cfg + meshPorts →
  (∃ port, a_meshCfg a' = c <| mc_ListenPort := port |> ∧ a_meshWant a' = c <| mc_ListenPort := port |> ∧ a_meshPort a' = port ∧
     ac_MeshPort cfg ≤ port < ac_MeshPort cfg + meshPorts ∧ (portMoves cfg = false → port = mc_ListenPort c)) ∧
  a_meshOK a' = a_meshOK a ∧ a_state a' = a_state a ∧
  (a_peersSet a' = true → a_peersVer a' = wm_Version m ∧ ∃ d0, dev_SetPeers (wgPeers m).1 d0 = (true, d')).
Proof.
  cbn [section_end]. unfold repairMesh_end. intros E Hr.
  destruct (if portMoves cfg then _ else _) as [c' d1] eqn:Ec.
  assert (Hc : c' = c <| mc_ListenPort := mc_ListenPort c' |> ∧ ac_MeshPort cfg ≤ mc_ListenPort c' < ac_MeshPort cfg + meshPorts ∧
               (portMoves cfg = false → mc_ListenPort c' = mc_ListenPort c)).
  { destruct (portMoves cfg); [|injection Ec as <- <-; by destruct c].
    destruct (move_port_spec _ _ _ _ _ _ Ec) as [? ?]; [lia|done|]. done. }
  destruct Hc as (Hc & Hr' & Hp). destruct (dev_SetPeers _ d1) as [ok1 d2].
  destruct (if ok1 then _ else _) as [ok2 d3] eqn:E2. injection E as <- <-.
  split; [|destruct ok2; repeat split; try done].
  - exists (mc_ListenPort c'). rewrite <- Hc. by destruct ok2.
  - exists d2. by destruct ok1.
Qed.

Lemma ainv_end s a d a' d' :
  port_ok a → section_ok a (Some s) → peers_ok a d → state_ok a → section_end cfg s a d = (a', d') →
  port_ok a' ∧ peers_ok a' d' ∧ state_ok a'.
Proof.
  intros (P1 & P2 & P3 & P4) Hs Hp Hst E. destruct s as [want|m|now c m lost].
  - cbn [section_end] in E. unfold ensure_end in E. destruct Hs as [H1 H2]. destruct (Configure want d) as [[|] d1]; injection E as <- <-.
    + repeat split; try done; cbn in *; lia.
    + repeat split; try done; cbn in *; lia.
  - cbn [section_end] in E. unfold sync_end in E. destruct (dev_SetPeers _ d) as [[|] d1] eqn:Ed; injection E as <- <-.
    + split; [done|]. split; [|done]. intros _ _. exists m. split; [done|]. split; [done|].
      by apply (dev_SetPeers_ok _ d); [apply can_be_set|].
    + by split.
  - destruct Hs as (Hm & Hdev & Hport).
    destruct (repair_end _ _ _ _ _ _ _ _ E) as ((port & E1 & E2 & E3 & E4 & E5) & E6 & E7 & E8); [by rewrite Hport|].
    split; [|split].
    + split; [by rewrite E2, E3|]. split; [by rewrite E1, E3|]. rewrite E3. split; [done|].
      intros Hpm. rewrite E5, Hport by done. by apply P4.
    + intros _ Hset. destruct (E8 Hset) as (Hv & d0 & Hd0). exists m. split; [done|]. split; [done|].
      by apply (dev_SetPeers_ok _ d0); [apply can_be_set|].
    + intros s. rewrite E7. apply Hst.
Qed.

Lemma ainv_step e m m' : ainv m → fed e → astep cfg e m = Some m' → ainv m'.
Proof.
  destruct m as [a d held]. intros (Hport & Hsec & Hpeers & Hst) Hfed. cbn in *. destruct e; cbn [astep ma_agent ma_dev ma_held] in *.
  - intros [= <-]. destruct Hport as (P1 & P2 & P3 & P4). split; [by split; [|exact (conj P2 (conj P3 P4))]|]. exact (conj Hsec (conj Hpeers Hst)).
  - intros [= <-]. unfold new_key. cbv zeta. destruct (String.eqb _ _); exact (conj Hport (conj Hsec (conj Hpeers Hst))).
  - intros [= <-]. split; [exact Hport|]. split; [exact Hsec|]. split; [exact Hpeers|]. by intros s' [= <-].
  - intros [= <-]. destruct (_ && _); [|exact (conj Hport (conj Hsec (conj Hpeers Hst)))].
    destruct Hport as (P1 & P2 & P3). split; [by split; [exact P1|split; [|exact P3]]|]. by split; [exact Hsec|].
  - unfold begin_section. cbn. destruct held; [done|]. intros [= <-]. split; [done|]. split; [|done]. cbn. unfold ensure_begin. cbv zeta.
    destruct (String.eqb_spec (mc_Device (a_meshWant a)) ""%string) as [|Hn]; [done|]. cbn [orb]. destruct (_ && _); [done|].
    split; [done|]. by apply Hport.
  - unfold begin_section. cbn. destruct held; [done|]. intros [= <-]. split; [done|]. split; [|done]. cbn. unfold sync_begin.
    destruct (a_state a) as [s|] eqn:Es; [|done]. destruct (_ || _); [done|]. by apply Hst.
  - unfold repair_begin. cbv zeta. unfold begin_section. destruct (a_state a) as [s|] eqn:Es.
    + destruct (a_meshOK a && bool_decide (a_meshCfg a = a_meshWant a)) eqn:Eok; cbn; (destruct held; [done|]); intros [= <-];
        (split; [done|]); (split; [|by split]); [|done]. apply andb_true_iff in Eok as [Hok _]. split; [by apply Hst|]. by apply Hport.
    + cbn. destruct held; [done|]. intros [= <-]. split; [done|]. split; [done|]. by split.
  - destruct held as [s|]; [|done]. destruct (section_end cfg s a d) as [a' d'] eqn:E. intros [= <-].
    destruct (ainv_end s a d a' d' Hport Hsec Hpeers Hst E) as (? & ? & ?). by split.
Qed.

Lemma ainv_run es m m' : ainv m → Forall fed es → arun cfg es m = Some m' → ainv m'.
Proof.
  intros Hi Hes. revert m Hi. induction Hes as [|e es He Hes IH]; intros m Hi; cbn [arun]; [by intros [= <-]|].
  destruct (astep cfg e m) as [m1|] eqn:E; [|done]. cbn [mbind option_bind]. apply IH. by eapply ainv_step.
Qed.

(** When [syncPeers] would do nothing, the device has the table's peers. *)
Lemma synced m s :
  ainv m → a_meshOK (ma_agent m) = true → a_state (ma_agent m) = Some s → sync_begin (ma_agent m) = None →
  has_peers (dev_peers (ma_dev m)) (wgPeers (s_Mesh s)).1.
Proof.
  intros (_ & _ & Hp & Hst) Hok Hs. unfold sync_begin. rewrite Hs, Hok. cbn [negb orb].
  destruct (_ && _) eqn:E; [|done]. intros _. apply andb_true_iff in E as [E1 E2%Z.eqb_eq].
  destruct (Hp Hok E1) as (m0 & H0 & Hv & Hh). rewrite <- (one_per_version m0 (s_Mesh s)); [done|done|by apply Hst|lia].
Qed.
End agent_runs.

(** ** The agent under a control plane *)

(** The meshes of the tables the control plane builds in a run. *)
Definition served (small_order : list Z → bool) (clock : Time) (es : list (Time * event)) (m : Wire.Mesh) : Prop :=
  ∃ n w, run small_order (take n es) (start clock) = Some w ∧ m = BuildMesh (MeshPeers (w_db w)).

Lemma served_one small_order clock es m m' :
  served small_order clock es m → served small_order clock es m' → wm_Version m = wm_Version m' → m = m'.
Proof.
  intros (n & w & Hw & ->) (n' & w' & Hw' & ->) E. cbn in E. f_equal.
  apply (peers_at_one small_order clock es n n'); [by exists w|by exists w'|done].
Qed.

Lemma served_settable small_order clock es m own :
  served small_order clock es m → own ∉ wp_PublicKey <$> (wgPeers m).1 → settable own (wgPeers m).1.
Proof.
  intros (n & w & Hw & ->). assert (Hd : dinv (w_db w)) by (apply (reachable_dinv small_order); by exists clock, (take n es)).
  destruct (wgPeers_nodes (w_db w) Hd) as (l & -> & _ & Hseat & Hkeys & Hsubs). cbn [fst]. rewrite <- list_fmap_compose.
  by apply seated_settable.
Qed.


(** C39: A configuration that becomes wanted while a repair runs is lost: when
    the repair ends it makes the configuration it began with, but for the
    port, the wanted one, so [ensureMesh] has nothing to do and the device
    keeps the old address and key until something wants them again. *)
Theorem repair_drops_wanted_config cfg `{MeshDevice} m now c mesh lost c' m1 m2 :
  ma_held m = Some (Repairing now c mesh lost) → a_meshOK (ma_agent m) = true →
  ac_MeshPort cfg ≤ mc_ListenPort c < ac_MeshPort cfg + meshPorts →
  astep cfg (AWant c') m = Some m1 → astep cfg AEnd m1 = Some m2 →
  ensure_begin (ma_agent m2) = None ∧
  (∃ port, a_meshWant (ma_agent m2) = c <| mc_ListenPort := port |>) ∧ a_meshCfg (ma_agent m2) = a_meshWant (ma_agent m2).
Proof.
  destruct m as [a d held]. cbn [ma_held ma_agent ma_dev]. intros -> Hok Hport. cbn [astep ma_agent ma_dev ma_held]. intros [= <-].
  cbn [ma_held ma_agent ma_dev]. destruct (section_end _ _ _ _) as [a' d'] eqn:E. intros [= <-]. cbn [ma_agent].
  destruct (repair_end _ _ _ _ _ _ _ _ _ E Hport) as ((port & E1 & E2 & E3 & _) & E4 & _).
  split; [|split; [by exists port|by rewrite E1, E2]]. unfold ensure_begin. cbv zeta. rewrite E4, E1, E2. cbn [want_config].
  rewrite bool_decide_eq_true_2 by done. change (a_meshOK _) with (a_meshOK a). rewrite Hok. by rewrite orb_true_r.
Qed.

(** ** Examples *)

Definition ex_cfg : agent_config :=
  MkAgentConfig "wg0" 51820 0 "192.0.2.2:51820" (MkAddrPort (Addr4 3221225986) "" 51820) 0.

Definition ex_config (address : Z) : MeshConfig :=
  MkMeshConfig "wg0" (ex_key 9) 0 0 (ac_endpoint ex_cfg) (MkPrefix (Addr6 address) 128) (cluster_ula (w_db ex_node_world)).

Definition ex_node_table : State := NewState <| s_Mesh := BuildMesh (MeshPeers (w_db ex_node_world)) |>.

Lemma ex_family : 0 ≤ 30 < 65536.
Proof. lia. Qed.

Definition ex_device : MeshDevice := kernel_mesh true (W := list_device (ex_key 2)) 30 "wg0" (λ _ s, (true, s)) ex_family.

Definition ex_start : mesh_agent (list PeerState) := MkMeshAgent (new_agent ex_cfg (ex_key 9)) demo_have None.

(** The agent configures the device and sets its table's peers. *)
Definition ex_events : list aevent :=
  [AWant (ex_config 1); AEnsure; AEnd; AState ex_node_table; ASync; AEnd].

Definition ex_key_free (n : nat) : bool :=
  match run ex_order (take n ex_node_events) (start 100) with
  | Some w => bool_decide (ex_key 2 ∉ wp_PublicKey <$> (wgPeers (BuildMesh (MeshPeers (w_db w)))).1)
  | None => true
  end.

Lemma ex_served mesh :
  served ex_order 100 ex_node_events mesh → ex_key 2 ∉ wp_PublicKey <$> (wgPeers mesh).1.
Proof.
  assert (Hall : forallb ex_key_free (seq 0 5) = true) by (vm_compute; reflexivity).
  assert (Hfree : ∀ n, ex_key_free n = true).
  { intros n. rewrite forallb_forall in Hall. destruct (Nat.le_gt_cases n 4) as [Hn|Hn]; [apply Hall, in_seq; lia|].
    unfold ex_key_free. rewrite (take_ge _ n) by (cbn; lia). apply (Hall 4%nat). apply in_seq. lia. }
  intros (n & w & Hw & ->). specialize (Hfree n). unfold ex_key_free in Hfree. rewrite Hw in Hfree.
  by apply bool_decide_eq_true in Hfree.
Qed.

Lemma ex_fed : Forall (fed (served ex_order 100 ex_node_events)) ex_events.
Proof.
  repeat constructor. exists 4%nat, ex_node_world. split; [vm_compute; reflexivity|done].
Qed.


(** A repair runs when the address of the instance changes. *)
Definition ex_repair_events : list aevent := ex_events ++ [ARepair 1000 []].

Lemma repair_drops_wanted_config_witness : ∃ m m1 m2,
  @arun ex_cfg ex_device ex_repair_events ex_start = Some m ∧
  @astep ex_cfg ex_device (AWant (ex_config 2)) m = Some m1 ∧ @astep ex_cfg ex_device AEnd m1 = Some m2 ∧
  ensure_begin (ma_agent m2) = None ∧ mc_Address (a_meshCfg (ma_agent m2)) = MkPrefix (Addr6 1) 128.
Proof.
  destruct (@arun ex_cfg ex_device ex_repair_events ex_start) as [m|] eqn:E;
    [|vm_compute in E; discriminate E].
  assert (Hheld : ma_held m = Some (Repairing 1000 ((ex_config 1) <| mc_ListenPort := 51820 |>) (s_Mesh ex_node_table) []) ∧
    a_meshOK (ma_agent m) = true) by (vm_compute in E; injection E as <-; vm_compute; done).
  destruct Hheld as [Hheld Hok].
  destruct (@astep ex_cfg ex_device AEnd (MkMeshAgent (want_config (ex_config 2) (ma_agent m)) (ma_dev m) (ma_held m)))
    as [m2|] eqn:E2; [|cbn [astep ma_held] in E2; rewrite Hheld in E2; by destruct (section_end _ _ _ _)].
  exists m, (MkMeshAgent (want_config (ex_config 2) (ma_agent m)) (ma_dev m) (ma_held m)), m2.
  split; [reflexivity|]. split; [reflexivity|]. split; [exact E2|].
  destruct (@repair_drops_wanted_config ex_cfg ex_device m 1000 ((ex_config 1) <| mc_ListenPort := 51820 |>)
    (s_Mesh ex_node_table) [] (ex_config 2) _ m2 Hheld Hok ltac:(vm_compute; split; [discriminate|reflexivity]) eq_refl E2)
    as (Hn & (port & Hw) & Hc).
  split; [exact Hn|]. rewrite Hc, Hw. reflexivity.
Defined.

Lemma ingress_device_has_nodes_witness : ∃ msgs s' n,
  SetPeers true 30 "wg0" demo_have (wgPeers (BuildMesh (MeshPeers (w_db ex_world)))).1 = Ok msgs ∧
  deliver true (H := list_device (ex_key 2)) demo_have msgs = Ok s' ∧
  i_nodes (w_db ex_world) !! "n1"%string = Some n ∧ is_Some (current_peers s' !! ex_key 1).
Proof.
  destruct (i_ingresses (w_db ex_world) !! "i1"%string) as [g|] eqn:Eg; [|vm_compute in Eg; discriminate Eg].
  destruct (i_nodes (w_db ex_world) !! "n1"%string) as [n|] eqn:En; [|vm_compute in En; discriminate En].
  assert (Hg : g_Status g = IngressJoined ∧ g_MeshPublicKey g = ex_key 2) by (vm_compute in Eg; injection Eg as <-; done).
  assert (Hn : n_Name n = "n1"%string ∧ on_mesh n = true ∧ n_MeshPublicKey n = ex_key 1) by (vm_compute in En; injection En as <-; done).
  destruct Hg as [Hg1 Hg2], Hn as (Hn1 & Hn2 & Hn3).
  destruct (ingress_device_has_nodes true (W := list_device (ex_key 2)) ex_order ex_world "i1" g demo_have 30 "wg0" ex_world_reachable Eg)
    as (_ & (msgs & s' & Hm & Hd & Hk & _) & _).
  - rewrite Hg1. discriminate.
  - exact Hg2.
  - discriminate.
  - apply (bool_decide_unpack (Forall (λ p, length (wp_PublicKey (st_Peer p)) = KeyLen) demo_have)). by vm_compute.
  - reflexivity.
  - lia.
  - exists msgs, s', n. split; [exact Hm|]. split; [exact Hd|]. split; [reflexivity|]. apply Hk. exists n. rewrite Hn1. exact (conj (conj En Hn2) Hn3).
Defined.
