(* ===== verification/ToolCalls.v ===== *)
(** * Tool calls with an id: go/internal/store/tool_calls.go, go/internal/tools

    A call of a tool with a side effect that carries an id is a row of
    tool_calls and runs in the instance that received it, on a context of its
    own.  The file holds the row and the transactions on it
    (store/tool_calls.go), the instance's memory of its calls and the decisions
    of the requests that join them (tools/keyed.go), the run of a call up to
    its final write (tools/keyed_run.go, the send of tools/runner.go and
    tools/output.go), the drain of a stopping instance (tools/keyed_drain.go)
    and the leader's loops (tools/keyed_loops.go).  [ToolCallRuns] puts them
    together as steps of instances, database and guests. *)

From S2P Require Import Prelude Text HostLabels PodId Rows.

(** ** Rows *)

Inductive CallState : Type := CallRunning | CallDone | CallInterrupted | CallNotRun.

#[export] Instance CallState_eq_dec : EqDecision CallState.
Proof. solve_decision. Defined.

(** [callRef]: the sandbox and the key. *)
Definition callRef : Type := ID * string.

Record ToolCall : Type := MkToolCall {
  tc_ID : UUID; tc_SandboxID : ID; tc_Key : string; tc_Tool : string; tc_ArgsHash : list Z;
  tc_InstanceID : string; tc_State : CallState; tc_Sent : bool; tc_LeaseUntil : Time;
  tc_StartedAt : Time; tc_FinishedAt : Time; tc_ExitCode : Z; tc_Output : string;
  tc_Truncated : bool; tc_IsError : bool; tc_Error : string
}.

#[export] Instance ToolCall_eta : Eta ToolCall := λ r,
  MkToolCall (tc_ID r) (tc_SandboxID r) (tc_Key r) (tc_Tool r) (tc_ArgsHash r) (tc_InstanceID r)
    (tc_State r) (tc_Sent r) (tc_LeaseUntil r) (tc_StartedAt r) (tc_FinishedAt r) (tc_ExitCode r)
    (tc_Output r) (tc_Truncated r) (tc_IsError r) (tc_Error r).

Record NewToolCall : Type := MkNewToolCall {
  nc_SandboxID : ID; nc_Key : string; nc_Tool : string; nc_ArgsHash : list Z;
  nc_InstanceID : string; nc_Lease : Duration
}.

Record ToolCallOutcome : Type := MkToolCallOutcome {
  co_State : CallState; co_ExitCode : Z; co_Output : string; co_Truncated : bool;
  co_IsError : bool; co_Error : string
}.

(** The table, the sandboxes it refers to and the ferun_call notifications that
    committed. *)
Record CallsDB : Type := MkCallsDB {
  cd_rows : gmap callRef ToolCall; cd_sandboxes : gset ID; cd_notes : list UUID
}.

#[export] Instance CallsDB_eta : Eta CallsDB := λ d, MkCallsDB (cd_rows d) (cd_sandboxes d) (cd_notes d).

Definition nc_ref (c : NewToolCall) : callRef := (nc_SandboxID c, nc_Key c).

Definition is_running (r : ToolCall) : bool := bool_decide (tc_State r = CallRunning).

(** ** Transactions *)

Inductive calls_error : Type := CallsNotFound | NotFinal (s : CallState).

Definition beginToolCallRetries : nat := 3.

(** The row a new run inserts. *)
Definition new_call (now : Time) (id : UUID) (c : NewToolCall) : ToolCall :=
  MkToolCall id (nc_SandboxID c) (nc_Key c) (nc_Tool c) (nc_ArgsHash c) (nc_InstanceID c)
    CallRunning false (now + interval (nc_Lease c)) now zeroTime 0 "" false false "".

(** The insert of [BeginToolCall]; [None]: the key has a row it may not
    replace. *)
Definition insertToolCall (now : Time) (id : UUID) (c : NewToolCall) (db : CallsDB)
    : result calls_error (option ToolCall * CallsDB) :=
  let row := new_call now id c in
  let insert := Ok (Some row, db <| cd_rows ::= <[nc_ref c := row]> |>) in
  if negb (bool_decide (nc_SandboxID c ∈ cd_sandboxes db)) then Err CallsNotFound else
  match cd_rows db !! nc_ref c with
  | None => insert
  | Some r =>
      if bool_decide (tc_State r = CallNotRun) && String.eqb (tc_Tool r) (nc_Tool c)
         && bool_decide (tc_ArgsHash r = nc_ArgsHash c)
      then insert else Ok (None, db)
  end.

Definition GetToolCall (ref : callRef) (db : CallsDB) : option ToolCall := cd_rows db !! ref.

(** [BeginToolCall] with nothing between its statements; [ToolCallRuns] has
    them apart. *)
Definition BeginToolCall (now : Time) (id : UUID) (c : NewToolCall) (db : CallsDB)
    : result calls_error (option (ToolCall * bool) * CallsDB) :=
  r ← insertToolCall now id c db;
  match r with
  | (Some row, db') => Ok (Some (row, true), db')
  | (None, db') => Ok ((λ row, (row, false)) <$> GetToolCall (nc_ref c) db', db')
  end.

(** UPDATE tool_calls SET f WHERE P RETURNING id. *)
Definition updated (P : ToolCall → bool) (db : CallsDB) : list UUID :=
  (λ x, tc_ID x.2) <$> filter (λ x, P x.2 = true) (map_to_list (cd_rows db)).

Definition update_where (P : ToolCall → bool) (f : ToolCall → ToolCall) (db : CallsDB) : CallsDB :=
  db <| cd_rows ::= fmap (λ r, if P r then f r else r) |>.

Definition notifyCalls (ids : list UUID) (db : CallsDB) : CallsDB := db <| cd_notes ::= (.++ ids) |>.

Definition same_id (id : UUID) (r : ToolCall) : bool := bool_decide (tc_ID r = id).

Definition MarkToolCallSent (id : UUID) (db : CallsDB) : bool * CallsDB :=
  let P r := same_id id r && is_running r in
  (negb (bool_decide (updated P db = [])), update_where P (λ r, r <| tc_Sent := true |>) db).

Definition finish_row (now : Time) (o : ToolCallOutcome) (r : ToolCall) : ToolCall :=
  r <| tc_State := co_State o |> <| tc_FinishedAt := now |> <| tc_ExitCode := co_ExitCode o |>
    <| tc_Output := co_Output o |> <| tc_Truncated := co_Truncated o |> <| tc_IsError := co_IsError o |>
    <| tc_Error := co_Error o |>.

Definition FinishToolCall (now : Time) (id : UUID) (o : ToolCallOutcome) (db : CallsDB)
    : result calls_error (bool * CallsDB) :=
  if bool_decide (co_State o = CallRunning) then Err (NotFinal (co_State o)) else
  let P r := same_id id r && is_running r in
  if (length (updated P db) =? 1)%nat
  then Ok (true, notifyCalls [id] (update_where P (finish_row now o) db))
  else Ok (false, db).

Definition AbandonToolCall (now : Time) (ref : callRef) (instanceID reason : string) (db : CallsDB)
    : bool * CallsDB :=
  let P r := bool_decide (tc_SandboxID r = ref.1) && String.eqb (tc_Key r) ref.2
             && String.eqb (tc_InstanceID r) instanceID && is_running r && negb (tc_Sent r) in
  let ids := updated P db in
  ((length ids =? 1)%nat,
   notifyCalls ids (update_where P (λ r,
     r <| tc_State := CallNotRun |> <| tc_FinishedAt := now |> <| tc_Error := reason |>) db)).

Definition RenewToolCalls (now : Time) (instanceID : string) (ids : list UUID) (lease : Duration) (db : CallsDB)
    : list UUID * CallsDB :=
  match ids with
  | [] => ([], db)
  | _ =>
      let P r := bool_decide (tc_ID r ∈ ids) && String.eqb (tc_InstanceID r) instanceID && is_running r in
      (updated P db, update_where P (λ r, r <| tc_LeaseUntil := now + interval lease |>) db)
  end.

Definition expiredSentError (r : ToolCall) : string :=
  ("interrupted: instance " +:+ tc_InstanceID r +:+ " that ran the call stopped renewing it before the call " +:+
   "ended (it crashed, or lost its database); what the call did in the sandbox is unknown: look before repeating it")%string.
Definition expiredUnsentError (r : ToolCall) : string :=
  ("not run: instance " +:+ tc_InstanceID r +:+ " that took the call stopped renewing it before the call " +:+
   "reached the sandbox; repeat it with the same id")%string.
Definition claimedSentError (r : ToolCall) : string :=
  ("interrupted: instance " +:+ tc_InstanceID r +:+ " started again; its earlier run had the call and ended " +:+
   "without its stop; what the call did in the sandbox is unknown: look before repeating it")%string.
Definition claimedUnsentError (r : ToolCall) : string :=
  ("not run: instance " +:+ tc_InstanceID r +:+ " started again before the call reached the sandbox; " +:+
   "repeat it with the same id")%string.

Definition endCallSet (sentError unsentError : ToolCall → string) (now : Time) (r : ToolCall) : ToolCall :=
  r <| tc_State := if tc_Sent r then CallInterrupted else CallNotRun |> <| tc_FinishedAt := now |>
    <| tc_Error := if tc_Sent r then sentError r else unsentError r |>.

Definition expireCallSet : Time → ToolCall → ToolCall := endCallSet expiredSentError expiredUnsentError.
Definition claimCallSet : Time → ToolCall → ToolCall := endCallSet claimedSentError claimedUnsentError.

Definition lease_ran_out (now : Time) (margin : Duration) (r : ToolCall) : bool :=
  is_running r && (tc_LeaseUntil r <? now - interval margin).

(** The rows one run of [ExpireToolCalls] ends: those not locked by others, the
    oldest leases first, at most [limit]. *)
Definition expiring (now : Time) (margin : Duration) (limit : nat) (locked : gset UUID) (db : CallsDB) : list UUID :=
  tc_ID <$> take limit (sort_by (λ a b, tc_LeaseUntil a <=? tc_LeaseUntil b)
    (filter (λ r, lease_ran_out now margin r = true ∧ tc_ID r ∉ locked) ((map_to_list (cd_rows db)).*2))).

Definition ExpireToolCalls (now : Time) (margin : Duration) (limit : nat) (locked : gset UUID) (db : CallsDB)
    : list UUID * CallsDB :=
  let P r := bool_decide (tc_ID r ∈ expiring now margin limit locked db) in
  let ids := updated P db in
  (ids, notifyCalls ids (update_where P (expireCallSet now) db)).

(** The state it wrote, or [None]. *)
Definition ExpireToolCall (now : Time) (id : UUID) (margin : Duration) (db : CallsDB)
    : option CallState * CallsDB :=
  let P r := same_id id r && lease_ran_out now margin r in
  match filter (λ x, P x.2 = true) (map_to_list (cd_rows db)) with
  | [] => (None, db)
  | x :: _ => (Some (tc_State (expireCallSet now x.2)), notifyCalls [id] (update_where P (expireCallSet now) db))
  end.

Definition EndInstanceToolCalls (now : Time) (instanceID : string) (db : CallsDB) : nat * CallsDB :=
  let P r := String.eqb (tc_InstanceID r) instanceID && is_running r in
  let ids := updated P db in
  (length ids, notifyCalls ids (update_where P (claimCallSet now) db)).

Definition retained_out (now : Time) (retention : Duration) (r : ToolCall) : bool :=
  negb (is_running r) && (tc_FinishedAt r <? now - interval retention).

(** The rows one run of [DeleteFinishedToolCalls] deletes: the oldest first. *)
Definition deleting (now : Time) (retention : Duration) (limit : nat) (db : CallsDB) : list UUID :=
  tc_ID <$> take limit (sort_by (λ a b, tc_FinishedAt a <=? tc_FinishedAt b)
    (filter (λ r, retained_out now retention r = true) ((map_to_list (cd_rows db)).*2))).

Definition DeleteFinishedToolCalls (now : Time) (retention : Duration) (limit : nat) (db : CallsDB) : nat * CallsDB :=
  let gone := deleting now retention limit db in
  (length gone, db <| cd_rows ::= filter (λ x, tc_ID x.2 ∉ gone) |>).

(** ** Keys and tools (tools/keyed.go, tools/spec.go) *)

Definition ToolBash : string := "bash".
Definition ToolRead : string := "read".
Definition ToolWrite : string := "write".
Definition ToolEdit : string := "edit".
Definition ToolRg : string := "rg".
Definition ToolFd : string := "fd".
Definition ToolProcessStart : string := "process_start".
Definition ToolProcessStop : string := "process_stop".

Definition MaxCallKey : nat := 255.
Definition MaxKeyedTimeout : Duration := 10 * Minute.
Definition callCap : nat := 64.
Definition waiterCap : nat := 4 * callCap.
Definition sendMargin : Duration := 30 * Second.
Definition maxCallError : nat := 4 * 1024.
Definition maxRecordWait : Duration := 60 * Second.
Definition MaxToolOutput : nat := 50 * 1000.

Definition key_char (c : Ascii.ascii) : bool :=
  let z := byteZ c in
  between 65 90 z || between 97 122 z || between 48 57 z
  || existsb (Ascii.eqb c) ["."; "_"; "~"; ":"; "@"; "-"]%char.

Definition ValidCallKey (key : string) : bool :=
  negb (String.eqb key "") && (String.length key <=? MaxCallKey)%nat && string_forallb key_char key.

Definition KeyedTools : list string := [ToolBash; ToolEdit; ToolProcessStart; ToolProcessStop; ToolWrite].

Definition keyedTool (tool : string) : bool := existsb (String.eqb tool) KeyedTools.

(** [binary.AppendUvarint]: seven bits at a time, the high bit set on all but
    the last; ten bytes hold a uint64. *)
Fixpoint uvarint (n : nat) (x : Z) : list Z :=
  match n with
  | O => [x]
  | S n' => if x <? 128 then [x] else (x mod 128 + 128) :: uvarint n' (x / 128)
  end.

Definition AppendUvarint (x : Z) : list Z := uvarint 9 x.

(** What [writeHash] hashes. *)
Definition write_text (path content : list Z) : list Z :=
  bytes_of ToolWrite ++ [0] ++ AppendUvarint (Z.of_nat (length path)) ++ path ++ content.

Definition writeHash (path content : list Z) : list Z := Sum256 (write_text path content).

(** ** Output (tools/output.go) *)

Record Image : Type := MkImage { im_MediaType : string; im_Data : list Z; im_Width : Z; im_Height : Z }.

Record Result : Type := MkResult {
  rs_Text : string; rs_ExitCode : Z; rs_Truncated : bool; rs_Image : option Image; rs_IsError : bool;
  rs_FirstLine : Z; rs_More : bool
}.

#[export] Instance Result_eta : Eta Result := λ r,
  MkResult (rs_Text r) (rs_ExitCode r) (rs_Truncated r) (rs_Image r) (rs_IsError r) (rs_FirstLine r) (rs_More r).

Definition noResult : Result := MkResult "" 0 false None false 0 false.

Definition isToolError (tool : string) (code : Z) : bool :=
  if code =? 0 then false
  else if String.eqb tool ToolRg || String.eqb tool ToolFd then 1 <? code
  else true.

(** [output], without its callbacks. *)
Record output : Type := MkOutput {
  o_text : string; o_audit : string; o_auditCut : bool; o_image : option Image;
  o_firstLine : Z; o_more : bool; o_sent : bool
}.

#[export] Instance output_eta : Eta output := λ o,
  MkOutput (o_text o) (o_audit o) (o_auditCut o) (o_image o) (o_firstLine o) (o_more o) (o_sent o).

Definition newOutput : output := MkOutput "" "" false None 0 false false.

Definition emit (chunk : string) (o : output) : output :=
  let o := if (String.length (o_text o) <? MaxToolOutput)%nat then o <| o_text ::= (λ t, t +:+ chunk)%string |> else o in
  let rem := (OutputCap - String.length (o_audit o))%nat in
  if (0 <? rem)%nat
  then if (rem <? String.length chunk)%nat
       then o <| o_audit ::= (λ t, t +:+ String.substring 0 rem chunk)%string |> <| o_auditCut := true |>
       else o <| o_audit ::= (λ t, t +:+ chunk)%string |>
  else o <| o_auditCut := true |>.

Definition out_result (tool : string) (code : Z) (o : output) : Result :=
  let r := MkResult (o_text o) code false (o_image o) (isToolError tool code) (o_firstLine o) (o_more o) in
  if (MaxToolOutput <? String.length (o_text o))%nat
  then r <| rs_Text := String.substring 0 MaxToolOutput (o_text o) |> <| rs_Truncated := true |>
  else r.

Definition partial (o : output) : Result := (out_result "" (-1) o) <| rs_Image := None |>.

(** [streamCap]: the bytes seen and whether the marker was emitted. *)
Record streamCap : Type := MkStreamCap { sc_n : nat; sc_cut : bool }.

Definition streamMarker : string := String "010" ("... [truncated]" +:+ String "010" "")%string.

Definition take_chunk (chunk : string) (c : streamCap) : option string * streamCap :=
  let n := (sc_n c + String.length chunk)%nat in
  if (n <=? MaxToolOutput)%nat then (Some chunk, MkStreamCap n (sc_cut c))
  else if sc_cut c then (None, MkStreamCap n true)
  else (Some streamMarker, MkStreamCap n true).

(** ** Errors (tools/errors.go) *)

Inductive Code : Type := Unavailable | FailedPrecondition | NotFound | OtherCode (n : Z).

#[export] Instance Code_eq_dec : EqDecision Code.
Proof. solve_decision. Defined.

(** The errors of a call.  [StatusError] is a gRPC status, marked as a busy VM
    or as the nodes' port's own refusal. *)
Inductive Error : Type :=
| StatusError (code : Code) (msg : string) (vmBusy refusal : bool)
| TimeoutError (seconds : Z)
| ErrExecCap | ErrCallCap | ErrCancelled | ErrCancelledByCaller | ErrRecord | ErrCallNotRun
| errStopping | errRunnerStopped | errCallLost | errCallBudget | modelErrStopping | ctxCanceled
| CallIDConflictError (tool : string) | AskAgainError (instance : string)
| NodeError (node : string) (e : Error) | BusyError (e : Error)
| Wrapped (text : string) (e : Error) | Joined (e1 e2 : Error) | OtherError (text : string).

(** [errors.Is] of one of the errors without fields, given as a test. *)
Fixpoint errors_is (t : Error → bool) (e : Error) : bool :=
  t e || match e with
         | BusyError e' | Wrapped _ e' => errors_is t e'
         | Joined a b => errors_is t a || errors_is t b
         | _ => false
         end.

Definition isCancelledByCaller (e : Error) : bool := match e with ErrCancelledByCaller => true | _ => false end.
Definition isStopping (e : Error) : bool := match e with errStopping => true | _ => false end.
Definition isRunnerStopped (e : Error) : bool := match e with errRunnerStopped => true | _ => false end.
Definition isCallLost (e : Error) : bool := match e with errCallLost => true | _ => false end.
Definition isCallBudget (e : Error) : bool := match e with errCallBudget => true | _ => false end.
Definition isCancelled (e : Error) : bool := match e with ErrCancelled => true | _ => false end.

(** [err.Error()] as a row keeps it. *)
Fixpoint error_text (e : Error) : string :=
  match e with
  | StatusError _ msg _ _ => msg
  | TimeoutError s => ("timeout after " +:+ pretty s +:+ "s")%string
  | ErrExecCap => "too many execs at once"
  | ErrCallCap => "too many calls with an id at once"
  | ErrCancelled => "the call was cancelled by the control plane: the sandbox's node is being drained"
  | ErrCancelledByCaller => "the call was cancelled by its caller"
  | ErrRecord => "the call could not be recorded"
  | ErrCallNotRun => "the call did not run; repeat it with the same id"
  | errStopping => "the instance is stopping"
  | errRunnerStopped => "the instance's runner stopped"
  | errCallLost => "the call's record was ended while it ran"
  | errCallBudget => "the call ran past its budget (the sandbox's preparation, the tool's timeout and a minute)"
  | modelErrStopping => "the instance is stopping"
  | ctxCanceled => "context canceled"
  | CallIDConflictError tool =>
      ("call id conflict: the id names another call in this sandbox (" +:+ tool +:+ " with other arguments); " +:+
       "a new call needs a new id")%string
  | AskAgainError i =>
      ("the call is still running on instance " +:+ i +:+ ", and this instance is stopping: ask again with the same id")%string
  | NodeError node e' =>
      let msg := error_text e' in
      let prefix := ("node " +:+ node)%string in
      if HasPrefix msg (prefix +:+ ":")%string || HasPrefix msg (prefix +:+ " ")%string then msg
      else (prefix +:+ ": " +:+ msg)%string
  | BusyError e' => error_text e'
  | Wrapped text e' => (text +:+ error_text e')%string
  | Joined a b => (error_text a +:+ ": " +:+ error_text b)%string
  | OtherError text => text
  end.

Definition localRefusal (e : Error) : bool := match e with StatusError _ _ _ refusal => refusal | _ => false end.

Definition VMBusy (e : Error) : bool :=
  match e with StatusError Unavailable _ busy _ => busy | _ => false end.

Definition feosdRefusal (e : Error) (id : ID) : bool :=
  if VMBusy e then true
  else match e with
       | StatusError FailedPrecondition msg _ _ => HasPrefix msg ("pod " +:+ id +:+ " is ")%string
       | StatusError NotFound msg _ _ => String.eqb msg ("no pod " +:+ id)%string
       | _ => false
       end.

Definition guestUnreachable (e : Error) : bool :=
  match e with StatusError Unavailable msg _ _ => HasPrefix msg "the guest of pod" | _ => false end.

Definition notOnPod (e : Error) : bool :=
  match e with StatusError FailedPrecondition _ _ _ | StatusError NotFound _ _ _ => true | _ => false end.

Definition callError (node : string) (e : Error) : Error :=
  match e with StatusError _ _ _ _ => NodeError node e | _ => e end.

(** [sanitizeError]. *)
Definition sanitizeError (e : option Error) : string :=
  match e with
  | None => ""
  | Some e =>
      let s := drop_nul (ToValidUTF8 (error_text e) replacement) in
      if (maxCallError <? String.length s)%nat then String.substring 0 (cut_back s maxCallError) s else s
  end.

Definition storedError (s : string) : option Error := if String.eqb s "" then None else Some (OtherError s).

(** ** A call's run (tools/keyed_run.go, tools/runner.go) *)

Record outcome : Type := MkOutcome { oc_res : Result; oc_err : option Error; oc_state : CallState }.

Record CallInfo : Type := MkCallInfo {
  ci_Keyed : bool; ci_State : option CallState; ci_Replay : bool; ci_Instance : string
}.

(** Where the goroutine of a call is: it acquires the sandbox, is about to make
    an attempt, has made one ([prev]: what o.sent was before) and waits for its
    answer, looks for the pod again, or writes its outcome. *)
Inductive run_phase : Type :=
| Acquiring
| Attempting (attempt : nat)
| InGuest (attempt : nat) (prev : bool)
| Reacquiring
| Finishing (out : outcome).

(** [keyedCall].  [kc_cause] and [kc_cancelled] are the causes with which its
    context ([kc.ctx]) and the one of its run ([cctx]) ended. *)
Record keyedCall : Type := MkKeyedCall {
  kc_id : UUID; kc_tool : string; kc_hash : list Z; kc_instance : string; kc_started : Time;
  kc_timeout : Duration; kc_sentRecorded : bool; kc_ended : bool; kc_cause : option Error;
  kc_cancelled : option Error; kc_output : output; kc_phase : run_phase
}.

#[export] Instance keyedCall_eta : Eta keyedCall := λ k,
  MkKeyedCall (kc_id k) (kc_tool k) (kc_hash k) (kc_instance k) (kc_started k) (kc_timeout k) (kc_sentRecorded k)
    (kc_ended k) (kc_cause k) (kc_cancelled k) (kc_output k) (kc_phase k).

(** [kc.cancel(cause)]: the first cause counts; the run's context is a child of
    the call's.  [cancelSandbox] ends the run's context alone. *)
Definition cancel_call (cause : Error) (kc : keyedCall) : keyedCall :=
  let first old := match old with Some c => Some c | None => Some cause end in
  kc <| kc_cause ::= first |> <| kc_cancelled ::= first |>.

Definition cancelSandbox (kc : keyedCall) : keyedCall :=
  kc <| kc_cancelled ::= λ old, match old with Some c => Some c | None => Some ErrCancelled end |>.

Definition causeOf (cause : option Error) : option Error :=
  match cause with
  | Some c =>
      if existsb (λ t, errors_is t c) [isCancelledByCaller; isStopping; isRunnerStopped; isCallLost; isCallBudget]
      then Some c else None
  | None => None
  end.

Definition ctx_ended (cause : option Error) : bool := bool_decide (is_Some cause).

(** The error of a failed [Acquire], as [callRun] returns it. *)
Definition acquire_error (kc : keyedCall) (err : Error) : Error :=
  Wrapped "ensure sandbox: "
    (match causeOf (kc_cancelled kc) with
     | Some cause => cause
     | None =>
         if negb (ctx_ended (kc_cause kc)) && match kc_cancelled kc with Some c => errors_is isCancelled c | None => false end
         then ErrCancelled else err
     end).

(** The error of failed attempts, as [callRun] returns it. *)
Definition run_error (kc : keyedCall) (err : Error) : Error :=
  if ctx_ended (kc_cause kc)
  then match causeOf (kc_cancelled kc) with Some cause => cause | None => ctxCanceled end
  else match kc_cancelled kc with
       | Some c => if errors_is isCancelled c then ErrCancelled else err
       | None => err
       end.

Definition classify (instanceID : string) (res : Result) (sent : bool) (err : option Error) : outcome :=
  match err with
  | None => MkOutcome res None CallDone
  | Some e =>
      if errors_is isCancelledByCaller e then MkOutcome res (Some ErrCancelledByCaller) CallDone
      else if errors_is isStopping e || errors_is isRunnerStopped e then
        if sent
        then MkOutcome res (Some (OtherError ("interrupted: instance " +:+ instanceID +:+ " stopped before the call " +:+
               "ended (its shutdown grace passed); what the call did in the sandbox is unknown: look before repeating it")%string))
               CallInterrupted
        else MkOutcome res (Some (Wrapped ("instance " +:+ instanceID +:+ " is stopping: ")%string modelErrStopping)) CallNotRun
      else if errors_is isCallLost e then
        MkOutcome res (Some errCallLost) (if sent then CallInterrupted else CallNotRun)
      else if negb sent then MkOutcome res err CallNotRun
      else MkOutcome res err CallDone
  end.

(** The end of [callRun] and what [runKeyed] does with it: stop, [classify] and
    on to the final write. *)
Definition run_ended (res : Result) (err : option Error) (kc : keyedCall) : keyedCall :=
  (cancel_call ctxCanceled kc) <| kc_ended := true |>
    <| kc_phase := Finishing (classify (kc_instance kc) res (o_sent (kc_output kc)) err) |>.

Definition acquired (kc : keyedCall) : keyedCall := kc <| kc_phase := Attempting 0 |>.

(** [callRun] whose [Acquire] failed: nothing was sent. *)
Definition acquire_failed (err : Error) (kc : keyedCall) : keyedCall :=
  run_ended noResult (Some (acquire_error kc err)) kc.

(** Attempts that failed with [err]. *)
Definition run_failed (err : Error) (kc : keyedCall) : keyedCall :=
  run_ended (partial (kc_output kc)) (Some (run_error kc err)) kc.

(** What [GetPod] told of the pod. *)
Inductive pod_answer : Type := PodPending | PodRunning | PodOther | PodUnknown.

(** How [attempts] goes on after a failed attempt. *)
Inductive next_step : Type := Again | Stop (err : Error).

(** The failure of the attempt [attempt] in [attempts], after the output's sent
    was put back for a refusal. *)
Definition next_attempt (node : string) (attempt : nat) (received cctxEnded : bool) (pod : pod_answer) (err : Error) : next_step :=
  if cctxEnded then Stop (callError node err)
  else if VMBusy err then Stop (BusyError (callError node err))
  else if (0 <? attempt)%nat || received then Stop (callError node err)
  else if notOnPod err then Again
  else if guestUnreachable err then
    match pod with PodRunning => Stop (callError node err) | _ => Again end
  else Stop (callError node err).

(** A failed attempt: [before] is what o.sent was before it. *)
Definition attempt_failed (id : ID) (node : string) (attempt : nat) (before received : bool) (pod : pod_answer)
    (err : Error) (kc : keyedCall) : keyedCall :=
  let kc := if negb received && feosdRefusal err id then kc <| kc_output ::= (λ o, o <| o_sent := before |>) |> else kc in
  match next_attempt node attempt received (ctx_ended (kc_cancelled kc)) pod err with
  | Again => kc <| kc_phase := Reacquiring |>
  | Stop e => run_failed e kc
  end.

(** An attempt that failed before its request left (no connection, no exec
    slot, a closed gate). *)
Definition not_sent (id : ID) (node : string) (pod : pod_answer) (err : Error) (attempt : nat) (kc : keyedCall) : keyedCall :=
  attempt_failed id node attempt (o_sent (kc_output kc)) false pod err kc.

(** [output.send] past the gate: the request leaves. *)
Definition send (attempt : nat) (kc : keyedCall) : keyedCall :=
  kc <| kc_phase := InGuest attempt (o_sent (kc_output kc)) |> <| kc_output ::= (λ o, o <| o_sent := true |>) |>.

(** [deadline]: the failure of an attempt that its own limit ended. *)
Definition deadline (cctxEnded limit : bool) (timeout : Duration) (err : Error) : Error :=
  if negb cctxEnded && limit then TimeoutError (Z.quot timeout Second) else err.

(** The request answered with an error: [exec] and [invoke] put sent back for
    the port's own refusal of the request, which comes before the stream is
    [opened]. *)
Definition answered_error (id : ID) (node : string) (opened received limit : bool) (pod : pod_answer) (err : Error)
    (attempt : nat) (prev : bool) (kc : keyedCall) : keyedCall :=
  let kc := if negb opened && localRefusal err then kc <| kc_output ::= (λ o, o <| o_sent := prev |>) |> else kc in
  attempt_failed id node attempt prev received pod
    (deadline (ctx_ended (kc_cancelled kc)) limit (kc_timeout kc) err) kc.

(** The request answered with an exit code. *)
Definition answered (code : Z) (kc : keyedCall) : keyedCall :=
  run_ended (out_result (kc_tool kc) code (kc_output kc)) None kc.

Definition reacquired (kc : keyedCall) : keyedCall := kc <| kc_phase := Attempting 1 |>.

(** [Sync], [Acquire] or [WaitRunning] between the attempts failed. *)
Definition reacquire_failed (err : Error) (kc : keyedCall) : keyedCall :=
  run_failed (Wrapped "ensure sandbox: " err) kc.

(** What [finishKeyed] writes. *)
Definition final_write (out : outcome) : ToolCallOutcome :=
  MkToolCallOutcome (oc_state out) (rs_ExitCode (oc_res out)) (rs_Text (oc_res out)) (rs_Truncated (oc_res out))
    (rs_IsError (oc_res out)) (sanitizeError (oc_err out)).

(** [stored]: the answer of an ended row. *)
Definition stored (row : ToolCall) : Result * CallInfo * option Error :=
  (MkResult (tc_Output row) (tc_ExitCode row) (tc_Truncated row) None (tc_IsError row) 0 false,
   MkCallInfo true (Some (tc_State row)) true (tc_InstanceID row), storedError (tc_Error row)).

(** [storedOutcome], given the row it read. *)
Definition storedOutcome (kc : keyedCall) (out : outcome) (row : option ToolCall) : outcome :=
  match row with
  | Some r =>
      if negb (same_id (kc_id kc) r) || is_running r
      then MkOutcome (oc_res out) (Some errCallLost) CallInterrupted
      else let '(res, _, err) := stored r in MkOutcome res err (tc_State r)
  | None => MkOutcome (oc_res out) (Some errCallLost) CallInterrupted
  end.

(** ** The instance's calls (tools/keyed.go, tools/keyed_drain.go) *)

(** A join that holds the per-key lock: it has its slot and inserts ([left]
    tries more), reads the row its insert met, has a row or the error of its
    insert. *)
Inductive join_phase : Type :=
| Inserting (left : nat)
| Reading (left : nat)
| Inserted (row : ToolCall)
| InsertFailed.

(** [keyedState].  [ks_joins] are the holders of the per-key locks. *)
Record keyedState : Type := MkKeyedState {
  ks_instance : string; ks_lease : Duration; ks_retention : Duration; ks_cap : nat; ks_waiterCap : nat;
  ks_calls : gmap callRef keyedCall; ks_joins : gmap callRef join_phase; ks_waiters : gmap ID nat;
  ks_perSandbox : gmap ID nat; ks_renewing : bool; ks_draining : bool; ks_drainDeadline : Time
}.

#[export] Instance keyedState_eta : Eta keyedState := λ k,
  MkKeyedState (ks_instance k) (ks_lease k) (ks_retention k) (ks_cap k) (ks_waiterCap k) (ks_calls k) (ks_joins k)
    (ks_waiters k) (ks_perSandbox k) (ks_renewing k) (ks_draining k) (ks_drainDeadline k).

Definition CallLease : Duration := 30 * Second.
Definition CallRetention : Duration := Hour.

(** [NewRunner]'s keyedState. *)
Definition newKeyedState (instanceID : string) : keyedState :=
  MkKeyedState instanceID CallLease CallRetention callCap waiterCap ∅ ∅ ∅ ∅ false false zeroTime.

Definition count (m : gmap ID nat) (id : ID) : nat := default 0%nat (m !! id).

(** [m[id]--], deleted at 0. *)
Definition give_back (id : ID) (m : gmap ID nat) : gmap ID nat :=
  if (count m id <=? 1)%nat then delete id m else <[id := (count m id - 1)%nat]> m.

Definition reserve (id : ID) (k : keyedState) : result Error keyedState :=
  if ks_draining k then Err (Wrapped ("instance " +:+ ks_instance k +:+ " is stopping: ")%string modelErrStopping)
  else if negb (ks_renewing k) then
    Err (Wrapped ("instance " +:+ ks_instance k +:+ " does not record calls with an id now (it is starting or stopping): ")%string
           modelErrStopping)
  else if (ks_cap k <=? count (ks_perSandbox k) id)%nat then
    Err (Wrapped ("sandbox " +:+ id +:+ ": ")%string ErrCallCap)
  else Ok (k <| ks_perSandbox ::= (λ m, <[id := S (count m id)]> m) |>).

Definition unreserve (id : ID) (k : keyedState) : keyedState := k <| ks_perSandbox ::= give_back id |>.

Definition attach (id : ID) (k : keyedState) : result Error keyedState :=
  if (ks_waiterCap k <=? count (ks_waiters k) id)%nat then Err (Wrapped ("sandbox " +:+ id +:+ ": ")%string ErrCallCap)
  else Ok (k <| ks_waiters ::= (λ m, <[id := S (count m id)]> m) |>).

Definition detach (id : ID) (k : keyedState) : keyedState := k <| ks_waiters ::= give_back id |>.

Definition BeginDrain (deadline : Time) (k : keyedState) : keyedState :=
  if ks_draining k then k else k <| ks_draining := true |> <| ks_drainDeadline := deadline |>.

(** [startKeyed] of the row a join inserted; the join's slot moves to the call. *)
Definition startKeyed (ref : callRef) (timeout : Duration) (row : ToolCall) (k : keyedState) : keyedState :=
  k <| ks_calls ::= <[ref := MkKeyedCall (tc_ID row) (tc_Tool row) (tc_ArgsHash row) (ks_instance k) (tc_StartedAt row)
                       timeout false false None None newOutput Acquiring]> |>
    <| ks_joins ::= delete ref |>.

(** [settle]: the call is removed and its slot given back. *)
Definition settle (ref : callRef) (k : keyedState) : keyedState :=
  k <| ks_calls ::= delete ref |> <| ks_perSandbox ::= give_back ref.1 |>.

(** [gate], given what [MarkToolCallSent] answers if it is asked. *)
Definition gate_closed (now : Time) (timeout : Duration) (k : keyedState) : bool :=
  negb (IsZero (ks_drainDeadline k)) && (ks_drainDeadline k - now <? timeout + sendMargin).

Definition gate (now : Time) (timeout : Duration) (k : keyedState) (mark : result Error bool) (kc : keyedCall)
    : result Error keyedCall :=
  if gate_closed now timeout k
  then Err (Wrapped ("instance " +:+ ks_instance k +:+ " is stopping and the call would not end before its shutdown grace: ")%string
              modelErrStopping)
  else if kc_sentRecorded kc then Ok kc
  else match mark with
       | Err e => Err (Joined ErrRecord e)
       | Ok false => Err errCallLost
       | Ok true => Ok (kc <| kc_sentRecorded := true |>)
       end.

(** The answer of a request, or that it waits for a row or must ask again. *)
Inductive answer : Type :=
| Answer (res : Result) (info : CallInfo) (err : option Error)
| WaitRow (row : ToolCall)
| JoinAgain.

Definition conflict (tool : string) : answer :=
  Answer noResult (MkCallInfo true None false "") (Some (CallIDConflictError tool)).

Definition other_call (tool : string) (hash : list Z) (row_tool : string) (row_hash : list Z) : bool :=
  negb (String.eqb row_tool tool) || negb (bool_decide (row_hash = hash)).

(** [existing]: a request answered from a row of another run. *)
Definition existing (row : ToolCall) (tool : string) (hash : list Z) : answer :=
  if other_call tool hash (tc_Tool row) (tc_ArgsHash row) then conflict (tc_Tool row)
  else if is_running row then WaitRow row
  else let '(res, info, err) := stored row in Answer res info err.

Definition notRun (k : keyedState) : CallInfo := MkCallInfo true (Some CallNotRun) false (ks_instance k).

(** [refused]: a request that [reserve] refused, given the key's row. *)
Definition refused (k : keyedState) (row : option ToolCall) (tool : string) (hash : list Z) (refusal : Error) : answer :=
  match row with
  | None => Answer noResult (notRun k) (Some refusal)
  | Some r =>
      if negb (bool_decide (tc_State r = CallNotRun)) then existing r tool hash
      else if other_call tool hash (tc_Tool r) (tc_ArgsHash r) then conflict (tc_Tool r)
      else Answer noResult (notRun k) (Some refusal)
  end.

(** The first look of [join] at the instance's own calls, under the lock. *)
Inductive joined_how : Type := JoinConflict (a : answer) | JoinAttach (kc : keyedCall) | JoinRefused (refusal : Error)
  | JoinReserved (k : keyedState).

Definition join (ref : callRef) (tool : string) (hash : list Z) (k : keyedState) : joined_how :=
  match ks_calls k !! ref with
  | Some kc => if other_call tool hash (kc_tool kc) (kc_hash kc) then JoinConflict (conflict (kc_tool kc)) else JoinAttach kc
  | None =>
      match reserve ref.1 k with
      | Err refusal => JoinRefused refusal
      | Ok k' => JoinReserved (k' <| ks_joins ::= <[ref := Inserting beginToolCallRetries]> |>)
      end
  end.

(** ** Waiting for another run's row *)

Inductive looked : Type := Gone | StillRunning | Ended (row : ToolCall).

(** One look of [awaitRow] at the row of the run [id]. *)
Definition look (ref : callRef) (id : UUID) (db : CallsDB) : looked :=
  match GetToolCall ref db with
  | None => Gone
  | Some cur => if negb (same_id id cur) then Gone else if is_running cur then StillRunning else Ended cur
  end.

(** [mayExpire]: the instance's database has not failed within a lease. *)
Definition mayExpire (now : Time) (lease : Duration) (lastFailure : Time) : bool :=
  IsZero lastFailure || (lease <? now - lastFailure).

(** One check of [awaitRow]: a look, and when the row still runs and the guard
    allows it, its expiry and another look. *)
Definition await_check (now : Time) (lease : Duration) (lastFailure : Time) (ref : callRef) (id : UUID) (db : CallsDB)
    : looked * CallsDB :=
  match look ref id db with
  | StillRunning =>
      if mayExpire now lease lastFailure
      then match ExpireToolCall now id lease db with
           | (None, db') => (StillRunning, db')
           | (Some _, db') => (look ref id db', db')
           end
      else (StillRunning, db)
  | l => (l, db)
  end.

(** [waitRow]'s answer, once [awaitRow] ended without an error. *)
Definition wait_answer (l : looked) : option answer :=
  match l with
  | Gone => Some JoinAgain
  | StillRunning => None
  | Ended row => let '(res, info, err) := stored row in Some (Answer res info err)
  end.

(** ** Records *)

Record CallRecord : Type := MkCallRecord {
  cr_Key : string; cr_Tool : string; cr_State : CallState; cr_Instance : string; cr_StartedAt : Time;
  cr_FinishedAt : Time; cr_Result : Result; cr_Err : string
}.

Definition recordOf (row : ToolCall) : CallRecord :=
  let res := MkResult (tc_Output row) (tc_ExitCode row) (tc_Truncated row) None (tc_IsError row) 0 false in
  MkCallRecord (tc_Key row) (tc_Tool row) (tc_State row) (tc_InstanceID row) (tc_StartedAt row) (tc_FinishedAt row)
    (if is_running row then noResult else res) (if is_running row then "" else tc_Error row).

(** [LookupCall]; [None] is ErrNoCall. *)
Definition LookupCall (ref : callRef) (k : keyedState) (db : CallsDB) : option CallRecord :=
  match ks_calls k !! ref with
  | Some kc => Some (MkCallRecord ref.2 (kc_tool kc) CallRunning (kc_instance kc) (kc_started kc) zeroTime noResult "")
  | None => recordOf <$> GetToolCall ref db
  end.

(** [CancelCall] of a valid key: it cancels the call here, or the row's state
    says whether the notification to the other instance is sent. *)
Definition CancelCall (ref : callRef) (k : keyedState) (db : CallsDB) : bool * keyedState :=
  match ks_calls k !! ref with
  | Some kc => (true, k <| ks_calls ::= <[ref := cancel_call ErrCancelledByCaller kc]> |>)
  | None => (match GetToolCall ref db with Some r => is_running r | None => false end, k)
  end.

(** ** Renewal and the leader's loops (tools/keyed_run.go, tools/keyed_loops.go) *)

(** [lost]: the call whose row the renewal missed. *)
Definition lost (kc : keyedCall) : keyedCall := if kc_ended kc then kc else cancel_call errCallLost kc.

Definition call_ids (k : keyedState) : list UUID := (λ x, kc_id x.2) <$> map_to_list (ks_calls k).

Definition renewCallsOnce (now : Time) (k : keyedState) (db : CallsDB) : keyedState * CallsDB :=
  let '(renewed, db') := RenewToolCalls now (ks_instance k) (call_ids k) (ks_lease k) db in
  (k <| ks_calls ::= fmap (λ kc, if bool_decide (kc_id kc ∈ renewed) then kc else lost kc) |>, db').

Definition expiryBatch : nat := 256.
Definition retentionBatch : nat := 1000.
Definition retentionBatches : nat := 10.

(** [callsHealthy]: [since] is when the instance began to lead, zero when it
    does not. *)
Definition callsHealthy (now : Time) (lease : Duration) (since lastFailure : Time) : bool :=
  negb (IsZero since) && negb (now - since <? lease) && mayExpire now lease lastFailure.

(** [expireCalls] of a healthy leader that stays one: batches until one comes
    back short.  A batch locks its rows; [locked] are those of others. *)
Fixpoint expire_batches (fuel : nat) (now : Time) (locked : gset UUID) (db : CallsDB) : option CallsDB :=
  match fuel with
  | O => None
  | S fuel' =>
      let '(ids, db') := ExpireToolCalls now 0 expiryBatch locked db in
      if (length ids <? expiryBatch)%nat then Some db' else expire_batches fuel' now locked db'
  end.

Definition expireCalls (now : Time) (lease : Duration) (since lastFailure : Time) (locked : gset UUID) (db : CallsDB)
    : option CallsDB :=
  if callsHealthy now lease since lastFailure then expire_batches (S (size (cd_rows db))) now locked db else Some db.

(** [deleteFinished]. *)
Fixpoint delete_batches (n : nat) (now : Time) (retention : Duration) (db : CallsDB) : CallsDB :=
  match n with
  | O => db
  | S n' =>
      let '(deleted, db') := DeleteFinishedToolCalls now retention retentionBatch db in
      if (deleted <? retentionBatch)%nat then db' else delete_batches n' now retention db'
  end.

Definition deleteFinished (now : Time) (retention : Duration) (db : CallsDB) : CallsDB :=
  delete_batches retentionBatches now retention db.
