(* ===== verification/ToolCallRuns.v ===== *)
(** * Instances, the database and the guests of tool calls

    The steps of [ToolCalls] as they interleave: instances join, run, renew
    and finish calls, crash and start again under the same ID, database
    answers are lost after their commit, and requests sent into guests run
    there at any time or never.  The theorems: a call recorded as not run never
    ran and never will, so a key's call runs at most once while its record is
    kept; ended rows stay as they are; calls of dead instances end; the calls
    of a sandbox on an instance never pass its cap; what is written fits the
    table. *)

From S2P Require Import Prelude Text PodId Rows ToolCalls.

(** ** The world *)

(** [w_flight] are the requests that left for a guest (a run and the number of
    its attempt) and [w_ran] those that ran there.  [w_issued], [w_owner] and
    [w_notrun] only record: the run IDs ever drawn, the instance and key whose
    insert got one, and the runs ever committed as not run. *)
Record world : Type := MkWorld {
  w_now : Time; w_db : CallsDB; w_inst : gmap nat keyedState;
  w_flight : gset (UUID * nat); w_ran : gset (UUID * nat);
  w_issued : gset UUID; w_owner : gmap UUID (nat * callRef); w_notrun : gset UUID
}.

#[export] Instance world_eta : Eta world := λ w,
  MkWorld (w_now w) (w_db w) (w_inst w) (w_flight w) (w_ran w) (w_issued w) (w_owner w) (w_notrun w).

Definition not_run_ids (db : CallsDB) : gset UUID :=
  list_to_set ((λ x, tc_ID x.2) <$> filter (λ x, tc_State x.2 = CallNotRun) (map_to_list (cd_rows db))).

Definition db_commit (db : CallsDB) (w : world) : world :=
  w <| w_db := db |> <| w_notrun ::= (.∪ not_run_ids db) |>.

Definition set_inst (p : nat) (k : keyedState) (w : world) : world := w <| w_inst ::= <[p := k]> |>.

Definition set_call (ref : callRef) (kc : keyedCall) (k : keyedState) : keyedState :=
  k <| ks_calls ::= <[ref := kc]> |>.

Definition set_join (ref : callRef) (j : join_phase) (k : keyedState) : keyedState :=
  k <| ks_joins ::= <[ref := j]> |>.

Definition unlock (ref : callRef) (k : keyedState) : keyedState := k <| ks_joins ::= delete ref |>.

(** A request whose failure puts sent back: the node's port refused it, or feosd
    did before it routed it to the guest. *)
Definition put_back (id : ID) (opened received limit : bool) (err : Error) (kc : keyedCall) : bool :=
  negb opened && localRefusal err
  || negb received && feosdRefusal (deadline (ctx_ended (kc_cancelled kc)) limit (kc_timeout kc) err) id.

(** A new run of the key [ref] by the instance [k]. *)
Definition asks (ref : callRef) (k : keyedState) (c : NewToolCall) : Prop :=
  nc_ref c = ref ∧ nc_InstanceID c = ks_instance k.

(** What happens to a call that the instance has in memory. *)
Inductive run_step (ref : callRef) : keyedCall → keyedCall → Prop :=
| run_acquired kc : kc_phase kc = Acquiring → run_step ref kc (acquired kc)
| run_acquire_failed err kc : kc_phase kc = Acquiring → run_step ref kc (acquire_failed err kc)
| run_not_sent node pod err attempt kc :
    kc_phase kc = Attempting attempt → run_step ref kc (not_sent ref.1 node pod err attempt kc)
| run_emit chunk attempt prev kc :
    kc_phase kc = InGuest attempt prev → run_step ref kc (kc <| kc_output ::= emit chunk |>)
| run_answered code attempt prev kc : kc_phase kc = InGuest attempt prev → run_step ref kc (answered code kc)
| run_answered_error node opened received limit pod err attempt prev kc :
    kc_phase kc = InGuest attempt prev → put_back ref.1 opened received limit err kc = false →
    run_step ref kc (answered_error ref.1 node opened received limit pod err attempt prev kc)
| run_reacquired kc : kc_phase kc = Reacquiring → run_step ref kc (reacquired kc)
| run_reacquire_failed err kc : kc_phase kc = Reacquiring → run_step ref kc (reacquire_failed err kc)
| run_cancel cause kc : run_step ref kc (cancel_call cause kc)
| run_cancel_sandbox kc : run_step ref kc (cancelSandbox kc)
| run_lost kc : run_step ref kc (lost kc).

(** What a join that holds the key's lock does: the database's answer may be
    lost after the insert committed. *)
Inductive join_step (p : nat) (ref : callRef) (k : keyedState) : world → world → Prop :=
| join_inserted left c id row db w :
    ks_joins k !! ref = Some (Inserting left) → asks ref k c → id ∉ w_issued w →
    insertToolCall (w_now w) id c (w_db w) = Ok (Some row, db) →
    join_step p ref k w (set_inst p (set_join ref (Inserted row) k)
      ((db_commit db w) <| w_issued ::= ({[id]} ∪.) |> <| w_owner ::= <[id := (p, ref)]> |>))
| join_insert_lost left c id row db w :
    ks_joins k !! ref = Some (Inserting left) → asks ref k c → id ∉ w_issued w →
    insertToolCall (w_now w) id c (w_db w) = Ok (Some row, db) →
    join_step p ref k w (set_inst p (unreserve ref.1 (set_join ref InsertFailed k))
      ((db_commit db w) <| w_issued ::= ({[id]} ∪.) |>))
| join_conflict left c id db w :
    ks_joins k !! ref = Some (Inserting left) → asks ref k c →
    insertToolCall (w_now w) id c (w_db w) = Ok (None, db) →
    join_step p ref k w (set_inst p (set_join ref (Reading left) k) w)
| join_no_sandbox left c id e w :
    ks_joins k !! ref = Some (Inserting left) → asks ref k c →
    insertToolCall (w_now w) id c (w_db w) = Err e →
    join_step p ref k w (set_inst p (unreserve ref.1 (unlock ref k)) w)
| join_existing left row w :
    ks_joins k !! ref = Some (Reading left) → GetToolCall ref (w_db w) = Some row →
    join_step p ref k w (set_inst p (unreserve ref.1 (unlock ref k)) w)
| join_retry left w :
    ks_joins k !! ref = Some (Reading (S left)) → GetToolCall ref (w_db w) = None →
    join_step p ref k w (set_inst p (set_join ref (Inserting left) k) w)
| join_failed j w :
    ks_joins k !! ref = Some j → (∃ left, j = Inserting left ∨ j = Reading left) →
    join_step p ref k w (set_inst p (unreserve ref.1 (set_join ref InsertFailed k)) w)
| join_abandon reason w :
    ks_joins k !! ref = Some InsertFailed →
    join_step p ref k w (set_inst p (unlock ref k) (db_commit (AbandonToolCall (w_now w) ref (ks_instance k) reason (w_db w)).2 w))
| join_not_abandoned w :
    ks_joins k !! ref = Some InsertFailed → join_step p ref k w (set_inst p (unlock ref k) w)
| join_start timeout row w :
    ks_joins k !! ref = Some (Inserted row) →
    join_step p ref k w (set_inst p (startKeyed ref timeout row k) w).

(** The sends and final writes of a call. *)
Inductive call_step (p : nat) (ref : callRef) (k : keyedState) (kc : keyedCall) : world → world → Prop :=
| call_runs kc' w : run_step ref kc kc' → call_step p ref k kc w (set_inst p (set_call ref kc' k) w)
| call_sent attempt kc' w :
    kc_phase kc = Attempting attempt →
    gate (w_now w) (kc_timeout kc) k (Ok (MarkToolCallSent (kc_id kc) (w_db w)).1) kc = Ok kc' →
    call_step p ref k kc w (set_inst p (set_call ref (send attempt kc') k)
      ((if kc_sentRecorded kc then w else db_commit (MarkToolCallSent (kc_id kc) (w_db w)).2 w)
         <| w_flight ::= ({[(kc_id kc, attempt)]} ∪.) |>))
| call_gate_closed node pod attempt err w :
    kc_phase kc = Attempting attempt →
    gate (w_now w) (kc_timeout kc) k (Ok (MarkToolCallSent (kc_id kc) (w_db w)).1) kc = Err err →
    call_step p ref k kc w (set_inst p (set_call ref (not_sent ref.1 node pod err attempt kc) k) w)
| call_mark_lost node pod attempt e err w :
    kc_phase kc = Attempting attempt → gate (w_now w) (kc_timeout kc) k (Err e) kc = Err err →
    call_step p ref k kc w (set_inst p (set_call ref (not_sent ref.1 node pod err attempt kc) k)
      (db_commit (MarkToolCallSent (kc_id kc) (w_db w)).2 w))
| call_refused node opened received limit pod err attempt prev w :
    kc_phase kc = InGuest attempt prev → put_back ref.1 opened received limit err kc = true →
    (kc_id kc, attempt) ∉ w_ran w →
    call_step p ref k kc w
      (set_inst p (set_call ref (answered_error ref.1 node opened received limit pod err attempt prev kc) k)
         (w <| w_flight ::= (.∖ {[(kc_id kc, attempt)]}) |>))
| call_finished out finished db w :
    kc_phase kc = Finishing out → FinishToolCall (w_now w) (kc_id kc) (final_write out) (w_db w) = Ok (finished, db) →
    call_step p ref k kc w (set_inst p (settle ref k) (db_commit db w))
| call_finish_lost out finished db w :
    kc_phase kc = Finishing out → FinishToolCall (w_now w) (kc_id kc) (final_write out) (w_db w) = Ok (finished, db) →
    call_step p ref k kc w (db_commit db w)
| call_given_up out w :
    kc_phase kc = Finishing out → call_step p ref k kc w (set_inst p (settle ref k) w).

Inductive wstep : world → world → Prop :=
| step_tick now w : w_now w ≤ now → wstep w (w <| w_now := now |>)
| step_sandbox id w : wstep w (w <| w_db := (w_db w) <| cd_sandboxes ::= ({[id]} ∪.) |> |>)
| step_sandbox_deleted id w :
    wstep w (w <| w_db := (w_db w) <| cd_sandboxes ::= (.∖ {[id]}) |> <| cd_rows ::= filter (λ x, x.1.1 ≠ id) |> |>)
| step_start p instanceID w : w_inst w !! p = None → wstep w (set_inst p (newKeyedState instanceID) w)
| step_crash p w : wstep w (w <| w_inst ::= delete p |>)
| step_run p b k w : w_inst w !! p = Some k → wstep w (set_inst p (k <| ks_renewing := b |>) w)
| step_drain p deadline k w : w_inst w !! p = Some k → wstep w (set_inst p (BeginDrain deadline k) w)
| step_attach p id k k' w :
    w_inst w !! p = Some k → attach id k = Ok k' → wstep w (set_inst p k' w)
| step_detach p id k w :
    w_inst w !! p = Some k → (0 < count (ks_waiters k) id)%nat → wstep w (set_inst p (detach id k) w)
| step_join p ref tool hash k k' w :
    w_inst w !! p = Some k → ks_joins k !! ref = None → join ref tool hash k = JoinReserved k' →
    wstep w (set_inst p k' w)
| step_joining p ref k w w' : w_inst w !! p = Some k → join_step p ref k w w' → wstep w w'
| step_calling p ref k kc w w' :
    w_inst w !! p = Some k → ks_calls k !! ref = Some kc → call_step p ref k kc w w' → wstep w w'
| step_guest x w : x ∈ w_flight w → wstep w (w <| w_ran ::= ({[x]} ∪.) |>)
| step_renew p k w :
    w_inst w !! p = Some k →
    wstep w (db_commit (RenewToolCalls (w_now w) (ks_instance k) (call_ids k) (ks_lease k) (w_db w)).2 w)
| step_expire margin limit locked w :
    wstep w (db_commit (ExpireToolCalls (w_now w) margin limit locked (w_db w)).2 w)
| step_expire_one id margin w : wstep w (db_commit (ExpireToolCall (w_now w) id margin (w_db w)).2 w)
| step_claim instanceID w : wstep w (db_commit (EndInstanceToolCalls (w_now w) instanceID (w_db w)).2 w)
| step_retention retention limit w :
    wstep w (db_commit (DeleteFinishedToolCalls (w_now w) retention limit (w_db w)).2 w).

(** An empty table, and no instance. *)
Definition w_initial (w : world) : Prop :=
  cd_rows (w_db w) = ∅ ∧ w_inst w = ∅ ∧ w_flight w = ∅ ∧ w_ran w = ∅ ∧ w_issued w = ∅ ∧ w_owner w = ∅ ∧ w_notrun w = ∅
  ∧ cd_notes (w_db w) = [].

Definition w_reachable (w : world) : Prop := ∃ w0, w_initial w0 ∧ rtc wstep w0 w.

(** ** The invariant *)

Definition requests (w : world) : gset (UUID * nat) := w_flight w ∪ w_ran w.

(** No request of the run ever left. *)
Definition silent (F : gset (UUID * nat)) (id : UUID) : Prop := ∀ n, (id, n) ∉ F.

Definition finishing (kc : keyedCall) : bool := match kc_phase kc with Finishing _ => true | _ => false end.

(** A call in memory: what it knows of its requests. *)
Record call_ok (rows : gmap callRef ToolCall) (F : gset (UUID * nat)) (notrun : gset UUID) (kc : keyedCall) : Prop := {
  call_recorded ref r : kc_sentRecorded kc = true → rows !! ref = Some r → tc_ID r = kc_id kc → tc_Sent r = true;
  call_live : kc_sentRecorded kc = true → finishing kc = false → kc_id kc ∉ notrun;
  call_unrecorded : kc_sentRecorded kc = false → o_sent (kc_output kc) = false;
  call_unsent : finishing kc = false → o_sent (kc_output kc) = false → silent F (kc_id kc);
  call_in_guest n prev : kc_phase kc = InGuest n prev →
    kc_sentRecorded kc = true ∧ (prev = false → ∀ m, m ≠ n → (kc_id kc, m) ∉ F);
  call_finishing out : kc_phase kc = Finishing out →
    oc_state out ≠ CallRunning ∧ (oc_state out = CallNotRun → silent F (kc_id kc))
    ∧ (oc_state out = CallInterrupted → kc_sentRecorded kc = true)
}.

Record rows_ok (rows : gmap callRef ToolCall) (F : gset (UUID * nat)) (issued notrun : gset UUID) : Prop := {
  row_issued ref r : rows !! ref = Some r → tc_ID r ∈ issued;
  row_unique ref1 ref2 r1 r2 : rows !! ref1 = Some r1 → rows !! ref2 = Some r2 → tc_ID r1 = tc_ID r2 → ref1 = ref2;
  row_sent ref r : rows !! ref = Some r → tc_Sent r = false → silent F (tc_ID r);
  row_notrun ref r : rows !! ref = Some r → (tc_State r = CallNotRun ↔ tc_ID r ∈ notrun);
  row_interrupted ref r : rows !! ref = Some r → tc_State r = CallInterrupted → tc_Sent r = true
}.

Definition calls_ok (w : world) (p : nat) (k : keyedState) : Prop :=
  (∀ ref kc, ks_calls k !! ref = Some kc →
     w_owner w !! kc_id kc = Some (p, ref) ∧ call_ok (cd_rows (w_db w)) (requests w) (w_notrun w) kc)
  ∧ (∀ ref row, ks_joins k !! ref = Some (Inserted row) →
       w_owner w !! tc_ID row = Some (p, ref) ∧ silent (requests w) (tc_ID row))
  ∧ (∀ ref, is_Some (ks_joins k !! ref) → ks_calls k !! ref = None).

Record world_ok (w : world) : Prop := {
  world_rows : rows_ok (cd_rows (w_db w)) (requests w) (w_issued w) (w_notrun w);
  world_notrun id : id ∈ w_notrun w → silent (requests w) id;
  world_issued id : id ∉ w_issued w → w_owner w !! id = None ∧ id ∉ w_notrun w ∧ silent (requests w) id;
  world_inst p k : w_inst w !! p = Some k → calls_ok w p k
}.

(** ** Instances *)

Lemma ok_set_inst p k w : calls_ok w p k → world_ok w → world_ok (set_inst p k w).
Proof.
  intros Hk [Hr Hn Hi Hinst]. constructor; try done. intros p' k' H. cbn in H.
  apply lookup_insert_Some in H as [[<- <-]|[_ H]]; [done|by apply Hinst].
Qed.

(** An instance that dropped calls or joins. *)
Lemma calls_ok_fewer w p k k' :
  calls_ok w p k →
  (∀ ref kc, ks_calls k' !! ref = Some kc → ks_calls k !! ref = Some kc) →
  (∀ ref row, ks_joins k' !! ref = Some (Inserted row) → ks_joins k !! ref = Some (Inserted row)) →
  (∀ ref, is_Some (ks_joins k' !! ref) → is_Some (ks_joins k !! ref)) →
  calls_ok w p k'.
Proof.
  intros (Hc & Hj & Hl) H1 H2 H3. split; [|split]; [by eauto..|]. intros ref Hr%H3%Hl.
  destruct (ks_calls k' !! ref) eqn:E; [|done]. apply H1 in E. congruence.
Qed.

Lemma calls_ok_set_call w p k ref kc kc' :
  calls_ok w p k → ks_calls k !! ref = Some kc → kc_id kc' = kc_id kc →
  call_ok (cd_rows (w_db w)) (requests w) (w_notrun w) kc' → calls_ok w p (set_call ref kc' k).
Proof.
  intros (Hc & Hj & Hl) Hkc Hid Hok. split; [|split].
  - intros ref' kc1 H. cbn in H. apply lookup_insert_Some in H as [[<- <-]|[_ H]]; [|by apply Hc].
    split; [|done]. rewrite Hid. by apply Hc.
  - done.
  - intros ref' H. cbn in H |- *. pose proof (Hl ref' H). rewrite lookup_insert_ne; [done|]. intros <-. congruence.
Qed.

(** ** A call's run *)

Lemma classify_state i res sent err :
  oc_state (classify i res sent err) ≠ CallRunning
  ∧ (oc_state (classify i res sent err) = CallNotRun → sent = false)
  ∧ (oc_state (classify i res sent err) = CallInterrupted → sent = true).
Proof. unfold classify. destruct err as [e|]; [|done]. destruct sent; cbn; repeat case_match; done. Qed.

Section calls.
Context (rows : gmap callRef ToolCall) (F : gset (UUID * nat)) (notrun : gset UUID).

Lemma run_ended_ok res err kc : call_ok rows F notrun kc → finishing kc = false → call_ok rows F notrun (run_ended res err kc).
Proof.
  intros [Hr Hl Hu Hs Hg Hf] Hfin. unfold run_ended. constructor; cbn; try done.
  intros out [= <-]. destruct (classify_state (kc_instance kc) res (o_sent (kc_output kc)) err) as (H1 & H2 & H3).
  split; [done|]. split; [by intros H%H2; apply Hs|]. intros H%H3. destruct (kc_sentRecorded kc); [done|]. by rewrite Hu in H.
Qed.

Lemma same_facts kc kc' :
  call_ok rows F notrun kc → kc_id kc' = kc_id kc → kc_sentRecorded kc' = kc_sentRecorded kc →
  o_sent (kc_output kc') = o_sent (kc_output kc) → finishing kc' = finishing kc →
  (∀ n prev, kc_phase kc' = InGuest n prev → kc_phase kc = InGuest n prev) →
  (∀ out, kc_phase kc' = Finishing out → kc_phase kc = Finishing out) → call_ok rows F notrun kc'.
Proof.
  intros [Hr Hl Hu Hs Hg Hf] E1 E2 E3 E4 Hp1 Hp2. constructor; rewrite ?E1, ?E2, ?E3, ?E4; eauto.
Qed.

(** A call that goes on to a phase before its end. *)
Lemma moved_ok ph kc :
  call_ok rows F notrun kc → finishing kc = false →
  match ph with Acquiring | Attempting _ | Reacquiring => True | _ => False end →
  call_ok rows F notrun (kc <| kc_phase := ph |>).
Proof.
  intros [Hr Hl Hu Hs Hg Hf] Hfin Hph. destruct ph; try done;
    (constructor; [exact Hr|intros H _; by apply Hl|exact Hu|intros _ H; by apply Hs|done|done]).
Qed.

(** A failed attempt whose sent was not put back, or was as before. *)
Lemma attempt_failed_ok id node attempt before received pod err kc :
  call_ok rows F notrun kc → finishing kc = false →
  (negb received && feosdRefusal err id = true → o_sent (kc_output kc) = before) →
  call_ok rows F notrun (attempt_failed id node attempt before received pod err kc).
Proof.
  intros Hok Hfin Hb. unfold attempt_failed. 
  set (kc1 := if negb received && feosdRefusal err id then kc <| kc_output ::= (λ o, o <| o_sent := before |>) |> else kc).
  assert (H1 : call_ok rows F notrun kc1 ∧ finishing kc1 = false).
  { unfold kc1. destruct (_ && _) eqn:E; [|done]. split; [|done]. apply (same_facts kc); try done. cbn. symmetry. by apply Hb. }
  destruct H1 as [H1 H1']. destruct (next_attempt _ _ _ _ _ _) as [|e]; [|by apply run_ended_ok].
  by apply moved_ok.
Qed.

Lemma attempt_failed_id id node attempt before received pod err kc :
  kc_id (attempt_failed id node attempt before received pod err kc) = kc_id kc.
Proof. unfold attempt_failed. destruct (_ && _); by destruct (next_attempt _ _ _ _ _ _). Qed.

Lemma emit_sent chunk o : o_sent (emit chunk o) = o_sent o.
Proof. unfold emit. repeat case_match; done. Qed.

Lemma cancel_ok cause kc : call_ok rows F notrun kc → call_ok rows F notrun (cancel_call cause kc).
Proof. intros H. by apply (same_facts kc). Qed.

Lemma run_step_ok ref kc kc' :
  run_step ref kc kc' → call_ok rows F notrun kc → kc_id kc' = kc_id kc ∧ call_ok rows F notrun kc'.
Proof.
  destruct 1 as [kc E|err kc E|node pod err n kc E|chunk n prev kc E|code n prev kc E|node op rc lim pod err n prev kc E Hb
    |kc E|err kc E|cause kc|kc|kc]; intros Hok;
    try assert (Hfin : finishing kc = false) by (unfold finishing; by rewrite E).
  - split; [done|]. by apply moved_ok.
  - split; [done|]. by apply run_ended_ok.
  - split; [apply attempt_failed_id|]. by apply attempt_failed_ok.
  - split; [done|]. apply (same_facts kc); try done. cbn. apply emit_sent.
  - split; [done|]. by apply run_ended_ok.
  - unfold put_back in Hb. apply orb_false_iff in Hb as [Hb1 Hb2]. unfold answered_error. rewrite Hb1.
    split; [apply attempt_failed_id|]. apply attempt_failed_ok; [done..|]. by rewrite Hb2.
  - split; [done|]. by apply moved_ok.
  - split; [done|]. by apply run_ended_ok.
  - split; [done|]. by apply cancel_ok.
  - split; [done|]. by apply (same_facts kc).
  - unfold lost. destruct (kc_ended kc); [done|]. split; [done|]. by apply cancel_ok.
Qed.
End calls.

(** ** The table *)

Lemma elem_of_not_run_ids db id :
  id ∈ not_run_ids db ↔ ∃ ref r, cd_rows db !! ref = Some r ∧ tc_State r = CallNotRun ∧ tc_ID r = id.
Proof.
  unfold not_run_ids. rewrite elem_of_list_to_set, list_elem_of_fmap. setoid_rewrite list_elem_of_filter. split.
  - intros ([ref r] & -> & Hs & Hr%elem_of_map_to_list). eauto.
  - intros (ref & r & Hr & Hs & <-). exists (ref, r). by rewrite elem_of_map_to_list.
Qed.

(** Nothing of the run left, and no call of it can still send. *)
Definition quiet (w : world) (id : UUID) : Prop :=
  silent (requests w) id ∧
  ∀ p k ref kc, w_inst w !! p = Some k → ks_calls k !! ref = Some kc → kc_id kc = id →
    kc_sentRecorded kc = true → finishing kc = true.

(** An update that only ends running rows, the unsent or quiet ones as not run. *)
Definition tame (w : world) (g : ToolCall → ToolCall) : Prop :=
  ∀ ref r, cd_rows (w_db w) !! ref = Some r →
    tc_ID (g r) = tc_ID r ∧ (tc_Sent r = true → tc_Sent (g r) = true)
    ∧ (tc_State r ≠ CallRunning → tc_State (g r) = tc_State r)
    ∧ (tc_State (g r) = CallNotRun → tc_State r = CallNotRun ∨ tc_Sent r = false ∨ quiet w (tc_ID r))
    ∧ (tc_State (g r) = CallInterrupted → tc_State r = CallInterrupted ∨ tc_Sent (g r) = true).

Lemma unsent_quiet w ref r :
  world_ok w → cd_rows (w_db w) !! ref = Some r → tc_Sent r = false → quiet w (tc_ID r).
Proof.
  intros [Hr Hn Hi Hinst] Hrow Hs. split; [by eapply row_sent|]. intros p k ref' kc Hp Hkc Hid Hrec.
  destruct (Hinst p k Hp) as [Hc _]. destruct (Hc ref' kc Hkc) as [_ Hok].
  rewrite (call_recorded _ _ _ _ Hok ref r Hrec Hrow) in Hs; done.
Qed.

Lemma ok_update g db w :
  world_ok w → tame w g → cd_rows db = g <$> cd_rows (w_db w) → world_ok (db_commit db w).
Proof.
  intros Hw Hg Erows.
  assert (Hback : ∀ ref r', cd_rows db !! ref = Some r' → ∃ r, cd_rows (w_db w) !! ref = Some r ∧ r' = g r).
  { intros ref r'. rewrite Erows, lookup_fmap, fmap_Some. naive_solver. }
  assert (Hquiet : ∀ id, id ∈ not_run_ids db → id ∈ w_notrun w ∨ quiet w id).
  { intros id (ref & r' & (r & Hr & ->)%Hback & Hs & <-)%elem_of_not_run_ids. destruct (Hg ref r Hr) as (-> & _ & _ & H & _).
    destruct (H Hs) as [Hst|[Hst|Hq]]; [left; by eapply row_notrun; [apply Hw|..]|right; by eapply unsent_quiet|by right]. }
  pose proof Hw as [Hr Hn Hi Hinst].
  assert (Huniq : ∀ ref1 ref2 r1 r2, cd_rows (w_db w) !! ref1 = Some r1 → cd_rows (w_db w) !! ref2 = Some r2 →
    tc_ID r1 = tc_ID r2 → r1 = r2) by (intros ref1 ref2 r1 r2 H1 H2 E; pose proof (row_unique _ _ _ _ Hr _ _ _ _ H1 H2 E); congruence).
  constructor; cbn.
  - constructor.
    + intros ref r' (r & H & ->)%Hback. destruct (Hg ref r H) as (-> & _). by eapply row_issued.
    + intros ref1 ref2 r1' r2' (r1 & H1 & ->)%Hback (r2 & H2 & ->)%Hback.
      destruct (Hg _ _ H1) as (-> & _), (Hg _ _ H2) as (-> & _). by eapply row_unique.
    + intros ref r' (r & H & ->)%Hback Hs. destruct (Hg _ _ H) as (-> & Hmono & _). eapply (row_sent _ _ _ _ Hr); [done|].
      destruct (tc_Sent r); [|done]. by rewrite Hmono in Hs.
    + intros ref r' Hr'. pose proof Hr' as (r & H & ->)%Hback. destruct (Hg _ _ H) as (Hid & _ & Hst & _ & _).
      rewrite elem_of_union. split; [intros Hs; right; apply elem_of_not_run_ids; eauto|]. rewrite Hid.
      intros [Hin|(ref2 & r2' & (r2 & H2 & ->)%Hback & Hs2 & E)%elem_of_not_run_ids].
      * rewrite Hst; apply (row_notrun _ _ _ _ Hr _ _ H) in Hin; congruence.
      * destruct (Hg _ _ H2) as (Hid2 & _). rewrite Hid2 in E. by rewrite (Huniq _ _ _ _ H H2) by done.
    + intros ref r' (r & H & ->)%Hback Hs. destruct (Hg _ _ H) as (_ & Hmono & _ & _ & Hint).
      destruct (Hint Hs) as [?|?]; [|done]. apply Hmono. by eapply (row_interrupted _ _ _ _ Hr).
  - intros id [Hin|Hin%Hquiet]%elem_of_union; [by apply Hn|]. destruct Hin as [Hin|[Hin _]]; [by apply Hn|done].
  - intros id Hid. destruct (Hi id Hid) as (H1 & H2 & H3). split; [done|]. split; [|done].
    rewrite elem_of_union. intros [?|(ref & r' & (r & H & ->)%Hback & _ & E)%elem_of_not_run_ids]; [done|].
    destruct (Hg _ _ H) as (Eid & _). rewrite Eid in E. apply Hid. rewrite <- E. by eapply row_issued.
  - intros p k Hp. destruct (Hinst p k Hp) as (Hc & Hj & Hl). split; [|done]. intros ref kc Hkc.
    destruct (Hc ref kc Hkc) as [Ho Hok]. split; [done|]. destruct Hok as [Hrec Hlive Hunr Huns Hgu Hfi]. constructor; try done.
    + intros ref' r' Hsr (r & H & ->)%Hback E. destruct (Hg _ _ H) as (Eid & Hmono & _). apply Hmono.
      rewrite Eid in E. by eapply Hrec.
    + intros Hsr Hfin. cbn. rewrite elem_of_union. intros [?|[?|[_ Hq]]%Hquiet]; [by apply Hlive..|].
      rewrite (Hq p k ref kc) in Hfin; done.
Qed.

(** The updates of the transactions: those that leave the state, and those that
    end running rows. *)
Lemma tame_where w (P : ToolCall → bool) f :
  (∀ ref r, cd_rows (w_db w) !! ref = Some r → P r = true →
     tc_ID (f r) = tc_ID r ∧ (tc_Sent r = true → tc_Sent (f r) = true)
     ∧ (tc_State (f r) = tc_State r
        ∨ tc_State r = CallRunning
          ∧ (tc_State (f r) = CallNotRun → tc_Sent r = false ∨ quiet w (tc_ID r))
          ∧ (tc_State (f r) = CallInterrupted → tc_Sent (f r) = true))) →
  tame w (λ r, if P r then f r else r).
Proof.
  intros Hf ref r Hr. destruct (P r) eqn:E; [|split_and!; auto]. destruct (Hf ref r Hr E) as (H1 & H2 & H3).
  split_and!; [done|done|..]; destruct H3 as [H3|(H3 & H4 & H5)]; rewrite ?H3; naive_solver.
Qed.

Lemma ok_update_where (P : ToolCall → bool) f db w :
  world_ok w → tame w (λ r, if P r then f r else r) → cd_rows db = cd_rows (update_where P f (w_db w)) →
  world_ok (db_commit db w).
Proof. intros. by eapply ok_update. Qed.

Lemma is_running_eq r : is_running r = true → tc_State r = CallRunning.
Proof. apply bool_decide_eq_true. Qed.

Lemma tame_end w (P : ToolCall → bool) sentError unsentError now :
  (∀ r, P r = true → is_running r = true) → tame w (λ r, if P r then endCallSet sentError unsentError now r else r).
Proof.
  intros HP. apply tame_where. intros ref r _ Hr%HP%is_running_eq. unfold endCallSet. cbn. split; [done|]. split; [done|]. right.
  destruct (tc_Sent r); naive_solver.
Qed.

Lemma ok_nothing w : world_ok w → world_ok (db_commit (w_db w) w).
Proof. intros Hw. apply (ok_update id); [done| |by rewrite map_fmap_id]. intros ref r _. split_and!; auto. Qed.

Lemma ok_mark id w : world_ok w → world_ok (db_commit (MarkToolCallSent id (w_db w)).2 w).
Proof.
  intros Hw. eapply ok_update_where; [done| |done]. apply tame_where. intros ref r _ _. cbn. auto.
Qed.

Lemma ok_renew now i ids lease w : world_ok w → world_ok (db_commit (RenewToolCalls now i ids lease (w_db w)).2 w).
Proof.
  intros Hw. destruct ids; cbn.
  - by apply ok_nothing.
  - eapply ok_update_where; [done| |done]. apply tame_where. intros ref r _ _. cbn. auto.
Qed.

Lemma ok_abandon now ref i reason w : world_ok w → world_ok (db_commit (AbandonToolCall now ref i reason (w_db w)).2 w).
Proof.
  intros Hw. eapply ok_update_where; [done| |done]. apply tame_where. intros ref' r _ Hr. cbn. split; [done|]. split; [done|]. right.
  apply andb_true_iff in Hr as [[_ Hr%is_running_eq]%andb_true_iff Hs]. apply negb_true_iff in Hs. naive_solver.
Qed.

Lemma ok_claim now i w : world_ok w → world_ok (db_commit (EndInstanceToolCalls now i (w_db w)).2 w).
Proof.
  intros Hw. eapply ok_update_where; [done| |done]. apply tame_end. by intros r [_ ?]%andb_true_iff.
Qed.

Lemma ok_expire_one now id margin w : world_ok w → world_ok (db_commit (ExpireToolCall now id margin (w_db w)).2 w).
Proof.
  intros Hw. unfold ExpireToolCall. case_match.
  - by apply ok_nothing.
  - eapply ok_update_where; [done| |done]. apply tame_end. intros r [_ Hr]%andb_true_iff. by apply andb_true_iff in Hr as [? _].
Qed.

Lemma elem_of_expiring now margin limit locked db id :
  id ∈ expiring now margin limit locked db →
  ∃ ref r, cd_rows db !! ref = Some r ∧ lease_ran_out now margin r = true ∧ id ∉ locked ∧ tc_ID r = id.
Proof.
  unfold expiring. intros (r & -> & Hr)%list_elem_of_fmap. apply elem_of_take in Hr as (i & Hi & _).
  apply list_elem_of_lookup_2 in Hi. rewrite sort_by_perm in Hi. apply list_elem_of_filter in Hi as [[Hl Hk] Hi].
  apply list_elem_of_fmap in Hi as ([ref r'] & -> & Hi%elem_of_map_to_list). by exists ref, r'.
Qed.

Lemma ok_expire now margin limit locked w : world_ok w → world_ok (db_commit (ExpireToolCalls now margin limit locked (w_db w)).2 w).
Proof.
  intros Hw. eapply ok_update_where; [done| |done]. apply tame_where. intros ref r Hr Hin%bool_decide_eq_true.
  apply elem_of_expiring in Hin as (ref' & r' & Hr' & Hl & _ & E).
  assert (ref' = ref) as -> by (by eapply row_unique; [apply Hw|..]). rewrite Hr in Hr'. injection Hr' as ->.
  apply andb_true_iff in Hl as [Hl%is_running_eq _]. unfold expireCallSet, endCallSet. cbn. split; [done|]. split; [done|]. right.
  destruct (tc_Sent r'); naive_solver.
Qed.

Lemma ok_fewer_rows db w :
  world_ok w → (∀ ref r, cd_rows db !! ref = Some r → cd_rows (w_db w) !! ref = Some r) → world_ok (w <| w_db := db |>).
Proof.
  intros [Hr Hn Hi Hinst] Hsub. constructor; cbn; try done.
  - destruct Hr. constructor; eauto.
  - intros p k Hp. destruct (Hinst p k Hp) as (Hc & Hj & Hl). split; [|done]. intros ref kc Hkc. destruct (Hc ref kc Hkc) as [Ho []].
    split; [done|]. constructor; cbn; eauto.
Qed.

Lemma commit_known db w :
  (∀ ref r, cd_rows db !! ref = Some r → tc_State r = CallNotRun → tc_ID r ∈ w_notrun w) →
  db_commit db w = w <| w_db := db |>.
Proof.
  intros H. assert (E : w_notrun w ∪ not_run_ids db = w_notrun w).
  { apply set_eq. intros id. rewrite elem_of_union, elem_of_not_run_ids. naive_solver. }
  transitivity (MkWorld (w_now w) db (w_inst w) (w_flight w) (w_ran w) (w_issued w) (w_owner w) (w_notrun w ∪ not_run_ids db));
    [done|]. by rewrite E.
Qed.

Lemma ok_retention now retention limit w : world_ok w → world_ok (db_commit (DeleteFinishedToolCalls now retention limit (w_db w)).2 w).
Proof.
  intros Hw. assert (Hsub : ∀ ref r, cd_rows (DeleteFinishedToolCalls now retention limit (w_db w)).2 !! ref = Some r →
    cd_rows (w_db w) !! ref = Some r) by (cbn; intros ref r H; by apply map_lookup_filter_Some in H as [? _]).
  rewrite commit_known; [by apply ok_fewer_rows|]. intros ref r H%Hsub Hs. by eapply row_notrun; [apply Hw|..].
Qed.

(** ** Inserts, sends and final writes *)

Lemma insert_new now id c db row db' :
  insertToolCall now id c db = Ok (Some row, db') →
  row = new_call now id c ∧ cd_rows db' = <[nc_ref c := row]> (cd_rows db) ∧
  (∀ r, cd_rows db !! nc_ref c = Some r → tc_State r = CallNotRun ∧ tc_Tool r = nc_Tool c ∧ tc_ArgsHash r = nc_ArgsHash c).
Proof.
  unfold insertToolCall. destruct (negb _); [done|]. destruct (cd_rows db !! nc_ref c) as [r|] eqn:E.
  - destruct (_ && _) eqn:Hc; [|done]. intros [= <- <-]. split; [done|]. split; [done|]. intros r' [= <-].
    apply andb_true_iff in Hc as [[H1%bool_decide_eq_true H2%String.eqb_eq]%andb_true_iff H3%bool_decide_eq_true]. done.
  - intros [= <- <-]. done.
Qed.

Lemma ok_insert now id c row db w :
  world_ok w → id ∉ w_issued w → insertToolCall now id c (w_db w) = Ok (Some row, db) →
  world_ok ((db_commit db w) <| w_issued ::= ({[id]} ∪.) |>).
Proof.
  intros Hw Hid (-> & Erows & _)%insert_new. pose proof Hw as [Hr Hn Hi Hinst]. destruct (Hi id Hid) as (Hown & Hnr & Hsil).
  assert (Hold : ∀ ref r, cd_rows (w_db w) !! ref = Some r → tc_ID r ≠ id)
    by (intros ref r H E; apply Hid; rewrite <- E; by eapply row_issued).
  assert (Hrows : ∀ ref r, cd_rows db !! ref = Some r → r = new_call now id c ∨ cd_rows (w_db w) !! ref = Some r).
  { intros ref r. rewrite Erows, lookup_insert_Some. naive_solver. }
  rewrite commit_known; [|intros ref r [->|H]%Hrows; [done|by eapply row_notrun]].
  constructor; cbn; [|done| |].
  - constructor.
    + intros ref r [->|H]%Hrows; [cbn; set_solver|]. apply elem_of_union_r. by eapply row_issued.
    + intros ref1 ref2 r1 r2 H1 H2 E. rewrite Erows in H1, H2.
      apply lookup_insert_Some in H1 as [[? <-]|[? H1]], H2 as [[? <-]|[? H2]]; [congruence|..].
      * by destruct (Hold _ _ H2).
      * by destruct (Hold _ _ H1).
      * by eapply (row_unique _ _ _ _ Hr).
    + intros ref r [->|H]%Hrows; [done|]. by eapply (row_sent _ _ _ _ Hr).
    + intros ref r [->|H]%Hrows; [done|]. by eapply (row_notrun _ _ _ _ Hr).
    + intros ref r [->|H]%Hrows; [done|]. by eapply (row_interrupted _ _ _ _ Hr).
  - intros id' Hid'. apply Hi. set_solver.
  - intros p k Hp. destruct (Hinst p k Hp) as (Hc & Hj & Hl). split; [|done]. intros ref kc Hkc. destruct (Hc ref kc Hkc) as [Ho []].
    split; [done|]. constructor; cbn; try done. intros ref' r Hs [->|H]%Hrows E; [|by eauto]. cbn in E. congruence.
Qed.

Lemma ok_owner id x w :
  world_ok w → w_owner w !! id = None → id ∈ w_issued w → world_ok (w <| w_owner ::= <[id := x]> |>).
Proof.
  intros [Hr Hn Hi Hinst] Ho Hiss. assert (Hkeep : ∀ id' y, w_owner w !! id' = Some y → <[id := x]> (w_owner w) !! id' = Some y)
    by (intros id' y H; rewrite lookup_insert_ne; [done|congruence]).
  constructor; cbn; try done.
  - intros id' Hid'. destruct (Hi id' Hid') as (? & ? & ?). rewrite lookup_insert_ne; [done|]. by intros ->.
  - intros p k Hp. destruct (Hinst p k Hp) as (Hc & Hj & Hl). split; [|split]; [| |done].
    + intros ref kc Hkc. destruct (Hc ref kc Hkc). split; [by apply Hkeep|done].
    + intros ref row Hrow. destruct (Hj ref row Hrow). split; [by apply Hkeep|done].
Qed.

Lemma ok_fewer_requests w F :
  world_ok w → F ∪ w_ran w ⊆ requests w → world_ok (w <| w_flight := F |>).
Proof.
  intros [Hr Hn Hi Hinst] HF.
  assert (Hs : ∀ id, silent (requests w) id → silent (F ∪ w_ran w) id) by (intros id H n Hin; by apply (H n), HF).
  constructor; unfold requests; cbn.
  - destruct Hr. constructor; eauto.
  - eauto.
  - intros id Hid. destruct (Hi id Hid) as (? & ? & ?). auto.
  - intros p k Hp. destruct (Hinst p k Hp) as (Hc & Hj & Hl). split; [|split]; [| |done].
    + intros ref kc Hkc. destruct (Hc ref kc Hkc) as [Ho [H1 H2 H3 H4 H5 H6]]. split; [done|]. unfold requests. constructor; cbn; try done.
      * eauto.
      * intros n prev E. destruct (H5 n prev E) as [? H]. split; [done|]. intros Hp' m Hm Hin. by apply (H Hp' m Hm), HF.
      * intros out E. destruct (H6 out E) as (? & ? & ?). eauto.
    + intros ref row Hrow. destruct (Hj ref row Hrow). split; [done|]. by apply Hs.
Qed.

(** The owner of a run is one: another call or join has another run. *)
Lemma other_run w p k ref kc :
  world_ok w → w_inst w !! p = Some k → ks_calls k !! ref = Some kc →
  (∀ p' k' ref' kc', w_inst w !! p' = Some k' → ks_calls k' !! ref' = Some kc' → kc_id kc' = kc_id kc → p' = p ∧ ref' = ref)
  ∧ (∀ p' k' ref' row, w_inst w !! p' = Some k' → ks_joins k' !! ref' = Some (Inserted row) → tc_ID row ≠ kc_id kc).
Proof.
  intros [Hr Hn Hi Hinst] Hp Hkc. destruct (Hinst p k Hp) as (Hc & _ & Hl). destruct (Hc ref kc Hkc) as [Ho _]. split.
  - intros p' k' ref' kc' Hp' Hkc' E. destruct (Hinst p' k' Hp') as [Hc' _]. destruct (Hc' ref' kc' Hkc') as [Ho' _]. split; congruence.
  - intros p' k' ref' row Hp' Hrow E. destruct (Hinst p' k' Hp') as (_ & Hj' & _). destruct (Hj' ref' row Hrow) as [Ho' _].
    rewrite E, Ho in Ho'. injection Ho' as <- <-. rewrite Hp in Hp'. injection Hp' as <-.
    rewrite Hl in Hkc by eauto. done.
Qed.

Lemma ok_send w p k ref kc kc' n :
  world_ok w → w_inst w !! p = Some k → ks_calls k !! ref = Some kc → finishing kc = false →
  kc_id kc ∉ w_notrun w → (∀ ref' r, cd_rows (w_db w) !! ref' = Some r → tc_ID r = kc_id kc → tc_Sent r = true) →
  kc_id kc' = kc_id kc → kc_sentRecorded kc' = true → kc_output kc' = kc_output kc →
  world_ok (set_inst p (set_call ref (send n kc') k) (w <| w_flight ::= ({[(kc_id kc, n)]} ∪.) |>)).
Proof.
  intros Hw Hp Hkc Hfin Hnr Hsent Eid Erec Eout. destruct (other_run w p k ref kc Hw Hp Hkc) as [Huc Huj].
  pose proof Hw as [Hr Hn Hi Hinst]. destruct (Hinst p k Hp) as (Hc & Hj & Hl). destruct (Hc ref kc Hkc) as [Ho Hok].
  set (F := ({[(kc_id kc, n)]} ∪ w_flight w) ∪ w_ran w).
  assert (HF : ∀ id m, (id, m) ∈ F ↔ (id, m) = (kc_id kc, n) ∨ (id, m) ∈ requests w) by (unfold F, requests; set_solver).
  assert (Hs : ∀ id, id ≠ kc_id kc → silent (requests w) id → silent F id).
  { intros id Hne H m [?|?]%HF; [congruence|by apply (H m)]. }
  assert (Hother : ∀ kc2, kc_id kc2 ≠ kc_id kc → call_ok (cd_rows (w_db w)) (requests w) (w_notrun w) kc2 →
    call_ok (cd_rows (w_db w)) F (w_notrun w) kc2).
  { intros kc2 Hne [H1 H2 H3 H4 H5 H6]. constructor; try done.
    - eauto.
    - intros m prev E. destruct (H5 m prev E) as [? H]. split; [done|]. intros Hp' m' Hm' [?|?]%HF; [congruence|by apply (H Hp' m' Hm')].
    - intros out E. destruct (H6 out E) as (? & ? & ?). eauto. }
  constructor; cbn.
  - destruct Hr as [R1 R2 R3 R4 R5]. constructor; try done. intros ref' r Hrow Hs'. apply Hs; [|by eauto].
    intros E. by rewrite (Hsent ref' r Hrow E) in Hs'.
  - intros id Hin. apply Hs; [congruence|by apply Hn].
  - intros id Hid. destruct (Hi id Hid) as (? & ? & ?). split; [done|]. split; [done|]. apply Hs; [congruence|done].
  - intros p' k' Hp'. apply lookup_insert_Some in Hp' as [[<- <-]|[Hne Hp']].
    + split; [|split]; cbn.
      * intros ref' kc2 H. apply lookup_insert_Some in H as [[<- <-]|[Hne H]].
        -- split; [cbn; by rewrite Eid|]. constructor; cbn; rewrite ?Eid, ?Erec; try done.
           ++ intros ref' r _. apply Hsent.
           ++ intros m prev [= <- <-]. split; [done|]. rewrite Eout. intros Hp1 m Hm [[= ->]|Hin]%HF; [done|].
              by apply (call_unsent _ _ _ _ Hok Hfin Hp1 m).
        -- destruct (Hc ref' kc2 H) as [Ho2 Hok2]. split; [done|]. apply Hother; [|done]. intros E.
           by destruct (Huc p k ref' kc2 Hp H E) as [_ ->].
      * intros ref' row H. destruct (Hj ref' row H). split; [done|]. apply Hs; [by eapply Huj|done].
      * intros ref' H. rewrite lookup_insert_ne; [by apply Hl|]. intros <-. rewrite Hl in Hkc; done.
    + destruct (Hinst p' k' Hp') as (Hc' & Hj' & Hl'). split; [|split]; [| |done].
      * intros ref' kc2 H. destruct (Hc' ref' kc2 H) as [Ho2 Hok2]. split; [done|]. apply Hother; [|done]. intros E.
        by destruct (Huc p' k' ref' kc2 Hp' H E) as [-> _].
      * intros ref' row H. destruct (Hj' ref' row H). split; [done|]. apply Hs; [by eapply Huj|done].
Qed.

(** ** The steps *)

Lemma marked_row id w :
  world_ok w → (MarkToolCallSent id (w_db w)).1 = true →
  let w' := db_commit (MarkToolCallSent id (w_db w)).2 w in
  id ∉ w_notrun w' ∧ ∀ ref r, cd_rows (w_db w') !! ref = Some r → tc_ID r = id → tc_Sent r = true.
Proof.
  intros Hw Hm w'. assert (Hw' : world_ok w') by by apply ok_mark.
  cbn in Hm. apply negb_true_iff, bool_decide_eq_false in Hm. unfold updated in Hm.
  destruct (filter _ _) as [|[ref r] l] eqn:E; [done|].
  assert (Hin : (ref, r) ∈ filter (λ x : callRef * ToolCall, same_id id x.2 && is_running x.2 = true) (map_to_list (cd_rows (w_db w))))
    by (rewrite E; by left).
  apply list_elem_of_filter in Hin as [HP Hin%elem_of_map_to_list]. cbn in HP.
  assert (Hrow : cd_rows (w_db w') !! ref = Some (r <| tc_Sent := true |>)).
  { cbn. rewrite lookup_fmap, Hin. cbn. by rewrite HP. }
  apply andb_true_iff in HP as [Hid%bool_decide_eq_true Hrun%is_running_eq].
  destruct Hw' as [Hr _ _ _]. split.
  - intros Hn. rewrite <- Hid in Hn. apply (row_notrun _ _ _ _ Hr _ _ Hrow) in Hn. cbn in Hn. congruence.
  - intros ref' r' Hr' E'. assert (ref' = ref) as -> by (eapply (row_unique _ _ _ _ Hr); [done..|]; cbn; congruence). naive_solver.
Qed.

Lemma calls_ok_rejoin w p k k' ref j :
  calls_ok w p k → is_Some (ks_joins k !! ref) → (∀ row, j ≠ Inserted row) →
  ks_calls k' = ks_calls k → ks_joins k' = <[ref := j]> (ks_joins k) → calls_ok w p k'.
Proof.
  intros Hk Href Hj Ec Ej. eapply calls_ok_fewer; [done|by rewrite Ec|..]; rewrite Ej; intros ref'.
  - intros row H. apply lookup_insert_Some in H as [[_ H]|[_ ?]]; [by apply Hj in H|done].
  - destruct (decide (ref = ref')) as [<-|Hn]; [done|]. by rewrite lookup_insert_ne.
Qed.

Lemma calls_ok_unlock w p k k' ref :
  calls_ok w p k → ks_calls k' = ks_calls k → ks_joins k' = delete ref (ks_joins k) → calls_ok w p k'.
Proof.
  intros Hk Ec Ej. eapply calls_ok_fewer; [done|by rewrite Ec|..]; rewrite Ej; intros ref'.
  - intros row H. by apply lookup_delete_Some in H as [_ ?].
  - intros [x H]. apply lookup_delete_Some in H as [_ ?]. eauto.
Qed.

Lemma join_step_ok p ref k w w' : world_ok w → w_inst w !! p = Some k → join_step p ref k w w' → world_ok w'.
Proof.
  intros Hw Hp Hs. pose proof (world_inst _ Hw p k Hp) as Hk0. pose proof Hk0 as (Hc & Hj & Hl).
  destruct Hs as [left c id row db w Hk [Href _] Hid Hins|left c id row db w Hk [Href _] Hid Hins|left c id db w Hk _ _
    |left c id e w Hk _ _|left row w Hk _|left w Hk _|j w Hk _|reason w Hk|w Hk|timeout row w Hk].
  - destruct (world_issued _ Hw id Hid) as (Hown & _ & Hsil). pose proof Hins as (-> & _ & _)%insert_new.
    assert (Hw1 : world_ok (((db_commit db w) <| w_issued ::= ({[id]} ∪.) |>) <| w_owner ::= <[id := (p, ref)]> |>))
      by (apply ok_owner; [by eapply ok_insert|done|cbn; set_solver]).
    apply ok_set_inst; [|done]. destruct (world_inst _ Hw1 p k Hp) as (Hc' & Hj' & _). split; [done|]. split.
    + intros ref' row' H. cbn in H. apply lookup_insert_Some in H as [[<- [= <-]]|[_ H]]; [|by apply Hj']. cbn.
      rewrite lookup_insert_eq. done.
    + intros ref' H. cbn in H |- *. apply Hl. destruct (decide (ref = ref')) as [<-|Hn]; [by eauto|]. by rewrite lookup_insert_ne in H.
  - pose proof (ok_insert _ _ _ _ _ _ Hw Hid Hins) as Hw1. apply ok_set_inst; [|done].
    by apply (calls_ok_rejoin _ _ k _ ref InsertFailed); [exact (world_inst _ Hw1 p k Hp)|eauto|..].
  - apply ok_set_inst; [|done]. by apply (calls_ok_rejoin _ _ k _ ref (Reading left)); [|eauto|..].
  - apply ok_set_inst; [|done]. by eapply calls_ok_unlock.
  - apply ok_set_inst; [|done]. by eapply calls_ok_unlock.
  - apply ok_set_inst; [|done]. by apply (calls_ok_rejoin _ _ k _ ref (Inserting left)); [|eauto|..].
  - apply ok_set_inst; [|done]. by apply (calls_ok_rejoin _ _ k _ ref InsertFailed); [|eauto|..].
  - pose proof (ok_abandon (w_now w) ref (ks_instance k) reason w Hw) as Hw1. apply ok_set_inst; [|done].
    by eapply calls_ok_unlock; [exact (world_inst _ Hw1 p k Hp)|..].
  - apply ok_set_inst; [|done]. by eapply calls_ok_unlock.
  - apply ok_set_inst; [|done]. destruct (Hj ref row Hk) as [Hown Hsil]. split; [|split].
    + intros ref' kc H. cbn in H. apply lookup_insert_Some in H as [[<- <-]|[_ H]]; [|by apply Hc]. split; [done|]. by constructor.
    + intros ref' row' H. cbn in H. apply lookup_delete_Some in H as [_ H]. by apply Hj.
    + intros ref' [x H]. cbn in H |- *. apply lookup_delete_Some in H as [Hn H]. rewrite lookup_insert_ne by done. apply Hl. eauto.
Qed.

(** The end of a call: its final write. *)
Lemma ok_finish p k ref kc out finished db w :
  world_ok w → w_inst w !! p = Some k → ks_calls k !! ref = Some kc → kc_phase kc = Finishing out →
  FinishToolCall (w_now w) (kc_id kc) (final_write out) (w_db w) = Ok (finished, db) → world_ok (db_commit db w).
Proof.
  intros Hw Hp Hkc Hph. unfold FinishToolCall. case_bool_decide; [done|]. destruct (_ =? _)%nat; intros [= <- <-]; [|by apply ok_nothing].
  eapply ok_update_where; [done| |done]. apply tame_where. intros ref' r Hr HP.
  apply andb_true_iff in HP as [Hid%bool_decide_eq_true Hrun%is_running_eq]. cbn. split; [done|]. split; [done|]. right. split; [done|].
  destruct (world_inst _ Hw p k Hp) as [Hc _]. destruct (Hc ref kc Hkc) as [_ Hok].
  destruct (call_finishing _ _ _ _ Hok out Hph) as (_ & Hn & Hi). split.
  - intros Hs. right. rewrite Hid. split; [by apply Hn|]. intros p' k' ref2 kc' Hp' Hkc' E _.
    destruct (proj1 (other_run w p k ref kc Hw Hp Hkc) p' k' ref2 kc' Hp' Hkc' E) as [-> ->].
    rewrite Hp in Hp'. injection Hp' as <-. rewrite Hkc in Hkc'. injection Hkc' as <-. unfold finishing. by rewrite Hph.
  - intros Hs. by eapply (call_recorded _ _ _ _ Hok); [apply Hi|..].
Qed.

Lemma calls_ok_settle w p k ref : calls_ok w p k → calls_ok w p (settle ref k).
Proof.
  intros Hk. eapply calls_ok_fewer; [done|..]; cbn; [|done..]. intros ref' kc H. by apply lookup_delete_Some in H as [_ ?].
Qed.

Lemma refused_ok rows F notrun id node opened received limit pod err attempt prev kc :
  call_ok rows F notrun kc → kc_phase kc = InGuest attempt prev → put_back id opened received limit err kc = true →
  call_ok rows (F ∖ {[(kc_id kc, attempt)]}) notrun (answered_error id node opened received limit pod err attempt prev kc).
Proof.
  intros [H1 H2 H3 H4 H5 H6] Hph Hb. destruct (H5 _ _ Hph) as [Hrec Hone].
  set (kc1 := kc <| kc_output ::= (λ o, o <| o_sent := prev |>) |>).
  assert (Hok : call_ok rows (F ∖ {[(kc_id kc, attempt)]}) notrun kc1).
  { constructor; cbn; try done.
    - by rewrite Hrec.
    - intros _ Hp n. cbn. destruct (decide (n = attempt)) as [->|Hn]; [set_solver|]. specialize (Hone Hp n Hn). set_solver.
    - intros n prev'. rewrite Hph. intros [= <- <-]. split; [done|]. intros Hp m Hm. specialize (Hone Hp m Hm). set_solver.
    - intros out. by rewrite Hph. }
  unfold answered_error. destruct (negb opened && localRefusal err) eqn:E1.
  - apply attempt_failed_ok; [done|unfold finishing; cbn; by rewrite Hph|done].
  - unfold put_back in Hb. rewrite E1 in Hb. cbn [orb] in Hb.
    assert (E : attempt_failed id node attempt prev received pod (deadline (ctx_ended (kc_cancelled kc)) limit (kc_timeout kc) err) kc
      = attempt_failed id node attempt prev received pod (deadline (ctx_ended (kc_cancelled kc)) limit (kc_timeout kc) err) kc1)
      by (unfold attempt_failed; by rewrite Hb).
    rewrite E. apply attempt_failed_ok; [done|unfold finishing; cbn; by rewrite Hph|done].
Qed.

Lemma call_step_ok p ref k kc w w' :
  world_ok w → w_inst w !! p = Some k → ks_calls k !! ref = Some kc → call_step p ref k kc w w' → world_ok w'.
Proof.
  intros Hw Hp Hkc Hs. pose proof (world_inst _ Hw p k Hp) as Hk. destruct (proj1 Hk ref kc Hkc) as [Hown Hok].
  destruct Hs as [kc' w Hr|n kc' w Hph Hg|node pod n err w Hph Hg|node pod n e err w Hph Hg
    |node op rc lim pod err n prev w Hph Hb Hran|out fin db w Hph Hf|out fin db w Hph Hf|out w Hph].
  - destruct (run_step_ok _ _ _ _ _ _ Hr Hok) as [Eid Hok']. apply ok_set_inst; [|done]. by eapply calls_ok_set_call.
  - unfold gate in Hg. destruct (gate_closed _ _ _); [done|]. assert (Hfin : finishing kc = false) by (unfold finishing; by rewrite Hph).
    destruct (kc_sentRecorded kc) eqn:Erec.
    + injection Hg as <-. eapply (ok_send w); try done; [by apply (call_live _ _ _ _ Hok)|].
      intros ref' r Hr E. by eapply (call_recorded _ _ _ _ Hok).
    + destruct (MarkToolCallSent _ _).1 eqn:Em; [|done]. injection Hg as <-.
      destruct (marked_row _ _ Hw Em) as [Hn Hsent]. pose proof (ok_mark (kc_id kc) w Hw) as Hw1.
      by eapply (ok_send (db_commit (MarkToolCallSent (kc_id kc) (w_db w)).2 w)).
  - destruct (run_step_ok _ _ _ _ _ _ (run_not_sent ref node pod err n kc Hph) Hok) as [Eid Hok'].
    apply ok_set_inst; [|done]. by eapply calls_ok_set_call.
  - pose proof (ok_mark (kc_id kc) w Hw) as Hw1. pose proof (world_inst _ Hw1 p k Hp) as Hk1. destruct (proj1 Hk1 ref kc Hkc) as [_ Hok1].
    destruct (run_step_ok _ _ _ _ _ _ (run_not_sent ref node pod err n kc Hph) Hok1) as [Eid Hok'].
    apply ok_set_inst; [|done]. by eapply calls_ok_set_call.
  - assert (EF : requests (w <| w_flight ::= (.∖ {[(kc_id kc, n)]}) |>) = requests w ∖ {[(kc_id kc, n)]})
      by (unfold requests; cbn; apply set_eq; set_solver).
    assert (Hw1 : world_ok (w <| w_flight := w_flight w ∖ {[(kc_id kc, n)]} |>))
      by (apply ok_fewer_requests; [done|unfold requests; set_solver]).
    apply ok_set_inst; [|exact Hw1]. eapply calls_ok_set_call; [by apply (world_inst _ Hw1 p)|done|..].
    + unfold answered_error. rewrite attempt_failed_id. by destruct (_ && _).
    + rewrite EF. by apply refused_ok.
  - pose proof (ok_finish _ _ _ _ _ _ _ _ Hw Hp Hkc Hph Hf) as Hw1. apply ok_set_inst; [|done].
    apply calls_ok_settle. by apply (world_inst _ Hw1 p).
  - by eapply ok_finish.
  - apply ok_set_inst; [|done]. by apply calls_ok_settle.
Qed.

Lemma ok_requests w w' :
  world_ok w → w_db w' = w_db w → w_inst w' = w_inst w → requests w' = requests w → w_issued w' = w_issued w →
  w_owner w' = w_owner w → w_notrun w' = w_notrun w → world_ok w'.
Proof.
  intros [Hr Hn Hi Hinst] E1 E2 E3 E4 E5 E6.
  constructor; rewrite ?E1, ?E2, ?E3, ?E4, ?E5, ?E6; try done. intros p k Hp. unfold calls_ok. rewrite E1, E3, E5, E6. by apply Hinst.
Qed.

Lemma wstep_ok w w' : world_ok w → wstep w w' → world_ok w'.
Proof.
  intros Hw Hs. destruct Hs as [now w _|id w|id w|p i w Hp|p w|p b k w Hp|p dl k w Hp|p id k k' w Hp Ha|p id k w Hp _
    |p ref tool hash k k' w Hp Hj Hjoin|p ref k w w' Hp Hj|p ref k kc w w' Hp Hkc Hc|x w Hx|p k w Hp|m l lk w|id m w|i w|r l w].
  - by apply (ok_requests w).
  - by apply ok_fewer_rows.
  - apply ok_fewer_rows; [done|]. cbn. intros ref r H. by apply map_lookup_filter_Some in H as [? _].
  - by apply ok_set_inst.
  - destruct Hw as [Hr Hn Hi Hinst]. constructor; try done. intros p' k H. cbn in H. apply lookup_delete_Some in H as [_ H]. by apply Hinst.
  - apply ok_set_inst; [|done]. exact (world_inst _ Hw p k Hp).
  - apply ok_set_inst; [|done]. pose proof (world_inst _ Hw p k Hp). unfold BeginDrain. by destruct (ks_draining k).
  - apply ok_set_inst; [|done]. pose proof (world_inst _ Hw p k Hp). unfold attach in Ha. case_match; [done|]. by injection Ha as <-.
  - apply ok_set_inst; [|done]. exact (world_inst _ Hw p k Hp).
  - apply ok_set_inst; [|done]. destruct (world_inst _ Hw p k Hp) as (Hc & Hjn & Hl). unfold join in Hjoin.
    destruct (ks_calls k !! ref) eqn:E; [by case_match|]. unfold reserve in Hjoin. repeat case_match; try done. simplify_eq.
    split; [done|]. split; cbn; intros ref'.
    + intros row H'. apply lookup_insert_Some in H' as [[_ ?]|[_ H']]; [done|by apply Hjn].
    + destruct (decide (ref = ref')) as [<-|Hn]; [done|]. rewrite lookup_insert_ne by done. apply Hl.
  - by eapply join_step_ok.
  - by eapply call_step_ok.
  - apply (ok_requests w); try done. unfold requests. cbn. apply set_eq. set_solver.
  - by apply ok_renew.
  - by apply ok_expire.
  - by apply ok_expire_one.
  - by apply ok_claim.
  - by apply ok_retention.
Qed.

Lemma initial_world_ok w : w_initial w → world_ok w.
Proof.
  intros (Hr & Hi & Hf & Hran & His & Ho & Hn & _). unfold requests, silent. constructor; unfold requests; rewrite ?Hr, ?Hf, ?Hran, ?His, ?Ho, ?Hn.
  - constructor; intros *; by rewrite lookup_empty.
  - set_solver.
  - intros id _. unfold silent. split; [apply lookup_empty|]. set_solver.
  - intros p k. by rewrite Hi, lookup_empty.
Qed.

Lemma reachable_world_ok w : w_reachable w → world_ok w.
Proof. intros (w0 & H0%initial_world_ok & Hs). induction Hs; eauto using wstep_ok. Qed.

Lemma reachable_later w w' : w_reachable w → rtc wstep w w' → w_reachable w'.
Proof. intros (w0 & H0 & Hs) H. exists w0. split; [done|]. by etrans. Qed.

(** What was once committed as not run stays so recorded. *)
Lemma notrun_mono w w' : wstep w w' → w_notrun w ⊆ w_notrun w'.
Proof.
  destruct 1 as [| | | | | | | | | |p ref k w w' Hp Hj|p ref k kc w w' Hp Hkc Hc| | | | | |]; try (cbn; set_solver).
  - destruct Hj; cbn; set_solver.
  - destruct Hc; cbn; try set_solver. destruct (kc_sentRecorded kc); cbn; set_solver.
Qed.

Lemma notrun_later w w' : rtc wstep w w' → w_notrun w ⊆ w_notrun w'.
Proof. induction 1; [done|]. etrans; [by apply notrun_mono|done]. Qed.

(** ** Rows through the steps *)

(** The same run, and the very same row if it had ended. *)
Definition row_kept (r r' : ToolCall) : Prop :=
  tc_ID r' = tc_ID r ∧ tc_Tool r' = tc_Tool r ∧ tc_ArgsHash r' = tc_ArgsHash r ∧ (tc_State r ≠ CallRunning → r' = r).

(** A new run of the same call in place of one that did not run. *)
Definition row_replaced (w : world) (r r' : ToolCall) : Prop :=
  tc_State r = CallNotRun ∧ tc_Tool r' = tc_Tool r ∧ tc_ArgsHash r' = tc_ArgsHash r ∧ tc_ID r' ∉ w_issued w.

Lemma row_kept_refl r : row_kept r r.
Proof. done. Qed.

Lemma kept_where (P : ToolCall → bool) f db ref r r' :
  (∀ x, P x = true → is_running x = true) →
  (∀ x, tc_ID (f x) = tc_ID x ∧ tc_Tool (f x) = tc_Tool x ∧ tc_ArgsHash (f x) = tc_ArgsHash x) →
  cd_rows db !! ref = Some r → cd_rows (update_where P f db) !! ref = Some r' → row_kept r r'.
Proof.
  intros HP Hf Hr. cbn. rewrite lookup_fmap, Hr. cbn. intros [= <-]. destruct (P r) eqn:E; [|done].
  destruct (Hf r) as (? & ? & ?). split_and!; [done..|]. apply HP, is_running_eq in E. congruence.
Qed.

Lemma mark_kept id db ref r r' :
  cd_rows db !! ref = Some r → cd_rows (MarkToolCallSent id db).2 !! ref = Some r' → row_kept r r'.
Proof. apply kept_where; [|done]. by intros x [_ ?]%andb_true_iff. Qed.

Lemma finish_kept now id o db b db' ref r r' :
  FinishToolCall now id o db = Ok (b, db') → cd_rows db !! ref = Some r → cd_rows db' !! ref = Some r' → row_kept r r'.
Proof.
  unfold FinishToolCall. case_bool_decide; [done|]. destruct (_ =? _)%nat; intros [= <- <-]; [|intros; by simplify_eq].
  apply kept_where; [|done]. by intros x [_ ?]%andb_true_iff.
Qed.

Lemma join_row p k joined w w' ref r r' :
  world_ok w → join_step p joined k w w' → cd_rows (w_db w) !! ref = Some r → cd_rows (w_db w') !! ref = Some r' →
  row_kept r r' ∨ row_replaced w r r'.
Proof.
  intros Hw Hs Hr. assert (Hins : ∀ now id c row db, id ∉ w_issued w → insertToolCall now id c (w_db w) = Ok (Some row, db) →
    cd_rows db !! ref = Some r' → row_kept r r' ∨ row_replaced w r r').
  { intros now id c row db Hid (-> & Er & Hold)%insert_new. rewrite Er, lookup_insert_Some. intros [[<- <-]|[_ H]].
    - right. destruct (Hold r Hr) as (? & ? & ?). done.
    - left. by simplify_eq. }
  destruct Hs; cbn; try (by eapply Hins); try (intros; left; by simplify_eq).
  intros H'. left. eapply kept_where; [..|exact Hr|exact H']; [|done]. by intros x [[_ ?]%andb_true_iff _]%andb_true_iff.
Qed.

Lemma call_row p k joined kc w w' ref r r' :
  call_step p joined k kc w w' → cd_rows (w_db w) !! ref = Some r → cd_rows (w_db w') !! ref = Some r' → row_kept r r'.
Proof.
  destruct 1 as [| | | | |out fin db w _ Hf|out fin db w _ Hf|]; intros Hr; cbn; try (intros; by simplify_eq).
  - destruct (kc_sentRecorded kc); cbn; [intros; by simplify_eq|by apply mark_kept].
  - by apply mark_kept.
  - by eapply finish_kept.
  - by eapply finish_kept.
Qed.

(** A row that stays is the same run, unless a new run of the same call took the
    place of one that did not run. *)
Lemma row_change w w' ref r r' :
  world_ok w → wstep w w' → cd_rows (w_db w) !! ref = Some r → cd_rows (w_db w') !! ref = Some r' →
  row_kept r r' ∨ row_replaced w r r'.
Proof.
  intros Hw Hs Hr. destruct Hs as [| | | | | | | | | |p jr k w w' Hp Hj|p jr k kc w w' Hp Hkc Hc| |p k w Hp|m l lk w|id m w|i w|rt l w];
    try (cbn; intros; left; by simplify_eq).
  - cbn. intros H. apply map_lookup_filter_Some in H as [H _]. left. by simplify_eq.
  - by eapply join_row.
  - intros H. left. by eapply call_row.
  - cbn. destruct (call_ids k); cbn; intros H; left; [by simplify_eq|]. eapply kept_where; [..|exact Hr|exact H]; [|done].
    by intros x [_ ?]%andb_true_iff.
  - cbn. intros H. left. cbn in H. rewrite lookup_fmap, Hr in H. cbn in H. injection H as <-. case_bool_decide as Hin; [|done].
    apply elem_of_expiring in Hin as (ref' & r' & Hr' & Hl & _ & E).
    assert (ref' = ref) as -> by (by eapply row_unique; [apply Hw|..]). rewrite Hr in Hr'. injection Hr' as <-.
    apply andb_true_iff in Hl as [Hl%is_running_eq _]. split_and!; done || congruence.
  - unfold db_commit, ExpireToolCall. cbn. case_match; cbn; intros H'; left; [by simplify_eq|].
    eapply kept_where; [..|exact Hr|exact H']; [|done]. intros x [_ Hx]%andb_true_iff. by apply andb_true_iff in Hx as [? _].
  - cbn. intros H. left. eapply kept_where; [..|exact Hr|exact H]; [|done]. by intros x [_ ?]%andb_true_iff.
  - cbn. intros H. apply map_lookup_filter_Some in H as [H _]. left. by simplify_eq.
Qed.

(** ** The theorems *)

(** C12: not_run is exact.  A run of a tool call that was ever committed as not
    run (by its own instance, by the leader, by a waiter, by a restart or after
    a lost insert) has not run in the guest and never will, however instances
    crash, requests and database answers are lost, and steps interleave. *)
Theorem not_run_never_runs (w w' : world) (id : UUID) (n : nat) :
  w_reachable w → rtc wstep w w' → id ∈ w_notrun w → (id, n) ∉ w_flight w' ∧ (id, n) ∉ w_ran w'.
Proof.
  intros Hr Hs Hid. apply (notrun_later _ _ Hs) in Hid.
  pose proof (world_notrun _ (reachable_world_ok _ (reachable_later _ _ Hr Hs)) id Hid n) as H.
  unfold requests in H. set_solver.
Qed.

(** The steps through which the key [ref] keeps a record. *)
Definition keeps (ref : callRef) (w w' : world) : Prop := wstep w w' ∧ is_Some (cd_rows (w_db w') !! ref).

Lemma keeps_rtc ref w w' : rtc (keeps ref) w w' → rtc wstep w w'.
Proof. induction 1 as [|w1 w2 w3 [H _] _ IH]; [done|]. by eapply rtc_l. Qed.

Lemma kept_call ref w w' r r' :
  world_ok w → rtc (keeps ref) w w' → cd_rows (w_db w) !! ref = Some r → cd_rows (w_db w') !! ref = Some r' →
  tc_Tool r' = tc_Tool r ∧ tc_ArgsHash r' = tc_ArgsHash r.
Proof.
  intros Hw Hs. revert Hw r. induction Hs as [w|w w1 w' [Hstep [r1 Hr1]] Hs IH]; intros Hw r Hr Hr'; [by simplify_eq|].
  destruct (IH (wstep_ok _ _ Hw Hstep) r1 Hr1 Hr') as [-> ->].
  destruct (row_change _ _ _ _ _ Hw Hstep Hr Hr1) as [(_ & ? & ? & _)|(_ & ? & ? & _)]; done.
Qed.

Lemma kept_changes ref w w' r r' :
  world_ok w → rtc (keeps ref) w w' → cd_rows (w_db w) !! ref = Some r → cd_rows (w_db w') !! ref = Some r' →
  tc_ID r' ≠ tc_ID r → tc_ID r ∈ w_notrun w'.
Proof.
  intros Hw Hs. revert Hw r. induction Hs as [w|w w1 w' [Hstep [r1 Hr1]] Hs IH]; intros Hw r Hr Hr' Hne; [by simplify_eq|].
  destruct (row_change _ _ _ _ _ Hw Hstep Hr Hr1) as [(E & _)|(Hst & _)].
  - rewrite <- E. apply IH; [by eapply wstep_ok|done..|congruence].
  - apply (notrun_later w); [eapply rtc_l; [done|by eapply keeps_rtc]|]. by eapply row_notrun; [apply Hw|..].
Qed.


(** C25: the rows of tool calls end once.  A row that ended as done, interrupted
    or not run is never written again: a step leaves it as it is, deletes it, or
    puts a new run of the same call in the place of one that did not run.  An
    interrupted run was sent. *)
Theorem ended_call_final (w w' : world) (ref : callRef) (r : ToolCall) :
  w_reachable w → wstep w w' → cd_rows (w_db w) !! ref = Some r → tc_State r ≠ CallRunning →
  (tc_State r = CallInterrupted → tc_Sent r = true) ∧
  (cd_rows (w_db w') !! ref = Some r ∨ cd_rows (w_db w') !! ref = None
   ∨ ∃ r', cd_rows (w_db w') !! ref = Some r' ∧ tc_State r = CallNotRun
       ∧ tc_Tool r' = tc_Tool r ∧ tc_ArgsHash r' = tc_ArgsHash r ∧ tc_ID r' ∉ w_issued w).
Proof.
  intros Hreach%reachable_world_ok Hs Hr He. split; [by eapply row_interrupted; [apply Hreach|..]|].
  destruct (cd_rows (w_db w') !! ref) as [r'|] eqn:Hr'; [|by right; left].
  destruct (row_change _ _ _ _ _ Hreach Hs Hr Hr') as [(_ & _ & _ & Hk)|(? & ? & ? & ?)]; [left; by rewrite Hk|].
  right. right. by exists r'.
Qed.

(** ** Slots *)

Definition holds_slot (j : join_phase) : bool := match j with InsertFailed => false | _ => true end.

(** The keys whose call or join has a slot. *)
Definition slots (k : keyedState) : gset callRef :=
  dom (ks_calls k) ∪ dom (filter (λ x, holds_slot x.2 = true) (ks_joins k)).

Definition of_sandbox (id : ID) (s : gset callRef) : gset callRef := filter (λ ref, ref.1 = id) s.

Definition slots_ok (k : keyedState) : Prop :=
  ks_cap k = callCap ∧
  ∀ id, count (ks_perSandbox k) id = size (of_sandbox id (slots k)) ∧ (count (ks_perSandbox k) id ≤ callCap)%nat.

Lemma slot_count_insert m id n id' : count (<[id := n]> m) id' = if decide (id = id') then n else count m id'.
Proof. unfold count. case_decide as E; [subst; by rewrite lookup_insert_eq|by rewrite lookup_insert_ne]. Qed.

Lemma slot_count_give_back m id id' : count (give_back id m) id' = if decide (id = id') then (count m id - 1)%nat else count m id'.
Proof.
  unfold give_back. destruct (count m id <=? 1)%nat eqn:E; [|by rewrite slot_count_insert].
  apply Nat.leb_le in E. unfold count in *. case_decide as En; [subst; rewrite lookup_delete_eq; cbn; lia|by rewrite lookup_delete_ne].
Qed.

Lemma size_of_sandbox_add id (ref : callRef) s :
  ref ∉ s → size (of_sandbox id ({[ref]} ∪ s)) = ((if decide (ref.1 = id) then 1 else 0) + size (of_sandbox id s))%nat.
Proof.
  intros Hn. case_decide as E.
  - assert (Es : of_sandbox id ({[ref]} ∪ s) = {[ref]} ∪ of_sandbox id s) by (apply set_eq; unfold of_sandbox; set_solver).
    rewrite Es, size_union, size_singleton by (unfold of_sandbox; set_solver). done.
  - assert (Es : of_sandbox id ({[ref]} ∪ s) = of_sandbox id s) by (apply set_eq; unfold of_sandbox; set_solver). by rewrite Es.
Qed.

Lemma slots_same k k' :
  slots_ok k → slots k' = slots k → ks_perSandbox k' = ks_perSandbox k → ks_cap k' = ks_cap k → slots_ok k'.
Proof. intros [Hc H] E1 E2 E3. split; [congruence|]. by rewrite E1, E2. Qed.

Lemma slots_taken k k' ref :
  slots_ok k → ref ∉ slots k → slots k' = {[ref]} ∪ slots k → (count (ks_perSandbox k) ref.1 < callCap)%nat →
  ks_perSandbox k' = <[ref.1 := S (count (ks_perSandbox k) ref.1)]> (ks_perSandbox k) → ks_cap k' = ks_cap k → slots_ok k'.
Proof.
  intros [Hc H] Hn E1 Hlt E2 E3. split; [congruence|]. intros id. rewrite E1, E2, slot_count_insert, size_of_sandbox_add by done.
  destruct (H id). case_decide; [|auto]. subst. lia.
Qed.

Lemma slots_given_back k k' ref :
  slots_ok k → ref ∈ slots k → slots k' = slots k ∖ {[ref]} → ks_perSandbox k' = give_back ref.1 (ks_perSandbox k) →
  ks_cap k' = ks_cap k → slots_ok k'.
Proof.
  intros [Hc H] Hin E1 E2 E3. split; [congruence|]. intros id. rewrite E1, E2, slot_count_give_back. destruct (H id) as [Hs Hl].
  assert (Es : slots k = {[ref]} ∪ (slots k ∖ {[ref]})).
  { apply set_eq. intros x. destruct (decide (x = ref)); set_solver. }
  rewrite Es, size_of_sandbox_add in Hs by set_solver. case_decide; subst; lia.
Qed.

Lemma elem_of_slots k ref :
  ref ∈ slots k ↔ is_Some (ks_calls k !! ref) ∨ ∃ j, ks_joins k !! ref = Some j ∧ holds_slot j = true.
Proof.
  unfold slots. rewrite elem_of_union, !elem_of_dom. apply or_iff_compat_l. split.
  - intros [j H]. apply map_lookup_filter_Some in H. naive_solver.
  - intros (j & H1 & H2). exists j. by apply map_lookup_filter_Some.
Qed.

Lemma some_slot x : (∃ j, Some x = Some j ∧ holds_slot j = true) ↔ holds_slot x = true.
Proof. naive_solver. Qed.

Lemma no_slot : (∃ j, None = Some j ∧ holds_slot j = true) ↔ False.
Proof. naive_solver. Qed.

(** Set equalities of slots, by what a key's lookup gives. *)
Ltac solve_slots :=
  apply set_eq; intros ref'; rewrite ?elem_of_union, ?elem_of_difference, ?elem_of_singleton, !elem_of_slots; cbn;
  match goal with |- context [<[?r := _]> _ !! ref'] => destruct (decide (r = ref')) as [<-|?]
                | |- context [delete ?r _ !! ref'] => destruct (decide (r = ref')) as [<-|?] end;
  rewrite ?lookup_insert_eq, ?lookup_delete_eq, ?lookup_insert_ne, ?lookup_delete_ne by done;
  repeat match goal with H : _ !! ?r = _ |- context [_ !! ?r] => rewrite H end;
  rewrite ?some_slot, ?no_slot, ?is_Some_alt; cbn; naive_solver.

Lemma join_slots p ref k w w' :
  slots_ok k → w_inst w !! p = Some k → (∀ j, ks_joins k !! ref = Some j → ks_calls k !! ref = None) → join_step p ref k w w' →
  ∃ k', w_inst w' = <[p := k']> (w_inst w) ∧ slots_ok k'.
Proof.
  intros Hok Hp Hl Hs. assert (Hin : ∀ j, ks_joins k !! ref = Some j → holds_slot j = true → ref ∈ slots k)
    by (intros j H1 H2; apply elem_of_slots; eauto).
  destruct Hs as [left c id row db w Hk _ _ _|left c id row db w Hk _ _ _|left c id db w Hk _ _
    |left c id e w Hk _ _|left row w Hk _|left w Hk _|j w Hk Hj|reason w Hk|w Hk|timeout row w Hk]; pose proof (Hl _ Hk) as Hc;
    (eexists; split; [reflexivity|]).
  - apply (slots_same k); try done. solve_slots.
  - apply (slots_given_back k _ ref); try done; [by eapply Hin|]. solve_slots.
  - apply (slots_same k); try done. solve_slots.
  - apply (slots_given_back k _ ref); try done; [by eapply Hin|]. solve_slots.
  - apply (slots_given_back k _ ref); try done; [by eapply Hin|]. solve_slots.
  - apply (slots_same k); try done. solve_slots.
  - apply (slots_given_back k _ ref); try done; [eapply Hin; [done|]; by destruct Hj as [left [->| ->]]|]. solve_slots.
  - apply (slots_same k); try done. solve_slots.
  - apply (slots_same k); try done. solve_slots.
  - apply (slots_same k); try done. solve_slots.
Qed.

Lemma call_slots p ref k kc w w' :
  slots_ok k → w_inst w !! p = Some k → ks_calls k !! ref = Some kc → (∀ j, ks_joins k !! ref = Some j → ks_calls k !! ref = None) →
  call_step p ref k kc w w' →
  ∃ k', w_inst w' = <[p := k']> (w_inst w) ∧ slots_ok k'.
Proof.
  intros Hok Hp Hkc Hl Hs. assert (Hin : ref ∈ slots k) by (apply elem_of_slots; eauto).
  assert (Hj : ks_joins k !! ref = None).
  { destruct (ks_joins k !! ref) as [j|] eqn:E; [|done]. by rewrite (Hl j eq_refl) in Hkc. }
  assert (Hset : ∀ kc', slots_ok (set_call ref kc' k)) by (intros kc'; apply (slots_same k); try done; solve_slots).
  assert (Hsettle : slots_ok (settle ref k)) by (apply (slots_given_back k _ ref); try done; solve_slots).
  destruct Hs as [kc' w Hr|n kc' w Hph Hg|node pod n err w Hph Hg|node pod n e err w Hph Hg
    |node op rc lim pod err n prev w Hph Hb Hran|out fin db w Hph Hf|out fin db w Hph Hf|out w Hph];
    try (eexists; split; [reflexivity|]; done).
  - eexists. split; [cbn; by destruct (kc_sentRecorded kc)|done].
  - exists k. split; [|done]. cbn. by rewrite insert_id.
Qed.

Lemma wstep_slots w w' :
  world_ok w → wstep w w' → (∀ p k, w_inst w !! p = Some k → slots_ok k) → ∀ p k, w_inst w' !! p = Some k → slots_ok k.
Proof.
  intros Hw Hs Hall.
  assert (Hset : ∀ p0 k0 w1, w_inst w1 = <[p0 := k0]> (w_inst w) → slots_ok k0 → ∀ p k, w_inst w1 !! p = Some k → slots_ok k).
  { intros p0 k0 w1 -> H0 p k H. apply lookup_insert_Some in H as [[_ <-]|[_ H]]; eauto. }
  assert (Hlock : ∀ p k ref j, w_inst w !! p = Some k → ks_joins k !! ref = Some j → ks_calls k !! ref = None).
  { intros p k ref j Hp Hj. destruct (world_inst _ Hw p k Hp) as (_ & _ & Hl). apply Hl. eauto. }
  destruct Hs as [now w _|id w|id w|p i w Hp|p w|p b k w Hp|p dl k w Hp|p id k k' w Hp Ha|p id k w Hp _
    |p ref tool hash k k' w Hp Hj Hjoin|p ref k w w' Hp Hj|p ref k kc w w' Hp Hkc Hc|x w Hx|p k w Hp|m l lk w|id m w|i w|r l w];
    try exact Hall.
  - eapply Hset; [done|]. split; [done|]. intros id. split; [done|apply Nat.le_0_l].
  - cbn. intros p' k H. apply lookup_delete_Some in H as [_ H]. eauto.
  - eapply Hset; [done|]. by apply (slots_same k); [eauto|..].
  - eapply Hset; [done|]. unfold BeginDrain. destruct (ks_draining k); [by eauto|]. by apply (slots_same k); [eauto|..].
  - eapply Hset; [done|]. unfold attach in Ha. case_match; [done|]. injection Ha as <-. by apply (slots_same k); [eauto|..].
  - eapply Hset; [done|]. by apply (slots_same k); [eauto|..].
  - eapply Hset; [done|]. unfold join in Hjoin. destruct (ks_calls k !! ref) eqn:Hcall; [by case_match|].
    pose proof (Hall p k Hp) as Hok. unfold reserve in Hjoin. destruct (ks_draining k); [done|]. destruct (negb (ks_renewing k)); [done|].
    destruct (ks_cap k <=? count (ks_perSandbox k) ref.1)%nat eqn:Ecap; [done|]. injection Hjoin as <-. apply Nat.leb_gt in Ecap.
    rewrite (proj1 Hok) in Ecap. apply (slots_taken k _ ref); try done; [|solve_slots].
    rewrite elem_of_slots, Hcall, Hj. intros [[? ?]|(? & ? & _)]; done.
  - destruct (join_slots p ref k w w') as (k' & E & Hok); eauto.
  - destruct (call_slots p ref k kc w w') as (k' & E & Hok); eauto.
Qed.

(** C34: a sandbox has at most 64 calls with an id in flight on an instance,
    joins that are still inserting theirs included, and the counter that
    [reserve] tests is exactly their number. *)
Theorem calls_in_flight_capped (w : world) (p : nat) (k : keyedState) (id : ID) :
  w_reachable w → w_inst w !! p = Some k →
  count (ks_perSandbox k) id = size (of_sandbox id (slots k)) ∧ (size (of_sandbox id (slots k)) ≤ callCap)%nat.
Proof.
  intros (w0 & H0 & Hs). assert (Hall : ∀ p k, w_inst w !! p = Some k → slots_ok k).
  - assert (Hw0 : world_ok w0) by by apply initial_world_ok. destruct H0 as (_ & Hi & _).
    assert (Hall0 : ∀ p k, w_inst w0 !! p = Some k → slots_ok k) by (intros p' k'; by rewrite Hi, lookup_empty).
    clear Hi. induction Hs as [|w0 w1 w2 H1 _ IH]; [done|]. apply IH; [by eapply wstep_ok|by eapply wstep_slots].
  - intros Hp. destruct (proj2 (Hall p k Hp) id) as [E H]. rewrite <- E. done.
Qed.

(** ** A run of the steps

    Instance "a" joins a call and crashes after its insert; the leader ends the
    row as not run, and instance "b" runs the call under the same key. *)

Definition demo_ref : callRef := ("c0000000001"%string, "turn-1"%string).
Definition demo_hash : list Z := replicate 32 7.
Definition demo_call (instance : string) : NewToolCall :=
  MkNewToolCall demo_ref.1 demo_ref.2 ToolBash demo_hash instance CallLease.

Definition demo_start : world :=
  MkWorld Hour (MkCallsDB ∅ {[demo_ref.1]} []) ∅ ∅ ∅ ∅ ∅ ∅.

(** An instance that records calls. *)
Definition demo_instance (name : string) : keyedState := (newKeyedState name) <| ks_renewing := true |>.

Definition demo_joined (name : string) : keyedState :=
  match join demo_ref ToolBash demo_hash (demo_instance name) with JoinReserved k => k | _ => demo_instance name end.

Definition demo_row (now : Time) (name : string) (id : UUID) : ToolCall := new_call now id (demo_call name).

Definition demo_db (now : Time) (name : string) (id : UUID) (db : CallsDB) : CallsDB :=
  db <| cd_rows ::= <[demo_ref := demo_row now name id]> |>.

Definition demo_inserted (p : nat) (name : string) (id : UUID) (w : world) : world :=
  set_inst p (set_join demo_ref (Inserted (demo_row (w_now w) name id)) (demo_joined name))
    ((db_commit (demo_db (w_now w) name id (w_db w)) w) <| w_issued ::= ({[id]} ∪.) |> <| w_owner ::= <[id := (p, demo_ref)]> |>).

Definition demo_joining (p : nat) (name : string) (w : world) : world :=
  set_inst p (demo_joined name) (set_inst p (demo_instance name) (set_inst p (newKeyedState name) w)).

(** A fresh instance joins the call and inserts its row, through worlds of
    which [Q] holds. *)
Lemma demo_insert (Q : world → Prop) p name id w :
  (∀ p k w, Q w → Q (set_inst p k w)) → Q w → Q (demo_inserted p name id (demo_joining p name w)) →
  w_inst w !! p = None → id ∉ w_issued w →
  insertToolCall (w_now w) id (demo_call name) (w_db w) = Ok (Some (demo_row (w_now w) name id), demo_db (w_now w) name id (w_db w)) →
  rtc (λ a b, wstep a b ∧ Q b) w (demo_inserted p name id (demo_joining p name w)).
Proof.
  intros HQ Hw Hlast Hp Hid Hins. eapply rtc_l; [split; [by apply step_start|by apply HQ]|].
  eapply rtc_l; [split; [apply (step_run p true (newKeyedState name)); cbn; apply lookup_insert_eq|by auto]|].
  eapply rtc_l; [split; [apply (step_join p demo_ref ToolBash demo_hash (demo_instance name) (demo_joined name));
    [cbn; apply lookup_insert_eq|done|done]|by auto]|].
  apply rtc_once. split; [|done]. eapply (step_joining p demo_ref (demo_joined name)); [cbn; apply lookup_insert_eq|].
  by eapply (join_inserted p demo_ref (demo_joined name) beginToolCallRetries (demo_call name)).
Qed.

Definition demo_first : world := demo_inserted 0 "a" 1%N (demo_joining 0 "a" demo_start).

(** "a" is gone, and its lease runs out. *)
Definition demo_dead : world := demo_first <| w_inst ::= delete 0%nat |> <| w_now := 2 * Hour |>.

Definition demo_expired : world := db_commit (ExpireToolCalls (2 * Hour) 0 expiryBatch ∅ (w_db demo_dead)).2 demo_dead.

Definition demo_second : world := demo_inserted 1 "b" 2%N (demo_joining 1 "b" demo_expired).

Lemma demo_first_reachable : w_reachable demo_first.
Proof.
  exists demo_start. split; [done|]. eapply (rtc_subrel (λ a b, wstep a b ∧ True)); [by intros a b [? _]|].
  by apply demo_insert.
Qed.

Lemma demo_expired_steps : rtc (keeps demo_ref) demo_first demo_expired.
Proof.
  eapply rtc_l; [split; [apply (step_crash 0)|by eexists]|]. eapply rtc_l; [split; [by apply (step_tick (2 * Hour))|by eexists]|].
  apply rtc_once. split; [apply (step_expire 0 expiryBatch ∅ demo_dead)|]. vm_compute. by eexists.
Qed.

Lemma demo_expired_reachable : w_reachable demo_expired.
Proof. eapply reachable_later; [apply demo_first_reachable|eapply keeps_rtc, demo_expired_steps]. Qed.

Lemma demo_second_steps : rtc (keeps demo_ref) demo_expired demo_second.
Proof.
  apply (demo_insert (λ w, is_Some (cd_rows (w_db w) !! demo_ref))); [done|vm_compute; by eexists..|done|by vm_compute|by vm_compute].
Qed.

Lemma not_run_never_runs_witness : 1%N ∈ w_notrun demo_expired ∧ (1%N, 0%nat) ∉ w_ran demo_second.
Proof.
  assert (H : 1%N ∈ w_notrun demo_expired) by (apply (bool_decide_unpack _); by vm_compute).
  split; [exact H|]. exact (proj2 (not_run_never_runs _ _ 1%N 0 demo_expired_reachable (keeps_rtc _ _ _ demo_second_steps) H)).
Defined.

Lemma ended_call_final_witness :
  ∃ r, cd_rows (w_db demo_expired) !! demo_ref = Some r ∧ tc_State r = CallNotRun ∧
    cd_rows (w_db (set_inst 1 (newKeyedState "b") demo_expired)) !! demo_ref = Some r.
Proof.
  exists (expireCallSet (2 * Hour) (demo_row Hour "a" 1%N)).
  assert (Hr : cd_rows (w_db demo_expired) !! demo_ref = Some (expireCallSet (2 * Hour) (demo_row Hour "a" 1%N))) by by vm_compute.
  split; [exact Hr|]. split; [done|].
  destruct (ended_call_final demo_expired (set_inst 1 (newKeyedState "b") demo_expired) demo_ref _ demo_expired_reachable
    ltac:(by apply step_start) Hr ltac:(done)) as [_ [H|[H|(r' & H & _)]]]; [exact H|exact Hr|exact Hr].
Defined.


Lemma calls_in_flight_capped_witness : size (of_sandbox demo_ref.1 (slots (demo_joined "a"))) = 1%nat.
Proof.
  assert (Hr : w_reachable (demo_joining 0 "a" demo_start)).
  { exists demo_start. split; [done|]. eapply rtc_l; [by apply step_start|].
    eapply rtc_l; [apply (step_run 0 true (newKeyedState "a")); cbn; apply lookup_insert_eq|].
    apply rtc_once. apply (step_join 0 demo_ref ToolBash demo_hash (demo_instance "a")); [cbn; apply lookup_insert_eq|done|done]. }
  rewrite <- (proj1 (calls_in_flight_capped (demo_joining 0 "a" demo_start) 0 (demo_joined "a") demo_ref.1 Hr
    ltac:(cbn; apply lookup_insert_eq))).
  by vm_compute.
Defined.
