(* ===== verification/ToolCallStore.v ===== *)
(** * The leader's loop, a waiter's verdict and what is stored of a tool call

    Proofs about [ToolCalls] that need no interleaving: the leader's expiry
    ends every call whose instance stopped renewing it, and stops; a request
    that waits for such a call gets its verdict; the texts written fit the
    table; the hash of a write determines its path and its content. *)

From S2P Require Import Prelude Text HostLabels PodId Rows ToolCalls ToolCallRuns.

(** The PRIMARY KEY of tool_calls. *)
Definition unique_ids (db : CallsDB) : Prop :=
  ∀ ref1 ref2 r1 r2, cd_rows db !! ref1 = Some r1 → cd_rows db !! ref2 = Some r2 → tc_ID r1 = tc_ID r2 → ref1 = ref2.

Definition all_rows (db : CallsDB) : list ToolCall := (map_to_list (cd_rows db)).*2.

Lemma elem_of_all_rows db r : r ∈ all_rows db ↔ ∃ ref, cd_rows db !! ref = Some r.
Proof.
  unfold all_rows. rewrite list_elem_of_fmap. split.
  - intros ([ref r'] & -> & H%elem_of_map_to_list). eauto.
  - intros [ref H]. exists (ref, r). by rewrite elem_of_map_to_list.
Qed.

Lemma NoDup_ids db : unique_ids db → NoDup (tc_ID <$> all_rows db).
Proof.
  intros Hu. unfold all_rows. rewrite <- list_fmap_compose.
  apply NoDup_fmap_2_strong; [|apply NoDup_map_to_list].
  intros [ref1 r1] [ref2 r2] H1%elem_of_map_to_list H2%elem_of_map_to_list E. cbn in E.
  pose proof (Hu _ _ _ _ H1 H2 E). congruence.
Qed.

(** ** The leader's expiry *)

Section expiry.
Context (now : Time) (margin : Duration) (locked : gset UUID).

(** The rows an expiry may end. *)
Definition is_stale (r : ToolCall) : Prop := lease_ran_out now margin r = true ∧ tc_ID r ∉ locked.

Definition stale_rows (db : CallsDB) : list ToolCall := filter is_stale (all_rows db).

Definition by_lease (db : CallsDB) : list ToolCall :=
  sort_by (λ a b, tc_LeaseUntil a <=? tc_LeaseUntil b) (stale_rows db).

Lemma expiring_eq limit db : expiring now margin limit locked db = tc_ID <$> take limit (by_lease db).
Proof. done. Qed.

Lemma by_lease_perm db : by_lease db ≡ₚ stale_rows db.
Proof. apply sort_by_perm. Qed.

Lemma NoDup_filter_ids (P : ToolCall → Prop) `{∀ x, Decision (P x)} l : NoDup (tc_ID <$> l) → NoDup (tc_ID <$> filter P l).
Proof.
  induction l as [|x l IH]; [done|]. rewrite fmap_cons, filter_cons. intros [Hx Hl]%NoDup_cons. case_decide; [|auto].
  rewrite fmap_cons. apply NoDup_cons. split; [|auto]. intros Hin. apply Hx. apply list_elem_of_fmap in Hin as (y & -> & Hy).
  apply list_elem_of_filter in Hy as [_ Hy]. by apply list_elem_of_fmap_2.
Qed.

Lemma NoDup_by_lease db : unique_ids db → NoDup (tc_ID <$> by_lease db).
Proof. intros Hu. rewrite by_lease_perm. by apply NoDup_filter_ids, NoDup_ids. Qed.

(** Dropping the rows whose IDs are those of the first [n]. *)
Lemma filter_take n l :
  NoDup (tc_ID <$> l) → filter (λ r, tc_ID r ∉ tc_ID <$> take n l) l = drop n l.
Proof.
  intros Hn. rewrite <- (take_drop n l), fmap_app in Hn. apply NoDup_app in Hn as (_ & Hd & _).
  transitivity (filter (λ r, tc_ID r ∉ tc_ID <$> take n l) (take n l ++ drop n l)); [by rewrite take_drop|].
  rewrite filter_app, filter_none, filter_all; [done|..].
  - apply Forall_forall. intros r Hr Hin. apply (Hd _ Hin). by apply list_elem_of_fmap_2.
  - apply Forall_forall. intros r Hr Hin. apply Hin. by apply list_elem_of_fmap_2.
Qed.

Definition expired (limit : nat) (db : CallsDB) (r : ToolCall) : ToolCall :=
  if bool_decide (tc_ID r ∈ expiring now margin limit locked db) then expireCallSet now r else r.

Lemma expired_rows limit db : all_rows (ExpireToolCalls now margin limit locked db).2 = expired limit db <$> all_rows db.
Proof. unfold all_rows. cbn. rewrite map_to_list_fmap, <- !list_fmap_compose. by apply list_fmap_ext. Qed.

Lemma stale_expired limit db r : is_stale (expired limit db r) ↔ is_stale r ∧ tc_ID r ∉ expiring now margin limit locked db.
Proof.
  unfold expired. case_bool_decide as Hin; [|tauto]. split; [|tauto]. intros [H _]. unfold lease_ran_out, is_running in H.
  cbn in H. by destruct (tc_Sent r).
Qed.

(** The stale rows after a run: those past the limit. *)
Lemma stale_after limit db :
  unique_ids db → stale_rows (ExpireToolCalls now margin limit locked db).2 ≡ₚ drop limit (by_lease db).
Proof.
  intros Hu. unfold stale_rows at 1. rewrite expired_rows.
  assert (E : filter is_stale (expired limit db <$> all_rows db)
    = filter (λ r, tc_ID r ∉ expiring now margin limit locked db) (stale_rows db)).
  { unfold stale_rows. induction (all_rows db) as [|r l IH]; [done|]. rewrite fmap_cons, !filter_cons.
    destruct (decide (is_stale (expired limit db r))) as [H|H]; pose proof H as H'; rewrite stale_expired in H'.
    - destruct H' as [H1 H2]. rewrite (decide_True _ _ H1), filter_cons, decide_True, IH by done. f_equal.
      unfold expired. by rewrite bool_decide_false.
    - destruct (decide (is_stale r)) as [H1|H1]; [|done]. rewrite filter_cons, decide_False by tauto. done. }
  rewrite E, expiring_eq, <- by_lease_perm, filter_take by by apply NoDup_by_lease. done.
Qed.

Lemma expire_unique limit db : unique_ids db → unique_ids (ExpireToolCalls now margin limit locked db).2.
Proof.
  intros Hu ref1 ref2 r1 r2. cbn. rewrite !lookup_fmap, !fmap_Some. intros (x1 & H1 & ->) (x2 & H2 & ->) E.
  apply (Hu _ _ _ _ H1 H2). by destruct (bool_decide _), (bool_decide _) in E.
Qed.

(** How many it ends. *)
Lemma expire_count limit db :
  unique_ids db → length (ExpireToolCalls now margin limit locked db).1 = Nat.min limit (length (stale_rows db)).
Proof.
  intros Hu. cbn. unfold updated.
  assert (E : (λ x : callRef * ToolCall, tc_ID x.2) <$> filter (λ x : callRef * ToolCall,
      bool_decide (tc_ID x.2 ∈ expiring now margin limit locked db) = true) (map_to_list (cd_rows db))
    ≡ₚ expiring now margin limit locked db).
  { apply NoDup_Permutation.
    - apply NoDup_fmap_2_strong; [|apply NoDup_filter, NoDup_map_to_list].
      intros [ref1 r1] [ref2 r2] [_ H1%elem_of_map_to_list]%list_elem_of_filter [_ H2%elem_of_map_to_list]%list_elem_of_filter E.
      pose proof (Hu _ _ _ _ H1 H2 E). congruence.
    - rewrite expiring_eq, fmap_take. apply (NoDup_app _ (drop limit (tc_ID <$> by_lease db))). rewrite take_drop.
      by apply NoDup_by_lease.
    - intros id. rewrite list_elem_of_fmap. split.
      + intros ([ref r] & -> & [H _]%list_elem_of_filter). by apply bool_decide_eq_true in H.
      + intros Hin. pose proof Hin as Hr. rewrite expiring_eq in Hr. apply list_elem_of_fmap in Hr as (r & -> & Hr).
        apply elem_of_take in Hr as (i & Hr%list_elem_of_lookup_2 & _). rewrite by_lease_perm in Hr.
        apply list_elem_of_filter in Hr as [_ [ref Hr]%elem_of_all_rows]. exists (ref, r).
        rewrite list_elem_of_filter, elem_of_map_to_list. cbn. by rewrite bool_decide_eq_true. }
  rewrite E, expiring_eq, length_fmap, length_take, by_lease_perm. done.
Qed.

Lemma expiring_stale limit db ref r :
  unique_ids db → cd_rows db !! ref = Some r → tc_ID r ∈ expiring now margin limit locked db → is_stale r.
Proof.
  intros Hu Hr H. rewrite expiring_eq in H. apply list_elem_of_fmap in H as (r' & E & H).
  apply elem_of_take in H as (i & H%list_elem_of_lookup_2 & _). rewrite by_lease_perm in H.
  apply list_elem_of_filter in H as [Hs [ref' Hr']%elem_of_all_rows]. pose proof (Hu _ _ _ _ Hr Hr' E). congruence.
Qed.

(** What the expiry makes of a row, in however many runs. *)
Definition ended_stale (r : ToolCall) : ToolCall := if decide (is_stale r) then expireCallSet now r else r.

Lemma ended_expired limit db ref r :
  unique_ids db → cd_rows db !! ref = Some r → ended_stale (expired limit db r) = ended_stale r.
Proof.
  intros Hu Hr. unfold ended_stale. pose proof (stale_expired limit db r) as Hs. unfold expired in *.
  case_bool_decide as Hin; [|done]. rewrite decide_False by tauto. by rewrite decide_True by by eapply expiring_stale.
Qed.
End expiry.

Lemma expire_batches_ends (fuel : nat) (now : Time) (locked : gset UUID) (db : CallsDB) :
  unique_ids db → (length (stale_rows now 0%Z locked db) < fuel)%nat →
  ∃ db', expire_batches fuel now locked db = Some db' ∧
    ∀ ref, cd_rows db' !! ref = ended_stale now 0 locked <$> cd_rows db !! ref.
Proof.
  revert db. induction fuel as [|fuel IH]; intros db Hu Hlt; [lia|]. cbn [expire_batches].
  pose proof (expire_count now 0 locked expiryBatch db Hu) as Hcount.
  pose proof (stale_after now 0 locked expiryBatch db Hu) as Hafter.
  pose proof (expire_unique now 0 locked expiryBatch db Hu) as Hu'.
  assert (Hrow : ∀ ref, cd_rows (ExpireToolCalls now 0 expiryBatch locked db).2 !! ref
    = expired now 0 locked expiryBatch db <$> cd_rows db !! ref) by (intros ref; cbn; by rewrite lookup_fmap).
  destruct (ExpireToolCalls now 0 expiryBatch locked db) as [ids db1]. cbn [fst snd] in *. rewrite Hcount.
  apply Permutation_length in Hafter as Hlen. rewrite length_drop, by_lease_perm in Hlen.
  destruct (Nat.min expiryBatch _ <? expiryBatch)%nat eqn:El.
  - exists db1. split; [done|]. intros ref. rewrite Hrow. destruct (cd_rows db !! ref) as [r|] eqn:Hr; [|done]. cbn. f_equal.
    rewrite <- (ended_expired now 0 locked expiryBatch db ref r Hu Hr). unfold ended_stale. rewrite decide_False; [done|].
    intros Hs. apply Nat.ltb_lt in El. assert (Hin : expired now 0 locked expiryBatch db r ∈ stale_rows now 0 locked db1).
    { apply list_elem_of_filter. split; [done|]. apply elem_of_all_rows. exists ref. by rewrite Hrow, Hr. }
    destruct (stale_rows now 0 locked db1); [by apply elem_of_nil in Hin|cbn in Hlen; lia].
  - apply Nat.ltb_ge in El. destruct (IH db1 Hu') as (db' & E & Hdb').
    { unfold expiryBatch in *. lia. }
    exists db'. split; [done|]. intros ref. rewrite Hdb', Hrow. destruct (cd_rows db !! ref) as [r|] eqn:Hr; [|done]. cbn. f_equal.
    by apply (ended_expired now 0 locked expiryBatch db ref).
Qed.


(** ** A waiter's verdict *)

(** A request that waits for a call whose instance stopped renewing it a lease
    ago ends it at its next look, and is answered. *)
Theorem waiter_ends_dead_call (now : Time) (lease : Duration) (lastFailure : Time) (ref : callRef) (r : ToolCall) (db : CallsDB) :
  cd_rows db !! ref = Some r → lease_ran_out now lease r = true → mayExpire now lease lastFailure = true →
  (await_check now lease lastFailure ref (tc_ID r) db).1 = Ended (expireCallSet now r)
  ∧ tc_ID r ∈ cd_notes (await_check now lease lastFailure ref (tc_ID r) db).2.
Proof.
  intros Hr Hl Hm. pose proof Hl as [Hrun _]%andb_true_iff.
  assert (Hid : same_id (tc_ID r) r = true) by by apply bool_decide_eq_true.
  assert (Hlook : look ref (tc_ID r) db = StillRunning) by (unfold look, GetToolCall; by rewrite Hr, Hid, Hrun).
  unfold await_check. rewrite Hlook, Hm. unfold ExpireToolCall.
  destruct (filter _ _) as [|x l] eqn:E.
  - exfalso. assert (Hin : (ref, r) ∈ filter (λ x : callRef * ToolCall, same_id (tc_ID r) x.2 && lease_ran_out now lease x.2 = true)
      (map_to_list (cd_rows db))) by (apply list_elem_of_filter; split; [cbn; by rewrite Hid, Hl|by apply elem_of_map_to_list]).
    rewrite E in Hin. by apply elem_of_nil in Hin.
  - split; [|cbn; set_solver]. unfold look, GetToolCall. cbn. rewrite lookup_fmap, Hr. cbn. rewrite Hid, Hl. cbn.
    assert (H1 : same_id (tc_ID r) (expireCallSet now r) = true) by by apply bool_decide_eq_true.
    assert (H2 : is_running (expireCallSet now r) = false) by (apply bool_decide_eq_false; cbn; by destruct (tc_Sent r)).
    by rewrite H1, H2.
Qed.

(** ** What is stored *)

Lemma limits : (MaxToolOutput ≤ 64 * 1024)%nat ∧ (maxCallError ≤ 8 * 1024)%nat.
Proof. unfold MaxToolOutput, maxCallError. lia. Qed.

#[local] Opaque MaxToolOutput maxCallError.

Lemma sanitizeError_fits e :
  (String.length (sanitizeError e) ≤ maxCallError)%nat ∧ ValidString (sanitizeError e) = true
  ∧ string_in "000"%char (sanitizeError e) = false.
Proof.
  destruct e as [e|]; unfold sanitizeError; [|split_and!; [apply Nat.le_0_l|done..]].
  assert (E : drop_nul (ToValidUTF8 (error_text e) replacement) = Clean (error_text e)).
  { unfold Clean. destruct (string_in _ _) eqn:H; [done|]. by apply drop_nul_none. }
  rewrite E. destruct (Clean_runes (error_text e)) as (l & Hl & Hn & ->).
  destruct (maxCallError <? String.length (joined l))%nat eqn:Hlen.
  - apply Nat.ltb_lt in Hlen. destruct (cut_runes l maxCallError Hl ltac:(lia)) as (l1 & l2 & -> & -> & Hb).
    split; [lia|]. split; [apply valid_iff; exists l1; split; [by eapply runes_ok_prefix|done]|].
    apply joined_without_nul; [by eapply runes_ok_prefix|]. intros r Hr. apply Hn. set_solver.
  - apply Nat.ltb_ge in Hlen. split; [done|]. split; [apply valid_iff; eauto|]. by apply joined_without_nul.
Qed.

Lemma out_result_fits tool code o : (String.length (rs_Text (out_result tool code o)) ≤ MaxToolOutput)%nat.
Proof.
  unfold out_result. destruct (MaxToolOutput <? String.length (o_text o))%nat eqn:E.
  - apply Nat.ltb_lt in E. cbn [rs_Text with_field]. destruct (substring_prefix MaxToolOutput (o_text o)) as [-> _]; lia.
  - by apply Nat.ltb_ge in E.
Qed.

(** A finishing call's output is cut. *)
Definition text_fits (kc : keyedCall) : Prop :=
  ∀ out, kc_phase kc = Finishing out → (String.length (rs_Text (oc_res out)) ≤ MaxToolOutput)%nat.

Lemma classify_res i res sent err : oc_res (classify i res sent err) = res.
Proof. unfold classify. repeat case_match; done. Qed.

Lemma run_ended_fits res err kc : (String.length (rs_Text res) ≤ MaxToolOutput)%nat → text_fits (run_ended res err kc).
Proof. intros H out. cbn. intros [= <-]. by rewrite classify_res. Qed.

Lemma attempt_failed_fits id node attempt before received pod err kc :
  text_fits (attempt_failed id node attempt before received pod err kc).
Proof.
  unfold attempt_failed. destruct (next_attempt _ _ _ _ _ _); [done|]. apply run_ended_fits. apply (out_result_fits "" (-1)).
Qed.

Lemma run_step_fits ref kc kc' : run_step ref kc kc' → text_fits kc → text_fits kc'.
Proof.
  destruct 1; intros Hf; try done; try apply attempt_failed_fits; try apply run_ended_fits; try apply out_result_fits.
  - apply Nat.le_0_l.
  - unfold lost. by destruct (kc_ended kc).
Qed.

Definition texts_fit (w : world) : Prop :=
  ∀ p k ref kc, w_inst w !! p = Some k → ks_calls k !! ref = Some kc → text_fits kc.

Lemma fit_set_inst w w' p k k' :
  texts_fit w → w_inst w !! p = Some k → w_inst w' = <[p := k']> (w_inst w) →
  (∀ ref kc, ks_calls k' !! ref = Some kc → text_fits kc ∨ ks_calls k !! ref = Some kc) → texts_fit w'.
Proof.
  intros Hf Hp E Hk p' k1 ref kc. rewrite E. intros H Hkc. apply lookup_insert_Some in H as [[<- <-]|[_ H]]; [|by eapply Hf].
  destruct (Hk ref kc Hkc); [done|by eapply Hf].
Qed.

Lemma call_step_fits p ref k kc w w' :
  texts_fit w → w_inst w !! p = Some k → ks_calls k !! ref = Some kc → call_step p ref k kc w w' → texts_fit w'.
Proof.
  intros Hf Hp Hkc Hs. pose proof (Hf p k ref kc Hp Hkc) as Hfit.
  assert (Hset : ∀ kc' w1, w_inst w1 = <[p := set_call ref kc' k]> (w_inst w) → text_fits kc' → texts_fit w1).
  { intros kc' w1 E H. eapply fit_set_inst; [done..|]. intros ref' kc1 H1. cbn in H1.
    apply lookup_insert_Some in H1 as [[<- <-]|[_ ?]]; [by left|by right]. }
  assert (Hsettle : ∀ w1, w_inst w1 = <[p := settle ref k]> (w_inst w) → texts_fit w1).
  { intros w1 E. eapply fit_set_inst; [done..|]. intros ref' kc1 H1. cbn in H1. apply lookup_delete_Some in H1 as [_ ?]. by right. }
  destruct Hs; try (by apply Hsettle); try (eapply Hset; [reflexivity|]; by apply attempt_failed_fits); try done.
  - eapply Hset; [reflexivity|]. by eapply run_step_fits.
  - eapply Hset; [cbn; by destruct (kc_sentRecorded kc)|done].
Qed.

Lemma wstep_fits w w' : texts_fit w → wstep w w' → texts_fit w'.
Proof.
  intros Hf Hs. destruct Hs as [now w _|id w|id w|p i w Hp|p w|p b k w Hp|p dl k w Hp|p id k k' w Hp Ha|p id k w Hp _
    |p ref tool hash k k' w Hp Hj Hjoin|p ref k w w' Hp Hj|p ref k kc w w' Hp Hkc Hc|x w Hx|p k w Hp|m l lk w|id m w|i w|r l w]; try done.
  - intros p' k ref kc H Hkc. cbn in H. apply lookup_insert_Some in H as [[_ <-]|[_ H]]; [done|by eapply Hf].
  - intros p' k ref kc H. cbn in H. apply lookup_delete_Some in H as [_ H]. by eapply Hf.
  - eapply fit_set_inst; [done..|]. by right.
  - eapply fit_set_inst; [done..|]. unfold BeginDrain. destruct (ks_draining k); by right.
  - eapply fit_set_inst; [done..|]. unfold attach in Ha. case_match; [done|]. injection Ha as <-. by right.
  - eapply fit_set_inst; [done..|]. by right.
  - eapply fit_set_inst; [done..|]. unfold join, reserve in Hjoin. repeat case_match; try done. simplify_eq. by right.
  - destruct Hj; (eapply fit_set_inst; [done..|]); try (by right). intros ref' kc H1. cbn in H1.
    apply lookup_insert_Some in H1 as [[<- <-]|[_ ?]]; [by left|by right].
  - by eapply call_step_fits.
Qed.

(** C35: what an instance writes of a tool call fits the table, whatever the tool
    printed and the nodes answered: the output is at most 64 KiB, the error text
    at most 8 KiB of valid UTF-8 without a NUL byte, so the final write is never
    refused by a constraint. *)
Theorem final_write_fits (w : world) (p : nat) (k : keyedState) (ref : callRef) (kc : keyedCall) (out : outcome) :
  w_reachable w → w_inst w !! p = Some k → ks_calls k !! ref = Some kc → kc_phase kc = Finishing out →
  (String.length (co_Output (final_write out)) ≤ 64 * 1024)%nat ∧ (String.length (co_Error (final_write out)) ≤ 8 * 1024)%nat
  ∧ ValidString (co_Error (final_write out)) = true ∧ string_in "000"%char (co_Error (final_write out)) = false
  ∧ co_State (final_write out) ≠ CallRunning.
Proof.
  intros Hr Hp Hkc Hph. assert (Hf : texts_fit w).
  { destruct Hr as (w0 & (_ & Hi & _) & Hs). assert (H0 : texts_fit w0) by (intros p' k'; rewrite Hi; intros *; by rewrite lookup_empty).
    clear Hi Hp. induction Hs as [|w0 w1 w2 H1 _ IH]; [done|]. apply IH. by eapply wstep_fits. }
  pose proof (Hf p k ref kc Hp Hkc out Hph) as Ht. destruct (sanitizeError_fits (oc_err out)) as (He & Hv & Hn).
  unfold final_write. cbn [co_Output co_Error co_State]. destruct limits.
  split; [by etrans|]. split; [by etrans|]. split; [done|]. split; [done|].
  destruct (world_inst _ (reachable_world_ok _ Hr) p k Hp) as [Hc _]. destruct (Hc ref kc Hkc) as [_ Hok].
  by apply (call_finishing _ _ _ _ Hok out Hph).
Qed.

(** ** The hash of a write *)

Lemma uvarint_prefix n x y l l' :
  0 ≤ x → 0 ≤ y → uvarint n x ++ l = uvarint n y ++ l' → x = y ∧ l = l'.
Proof.
  revert x y. induction n as [|n IH]; intros x y Hx Hy; cbn; [by intros [= -> ->]|].
  destruct (x <? 128) eqn:Ex, (y <? 128) eqn:Ey; cbn.
  - by intros [= -> ->].
  - apply Z.ltb_lt in Ex. apply Z.ltb_ge in Ey. intros [= -> _]. pose proof (Z.mod_pos_bound y 128). lia.
  - apply Z.ltb_ge in Ex. apply Z.ltb_lt in Ey. intros [= <- _]. pose proof (Z.mod_pos_bound x 128). lia.
  - intros H. injection H as E1 E2. apply IH in E2 as [E2 ->]; [|by apply Z.div_pos; lia..]. split; [|done].
    rewrite (Z.div_mod x 128), (Z.div_mod y 128) by lia. rewrite E2. lia.
Qed.

(** The text that [writeHash] hashes determines the path and the content: a write
    with another split of the same bytes is another call. *)
Theorem write_text_injective (path1 path2 content1 content2 : list Z) :
  write_text path1 content1 = write_text path2 content2 → path1 = path2 ∧ content1 = content2.
Proof.
  unfold write_text. intros H. apply app_inv_head in H. injection H as H. unfold AppendUvarint in H.
  apply uvarint_prefix in H as [E H]; [|lia..]. apply Nat2Z.inj in E. by apply app_inj_1 in H.
Qed.

(** ** Examples *)


(** The call of [demo_first], whose sandbox did not come up. *)
Definition demo_started : keyedState := startKeyed demo_ref (2 * Minute) (demo_row Hour "a" 1%N)
  (set_join demo_ref (Inserted (demo_row Hour "a" 1%N)) (demo_joined "a")).

Definition demo_kc : keyedCall :=
  MkKeyedCall 1%N ToolBash demo_hash "a" Hour (2 * Minute) false false None None newOutput Acquiring.

Definition demo_error : Error := OtherError "no capacity".

Definition demo_failed : world :=
  set_inst 0 (set_call demo_ref (acquire_failed demo_error demo_kc) demo_started) (set_inst 0 demo_started demo_first).

Lemma demo_failed_reachable : w_reachable demo_failed.
Proof.
  eapply reachable_later; [apply demo_first_reachable|].
  eapply rtc_l; [eapply (step_joining 0 demo_ref); [cbn; apply lookup_insert_eq|apply join_start; cbn; apply lookup_insert_eq]|].
  apply rtc_once. eapply (step_calling 0 demo_ref demo_started demo_kc); [cbn; apply lookup_insert_eq|done|].
  by apply call_runs, run_acquire_failed.
Qed.

Lemma final_write_fits_witness :
  (String.length (co_Error (final_write (classify "a" noResult false (Some (acquire_error demo_kc demo_error))))) ≤ 8 * 1024)%nat.
Proof.
  exact (proj1 (proj2 (final_write_fits demo_failed 0 (set_call demo_ref (acquire_failed demo_error demo_kc) demo_started) demo_ref
    (acquire_failed demo_error demo_kc) (classify "a" noResult false (Some (acquire_error demo_kc demo_error)))
    demo_failed_reachable (lookup_insert_eq _ _ _) (lookup_insert_eq _ _ _) eq_refl))).
Defined.
