(* ===== verification/Store.v ===== *)
(** * The store: the registry's tables and their queries

    go/internal/store: the database as one state, a query as a function on
    it, and a transaction as a computation that either commits a new state
    or fails and leaves the state as it was (Store.InTx).  A row lock
    serialises the transactions that take it, so a transaction here runs
    alone; errors of the connection or of the database server itself end a
    transaction and change nothing, and are not modelled further. *)

From S2P Require Import Prelude PodId Rows.

(** ** Errors *)

(** The sentinel errors of internal/model and internal/store. *)
Inductive sentinel : Type :=
| ErrNotFound | ErrLost | ErrNoCapacity | ErrNodeUnavailable | ErrBusy | ErrPrecondition
| ErrStopping | ErrNotRunning | ErrNoRow | ErrStale.

(** The gates of a placement, sandbox/placement.go. *)
Inductive Gate : Type :=
| gateStatus | gateDraining | gateForked | gateConnected | gateTombstone | gateAvoid | gateTAP
| gateStore | gateSlots | gateCPU | gateMemory | gateFreeMemory | gateDisk | gatePin.

#[export] Instance Gate_eq_dec : EqDecision Gate.
Proof. solve_decision. Defined.

(** [sandbox.refusal]: a gate that refused. *)
Record refusal := MkRefusal { rf_node : string; rf_gate : Gate; rf_text : string }.

(** A Go error as the callers tell it apart: a sentinel with its text
    ([kindError]), a gate's refusal, a refused admission (the refusal and the
    sentinel it reads as), or any other with its text. *)
Inductive error : Type :=
| KindError (kind : sentinel) (msg : string)
| Refused (r : refusal)
| AdmissionError (r : refusal) (kind : sentinel) (msg : string)
| PlainError (msg : string).

(** ** The database *)

Record DB := MkDB {
  db_now : Time;
  db_sandboxes : gmap ID Sandbox;
  db_nodes : gmap string Node;
  db_bookings : gmap ID Booking;
  db_tombstones : gmap TombstoneKey Tombstone;
  db_holds : gmap (ID * string) Hold;
  db_instances : gmap string Instance_;
  (** The conditions ingressFence and attachedAwake on a sandbox row, which
      read the tables of the ingresses and of the attached services. *)
  db_ingressFence : Sandbox → bool;
  db_attachedAwake : Sandbox → bool;
  (** The notifications sent, the last one first. *)
  db_notes : list (string * string)
}.

#[export] Instance eta_DB : Eta DB := λ d,
  MkDB (db_now d) (db_sandboxes d) (db_nodes d) (db_bookings d) (db_tombstones d) (db_holds d)
    (db_instances d) (db_ingressFence d) (db_attachedAwake d) (db_notes d).

(** A computation inside a transaction. *)
Definition tx (A : Type) : Type := DB → result error (A * DB).

#[export] Instance tx_ret : MRet tx := λ A a db, Ok (a, db).
#[export] Instance tx_bind : MBind tx := λ A B f m db,
  match m db with
  | Ok (a, db') => f a db'
  | Err e => Err e
  end.

Definition fail {A} (e : error) : tx A := λ _, Err e.
Definition gets {A} (f : DB → A) : tx A := λ db, Ok (f db, db).
Definition modify (f : DB → DB) : tx unit := λ db, Ok (tt, f db).

(** What [m] gives when it fails with [ErrNotFound] or [ErrNoRow]: the
    errors a caller of a lookup tests for. *)
Definition catch_missing {A} (m : tx A) : tx (option A) := λ db,
  match m db with
  | Ok (a, db') => Ok (Some a, db')
  | Err (KindError ErrNotFound _) | Err (KindError ErrNoRow _) => Ok (None, db)
  | Err e => Err e
  end.

(** [Store.InTx]: the transaction's result, and the database after it. *)
Definition InTx {A} (m : tx A) (db : DB) : result error A * DB :=
  match m db with
  | Ok (a, db') => (Ok a, db')
  | Err e => (Err e, db)
  end.

(** ** Notifications and the clock *)

Definition chanSandbox : string := "ferun_sandbox".
Definition chanLeader : string := "ferun_leader".
Definition HintEnvGroups : string := "env-groups".
Definition hintTombstone : string := "tombstone".
Definition notifyBatch : nat := 256.

Definition Now : tx Time := gets db_now.

Definition Notify (channel payload : string) : tx unit :=
  modify (λ db, db <| db_notes ::= cons (channel, payload) |>).

Fixpoint notify_each (ids : list ID) : tx unit :=
  match ids with
  | [] => mret tt
  | id :: ids' => Notify chanSandbox id ≫= λ _, notify_each ids'
  end.

Definition notifySandboxes (ids : list ID) : tx unit :=
  match ids with
  | [] => mret tt
  | _ => if (notifyBatch <? length ids)%nat then Notify chanSandbox "*" else notify_each ids
  end.

(** ** Lookups *)

Definition LockSandbox (id : ID) : tx Sandbox := λ db,
  match db_sandboxes db !! id with
  | Some s => Ok (s, db)
  | None => Err (KindError ErrNotFound "no such sandbox")
  end.

Definition LockNode (name : string) : tx Node := λ db,
  match db_nodes db !! name with
  | Some n => Ok (n, db)
  | None => Err (KindError ErrNoRow "no such row")
  end.

Definition GetNode (name : string) : tx Node := λ db,
  match db_nodes db !! name with
  | Some n => Ok (n, db)
  | None => Err (KindError ErrNoRow "no such row")
  end.

Definition InstanceTTL : Duration := 15 * Second.

Definition instanceFresh (now : Time) (i : Instance_) : bool :=
  now - InstanceTTL <? in_LastSeen i.

Definition instanceLive (now : Time) (i : Instance_) : bool :=
  instanceFresh now i && IsZero (in_Stopping i).

Definition InstanceLive (id : string) : tx bool :=
  gets (λ db, match db_instances db !! id with
              | Some i => instanceLive (db_now db) i
              | None => false
              end).

(** ** Writes of a sandbox's row *)

Definition put_sandbox (s : Sandbox) : DB → DB :=
  λ db, db <| db_sandboxes ::= <[sb_ID s := s]> |>.

(** A foreign key to nodes(name); the empty text is NULL. *)
Definition node_known (db : DB) (name : string) : bool :=
  String.eqb name "" || bool_decide (is_Some (db_nodes db !! name)).

Section UpdateSandbox.
Context (before after : Sandbox).

Definition same {T} `{EqDecision T} (f : Sandbox → T) : bool :=
  bool_decide (f before = f after).

(** [sandboxFixed]: what an update never changes. *)
Definition sandboxFixed_same : bool :=
  same sb_Owner && same sb_Image && same sb_VCPUs && same sb_MemoryMiB && same sb_Gen
  && same sb_CreatedAt && same sb_UpdatedAt && same sb_EnvironmentID && same sb_PodTemplate
  && same sb_TenantJob && same sb_LogLabels.

(** The lifecycle columns of [sandboxWritable]. *)
Definition lifecycle_same : bool :=
  same sb_Incarnation && same sb_ClientState && same sb_Node && same sb_Materialised
  && same sb_Op && same sb_OpID && same sb_OpOwner && same sb_OpDeadline && same sb_OpTarget
  && same sb_OpFromState && same sb_CheckpointEpoch && same sb_CheckpointHead
  && same sb_CheckpointMemory && same sb_CheckpointAt && same sb_CheckpointStore.

(** The other columns of [sandboxWritable], the description apart. *)
Definition activity_same : bool :=
  same sb_ImageRef && same sb_LostFrom && same sb_AvoidNodes && same sb_PendingSince
  && same sb_UnreachableSince && same sb_RunID && same sb_KubeVersion && same sb_SSHVersion
  && same sb_LastActiveAt && same sb_PausedAt && same sb_PolicyFailed && same sb_PolicyFailures
  && same sb_PolicyNotBefore && same sb_PinNode && same sb_IdleAfterS && same sb_Address.

Definition described : bool := negb (same sb_StatusDescription).

(** A column of the row [cur] after the UPDATE: [after]'s when it differs
    from [before]'s, else as it is. *)
Definition pick {T} `{EqDecision T} (f : Sandbox → T) (cur : Sandbox) : T :=
  if same f then f cur else f after.

Definition write_columns (now : Time) (cur : Sandbox) : Sandbox :=
  MkSandbox (sb_ID cur) (pick sb_Incarnation cur) (sb_Owner cur) (sb_Image cur)
    (pick sb_ImageRef cur) (sb_VCPUs cur) (sb_MemoryMiB cur) (pick sb_ClientState cur)
    (pick sb_StatusDescription cur) (pick sb_Node cur) (pick sb_Materialised cur)
    (pick sb_LostFrom cur) (pick sb_AvoidNodes cur) (pick sb_Op cur) (pick sb_OpID cur)
    (pick sb_OpOwner cur) (pick sb_OpDeadline cur) (pick sb_OpTarget cur)
    (pick sb_OpFromState cur)
    (if lifecycle_same then sb_Gen cur else sb_Gen cur + 1)
    (pick sb_CheckpointEpoch cur) (pick sb_CheckpointHead cur) (pick sb_CheckpointMemory cur)
    (pick sb_CheckpointAt cur) (pick sb_CheckpointStore cur) (pick sb_PendingSince cur)
    (pick sb_UnreachableSince cur) (pick sb_RunID cur) (pick sb_KubeVersion cur)
    (pick sb_SSHVersion cur) (sb_HTTPVersion cur) (sb_HTTPPushed cur) (sb_CreatedAt cur)
    (if lifecycle_same && negb described then sb_UpdatedAt cur else now)
    (pick sb_LastActiveAt cur) (pick sb_PausedAt cur) (pick sb_PolicyFailed cur)
    (pick sb_PolicyFailures cur) (pick sb_PolicyNotBefore cur) (sb_EnvironmentID cur)
    (sb_PodTemplate cur) (pick sb_PinNode cur) (pick sb_IdleAfterS cur) (pick sb_Address cur)
    (sb_TenantJob cur) (sb_LogLabels cur).

(** [UpdateSandbox]: writes the columns in which [after] differs from
    [before], guarded by [before]'s gen and incarnation. *)
Definition UpdateSandbox : tx Sandbox := λ db,
  if negb (same sb_ID) then Err (PlainError "update sandbox: the id changed")
  else if negb sandboxFixed_same then
    Err (PlainError "update sandbox: a column is not written by UpdateSandbox")
  else if lifecycle_same && activity_same && negb described then Ok (before, db)
  else
    match db_sandboxes db !! sb_ID before with
    | Some cur =>
        if (sb_Gen cur =? sb_Gen before)
             && bool_decide (sb_Incarnation cur = sb_Incarnation before) then
          let row := write_columns (db_now db) cur in
          if node_known db (sb_Node row) && node_known db (sb_LostFrom row) then
            let db' := put_sandbox row db in
            if lifecycle_same then Ok (row, db')
            else Ok (row, db' <| db_notes ::= cons (chanSandbox, sb_ID before) |>)
          else Err (PlainError "update sandbox: foreign key violation")
        else Err (KindError ErrStale "the sandbox row changed since it was read")
    | None => Err (KindError ErrStale "the sandbox row changed since it was read")
    end.

End UpdateSandbox.

Record NewSandbox := MkNewSandbox {
  ns_ID : ID; ns_Owner : string; ns_Image : string; ns_VCPUs : Z; ns_MemoryMiB : Z;
  ns_ImageRef : string; ns_EnvironmentID : UUID; ns_PodTemplate : option PodTemplate;
  ns_PinNode : string; ns_IdleAfterS : option Z; ns_TenantJob : bool;
  ns_LogLabels : gmap string string; ns_MadeBy : string
}.

(** The row an INSERT makes, with the defaults of the table; [inc] is the
    incarnation that the database draws. *)
Definition new_row (n : NewSandbox) (inc : UUID) (now : Time) : Sandbox :=
  MkSandbox (ns_ID n) inc (ns_Owner n) (ns_Image n) (ns_ImageRef n) (ns_VCPUs n) (ns_MemoryMiB n)
    StatePending "awaiting first tool call" "" false "" [] None uuidNil "" zeroTime "" None 0
    0 "" false zeroTime "" zeroTime zeroTime "" "" "" "" "" now now now zeroTime None 0 zeroTime
    (ns_EnvironmentID n) (ns_PodTemplate n) (ns_PinNode n) (ns_IdleAfterS n) "" (ns_TenantJob n)
    (ns_LogLabels n).

(** [CreateSandbox]: the new row and [true], or the row that has the ID and
    [false]. *)
Definition CreateSandbox (n : NewSandbox) (inc : UUID) : tx (Sandbox * bool) := λ db,
  match db_sandboxes db !! ns_ID n with
  | Some s => Ok ((s, false), db)
  | None =>
      let s := new_row n inc (db_now db) in
      Ok ((s, true), put_sandbox s db <| db_notes ::= cons (chanSandbox, sb_ID s) |>)
  end.

Definition mintAttempts : nat := 8.

(** [CreateMintedSandbox] over the IDs that [podid.Mint] draws. *)
Fixpoint create_minted (tries : nat) (drawn : list ID) (of_id : ID → NewSandbox) (inc : UUID)
    : tx Sandbox :=
  match tries, drawn with
  | S tries', id :: more =>
      let n := of_id id in
      if negb (String.eqb (ns_ID n) id) then fail (PlainError "the new row names another id")
      else CreateSandbox n inc ≫= λ '(s, created),
             if created : bool then mret s else create_minted tries' more of_id inc
  | _, _ => fail (PlainError "new IDs in a row were taken")
  end.

Definition CreateMintedSandbox (drawn : list ID) (of_id : ID → NewSandbox) (inc : UUID)
    : tx Sandbox :=
  create_minted mintAttempts drawn of_id inc.

(** [DeleteSandbox]: the row, and by cascade its booking and its holds. *)
Definition DeleteSandbox (id : ID) : tx bool := λ db,
  match db_sandboxes db !! id with
  | None => Ok (false, db)
  | Some _ =>
      Ok (true, db <| db_sandboxes ::= delete id |> <| db_bookings ::= delete id |>
                   <| db_holds ::= filter (λ kv, kv.1.1 ≠ id) |>
                   <| db_notes ::= cons (chanSandbox, id) |>)
  end.

(** Applies [f] to the row of [id] when it is there and [p] holds of it, and
    reports whether it did: an UPDATE of one row. *)
Definition update_row (id : ID) (p : Sandbox → bool) (f : Time → Sandbox → Sandbox) : tx bool :=
  λ db,
  match db_sandboxes db !! id with
  | Some s => if p s then Ok (true, put_sandbox (f (db_now db) s) db) else Ok (false, db)
  | None => Ok (false, db)
  end.

Definition coalesce_time (t now : Time) : Time := if IsZero t then now else t.

Definition groupMember (s : Sandbox) : bool :=
  negb (bool_decide (sb_EnvironmentID s = uuidNil)) || HasGroups s.

Definition SetSandboxAddress (id : ID) (inc : UUID) (address : string) : tx bool := λ db,
  match db_sandboxes db !! id with
  | Some s =>
      if bool_decide (sb_Incarnation s = inc) && negb (String.eqb (sb_Address s) address) then
        let db' := put_sandbox (s <| sb_Address := address |>) db in
        if groupMember s then Ok (true, db' <| db_notes ::= cons (chanLeader, HintEnvGroups) |>)
        else Ok (true, db')
      else Ok (false, db)
  | None => Ok (false, db)
  end.

Definition TouchSandbox (id : ID) : tx unit :=
  update_row id (λ _, true) (λ now s, s <| sb_LastActiveAt := now |>) ≫= λ _, mret tt.

Definition MarkUnreachable (id : ID) : tx bool :=
  update_row id (λ s, bool_decide (sb_ClientState s = StateRunning))
    (λ now s, s <| sb_UnreachableSince := coalesce_time (sb_UnreachableSince s) now |>).

Definition ClearUnreachable (id : ID) : tx unit :=
  update_row id (λ s, negb (IsZero (sb_UnreachableSince s)))
    (λ _ s, s <| sb_UnreachableSince := zeroTime |>) ≫= λ _, mret tt.

Definition MarkPending (id : ID) (inc : UUID) : tx bool :=
  update_row id (λ s, bool_decide (sb_Incarnation s = inc))
    (λ now s, s <| sb_PendingSince := coalesce_time (sb_PendingSince s) now |>).

Definition SetStatusDescription (id : ID) (inc : UUID) (description : string) : tx unit :=
  update_row id (λ s, bool_decide (sb_Incarnation s = inc)
                      && negb (String.eqb (sb_StatusDescription s) description))
    (λ now s, s <| sb_StatusDescription := description |> <| sb_UpdatedAt := now |>)
  ≫= λ _, mret tt.

(** ** Bookings *)

Definition GetBooking (id : ID) : tx Booking := λ db,
  match db_bookings db !! id with
  | Some b => Ok (b, db)
  | None => Err (KindError ErrNoRow "no such row")
  end.

Definition UpsertBooking (b : Booking) : tx unit := λ db,
  if bool_decide (is_Some (db_sandboxes db !! bk_PodID b))
       && bool_decide (is_Some (db_nodes db !! bk_Node b)) then
    Ok (tt, db <| db_bookings ::= <[bk_PodID b :=
      MkBooking (bk_PodID b) (bk_Node b) (bk_VCPUs b) (bk_MemoryMiB b) (bk_Gated b) (db_now db)]> |>)
  else Err (KindError ErrNotFound "no such sandbox").

Definition DeleteBooking (id : ID) : tx bool := λ db,
  Ok (bool_decide (is_Some (db_bookings db !! id)), db <| db_bookings ::= delete id |>).

(** The sum of [f] over the bookings on [node] of the pods other than
    [exclude]. *)
Definition sum_on (f : Booking → Z) (node : string) (exclude : ID) (bs : gmap ID Booking) : Z :=
  map_fold (λ id b acc,
    if bool_decide (bk_Node b = node) && negb (String.eqb id exclude) then f b + acc else acc)
    0 bs.

Definition sums_on (node : string) (exclude : ID) (bs : gmap ID Booking) : BookingSums :=
  MkBookingSums (sum_on (λ _, 1) node exclude bs) (sum_on bk_VCPUs node exclude bs)
    (sum_on bk_MemoryMiB node exclude bs).

Definition SumBookings (node : string) (exclude : ID) : tx BookingSums :=
  gets (λ db, sums_on node exclude (db_bookings db)).

(** ** Tombstones *)

(** [UpsertTombstone]: a zero [NotBefore] means now; an existing one of the
    same key keeps its reason and attempts and gets the new [NotBefore]. *)
Definition UpsertTombstone (t : Tombstone) : tx Tombstone := λ db,
  if negb (bool_decide (is_Some (db_nodes db !! tb_Node t))) then
    Err (PlainError "upsert tombstone: foreign key violation")
  else
    let nb := coalesce_time (tb_NotBefore t) (db_now db) in
    let row := match db_tombstones db !! Key t with
      | Some old => old <| tb_NotBefore := nb |>
      | None => MkTombstone (tb_PodID t) (tb_Node t) (tb_Incarnation t) (tb_Reason t) (db_now db)
                  nb 0 "" zeroTime
      end in
    Ok (row, db <| db_tombstones ::= <[Key t := row]> |>).

Definition GetTombstone (k : TombstoneKey) : tx Tombstone := λ db,
  match db_tombstones db !! k with
  | Some t => Ok (t, db)
  | None => Err (KindError ErrNoRow "no such row")
  end.

Definition DeleteTombstone (k : TombstoneKey) : tx bool := λ db,
  Ok (bool_decide (is_Some (db_tombstones db !! k)), db <| db_tombstones ::= delete k |>).

(** Whether a tombstone of the pod is on the node. *)
Definition tombstoned_on (db : DB) (id : ID) (node : string) : bool :=
  existsb (λ k, String.eqb (tk_PodID k) id && String.eqb (tk_Node k) node)
    (map_to_list (db_tombstones db)).*1.

Definition HasTombstone (id : ID) (node : string) : tx bool :=
  gets (λ db, tombstoned_on db id node).

Definition DueTombstone (k : TombstoneKey) : tx (Tombstone * bool) := λ db,
  match db_tombstones db !! k with
  | Some t => Ok ((t, tb_NotBefore t <=? db_now db), db)
  | None => Err (KindError ErrNoRow "no such row")
  end.

Definition NoteTombstoneAttempt (k : TombstoneKey) (errText : string) : tx unit := λ db,
  match db_tombstones db !! k with
  | Some t =>
      Ok (tt, db <| db_tombstones ::= <[k := t <| tb_Attempts ::= Z.add 1 |>
                                                <| tb_LastError := errText |>
                                                <| tb_LastAttemptAt := db_now db |>]> |>)
  | None => Ok (tt, db)
  end.

(** ** The TAP device gate *)

Definition tapHolds (s : Sandbox) : bool :=
  negb (bool_decide (sb_ClientState s ∈ [StateHibernated; StatePending; StateLost]))
  || bool_decide (is_Some (sb_Op s)).

(** The least of the IDs that satisfy [p], as ORDER BY id LIMIT 1 gives it. *)
Definition first_id (ids : list ID) : ID :=
  match merge_sort String.le ids with [] => ""%string | id :: _ => id end.

(** The first sandbox on [node] that shares [id]'s TAP device and may have
    it there ([tapShares], [tapHolds]). *)
Definition tap_holder (db : DB) (node : string) (id : ID) : ID :=
  first_id (sb_ID <$> filter
    (λ s, String.eqb (sb_Node s) node && TAPConflict id (sb_ID s) && tapHolds s = true)
    (map_to_list (db_sandboxes db)).*2).

Definition TAPConflictOn (node : string) (id : ID) : tx ID :=
  gets (λ db, if negb (IsLegacy id) then ""%string else tap_holder db node id).

(** ** Holds *)

(** Whether a hold's lease lies ahead. *)
Definition hold_live (now : Time) (h : Hold) : bool :=
  hd_Infinite h || (now <? hd_LeaseUntil h).

Definition upsertHold (h : Hold) (lease : Duration) : tx unit := λ db,
  if bool_decide (is_Some (db_sandboxes db !! hd_SandboxID h)) then
    let row := if lease <=? 0
      then MkHold (hd_SandboxID h) (hd_Holder h) (hd_Kind h) (hd_InstanceID h) zeroTime true
      else MkHold (hd_SandboxID h) (hd_Holder h) (hd_Kind h) (hd_InstanceID h)
             (db_now db + interval lease) false in
    Ok (tt, db <| db_holds ::= <[(hd_SandboxID h, hd_Holder h) := row]> |>)
  else Err (KindError ErrNotFound "no such sandbox").

Definition RenewHold (id : ID) (kind : HoldKind) (instanceID : string) (lease : Duration)
    : tx unit :=
  upsertHold (MkHold id (InstanceHolder instanceID kind) kind instanceID zeroTime false) lease.

Definition AdmitHold (id : ID) (kind : HoldKind) (instanceID : string) (lease : Duration)
    : tx unit :=
  RenewHold id kind instanceID lease ≫= λ _, TouchSandbox id.

Definition ReleaseHold (id : ID) (kind : HoldKind) (instanceID : string) : tx unit :=
  modify (λ db, db <| db_holds ::= delete (id, InstanceHolder instanceID kind) |>)
  ≫= λ _, TouchSandbox id.

Definition HoldProcessRow (id : ID) (processID : string) (lease : Duration) : tx unit :=
  upsertHold (MkHold id (ProcessHolder processID) HoldProcess "" zeroTime false) lease.

Definition ReleaseProcessHold (id : ID) (processID : string) : tx bool := λ db,
  Ok (bool_decide (is_Some (db_holds db !! (id, ProcessHolder processID))),
      db <| db_holds ::= delete (id, ProcessHolder processID) |>).

Definition DeleteProcessHolds (id : ID) : tx unit :=
  modify (λ db, db <| db_holds ::= filter
    (λ kv, ¬ (kv.1.1 = id ∧ hd_Kind kv.2 = HoldProcess)) |>).

(** [HasLiveHold] of one of [kinds], of any kind when there is none. *)
Definition HasLiveHold (id : ID) (kinds : list HoldKind) : tx bool :=
  gets (λ db, existsb (λ kv, String.eqb kv.1.1 id && hold_live (db_now db) kv.2
                && (bool_decide (kinds = []) || bool_decide (hd_Kind kv.2 ∈ kinds)))
                (map_to_list (db_holds db))).

Definition DeleteExpiredHolds : tx unit :=
  modify (λ db, db <| db_holds ::= filter
    (λ kv, hd_Infinite kv.2 || (db_now db <=? hd_LeaseUntil kv.2) = true) |>).

(** ** The rechecks of a begin *)

Definition policyDue (policy : Policy) (now : Time) (s : Sandbox) : bool :=
  negb (bool_decide (sb_PolicyFailed s = Some policy)) || IsZero (sb_PolicyNotBefore s)
  || (sb_PolicyNotBefore s <=? now).

(** [idleOn] and [idleAfter]: the row's idle_after_s, else the instance's
    --idle-pause. *)
Definition idleOn (idle : Duration) (s : Sandbox) : bool :=
  match sb_IdleAfterS s with Some n => 0 <? n | None => 0 <? interval idle end.

Definition idleAfter (idle : Duration) (s : Sandbox) : Duration :=
  match sb_IdleAfterS s with Some n => n * Second | None => interval idle end.

Definition idle_due (db : DB) (idle : Duration) (s : Sandbox) : bool :=
  bool_decide (sb_ClientState s = StateRunning) && bool_decide (sb_Op s = None)
  && idleOn idle s && (sb_LastActiveAt s <? db_now db - idleAfter idle s)
  && policyDue PolicyIdle (db_now db) s && db_ingressFence db s && negb (db_attachedAwake db s).

Definition IdleRecheck (id : ID) (idle : Duration) : tx bool :=
  gets (λ db, match db_sandboxes db !! id with
              | Some s => idle_due db idle s
              | None => false
              end).

Definition hibernate_due (db : DB) (after : Duration) (s : Sandbox) : bool :=
  bool_decide (sb_ClientState s = StatePaused) && bool_decide (sb_Op s = None)
  && negb (IsZero (sb_PausedAt s)) && (sb_PausedAt s <? db_now db - interval after)
  && policyDue PolicyHibernateAfter (db_now db) s.

Definition HibernateAfterRecheck (id : ID) (after : Duration) : tx bool :=
  gets (λ db, match db_sandboxes db !! id with
              | Some s => hibernate_due db after s
              | None => false
              end).

(** A time that is set and lies more than [d] before [now]. *)
Definition older (t now : Time) (d : Duration) : bool := negb (IsZero t) && (t <? now - d).

Definition repair_due (db : DB) (pendingAfter unreachableAfter : Duration) (s : Sandbox) : bool :=
  bool_decide (sb_Op s = None)
  && ((bool_decide (sb_ClientState s = StateCreating)
         && older (sb_PendingSince s) (db_now db) (interval pendingAfter))
      || (bool_decide (sb_ClientState s = StateRunning)
            && older (sb_UnreachableSince s) (db_now db) (interval unreachableAfter))).

Definition RepairRecheck (id : ID) (pendingAfter unreachableAfter : Duration) : tx bool :=
  gets (λ db, match db_sandboxes db !! id with
              | Some s => repair_due db pendingAfter unreachableAfter s
              | None => false
              end).

(** ** The sweeps *)

(** Up to [limit] IDs of the rows that satisfy [p] and that no one else has
    locked, by ID: SELECT … ORDER BY id LIMIT … FOR UPDATE SKIP LOCKED. *)
Definition pick_rows (p : Sandbox → bool) (limit : nat) (locked : gset ID)
    (rows : gmap ID Sandbox) : list ID :=
  take limit (merge_sort String.le
    (filter (λ id, id ∉ locked) (map_to_list (filter (λ kv, p kv.2 = true) rows)).*1)).

Fixpoint update_rows (ids : list ID) (f : Sandbox → Sandbox) (rows : gmap ID Sandbox)
    : gmap ID Sandbox :=
  match ids with
  | [] => rows
  | id :: ids' => update_rows ids' f (alter f id rows)
  end.

(** The row of an op that a stopping instance releases. *)
Definition release_op (instanceID : string) (now : Time) (s : Sandbox) : Sandbox :=
  s <| sb_Op := None |> <| sb_OpID := uuidNil |> <| sb_OpOwner := ""%string |>
    <| sb_OpDeadline := zeroTime |> <| sb_OpTarget := ""%string |> <| sb_OpFromState := None |>
    <| sb_ClientState := StateUnknown |>
    <| sb_StatusDescription := ("op " +:+ (if sb_Op s is Some k then op_string k else "")
         +:+ " of stopping instance " +:+ instanceID +:+ " was released")%string |>
    <| sb_Gen ::= Z.add 1 |> <| sb_UpdatedAt := now |>.

Definition owned_op (instanceID : string) (s : Sandbox) : bool :=
  String.eqb (sb_OpOwner s) instanceID && bool_decide (is_Some (sb_Op s)).

Definition ReleaseOpsOf (instanceID : string) : tx (list ID) := λ db,
  let ids := pick_rows (owned_op instanceID) (size (db_sandboxes db)) ∅ (db_sandboxes db) in
  (notifySandboxes ids ≫= λ _, mret ids)
    (db <| db_sandboxes ::= update_rows ids (release_op instanceID (db_now db)) |>).

(** [nodeDownSince]: since when a node is out of service, as text. *)
Definition nodeDownSince (now : Time) (n : Node) : string :=
  format_rfc3339 (if IsZero (n_DownSince n)
                  then (if IsZero (n_RemovedAt n) then now else n_RemovedAt n)
                  else n_DownSince n).

Definition node_out (db : DB) (name : string) : bool :=
  match db_nodes db !! name with
  | Some n => bool_decide (n_Status n ∈ [NodeDown; NodeRemoved])
  | None => false
  end.

Definition down_sweep_due (db : DB) (s : Sandbox) : bool :=
  node_out db (sb_Node s) && bool_decide (sb_Op s = None)
  && bool_decide (sb_ClientState s ∈ [StateRunning; StatePaused; StateCreating; StateStopped;
                                      StateFailed]).

Definition down_row (db : DB) (s : Sandbox) : Sandbox :=
  match db_nodes db !! sb_Node s with
  | None => s
  | Some n =>
      s <| sb_ClientState := StateUnknown |>
        <| sb_StatusDescription := ("node " +:+ n_Name n +:+ " down since "
             +:+ nodeDownSince (db_now db) n +:+ "; it was "
             +:+ state_string (sb_ClientState s))%string |>
        <| sb_Gen ::= Z.add 1 |> <| sb_UpdatedAt := db_now db |>
  end.

Definition DownSweep (limit : nat) (locked : gset ID) : tx (list ID) := λ db,
  let ids := pick_rows (down_sweep_due db) limit locked (db_sandboxes db) in
  (notifySandboxes ids ≫= λ _, mret ids)
    (db <| db_sandboxes ::= update_rows ids (down_row db) |>).

(** [LostGrace]: an unknown row on a node that stays out of service ends
    hibernated, lost or pending. *)
Definition lost_due (db : DB) (grace : Duration) (s : Sandbox) : bool :=
  bool_decide (sb_ClientState s = StateUnknown) && bool_decide (sb_Op s = None)
  && match db_nodes db !! sb_Node s with
     | Some n =>
         bool_decide (n_Status n = NodeRemoved)
         || (bool_decide (n_Status n = NodeDown)
               && older (n_DownSince n) (db_now db) (interval grace))
     | None => false
     end.

Definition lost_state (s : Sandbox) : ClientState :=
  if HasCheckpoint s then StateHibernated
  else if sb_Materialised s then StateLost else StatePending.

Definition lost_text (db : DB) (s : Sandbox) : string :=
  if HasCheckpoint s then
    ("; restored from the checkpoint of "
      +:+ format_rfc3339 (coalesce_time (sb_CheckpointAt s) (db_now db)) +:+ " on the next use")%string
  else if sb_Materialised s then ""
  else "; its pod was never seen there; created on the next use".

Definition lost_row (db : DB) (s : Sandbox) : Sandbox :=
  match db_nodes db !! sb_Node s with
  | None => s
  | Some n =>
      let kept := HasCheckpoint s || sb_Materialised s in
      s <| sb_ClientState := lost_state s |>
        <| sb_Node := if kept then sb_Node s else ""%string |>
        <| sb_LostFrom := if kept then sb_Node s else ""%string |>
        <| sb_PendingSince := zeroTime |> <| sb_Address := ""%string |>
        <| sb_StatusDescription := ("node " +:+ n_Name n +:+ " down since "
             +:+ nodeDownSince (db_now db) n +:+ lost_text db s)%string |>
        <| sb_Gen ::= Z.add 1 |> <| sb_UpdatedAt := db_now db |>
  end.

Record LostRow := MkLostRow {
  lr_ID : ID; lr_Owner : string; lr_Node : string; lr_State : ClientState; lr_RunID : string;
  lr_Previous : string
}.

Definition lost_result (s : Sandbox) : LostRow :=
  MkLostRow (sb_ID s) (sb_Owner s) (sb_Node s) (lost_state s) (sb_RunID s)
    (sb_StatusDescription s).

Definition LostGrace (grace : Duration) (limit : nat) (locked : gset ID) : tx (list LostRow) :=
  λ db,
  let ids := pick_rows (lost_due db grace) limit locked (db_sandboxes db) in
  let olds := omap (λ id, db_sandboxes db !! id) ids in
  let member := existsb (λ s, negb (String.eqb (sb_Address s) "") && groupMember s) olds in
  let db1 := db <| db_sandboxes ::= update_rows ids (lost_row db) |>
                <| db_bookings ::= filter (λ kv, kv.1 ∉ ids) |>
                <| db_holds ::= filter (λ kv, ¬ (kv.1.1 ∈ ids ∧ hd_Kind kv.2 = HoldProcess)) |> in
  ((if member : bool then Notify chanLeader HintEnvGroups else mret tt) ≫= λ _,
     notifySandboxes ids ≫= λ _, mret (lost_result <$> olds)) db1.

(** ** Reasoning about transactions *)

Lemma bind_ok {A B} (m : tx A) (f : A → tx B) db r :
  (m ≫= f) db = Ok r ↔ ∃ a db1, m db = Ok (a, db1) ∧ f a db1 = Ok r.
Proof.
  unfold mbind, tx_bind. split.
  - destruct (m db) as [[a db1]|e]; [|done]. eauto.
  - by intros (a & db1 & -> & ?).
Qed.

Lemma ret_ok {A} (a : A) db r : (mret a : tx A) db = Ok r ↔ r = (a, db).
Proof. unfold mret, tx_ret. naive_solver. Qed.

Lemma gets_ok {A} (f : DB → A) db r : gets f db = Ok r ↔ r = (f db, db).
Proof. unfold gets. naive_solver. Qed.

Lemma modify_ok f db r : modify f db = Ok r ↔ r = (tt, f db).
Proof. unfold modify. naive_solver. Qed.

Lemma catch_missing_ok {A} (m : tx A) db o db' :
  catch_missing m db = Ok (o, db') →
  match o with Some a => m db = Ok (a, db') | None => db' = db ∧ is_ok (m db) = false end.
Proof.
  unfold catch_missing.
  destruct (m db) as [[a d]|[[] ?| | |]]; naive_solver.
Qed.

Lemma DB_ext (d d' : DB) :
  db_now d = db_now d' → db_sandboxes d = db_sandboxes d' → db_nodes d = db_nodes d' →
  db_bookings d = db_bookings d' → db_tombstones d = db_tombstones d' →
  db_holds d = db_holds d' → db_instances d = db_instances d' →
  db_ingressFence d = db_ingressFence d' → db_attachedAwake d = db_attachedAwake d' →
  db_notes d = db_notes d' → d = d'.
Proof. destruct d, d'. cbn. intros. by subst. Qed.

(** An equation between results, resolved without a look at the other
    hypotheses. *)
Ltac subst_eq E :=
  match type of E with
  | ?x = ?y => first [ is_var x; subst x | is_var y; subst y | constr_eq x y; clear E | idtac ]
  end.

Ltac intro_eqs :=
  repeat lazymatch goal with
  | |- _ = _ → _ => let E := fresh "Eq" in intros E; subst_eq E
  end.

Ltac inj_ok H :=
  first [ discriminate H | injection H; clear H; intro_eqs | subst_eq H | clear H ].

(** Takes a transaction that committed apart: every bind, test and match on
    the way to its result. *)
Ltac tx_inv H :=
  lazymatch type of H with
  | @mbind _ _ _ _ _ _ _ = Ok _ =>
      let a := fresh "a" in let d := fresh "d" in let H1 := fresh H in let H2 := fresh H in
      apply bind_ok in H; destruct H as (a & d & H1 & H2); tx_inv H1; tx_inv H2
  | @mret _ _ _ _ _ = Ok _ => apply ret_ok in H; inj_ok H
  | gets _ _ = Ok _ => apply gets_ok in H; inj_ok H
  | modify _ _ = Ok _ => apply modify_ok in H; inj_ok H
  | fail _ _ = Ok _ => discriminate H
  | Err _ = Ok _ => discriminate H
  | Ok _ = Ok _ => inj_ok H
  | (if ?b then _ else _) _ = Ok _ => destruct b eqn:?; tx_inv H
  | (if ?b then _ else _) = Ok _ => destruct b eqn:?; tx_inv H
  | match ?x with _ => _ end _ = Ok _ => destruct x eqn:?; tx_inv H
  | match ?x with _ => _ end = Ok _ => destruct x eqn:?; tx_inv H
  | _ => idtac
  end.

(** A transaction that fails changes nothing. *)
Lemma InTx_err {A} (m : tx A) db e db' : InTx m db = (Err e, db') → db' = db.
Proof. unfold InTx. destruct (m db) as [[]|]; naive_solver. Qed.

Lemma LockSandbox_ok id db s db' :
  LockSandbox id db = Ok (s, db') → db' = db ∧ db_sandboxes db !! id = Some s.
Proof. unfold LockSandbox. intros H. tx_inv H. done. Qed.

Lemma LockNode_ok name db n db' :
  LockNode name db = Ok (n, db') → db' = db ∧ db_nodes db !! name = Some n.
Proof. unfold LockNode. intros H. tx_inv H. done. Qed.

(** A lookup whose caller tests for a missing row. *)
Lemma catch_LockSandbox_ok id db o d :
  catch_missing (LockSandbox id) db = Ok (o, d) → d = db ∧ o = db_sandboxes db !! id.
Proof. unfold catch_missing, LockSandbox. destruct (db_sandboxes db !! id); naive_solver. Qed.

Lemma catch_LockNode_ok name db o d :
  catch_missing (LockNode name) db = Ok (o, d) → d = db ∧ o = db_nodes db !! name.
Proof. unfold catch_missing, LockNode. destruct (db_nodes db !! name); naive_solver. Qed.

Lemma catch_GetNode_ok name db o d :
  catch_missing (GetNode name) db = Ok (o, d) → d = db ∧ o = db_nodes db !! name.
Proof. unfold catch_missing, GetNode. destruct (db_nodes db !! name); naive_solver. Qed.

Lemma catch_GetBooking_ok id db o d :
  catch_missing (GetBooking id) db = Ok (o, d) → d = db ∧ o = db_bookings db !! id.
Proof. unfold catch_missing, GetBooking. destruct (db_bookings db !! id); naive_solver. Qed.

Lemma catch_GetTombstone_ok k db o d :
  catch_missing (GetTombstone k) db = Ok (o, d) → d = db ∧ o = db_tombstones db !! k.
Proof. unfold catch_missing, GetTombstone. destruct (db_tombstones db !! k); naive_solver. Qed.

Lemma UpsertTombstone_ok t db r db' :
  UpsertTombstone t db = Ok (r, db') →
  is_Some (db_nodes db !! tb_Node t) ∧ db' = db <| db_tombstones ::= <[Key t := r]> |>.
Proof.
  unfold UpsertTombstone. intros H. tx_inv H. reflect_tests. done.
Qed.

Lemma UpsertBooking_ok b db u db' :
  UpsertBooking b db = Ok (u, db') →
  is_Some (db_sandboxes db !! bk_PodID b) ∧ is_Some (db_nodes db !! bk_Node b)
  ∧ db' = db <| db_bookings ::= <[bk_PodID b := MkBooking (bk_PodID b) (bk_Node b) (bk_VCPUs b)
      (bk_MemoryMiB b) (bk_Gated b) (db_now db)]> |>.
Proof.
  unfold UpsertBooking. intros H. tx_inv H. reflect_tests. done.
Qed.

(** Replaces the queries among the hypotheses by what they did. *)
Ltac split_fact H :=
  lazymatch type of H with
  | _ ∧ _ => let E := fresh H in destruct H as [E H]; split_fact E; split_fact H
  | _ = _ => try subst_eq H
  | _ => idtac
  end.

Ltac tx_facts :=
  repeat match goal with
  | H : LockSandbox _ _ = Ok _ |- _ => apply LockSandbox_ok in H; split_fact H
  | H : LockNode _ _ = Ok _ |- _ => apply LockNode_ok in H; split_fact H
  | H : catch_missing (LockSandbox _) _ = Ok _ |- _ => apply catch_LockSandbox_ok in H; split_fact H
  | H : catch_missing (LockNode _) _ = Ok _ |- _ => apply catch_LockNode_ok in H; split_fact H
  | H : catch_missing (GetNode _) _ = Ok _ |- _ => apply catch_GetNode_ok in H; split_fact H
  | H : catch_missing (GetBooking _) _ = Ok _ |- _ => apply catch_GetBooking_ok in H; split_fact H
  | H : catch_missing (GetTombstone _) _ = Ok _ |- _ =>
      apply catch_GetTombstone_ok in H; split_fact H
  | H : UpsertTombstone _ _ = Ok _ |- _ => apply UpsertTombstone_ok in H; split_fact H
  | H : UpsertBooking _ _ = Ok _ |- _ => apply UpsertBooking_ok in H; split_fact H
  | H : Now _ = Ok _ |- _ => apply gets_ok in H; inj_ok H
  | H : SumBookings _ _ _ = Ok _ |- _ => apply gets_ok in H; inj_ok H
  | H : InstanceLive _ _ = Ok _ |- _ => apply gets_ok in H; inj_ok H
  | H : HasTombstone _ _ _ = Ok _ |- _ => apply gets_ok in H; inj_ok H
  | H : TAPConflictOn _ _ _ = Ok _ |- _ => apply gets_ok in H; inj_ok H
  | H : IdleRecheck _ _ _ = Ok _ |- _ => apply gets_ok in H; inj_ok H
  | H : HibernateAfterRecheck _ _ _ = Ok _ |- _ => apply gets_ok in H; inj_ok H
  | H : RepairRecheck _ _ _ _ = Ok _ |- _ => apply gets_ok in H; inj_ok H
  | H : HasLiveHold _ _ _ = Ok _ |- _ => apply gets_ok in H; inj_ok H
  end.

(** *** UpdateSandbox on a locked row *)

Section locked.
Context (before after : Sandbox).

Lemma pick_locked {T} `{EqDecision T} (f : Sandbox → T) :
  pick before after f before = f after.
Proof. unfold pick, same. by case_bool_decide. Qed.

(** The row a write of [after] leaves: [after], but for the columns the
    store itself keeps. *)
Definition stamped (w : Sandbox) : Sandbox :=
  after <| sb_Gen := sb_Gen w |> <| sb_UpdatedAt := sb_UpdatedAt w |>
        <| sb_HTTPVersion := sb_HTTPVersion before |> <| sb_HTTPPushed := sb_HTTPPushed before |>.

Lemma same_eq {T} `{EqDecision T} (f : Sandbox → T) :
  same before after f = true → f before = f after.
Proof. apply bool_decide_eq_true. Qed.

Lemma write_columns_locked now :
  sb_ID before = sb_ID after → sandboxFixed_same before after = true →
  let w := write_columns before after now before in w = stamped w.
Proof.
  intros Hid Hfix. unfold sandboxFixed_same in Hfix. reflect_tests.
  repeat match goal with H : same _ _ _ = true |- _ => apply same_eq in H end.
  cbv zeta. unfold stamped. apply Sandbox_ext; cbn; rewrite ?pick_locked; congruence.
Qed.

Lemma unchanged_locked :
  sb_ID before = sb_ID after → sandboxFixed_same before after = true →
  lifecycle_same before after = true → activity_same before after = true →
  described before after = false → before = stamped before.
Proof.
  intros Hid Hfix Hl Ha Hd.
  unfold sandboxFixed_same, lifecycle_same, activity_same, described in *. reflect_tests.
  repeat match goal with H : same _ _ _ = true |- _ => apply same_eq in H end.
  unfold stamped. apply Sandbox_ext; cbn; congruence.
Qed.

(** What a write of a locked row does: the row is [after] with the store's
    own columns, its gen does not fall, and no other table changes. *)
Lemma UpdateSandbox_ok db w db' :
  db_sandboxes db !! sb_ID before = Some before →
  UpdateSandbox before after db = Ok (w, db') →
  sb_ID after = sb_ID before ∧ w = stamped w ∧ sb_Gen before ≤ sb_Gen w
  ∧ (sb_Node w = sb_Node before ∨ node_known db (sb_Node w) = true)
  ∧ (sb_LostFrom w = sb_LostFrom before ∨ node_known db (sb_LostFrom w) = true)
  ∧ db' = db <| db_sandboxes ::= <[sb_ID before := w]> |> <| db_notes := db_notes db' |>.
Proof.
  intros Hrow H. unfold UpdateSandbox in H. rewrite Hrow in H. tx_inv H; reflect_tests;
  match goal with H : same _ _ sb_ID = true |- _ => apply same_eq in H as Hid end.
  - split_and!; [done| by apply unchanged_locked |lia|by left|by left|].
    apply DB_ext; cbn; rewrite ?insert_id; done.
  - split_and!; [done| by apply write_columns_locked | | by right | by right |].
    + cbn. case_match; lia.
    + apply DB_ext; cbn; by rewrite ?Hid.
  - split_and!; [done| by apply write_columns_locked | | by right | by right |].
    + cbn. case_match; lia.
    + apply DB_ext; cbn; by rewrite ?Hid.
Qed.

(** A write of a locked row commits when it keeps the fixed columns and
    names nodes that are known. *)
Lemma UpdateSandbox_total db :
  db_sandboxes db !! sb_ID before = Some before →
  sb_ID after = sb_ID before → sandboxFixed_same before after = true →
  node_known db (sb_Node after) = true → node_known db (sb_LostFrom after) = true →
  ∃ w db', UpdateSandbox before after db = Ok (w, db').
Proof.
  intros Hrow Hid Hfix Hn Hl. unfold UpdateSandbox.
  assert (Hsame : same before after sb_ID = true) by by apply bool_decide_eq_true.
  rewrite Hsame, Hfix, Hrow, Z.eqb_refl, bool_decide_true by done. cbn [negb andb].
  destruct (_ && negb (described before after)); [eauto|].
  assert (sb_Node (write_columns before after (db_now db) before) = sb_Node after) as ->
    by apply pick_locked.
  assert (sb_LostFrom (write_columns before after (db_now db) before) = sb_LostFrom after) as ->
    by apply pick_locked.
  rewrite Hn, Hl. cbn [andb]. case_match; eauto.
Qed.
End locked.

(** The columns that an update never changes. *)
Definition fixed (s : Sandbox) :=
  (sb_Owner s, sb_Image s, sb_VCPUs s, sb_MemoryMiB s, sb_Gen s, sb_CreatedAt s, sb_UpdatedAt s,
   sb_EnvironmentID s, sb_PodTemplate s, sb_TenantJob s, sb_LogLabels s).

Lemma sandboxFixed_same_of before after :
  fixed before = fixed after → sandboxFixed_same before after = true.
Proof.
  unfold fixed, sandboxFixed_same, same. intros [= ]. by rewrite !bool_decide_true by done.
Qed.

(** ** What a transaction leaves alone

    [touches id db db']: from [db] to [db'] nothing changes but the row, the
    booking, the tombstones and the holds of the sandbox [id], and the
    notifications. *)

Record touches (id : ID) (db db' : DB) : Prop := {
  touches_now : db_now db' = db_now db;
  touches_nodes : db_nodes db' = db_nodes db;
  touches_instances : db_instances db' = db_instances db;
  touches_fence : db_ingressFence db' = db_ingressFence db;
  touches_awake : db_attachedAwake db' = db_attachedAwake db;
  touches_sandboxes j : j ≠ id → db_sandboxes db' !! j = db_sandboxes db !! j;
  touches_bookings j : j ≠ id → db_bookings db' !! j = db_bookings db !! j;
  touches_tombstones k : tk_PodID k ≠ id → db_tombstones db' !! k = db_tombstones db !! k;
  touches_holds j x : j ≠ id → db_holds db' !! (j, x) = db_holds db !! (j, x)
}.

#[export] Instance touches_preorder id : PreOrder (touches id).
Proof.
  split.
  - intros db. by constructor.
  - intros a b c [Ha1 Ha2 Ha3 Ha4 Ha5 Ha6 Ha7 Ha8 Ha9] [Hb1 Hb2 Hb3 Hb4 Hb5 Hb6 Hb7 Hb8 Hb9].
    constructor; try congruence; intros.
    + by rewrite Hb6, Ha6.
    + by rewrite Hb7, Ha7.
    + by rewrite Hb8, Ha8.
    + by rewrite Hb9, Ha9.
Qed.

(** Closes a goal [touches id db db'] for one table write. *)
Ltac solve_touches :=
  constructor; cbn; intros; rewrite ?lookup_insert_ne, ?lookup_delete_ne by congruence; try done.

Lemma touches_UpsertTombstone t db r db' :
  UpsertTombstone t db = Ok (r, db') → touches (tb_PodID t) db db'.
Proof.
  intros [_ ->]%UpsertTombstone_ok. solve_touches.
  rewrite lookup_insert_ne; [done|]. by intros <-.
Qed.

Lemma touches_DeleteTombstone k db r db' :
  DeleteTombstone k db = Ok (r, db') → touches (tk_PodID k) db db'.
Proof. intros H. unfold DeleteTombstone in H. tx_inv H. solve_touches. Qed.

Lemma touches_UpsertBooking b db u db' :
  UpsertBooking b db = Ok (u, db') → touches (bk_PodID b) db db'.
Proof. intros (_ & _ & ->)%UpsertBooking_ok. solve_touches. Qed.

Lemma touches_DeleteBooking id db u db' :
  DeleteBooking id db = Ok (u, db') → touches id db db'.
Proof. intros H. unfold DeleteBooking in H. tx_inv H. solve_touches. Qed.

Lemma touches_DeleteProcessHolds id db u db' :
  DeleteProcessHolds id db = Ok (u, db') → touches id db db'.
Proof.
  intros H. unfold DeleteProcessHolds in H. tx_inv H. solve_touches.
  apply option_eq. intros h. rewrite map_lookup_filter_Some. naive_solver.
Qed.

Lemma touches_Notify ch p id db u db' : Notify ch p db = Ok (u, db') → touches id db db'.
Proof. intros H. unfold Notify in H. tx_inv H. solve_touches. Qed.

Lemma touches_UpdateSandbox before after db w db' :
  db_sandboxes db !! sb_ID before = Some before →
  UpdateSandbox before after db = Ok (w, db') → touches (sb_ID before) db db'.
Proof.
  intros Hrow (_ & _ & _ & _ & _ & ->)%UpdateSandbox_ok; [|done]. solve_touches.
Qed.

Create HintDb touches.
#[export] Hint Resolve touches_UpsertTombstone touches_DeleteTombstone touches_UpsertBooking
  touches_DeleteBooking touches_DeleteProcessHolds touches_Notify touches_UpdateSandbox : touches.
#[export] Hint Extern 1 (touches _ ?d ?d) => reflexivity : touches.

(** ** Sums of bookings *)

(** The sum of [f] over all bookings on [node]. *)
Definition total (f : Booking → Z) (node : string) (bs : gmap ID Booking) : Z :=
  map_fold (λ _ b acc, if bool_decide (bk_Node b = node) then f b + acc else acc) 0 bs.

Lemma total_insert f node i b m :
  m !! i = None →
  total f node (<[i:=b]> m)
    = (if bool_decide (bk_Node b = node) then f b else 0) + total f node m.
Proof.
  intros Hi. unfold total. rewrite map_fold_insert_L; [by case_bool_decide| |done].
  intros j1 j2 z1 z2 y _ _ _. repeat case_bool_decide; lia.
Qed.

Lemma sum_on_insert f node x i b m :
  m !! i = None →
  sum_on f node x (<[i:=b]> m)
    = (if bool_decide (bk_Node b = node) && negb (String.eqb i x) then f b else 0)
      + sum_on f node x m.
Proof.
  intros Hi. unfold sum_on. rewrite map_fold_insert_L; [by case_match| |done].
  intros j1 j2 z1 z2 y _ _ _. repeat case_match; lia.
Qed.

(** [SumBookings] is the sum over the other pods' bookings. *)
Lemma sum_on_delete f node x bs : sum_on f node x bs = total f node (delete x bs).
Proof.
  induction bs as [|i b m Hi IH] using map_ind; [by rewrite delete_empty|].
  rewrite sum_on_insert, IH by done. destruct (decide (i = x)) as [->|Hne].
  - rewrite String.eqb_refl, andb_false_r, delete_insert_eq.
    rewrite delete_id by done. lia.
  - rewrite delete_insert_ne by done. rewrite total_insert.
    + apply String.eqb_neq in Hne as ->. by rewrite andb_true_r.
    + by rewrite lookup_delete_ne.
Qed.

Lemma total_booked f node id b bs :
  bk_Node b = node → total f node (<[id:=b]> bs) = f b + sum_on f node id bs.
Proof.
  intros Hb. rewrite <- insert_delete_eq, total_insert, sum_on_delete by apply lookup_delete_eq.
  by rewrite bool_decide_true.
Qed.
