(* ===== verification/Placement.v ===== *)
(** * Placement: which node takes a pod

    go/internal/sandbox/placement.go: the gates a node must pass, the score
    that orders the nodes that pass, a placement's decision over a snapshot
    of the nodes, and the recheck of the gates in an op's begin under the
    node's lock ([claim]). *)

From S2P Require Import Prelude PodId Rows Store.

(** ** The engine's configuration *)

(** [sandbox.Config] and the timings of the engine that decide something
    here, and what the instance knows of its connections. *)
Record Engine := MkEngine {
  e_id : string;
  cfg_Spread : bool;             (* cfg.Placement == PlacementSpread *)
  cfg_DiskBudget : Z;
  cfg_IdlePause : Duration;
  cfg_HibernateAfter : Duration;
  cfg_LostGrace : Duration;
  cfg_PendingRepairAfter : Duration;
  cfg_UnreachableRepairAfter : Duration;
  cfg_HibernateTimeout : Duration;
  t_policyBackoffMin : Duration;
  t_policyBackoffMax : Duration;
  t_holdLease : Duration;
  conns_Connected : string → bool;
  (** [uuid.Parse] and [UUID.String] of the uuid package. *)
  uuid_Parse : string → option UUID;
  uuid_String : UUID → string
}.

(** ** The gates *)

Definition placementGates : list Gate :=
  [gateStatus; gatePin; gateDraining; gateForked; gateConnected; gateTombstone; gateAvoid; gateTAP;
   gateStore; gateSlots; gateCPU; gateMemory; gateFreeMemory; gateDisk].

Definition claimGates : list Gate :=
  [gateStatus; gatePin; gateDraining; gateForked; gateConnected; gateTombstone; gateTAP; gateStore;
   gateSlots; gateCPU; gateMemory].

Definition admitGates : list Gate :=
  [gateStatus; gateDraining; gateForked; gateConnected; gateSlots; gateCPU; gateMemory].

Definition capacityGates : list Gate := [gateSlots; gateCPU; gateMemory].

(** What the gates look at for one node and one pod. *)
Record gateInput := MkGateInput {
  gi_node : Node;
  gi_telemetry : Telemetry;
  gi_hasTelemetry : bool;
  gi_booked : BookingSums;
  gi_tombstoned : bool;
  gi_tap : ID;
  gi_connected : bool;
  gi_pod : ID;
  gi_vcpus : Z;
  gi_memMiB : Z;
  gi_pin : string;
  gi_avoid : list string;
  gi_restore : bool;
  gi_checkpointStore : string;
  gi_diskBudget : Z
}.

#[export] Instance eta_gateInput : Eta gateInput := λ g,
  MkGateInput (gi_node g) (gi_telemetry g) (gi_hasTelemetry g) (gi_booked g) (gi_tombstoned g)
    (gi_tap g) (gi_connected g) (gi_pod g) (gi_vcpus g) (gi_memMiB g) (gi_pin g) (gi_avoid g)
    (gi_restore g) (gi_checkpointStore g) (gi_diskBudget g).

(** [gate]: the reason gate [g] refuses, or the empty text. *)
Definition gate (i : gateInput) (g : Gate) : string :=
  let n := gi_node i in
  match g with
  | gateStatus =>
      if bool_decide (n_Status n ≠ NodeReady)
      then ("node " +:+ status_string (n_Status n))%string else ""%string
  | gateDraining => if n_Draining n then "draining"%string else ""%string
  | gateForked => if Forked n then "identity forked"%string else ""%string
  | gateConnected =>
      if negb (gi_connected i) then "not connected to this instance"%string else ""%string
  | gateTombstone =>
      if gi_tombstoned i then "deleting an earlier pod of this ID"%string else ""%string
  | gatePin =>
      if negb (String.eqb (gi_pin i) "") && negb (String.eqb (n_Name n) (gi_pin i))
      then ("pinned to node " +:+ gi_pin i +:+ ": its volume is there")%string else ""%string
  | gateAvoid =>
      if bool_decide (n_Name n ∈ gi_avoid i) then "a create failed here"%string else ""%string
  | gateTAP =>
      if negb (IsZeroID (gi_tap i))
      then ("TAP prefix taken by sandbox " +:+ gi_tap i)%string else ""%string
  | gateStore =>
      if negb (gi_restore i) then ""%string
      else if negb (String.eqb (gi_checkpointStore i) "")
                && negb (String.eqb (n_ObjectStoreID n) (gi_checkpointStore i))
      then "another object store"%string
      else if String.eqb (gi_checkpointStore i) "" && String.eqb (n_ObjectStoreID n) ""
                && negb (n_ObjectStore n)
      then "another object store"%string else ""%string
  | gateSlots =>
      if n_Slots n <=? 0 then "no slots"%string
      else if n_Slots n <=? bs_Count (gi_booked i)
      then ("slots full (" +:+ pretty (bs_Count (gi_booked i)) +:+ " of " +:+ pretty (n_Slots n)
             +:+ ")")%string
      else ""%string
  | gateCPU =>
      let c := VCPUCapacity n in
      if (0 <? c) && (c <? wrap64 (bs_VCPUs (gi_booked i) + gi_vcpus i))
      then ("cpu gate (" +:+ pretty (bs_VCPUs (gi_booked i)) +:+ "+" +:+ pretty (gi_vcpus i)
             +:+ " of " +:+ pretty c +:+ " vCPUs)")%string
      else ""%string
  | gateMemory =>
      let c := MemoryCapacityMiB n in
      if c <? wrap64 (bs_MemoryMiB (gi_booked i) + gi_memMiB i)
      then ("memory gate (" +:+ pretty (bs_MemoryMiB (gi_booked i)) +:+ "MiB+"
             +:+ pretty (gi_memMiB i) +:+ "MiB of " +:+ pretty c +:+ "MiB MiB)")%string
      else ""%string
  | gateFreeMemory =>
      let free := Z.shiftr (wrap64 (tel_MemoryAvailableBytes (gi_telemetry i)
                                    - n_MemHeadroomBytes n)) 20 in
      if free <? gi_memMiB i
      then ("free memory gate (" +:+ pretty (Z.max free 0) +:+ " MiB available)")%string
      else ""%string
  | gateDisk =>
      if tel_DiskAvailableBytes (gi_telemetry i) <? gi_diskBudget i
      then "disk gate"%string else ""%string
  end.

(** [check]: the first gate of [gates] that refuses. *)
Fixpoint check (i : gateInput) (gates : list Gate) : option refusal :=
  match gates with
  | [] => None
  | g :: gs =>
      let text := gate i g in
      if String.eqb text "" then check i gs
      else Some (MkRefusal (n_Name (gi_node i)) g text)
  end.

(** [score]: the free share of the node's scarcest resource after the pod. *)
Definition score (i : gateInput) : float64 :=
  let n := gi_node i in
  let share (free total : Z) := fdiv (float64_of free) (float64_of total) in
  let s0 := float64_of 1 in
  let c := VCPUCapacity n in
  let s1 := if 0 <? c
    then fmin s0 (share (wrap64 (c - bs_VCPUs (gi_booked i) - gi_vcpus i)) c) else s0 in
  let m := MemoryCapacityMiB n in
  let s2 := if 0 <? m
    then fmin s1 (share (wrap64 (m - bs_MemoryMiB (gi_booked i) - gi_memMiB i)) m) else s1 in
  let total := n_MemoryTotalBytes n in
  if 0 <? total
  then fmin s2 (share (wrap64 (tel_MemoryAvailableBytes (gi_telemetry i)
                               - wrap64 (Z.shiftl (gi_memMiB i) 20))) total)
  else s2.

(** [Engine.gateInput]: the pod's side of the gates for an op on a node. *)
Definition gateInput_of (e : Engine) (sb : Sandbox) (kind : OpKind) (n : Node) : gateInput :=
  let pinned := negb (String.eqb (sb_PinNode sb) "") in
  MkGateInput n zeroTelemetry false (MkBookingSums 0 0 0) false ""
    (conns_Connected e (n_Name n)) (sb_ID sb) (sb_VCPUs sb) (sb_MemoryMiB sb)
    (if pinned && bool_decide (kind = OpCreate) then sb_PinNode sb else ""%string)
    (if pinned then [] else sb_AvoidNodes sb)
    (bool_decide (kind = OpRestore)) (sb_CheckpointStore sb) (cfg_DiskBudget e).

(** ** A placement's decision *)

(** [store.NodeSnapshot]. *)
Record NodeSnapshot := MkNodeSnapshot {
  sn_Node : Node;
  sn_Telemetry : Telemetry;
  sn_HasTelemetry : bool;
  sn_Booked : BookingSums;
  sn_Tombstoned : bool;
  sn_TAPConflict : ID
}.

(** [store.PlacementCandidate]. *)
Record PlacementCandidate := MkCandidate {
  pc_Node : string; pc_Feasible : bool; pc_Reason : string; pc_Score : float64
}.

Record placement := MkPlacement {
  pl_candidates : list string;
  pl_verdicts : list PlacementCandidate;
  pl_tombstoneOnly : list string
}.

(** [noCapacity]: the description of a placement that found no node. *)
Definition noCapacity (p : placement) : string :=
  foldl (λ b v, if pc_Feasible v then b
                else (b +:+ "; " +:+ pc_Node v +:+ ": " +:+ pc_Reason v)%string)
    "no capacity (retryable): no feasible node"%string (pl_verdicts p).

(** The columns of a node's telemetry that the snapshot reads. *)
Definition snapshot_telemetry (t : Telemetry) (name : string) : Telemetry :=
  MkTelemetry name (tel_LastSeen t) (tel_Load1 t) (tel_MemoryAvailableBytes t)
    (tel_DiskAvailableBytes t) 0 0 0 0 (tel_InventoryHash t) 0 "".

Definition node_snapshot (tel : gmap string Telemetry) (db : DB) (id : ID) (n : Node)
    : NodeSnapshot :=
  let t := tel !! n_Name n in
  MkNodeSnapshot n
    (match t with Some t => snapshot_telemetry t (n_Name n) | None => zeroTelemetry end)
    (bool_decide (is_Some t)) (sums_on (n_Name n) id (db_bookings db))
    (tombstoned_on db id (n_Name n)) (tap_holder db (n_Name n) id).

(** [PlacementSnapshot]: the nodes that are not removed in the order of their
    names, each with its telemetry (a table of its own, [tel]), the bookings
    without the pod, the pod's tombstones and its TAP conflict. *)
Definition PlacementSnapshot (tel : gmap string Telemetry) (id : ID) (db : DB)
    : list NodeSnapshot :=
  node_snapshot tel db id
    <$> sort_by (λ a b, String.leb (n_Name a) (n_Name b))
          (filter (λ n, n_Status n ≠ NodeRemoved) (map_to_list (db_nodes db)).*2).

(** The input of the gates for a node of the snapshot. *)
Definition snapshot_input (e : Engine) (sb : Sandbox) (kind : OpKind) (ns : NodeSnapshot)
    : gateInput :=
  (gateInput_of e sb kind (sn_Node ns))
    <| gi_telemetry := sn_Telemetry ns |> <| gi_hasTelemetry := sn_HasTelemetry ns |>
    <| gi_booked := sn_Booked ns |> <| gi_tombstoned := sn_Tombstoned ns |>
    <| gi_tap := sn_TAPConflict ns |>.

Definition verdict (i : gateInput) : PlacementCandidate :=
  match check i placementGates with
  | Some r => MkCandidate (n_Name (gi_node i)) false (rf_text r) (S754_zero false)
  | None => MkCandidate (n_Name (gi_node i)) true "" (score i)
  end.

(** A node that only a tombstone of the pod keeps it off. *)
Definition tombstone_only (i : gateInput) : bool :=
  match check i placementGates with
  | Some r =>
      bool_decide (rf_gate r = gateTombstone)
      && match check (i <| gi_tombstoned := false |>) placementGates with
         | None => true | Some _ => false end
  | None => false
  end.

(** A feasible node and its score. *)
Record scored := MkScored { sc_name : string; sc_score : float64 }.

Definition feasible_of (i : gateInput) : option scored :=
  match check i placementGates with
  | None => Some (MkScored (n_Name (gi_node i)) (score i))
  | Some _ => None
  end.

(** The order of the feasible nodes: by score (descending for spread), then
    by name; [SortFunc]'s comparison is not positive. *)
Definition scored_leb (spread : bool) (a b : scored) : bool :=
  if negb (feqb (sc_score a) (sc_score b)) then
    let less := fltb (sc_score a) (sc_score b) in
    if spread then negb less else less
  else String.leb (sc_name a) (sc_name b).

(** A restore prefers the node that holds its record. *)
Definition prefer (node : string) (names : list string) : list string :=
  match list_find (λ n, n = node) names with
  | Some (S i, _) => if String.eqb node "" then names else node :: delete (S i) names
  | _ => names
  end.

Definition place (e : Engine) (sb : Sandbox) (kind : OpKind) (snaps : list NodeSnapshot)
    : placement :=
  let inputs := snapshot_input e sb kind <$> snaps in
  let feasible := sort_by (scored_leb (cfg_Spread e)) (omap feasible_of inputs) in
  let names := sc_name <$> feasible in
  MkPlacement
    (if bool_decide (kind = OpRestore) then prefer (sb_Node sb) names else names)
    (verdict <$> inputs)
    ((λ i, n_Name (gi_node i)) <$> filter (λ i, tombstone_only i = true) inputs).

(** ** The claim of an op's begin *)

(** [claim]: the gates again, on the target's locked row and against the
    bookings without the pod. *)
Definition claim (e : Engine) (sb : Sandbox) (kind : OpKind) (target : string) : tx unit :=
  catch_missing (LockNode target) ≫= λ on,
  match on with
  | None => fail (Refused (MkRefusal target gateStatus "node unknown"))
  | Some n =>
      SumBookings target (sb_ID sb) ≫= λ booked,
      let i := (gateInput_of e sb kind n) <| gi_booked := booked |> in
      if bool_decide (kind = OpCreate) || bool_decide (kind = OpRestore) then
        HasTombstone (sb_ID sb) target ≫= λ tomb,
        TAPConflictOn target (sb_ID sb) ≫= λ tap,
        match check (i <| gi_tombstoned := tomb |> <| gi_tap := tap |>) claimGates with
        | Some r => fail (Refused r)
        | None => mret tt
        end
      else
        match check i admitGates with
        | Some r => fail (Refused r)
        | None => mret tt
        end
  end.

(** [capacityRefusal]: the capacity gates of a booking that reality makes. *)
Definition capacityRefusal (n : Node) (sb : Sandbox) (booked : BookingSums) : string :=
  let i := MkGateInput n zeroTelemetry false booked false "" false "" (sb_VCPUs sb)
             (sb_MemoryMiB sb) "" [] false "" 0 in
  match check i capacityGates with Some r => rf_text r | None => ""%string end.

(** [admissionError]: the error of a refused admission on a pinned node. *)
Definition admissionError (r : refusal) (id : ID) : error :=
  match rf_gate r with
  | gateStatus | gateForked | gateConnected =>
      AdmissionError r ErrNodeUnavailable
        ("node " +:+ rf_node r +:+ " is unavailable: " +:+ rf_text r)
  | gateDraining =>
      AdmissionError r ErrNoCapacity ("node " +:+ rf_node r +:+ " is draining")
  | _ =>
      AdmissionError r ErrNoCapacity
        ("no capacity on node " +:+ rf_node r +:+ " for sandbox " +:+ id +:+ " (retryable): "
          +:+ rf_text r)
  end.

(** ** What a claim that passes has checked *)

Lemma check_None i gates : check i gates = None ↔ ∀ g, g ∈ gates → gate i g = ""%string.
Proof.
  induction gates as [|g gs IH]; cbn; [split; [intros _ g Hg; by apply elem_of_nil in Hg | done]|].
  destruct (String.eqb_spec (gate i g) "") as [E|E].
  - rewrite IH. setoid_rewrite elem_of_cons. naive_solver.
  - split; [done|]. intros H. exfalso. apply E, H. constructor.
Qed.

(** The gates an op of [kind] is claimed against. *)
Definition gates_of (kind : OpKind) : list Gate :=
  match kind with OpCreate | OpRestore => claimGates | _ => admitGates end.

Lemma HasTombstone_false id node db :
  tombstoned_on db id node = false ↔
  ∀ k, tk_PodID k = id → tk_Node k = node → db_tombstones db !! k = None.
Proof.
  unfold tombstoned_on. rewrite <- not_true_iff_false, existsb_exists. split.
  - intros H k Hp Hn. apply eq_None_not_Some. intros [t Ht]. apply H. exists k.
    rewrite Hp, Hn, !String.eqb_refl. split; [|done]. apply list_elem_of_In, list_elem_of_fmap.
    exists (k, t). split; [done|]. by apply elem_of_map_to_list.
  - intros H (k & Hin & Hk). reflect_tests.
    apply list_elem_of_In, list_elem_of_fmap in Hin as ([k' t] & -> & Hin).
    apply elem_of_map_to_list in Hin. cbn in *. rewrite H in Hin; done.
Qed.

(** The input a claim evaluates its gates on. *)
Definition claim_input (e : Engine) (sb : Sandbox) (kind : OpKind) (target : string) (n : Node)
    (db : DB) : gateInput :=
  let i := (gateInput_of e sb kind n)
             <| gi_booked := sums_on target (sb_ID sb) (db_bookings db) |> in
  match kind with
  | OpCreate | OpRestore =>
      i <| gi_tombstoned := tombstoned_on db (sb_ID sb) target |>
        <| gi_tap := if negb (IsLegacy (sb_ID sb)) then ""%string
                     else tap_holder db target (sb_ID sb) |>
  | _ => i
  end.

Lemma refuse_or_pass (o : option refusal) db :
  (match o with Some r => fail (Refused r) | None => mret tt end : tx unit) db =
    match o with Some r => Err (Refused r) | None => Ok (tt, db) end.
Proof. by destruct o. Qed.

Lemma claim_eq e sb kind target db :
  claim e sb kind target db =
    match db_nodes db !! target with
    | None => Err (Refused (MkRefusal target gateStatus "node unknown"))
    | Some n =>
        match check (claim_input e sb kind target n db) (gates_of kind) with
        | Some r => Err (Refused r)
        | None => Ok (tt, db)
        end
    end.
Proof.
  unfold claim, mbind, tx_bind, catch_missing, LockNode, SumBookings, HasTombstone, TAPConflictOn,
    gets, claim_input, gates_of.
  destruct (db_nodes db !! target) as [n|]; [|done].
  destruct kind; repeat (case_bool_decide; try done); cbn [orb];
    apply refuse_or_pass.
Qed.

Lemma claim_ok e sb kind target db u db' :
  claim e sb kind target db = Ok (u, db') →
  db' = db ∧ ∃ n, db_nodes db !! target = Some n
    ∧ ∀ g, g ∈ gates_of kind → gate (claim_input e sb kind target n db) g = ""%string.
Proof.
  rewrite claim_eq. destruct (db_nodes db !! target) as [n|]; [|done].
  destruct (check _ _) eqn:E; [done|]. intros [= <- <-]. rewrite check_None in E. eauto.
Qed.

(** The gates that matter afterwards, from their empty texts. *)
Lemma gate_tombstone i : gate i gateTombstone = ""%string → gi_tombstoned i = false.
Proof. cbn. by case_match. Qed.

Lemma gate_slots i :
  gate i gateSlots = ""%string → bs_Count (gi_booked i) < n_Slots (gi_node i).
Proof. cbn. repeat case_match; try done; reflect_tests; lia. Qed.

Lemma gate_cpu i :
  gate i gateCPU = ""%string → 0 < VCPUCapacity (gi_node i) →
  wrap64 (bs_VCPUs (gi_booked i) + gi_vcpus i) ≤ VCPUCapacity (gi_node i).
Proof.
  cbn. case_match eqn:E; [done|]. intros _ Hc. apply andb_false_iff in E as [E|E]; reflect_tests; lia.
Qed.

Lemma gate_memory i :
  gate i gateMemory = ""%string →
  wrap64 (bs_MemoryMiB (gi_booked i) + gi_memMiB i) ≤ MemoryCapacityMiB (gi_node i).
Proof. cbn. case_match eqn:E; [done|]. reflect_tests. done. Qed.

(** A claim for a create or a restore found no tombstone of the pod. *)
Lemma claim_no_tombstone e sb kind target db u db' k :
  claim e sb kind target db = Ok (u, db') → kind = OpCreate ∨ kind = OpRestore →
  tk_PodID k = sb_ID sb → tk_Node k = target → db_tombstones db !! k = None.
Proof.
  intros (_ & n & _ & Hg)%claim_ok Hkind Hp Hn.
  assert (Ht : gi_tombstoned (claim_input e sb kind target n db) = false).
  { apply gate_tombstone, Hg. destruct Hkind as [-> | ->]; cbn; set_solver. }
  destruct Hkind as [-> | ->]; cbn in Ht; eapply HasTombstone_false in Ht; done.
Qed.

(** ** What a placement decides *)

(** A node of the snapshot that passes every gate of a placement. *)
Definition passes (e : Engine) (sb : Sandbox) (kind : OpKind) (ns : NodeSnapshot) : bool :=
  match check (snapshot_input e sb kind ns) placementGates with None => true | Some _ => false end.

Definition snap_name (ns : NodeSnapshot) : string := n_Name (sn_Node ns).

Lemma feasible_names e sb kind (snaps : list NodeSnapshot) :
  sc_name <$> omap feasible_of (snapshot_input e sb kind <$> snaps)
  = snap_name <$> filter (λ ns, passes e sb kind ns = true) snaps.
Proof.
  induction snaps as [|ns snaps IH]; [done|].
  assert (Hf : feasible_of (snapshot_input e sb kind ns)
    = if passes e sb kind ns then Some (MkScored (snap_name ns) (score (snapshot_input e sb kind ns)))
      else None) by (unfold feasible_of, passes; by case_match).
  rewrite filter_cons. cbn. rewrite Hf. destruct (passes e sb kind ns); cbn; by rewrite IH.
Qed.

Lemma prefer_perm node names : prefer node names ≡ₚ names.
Proof.
  unfold prefer. destruct (list_find _ names) as [[[|i] x]|] eqn:E; try done.
  destruct (String.eqb node ""); [done|].
  apply list_find_Some in E as (Hi & -> & _). symmetry. by apply delete_Permutation.
Qed.

(** [SFcompare] of the swapped arguments. *)
Lemma SFcompare_swap a b : SFcompare b a = CompOpp <$> SFcompare a b.
Proof.
  destruct a as [[]|[]| |[] m1 e1], b as [[]|[]| |[] m2 e2]; cbn; try done;
    rewrite (Z.compare_antisym e1 e2); destruct (e1 ?= e2); cbn; try done;
    change (Pos.compare_cont Eq) with Pos.compare; rewrite (Pos.compare_antisym m1 m2);
    by destruct (m1 ?= m2)%positive.
Qed.

Definition is_nan (f : float64) : bool := match f with S754_nan => true | _ => false end.

Lemma SFcompare_number a b : is_nan a = false → is_nan b = false → is_Some (SFcompare a b).
Proof.
  destruct a as [[]|[]| |[] m1 e1], b as [[]|[]| |[] m2 e2]; cbn; try done; try (by eauto).
  all: intros; case_match; eauto.
Qed.

Lemma scored_leb_total spread a b :
  is_nan (sc_score a) = false → is_nan (sc_score b) = false →
  scored_leb spread a b = true ∨ scored_leb spread b a = true.
Proof.
  intros Ha Hb. destruct (SFcompare_number _ _ Ha Hb) as [c Hc].
  unfold scored_leb, feqb, fltb, SFeqb, SFltb. rewrite (SFcompare_swap (sc_score a)), Hc.
  destruct c, spread; cbn; auto; apply String.leb_total.
Qed.

Lemma tap_holder_short db node id : IsLegacy id = false → tap_holder db node id = ""%string.
Proof.
  intros Hid. unfold tap_holder. replace (filter _ _) with (@nil Sandbox); [done|].
  symmetry. induction (map_to_list (db_sandboxes db)).*2 as [|s l IH]; [done|].
  rewrite filter_cons, IH. case_decide as Hc; [|done]. unfold TAPConflict in Hc. reflect_tests.
  congruence.
Qed.

(** The gates of a claim read the same of the snapshot and of the claim's
    input, as long as the database is the one the snapshot was read of. *)
Lemma gate_snapshot e sb kind tel db n g :
  kind = OpCreate ∨ kind = OpRestore → g ∈ claimGates →
  gate (claim_input e sb kind (n_Name n) n db) g
  = gate (snapshot_input e sb kind (node_snapshot tel db (sb_ID sb) n)) g.
Proof.
  intros Hkind Hg.
  assert (Ht : IsLegacy (sb_ID sb) = false → tap_holder db (n_Name n) (sb_ID sb) = ""%string)
    by apply tap_holder_short.
  unfold claimGates in Hg. destruct Hkind as [-> | ->];
    repeat (apply elem_of_cons in Hg as [->|Hg];
      [first [done | cbn -[IsLegacy]; destruct (IsLegacy (sb_ID sb)); [done|]; by rewrite Ht]|]);
    by apply elem_of_nil in Hg.
Qed.

Lemma pl_candidates_place e sb kind snaps :
  pl_candidates (place e sb kind snaps) =
  let names := sc_name <$> sort_by (scored_leb (cfg_Spread e)) (omap feasible_of (snapshot_input e sb kind <$> snaps)) in
  if bool_decide (kind = OpRestore) then prefer (sb_Node sb) names else names.
Proof. reflexivity. Qed.

Lemma candidates_perm e sb kind snaps :
  pl_candidates (place e sb kind snaps) ≡ₚ snap_name <$> filter (λ ns, passes e sb kind ns = true) snaps.
Proof.
  rewrite <- feasible_names, pl_candidates_place. cbv zeta.
  case_bool_decide; [rewrite prefer_perm|]; by rewrite sort_by_perm.
Qed.

Lemma feasible_of_score i x : feasible_of i = Some x → sc_score x = score i.
Proof. unfold feasible_of. case_match; [done|]. intros H'. inversion H'. reflexivity. Qed.

Lemma feasible_numbers e sb kind snaps x :
  Forall (λ ns, is_nan (score (snapshot_input e sb kind ns)) = false) snaps →
  x ∈ omap feasible_of (snapshot_input e sb kind <$> snaps) → is_nan (sc_score x) = false.
Proof.
  rewrite Forall_forall.
  intros Hnum (i & (ns & -> & Hns)%list_elem_of_fmap & Hi%feasible_of_score)%list_elem_of_omap.
  rewrite Hi. exact (Hnum _ Hns).
Qed.

Lemma passes_gates e sb kind ns g :
  passes e sb kind ns = true → g ∈ placementGates → gate (snapshot_input e sb kind ns) g = ""%string.
Proof.
  unfold passes. destruct (check _ placementGates) eqn:E; [discriminate|]. rewrite check_None in E.
  intros _. apply E.
Qed.

Lemma claimGates_placed g : g ∈ claimGates → g ∈ placementGates.
Proof. unfold claimGates, placementGates. set_solver. Qed.

(** ** Properties *)

(** The candidates of a placement are exactly the nodes of the snapshot
    that pass every placement gate, each as often as the snapshot has it: no
    infeasible node is ever tried and no feasible one is forgotten, whatever
    the policy orders them by and whichever node a restore prefers. *)
Theorem place_candidates_feasible e sb kind snaps :
  pl_candidates (place e sb kind snaps)
  ≡ₚ snap_name <$> filter (λ ns, passes e sb kind ns = true) snaps.
Proof.
  apply candidates_perm.
Qed.

(** A placement other than a restore orders its candidates by the policy
    (the least free share first for binpack, the greatest for spread, equal
    shares by name), as long as no share is NaN. *)
Theorem place_in_policy_order e sb kind snaps :
  kind ≠ OpRestore →
  Forall (λ ns, is_nan (score (snapshot_input e sb kind ns)) = false) snaps →
  ∃ l, pl_candidates (place e sb kind snaps) = sc_name <$> l
    ∧ l ≡ₚ omap feasible_of (snapshot_input e sb kind <$> snaps)
    ∧ Sorted (λ a b, scored_leb (cfg_Spread e) a b = true) l.
Proof.
  intros Hkind Hnum.
  exists (sort_by (scored_leb (cfg_Spread e)) (omap feasible_of (snapshot_input e sb kind <$> snaps))).
  rewrite pl_candidates_place. cbv zeta. rewrite bool_decide_eq_false_2 by exact Hkind.
  split; [reflexivity|]. split; [apply sort_by_perm|]. apply sort_by_sorted.
  intros. apply scored_leb_total; eapply feasible_numbers; eassumption.
Qed.

(** A restore whose record's node passes every gate tries that node
    first. *)
Theorem restore_prefers_record_holder e sb snaps :
  sb_Node sb ∈ pl_candidates (place e sb OpRestore snaps) → sb_Node sb ≠ ""%string →
  head (pl_candidates (place e sb OpRestore snaps)) = Some (sb_Node sb).
Proof.
  rewrite pl_candidates_place. cbv zeta. rewrite bool_decide_eq_true_2 by done. intros Hin Hne.
  rewrite prefer_perm in Hin. unfold prefer.
  destruct (list_find _ _) as [[[|i] x]|] eqn:E.
  - apply list_find_Some in E as (Hi & -> & _). by rewrite head_lookup.
  - by apply String.eqb_neq in Hne as ->.
  - apply list_find_None in E. rewrite Forall_forall in E. by destruct (E _ Hin).
Qed.

(** A candidate of a create's or a restore's placement passes the claim
    of the op's begin when the database has not changed since the snapshot
    and holds each node under its name: the begin refuses a candidate only
    for what happened in between. *)
Theorem candidate_passes_claim e sb kind tel db node :
  kind = OpCreate ∨ kind = OpRestore →
  (∀ k n, db_nodes db !! k = Some n → n_Name n = k) →
  node ∈ pl_candidates (place e sb kind (PlacementSnapshot tel (sb_ID sb) db)) →
  claim e sb kind node db = Ok (tt, db).
Proof.
  intros Hkind Hnames Hin. rewrite candidates_perm in Hin.
  apply list_elem_of_fmap in Hin as (ns & -> & [Hp Hns]%list_elem_of_filter).
  unfold PlacementSnapshot in Hns. apply list_elem_of_fmap in Hns as (n & -> & Hn).
  rewrite sort_by_perm, list_elem_of_filter in Hn. destruct Hn as [_ Hn].
  apply list_elem_of_fmap in Hn as ([k n'] & -> & Hn). apply elem_of_map_to_list in Hn.
  change (snap_name _) with (n_Name n'). change ((k, n').2) with n' in Hp.
  rewrite claim_eq, (Hnames _ _ Hn), Hn.
  replace (check _ (gates_of kind)) with (@None refusal); [reflexivity|]. symmetry. apply check_None.
  intros g Hg. assert (Hg' : g ∈ claimGates) by (by destruct Hkind as [-> | ->]).
  rewrite <- (Hnames _ _ Hn), (gate_snapshot e sb kind tel) by assumption.
  apply passes_gates; [exact Hp|]. by apply claimGates_placed.
Qed.
