(* ===== verification/Change.v ===== *)
(** * A lifecycle write of a sandbox

    go/internal/sandbox/change.go, with what it reads of pod.go, errors.go
    and hooks.go: the record of a pod as a node reports it, the observation
    of a node, the [change] that one transaction makes to a row, and its
    commit with the tombstones, the booking and the run that go with it. *)

From S2P Require Import Prelude PodId Rows Store Placement.

(** ** Pods as the nodes report them (podv1) *)

Inductive PodState : Type :=
| POD_STATE_UNSPECIFIED | POD_STATE_PENDING | POD_STATE_RUNNING | POD_STATE_STOPPED
| POD_STATE_SUSPENDED | POD_STATE_FAILED | POD_STATE_HIBERNATED
| POD_STATE_OTHER (n : Z).

#[export] Instance PodState_eq_dec : EqDecision PodState.
Proof. solve_decision. Defined.

Definition podstate_string (s : PodState) : string :=
  match s with
  | POD_STATE_UNSPECIFIED => "POD_STATE_UNSPECIFIED"
  | POD_STATE_PENDING => "POD_STATE_PENDING"
  | POD_STATE_RUNNING => "POD_STATE_RUNNING"
  | POD_STATE_STOPPED => "POD_STATE_STOPPED"
  | POD_STATE_SUSPENDED => "POD_STATE_SUSPENDED"
  | POD_STATE_FAILED => "POD_STATE_FAILED"
  | POD_STATE_HIBERNATED => "POD_STATE_HIBERNATED"
  | POD_STATE_OTHER n => pretty n
  end.

Record Checkpoint := MkCheckpoint { cp_HeadKey : string; cp_Epoch : Z; cp_Memory : bool }.

Record PodInfo := MkPodInfo {
  pi_State : PodState;
  pi_Reason : string;
  pi_Labels : gmap string string;
  pi_MemoryMiB : Z;
  pi_Ipv6Address : string;
  pi_Checkpoint : option Checkpoint
}.

(** The getters of a message that may be nil. *)
Definition GetHeadKey (cp : option Checkpoint) : string :=
  match cp with Some c => cp_HeadKey c | None => "" end.
Definition GetEpoch (cp : option Checkpoint) : Z :=
  match cp with Some c => cp_Epoch c | None => 0 end.
Definition GetMemory (cp : option Checkpoint) : bool :=
  match cp with Some c => cp_Memory c | None => false end.

Definition LabelSandbox : string := "ferun.sandbox".
Definition LabelIncarnation : string := "ferun.incarnation".

Definition podIncarnation (e : Engine) (info : PodInfo) : UUID :=
  match pi_Labels info !! LabelIncarnation with
  | None => uuidNil
  | Some s => match uuid_Parse e s with None => uuidNil | Some u => u end
  end.

Definition isFerunPod (info : PodInfo) : bool :=
  bool_decide (is_Some (pi_Labels info !! LabelSandbox)).

(** What a node said of a pod: nothing, NOT_FOUND, or the pod's record. *)
Record observation := MkObservation { obs_answered : bool; obs_info : option PodInfo }.

Definition found (o : observation) : bool :=
  obs_answered o && bool_decide (is_Some (obs_info o)).

Definition ours (e : Engine) (o : observation) (inc : UUID) : bool :=
  found o && match obs_info o with
             | Some i => bool_decide (podIncarnation e i = inc) | None => false end.

Definition stale (e : Engine) (o : observation) (inc : UUID) : bool :=
  found o && match obs_info o with
             | Some i => negb (bool_decide (podIncarnation e i = inc)) | None => false end.

(** ** The errors of node calls *)

Inductive Code : Type :=
| codeOK | codeCanceled | codeUnknown | codeInvalidArgument | codeDeadlineExceeded | codeNotFound
| codeAlreadyExists | codePermissionDenied | codeResourceExhausted | codeFailedPrecondition
| codeAborted | codeOutOfRange | codeUnimplemented | codeInternal | codeUnavailable | codeDataLoss
| codeUnauthenticated.

#[export] Instance Code_eq_dec : EqDecision Code.
Proof. solve_decision. Defined.

(** [prepareError]: the failure of what comes before an op's pod call; the
    wrapped error as its text and the two sentinels it may wrap. *)
Record prepareError := MkPrepareError {
  pe_node : string; pe_kind : OpKind; pe_hook : bool; pe_err : string;
  pe_isNodeUnfit : bool; pe_isNodeUnavailable : bool
}.

Definition prepareError_Error (p : prepareError) : string :=
  if pe_hook p then
    ("prepare node " +:+ pe_node p +:+ " for " +:+ op_string (pe_kind p) +:+ ": " +:+ pe_err p)%string
  else if bool_decide (pe_kind p = OpRestore) then ("prepare the restore: " +:+ pe_err p)%string
  else ("build the pod spec for " +:+ op_string (pe_kind p) +:+ ": " +:+ pe_err p)%string.

(** The gRPC status of an error: code, message and the types of its details. *)
Record Status := MkStatus { st_Code : Code; st_Message : string; st_Details : list string }.

(** A node call's error: the context errors it wraps, its gRPC status if it
    has one, its text, and the [prepareError] it is, if it is one. *)
Record callError := MkCallError {
  ce_deadline : bool; ce_canceled : bool; ce_status : option Status; ce_text : string;
  ce_prepare : option prepareError
}.

Definition grpcCode (err : option callError) : Code :=
  match err with
  | None => codeOK
  | Some c =>
      if ce_deadline c then codeDeadlineExceeded
      else if ce_canceled c then codeCanceled
      else match ce_status c with Some s => st_Code s | None => codeUnknown end
  end.

Definition callText (err : option callError) : string :=
  match err with
  | None => ""
  | Some c => match ce_status c with Some s => st_Message s | None => ce_text c end
  end.

Definition VMBusyDetail : string := "type.googleapis.com/feos.microvm.v1.VmBusy".

Definition vmBusy (err : option callError) : bool :=
  match err with
  | None => false
  | Some c =>
      if ce_deadline c || ce_canceled c then false
      else match ce_status c with
           | None => false
           | Some s => bool_decide (st_Code s = codeUnavailable)
                       && bool_decide (VMBusyDetail ∈ st_Details s)
           end
  end.

Definition errText (err : option callError) (otherwise : string) : string :=
  match err with None => otherwise | Some _ => callText err end.

(** ** Deadlines (engine.go, pod.go) *)

Definition gib (memoryMiB : Z) : Duration :=
  if memoryMiB <=? 0 then 0 else Z.quot (wrap64 (memoryMiB + 1023)) 1024.

Definition PreparationBudget : Duration := 7 * Minute + 5 * Second.
Definition pauseMargin : Duration := 30 * Second.

Definition feosdSuspendBudget (memoryMiB : Z) : Duration :=
  wrap64 (190 * Second + wrap64 (5 * Second * gib memoryMiB)).

Definition deadlineFor (kind : OpKind) (memoryMiB : Z) (hibernateTimeout : Duration) : Duration :=
  let g := gib memoryMiB in
  match kind with
  | OpCreate | OpStart => PreparationBudget
  | OpResume | OpRestore | OpRepair => wrap64 (PreparationBudget + wrap64 (8 * Second * g))
  | OpPause => wrap64 (feosdSuspendBudget memoryMiB + pauseMargin)
  | OpHibernate =>
      wrap64 (wrap64 (wrap64 (feosdSuspendBudget memoryMiB + pauseMargin) + hibernateTimeout)
              + wrap64 (16 * Second * g))
  end.

Definition tombstoneDeadline (base : Duration) (memoryMiB : Z) : Duration :=
  wrap64 (wrap64 (wrap64 (feosdSuspendBudget memoryMiB + pauseMargin) + base)
          + wrap64 (4 * Second * gib memoryMiB)).

(** ** The change *)

Record change := MkChange {
  ch_now : Time;
  ch_before : Sandbox;
  ch_after : Sandbox;
  ch_endsProcesses : bool;
  ch_openRun : string;
  ch_closeRun : string;
  ch_tombstones : list Tombstone;
  ch_events : list Event
}.

#[export] Instance eta_change : Eta change := λ c,
  MkChange (ch_now c) (ch_before c) (ch_after c) (ch_endsProcesses c) (ch_openRun c)
    (ch_closeRun c) (ch_tombstones c) (ch_events c).

Definition newChange (row : Sandbox) : tx change :=
  Now ≫= λ now, mret (MkChange now row row false "" "" [] []).

(** [c.after] with a function applied to it. *)
Definition amend (f : Sandbox → Sandbox) (c : change) : change := c <| ch_after ::= f |>.

Definition new_tombstone (id : ID) (node : string) (inc : UUID) (reason : string)
    (notBefore : Time) : Tombstone :=
  MkTombstone id node inc reason zeroTime notBefore 0 "" zeroTime.

(** [change.tombstone]. *)
Definition add_tombstone (node : string) (inc : UUID) (reason : string) (c : change) : change :=
  c <| ch_tombstones ::=
    λ ts, ts ++ [new_tombstone (sb_ID (ch_before c)) node inc reason zeroTime] |>.

Definition tombstoneKeys (c : change) : list TombstoneKey := Key <$> ch_tombstones c.

(** *** Runs *)

Definition runStart (a : Sandbox) (runID origin : string) : Event :=
  let suffix :=
    if String.eqb origin "image" then (" from image " +:+ sb_ImageRef a)%string
    else if String.eqb origin "checkpoint" then " restored from checkpoint"%string
    else if String.eqb origin "snapshot" then " resumed from its snapshot"%string
    else if String.eqb origin "disk" then " booted on its disk"%string
    else if String.eqb origin "adopted" then " (adopted)"%string
    else (" (" +:+ origin +:+ ")")%string in
  MkEvent (sb_ID a) (sb_Owner a) (sb_Node a) KindRunStart runID ""
    ("run on " +:+ sb_Node a +:+ suffix).

Definition runEnd (before : Sandbox) (runID reason : string) : Event :=
  MkEvent (sb_ID before) (sb_Owner before) (sb_Node before) KindRunEnd runID ""
    ("ended: " +:+ reason).

Definition newRunID (e : Engine) (u : UUID) : string := ("run-" +:+ uuid_String e u)%string.

(** *** Checkpoints *)

Definition objectStoreOf (nodes : gmap string Node) (node : string) : string :=
  match nodes !! node with Some n => n_ObjectStoreID n | None => "" end.

(** [int64(min(cp.GetEpoch(), 1<<63-1))]. *)
Definition epoch_of (cp : option Checkpoint) : Z := Z.min (GetEpoch cp) int64_max.

Definition merges (cp : option Checkpoint) (a : Sandbox) : bool :=
  negb (String.eqb (GetHeadKey cp) "")
  && negb (epoch_of cp <? sb_CheckpointEpoch a)
  && negb ((epoch_of cp =? sb_CheckpointEpoch a)
           && String.eqb (GetHeadKey cp) (sb_CheckpointHead a)).

Definition mergeCheckpoint (nodes : gmap string Node) (cp : option Checkpoint) (node : string)
    (c : change) : change :=
  if merges cp (ch_after c) then
    amend (λ a, a <| sb_CheckpointHead := GetHeadKey cp |>
                  <| sb_CheckpointEpoch := epoch_of cp |>
                  <| sb_CheckpointMemory := GetMemory cp |>
                  <| sb_CheckpointAt := ch_now c |>
                  <| sb_CheckpointStore := objectStoreOf nodes node |>) c
  else c.

(** *** Observations *)

Definition rfc3339 (t : Time) : string :=
  if IsZero t then "an unknown time" else format_rfc3339 t.

Definition podAddress (info : PodInfo) : string :=
  if bool_decide (pi_State info = POD_STATE_HIBERNATED) then "" else pi_Ipv6Address info.

Definition notFound (node why : string) (c : change) : change :=
  let a := ch_after c in
  let c' :=
    if HasCheckpoint a then
      (amend (λ a, a <| sb_Address := ""%string |> <| sb_ClientState := StateHibernated |>
                     <| sb_Node := ""%string |> <| sb_Materialised := false |>
                     <| sb_StatusDescription ::= λ d,
                          if bool_decide (sb_ClientState (ch_before c) = StateHibernated) then d
                          else ("not on node " +:+ node +:+ "; restored from the checkpoint of "
                                 +:+ rfc3339 (sb_CheckpointAt a) +:+ " on the next use")%string |>) c)
        <| ch_closeRun := "hibernated"%string |>
    else if sb_Materialised a then
      (amend (λ a, a <| sb_Address := ""%string |> <| sb_ClientState := StateLost |>
                     <| sb_StatusDescription := ("not on node " +:+ node)%string |>) c)
        <| ch_closeRun := "lost"%string |>
    else
      (amend (λ a, a <| sb_Address := ""%string |> <| sb_ClientState := StatePending |>
                     <| sb_Node := ""%string |> <| sb_Materialised := false |>
                     <| sb_StatusDescription :=
                          if String.eqb why ""
                          then ("not on node " +:+ node +:+ "; created on the next use")%string
                          else why |>) c)
        <| ch_closeRun := "lost"%string |> in
  amend (λ a, a <| sb_PendingSince := zeroTime |>) c'.

(** The description a state takes that the row was not in before. *)
Definition describe_new (c : change) (s : ClientState) (d : string) : string :=
  if bool_decide (sb_ClientState (ch_before c) ≠ s) then ""%string else d.

Definition observeOurs (nodes : gmap string Node) (node : string) (info : PodInfo) (c : change)
    : change :=
  let c := amend (λ a, a <| sb_Node := node |> <| sb_Materialised := true |>
                         <| sb_LostFrom := ""%string |> <| sb_Address := podAddress info |>) c in
  let c := mergeCheckpoint nodes (pi_Checkpoint info) node c in
  let settled (s : ClientState) (f : Sandbox → Sandbox) (close : string) (c : change) :=
    amend (λ a, (f (a <| sb_ClientState := s |>)) <| sb_PendingSince := zeroTime |>)
      (c <| ch_closeRun ::= λ r, if String.eqb close "" then r else close |>) in
  match pi_State info with
  | POD_STATE_PENDING =>
      amend (λ a, a <| sb_ClientState := StateCreating |>
                    <| sb_PendingSince := coalesce_time (sb_PendingSince a) (ch_now c) |>) c
  | POD_STATE_RUNNING =>
      settled StateRunning
        (λ a, a <| sb_StatusDescription ::= describe_new c StateRunning |>) "" c
  | POD_STATE_SUSPENDED =>
      settled StatePaused
        (λ a, a <| sb_PausedAt ::= λ t,
                     if IsZero t || bool_decide (sb_ClientState (ch_before c) ≠ StatePaused)
                     then ch_now c else t |>
                <| sb_StatusDescription ::= describe_new c StatePaused |>) "paused" c
  | POD_STATE_HIBERNATED =>
      settled StateHibernated
        (λ a, a <| sb_StatusDescription ::= describe_new c StateHibernated |>) "hibernated" c
  | POD_STATE_STOPPED =>
      settled StateStopped (λ a, a <| sb_StatusDescription := pi_Reason info |>) "stopped" c
  | POD_STATE_FAILED =>
      settled StateFailed (λ a, a <| sb_StatusDescription := pi_Reason info |>) "failed" c
  | _ => c
  end.

Definition stale_reason (e : Engine) (info : PodInfo) : string :=
  ("stale record of incarnation " +:+ uuid_String e (podIncarnation e info))%string.

Definition observe (e : Engine) (nodes : gmap string Node) (node : string) (obs : observation)
    (c : change) : change :=
  match obs_info obs with
  | Some info =>
      if ours e obs (sb_Incarnation (ch_before c)) then observeOurs nodes node info c
      else if stale e obs (sb_Incarnation (ch_before c)) then
        notFound node "" (add_tombstone node (podIncarnation e info) (stale_reason e info) c)
      else notFound node "" c
  | None => notFound node "" c
  end.

(** *** Bookings *)

Inductive bookingRule : Type := bookNone | bookMust | bookUnchanged.

Definition bookingOf (state : ClientState) : bookingRule :=
  match state with
  | StateCreating | StateRunning | StatePausing | StateResuming => bookMust
  | StateHibernating | StateUnknown => bookUnchanged
  | _ => bookNone
  end.

Definition endsProcesses (state : ClientState) : bool :=
  match state with
  | StateStopped | StateFailed | StateHibernated | StateLost | StatePending => true
  | _ => false
  end.

Definition overbooked (after : Sandbox) (g : string) : list Event :=
  if String.eqb g "" then []
  else [MkEvent (sb_ID after) (sb_Owner after) (sb_Node after) KindOverbooked "" ""
          ("node " +:+ sb_Node after +:+ " overbooked by sandbox " +:+ sb_ID after +:+ ": " +:+ g)].

Definition book (after : Sandbox) : tx (list Event) :=
  match bookingOf (sb_ClientState after) with
  | bookNone => DeleteBooking (sb_ID after) ≫= λ _, mret []
  | bookMust =>
      if String.eqb (sb_Node after) "" then mret []
      else
        catch_missing (GetBooking (sb_ID after)) ≫= λ b,
        if match b with Some b => String.eqb (bk_Node b) (sb_Node after) | None => false end
        then mret []
        else
          LockNode (sb_Node after) ≫= λ n,
          SumBookings (sb_Node after) (sb_ID after) ≫= λ sums,
          let g := capacityRefusal n after sums in
          UpsertBooking (MkBooking (sb_ID after) (sb_Node after) (sb_VCPUs after)
                           (sb_MemoryMiB after) (String.eqb g "") zeroTime) ≫= λ _,
          mret (overbooked after g)
  | bookUnchanged => mret []
  end.

Definition syncBooking (before after : Sandbox) (ends : bool) : tx (list Event) :=
  book after ≫= λ events,
  if ends || (endsProcesses (sb_ClientState after)
              && negb (bool_decide (sb_ClientState before = sb_ClientState after)))
  then DeleteProcessHolds (sb_ID after) ≫= λ _, mret events
  else mret events.

(** *** The commit *)

(** The run spans of a commit: what closes and what opens. *)
Definition settle_run (e : Engine) (u : UUID) (c : change) : change :=
  let open :=
    if bool_decide (sb_ClientState (ch_after c) = StateRunning)
         && String.eqb (sb_RunID (ch_after c)) "" && String.eqb (ch_openRun c) ""
    then "adopted"%string else ch_openRun c in
  let c := c <| ch_openRun := open |> in
  let c :=
    if negb (String.eqb (ch_closeRun c) "") && negb (String.eqb (sb_RunID (ch_after c)) "") then
      (amend (λ a, a <| sb_RunID := ""%string |>) c)
        <| ch_events ::= λ evs, evs ++ [runEnd (ch_before c) (sb_RunID (ch_after c)) (ch_closeRun c)] |>
    else c in
  if bool_decide (sb_ClientState (ch_after c) = StateRunning)
       && String.eqb (sb_RunID (ch_after c)) "" && negb (String.eqb (ch_openRun c) "") then
    let a' := (ch_after c) <| sb_RunID := newRunID e u |> in
    c <| ch_after := a' |>
      <| ch_events ::= λ evs, evs ++ [runStart a' (newRunID e u) (ch_openRun c)] |>
  else c.

Definition tombstone_event (owner : string) (t : Tombstone) : Event :=
  MkEvent (tb_PodID t) owner (tb_Node t) KindTombstone "" ""
    ("tombstone on node " +:+ tb_Node t +:+ ": " +:+ tb_Reason t).

Fixpoint upsert_tombstones (ts : list Tombstone) : tx unit :=
  match ts with
  | [] => mret tt
  | t :: ts' => UpsertTombstone t ≫= λ _, upsert_tombstones ts'
  end.

Definition state_event (before w : Sandbox) : list Event :=
  if bool_decide (sb_ClientState before = sb_ClientState w) then []
  else [MkEvent (sb_ID w) (sb_Owner w) (sb_Node w) KindSandboxState ""
          (if String.eqb (sb_RunID w) "" then sb_RunID before else sb_RunID w)
          (state_string (sb_ClientState before) +:+ " → " +:+ state_string (sb_ClientState w))].

(** [commit]: the row as written, and the activity rows for after the
    commit; [u] is the UUID of a run that opens. *)
Definition commit (e : Engine) (u : UUID) (c : change) : tx (Sandbox * list Event) :=
  let c := settle_run e u c in
  upsert_tombstones (ch_tombstones c) ≫= λ _,
  UpdateSandbox (ch_before c) (ch_after c) ≫= λ w,
  (if negb (String.eqb (sb_Address w) (sb_Address (ch_before c))) && (IsInstance w || HasGroups w)
   then Notify chanLeader HintEnvGroups else mret tt) ≫= λ _,
  syncBooking (ch_before c) w (ch_endsProcesses c) ≫= λ evs,
  mret (w, ch_events c ++ (tombstone_event (sb_Owner (ch_before c)) <$> ch_tombstones c)
           ++ evs ++ state_event (ch_before c) w).

(** ** What a commit does *)

(** The booking of a row follows its state. *)
Definition booking_follows (bs : gmap ID Booking) (s : Sandbox) : Prop :=
  match bookingOf (sb_ClientState s) with
  | bookNone => bs !! sb_ID s = None
  | bookMust => sb_Node s ≠ ""%string → ∃ b, bs !! sb_ID s = Some b ∧ bk_Node b = sb_Node s
  | bookUnchanged => True
  end.

Lemma upsert_tombstones_ok ts db u db' :
  upsert_tombstones ts db = Ok (u, db') →
  db' = db <| db_tombstones := db_tombstones db' |>
  ∧ (∀ k, is_Some (db_tombstones db' !! k) ↔
          is_Some (db_tombstones db !! k) ∨ k ∈ Key <$> ts)
  ∧ (∀ t, t ∈ ts → is_Some (db_nodes db !! tb_Node t)).
Proof.
  revert db. induction ts as [|t ts IH]; intros db H; cbn in H; tx_inv H.
  - split_and!; [by apply DB_ext | set_solver | set_solver].
  - apply UpsertTombstone_ok in H0 as [Hn ->]. apply IH in H1 as (Hdb & Hks & Hns).
    split_and!.
    + rewrite Hdb. by apply DB_ext.
    + intros k. rewrite Hks. cbn. rewrite lookup_insert_is_Some', elem_of_cons.
      naive_solver.
    + intros t'. rewrite elem_of_cons. intros [->|Ht]; [done|]. by apply Hns in Ht.
Qed.

Lemma touches_upsert_tombstones id ts db u db' :
  Forall (λ t, tb_PodID t = id) ts → upsert_tombstones ts db = Ok (u, db') → touches id db db'.
Proof.
  intros Hts. revert db. induction Hts as [|t ts <- Hts IH]; intros db H; cbn in H; tx_inv H; [done|].
  etrans; [by eapply touches_UpsertTombstone | by eapply IH].
Qed.

Lemma book_ok s db evs db' :
  book s db = Ok (evs, db') →
  db' = db <| db_bookings := db_bookings db' |> ∧ booking_follows (db_bookings db') s.
Proof.
  unfold book, booking_follows, DeleteBooking. intros H.
  destruct (bookingOf (sb_ClientState s)); tx_inv H; tx_facts.
  - split; [by apply DB_ext|]. cbn. apply lookup_delete_eq.
  - reflect_tests. split; [by apply DB_ext | done].
  - case_match; [|done]. reflect_tests. split; [by apply DB_ext | eauto].
  - cbn. split; [by apply DB_ext|]. rewrite lookup_insert_eq. eauto.
  - split; [by apply DB_ext | done].
Qed.

Lemma touches_book s db evs db' : book s db = Ok (evs, db') → touches (sb_ID s) db db'.
Proof.
  unfold book. intros H.
  repeat (tx_inv H; tx_facts; try done); eauto with touches.
  solve_touches.
Qed.

Lemma syncBooking_ok before s ends db evs db' :
  syncBooking before s ends db = Ok (evs, db') →
  touches (sb_ID s) db db' ∧ booking_follows (db_bookings db') s
  ∧ db_sandboxes db' = db_sandboxes db ∧ db_tombstones db' = db_tombstones db.
Proof.
  unfold syncBooking. intros H. tx_inv H; [rename H2 into Hh|];
  (pose proof (touches_book _ _ _ _ H0) as Ht; apply book_ok in H0 as [Hdb Hf]; rewrite Hdb in *).
  - pose proof (touches_DeleteProcessHolds _ _ _ _ Hh). unfold DeleteProcessHolds in Hh. tx_inv Hh.
    split_and!; [by etrans | done | done | done].
  - done.
Qed.

(** The columns a lifecycle decision is about: the identity, the placement
    and the op of a row, and with [core] the epoch of its checkpoint. *)
Definition lifecycle (s : Sandbox) :=
  (sb_ID s, sb_Incarnation s, sb_ClientState s, sb_Node s, sb_Materialised s, sb_LostFrom s,
   sb_Op s, sb_OpID s, sb_OpOwner s, sb_OpDeadline s, sb_OpTarget s, sb_OpFromState s).

Definition core (s : Sandbox) := (lifecycle s, sb_CheckpointEpoch s).

Lemma core_stamped before after w : core (stamped before after w) = core after.
Proof. done. Qed.

(** A change closes a run only of a sandbox that no longer runs. *)
Definition closes_stopped (c : change) : Prop :=
  sb_ClientState (ch_after c) = StateRunning → ch_closeRun c = ""%string.

Lemma settle_run_spec e u c :
  let c' := settle_run e u c in
  ch_before c' = ch_before c ∧ ch_tombstones c' = ch_tombstones c
  ∧ ch_endsProcesses c' = ch_endsProcesses c
  ∧ core (ch_after c') = core (ch_after c)
  ∧ fixed (ch_after c') = fixed (ch_after c)
  ∧ (closes_stopped c → sb_ClientState (ch_after c') = StateRunning →
     sb_RunID (ch_after c') ≠ ""%string).
Proof.
  cbv zeta. unfold settle_run, newRunID, closes_stopped.
  destruct (bool_decide (sb_ClientState (ch_after c) = StateRunning)) eqn:Hs;
  destruct (String.eqb (sb_RunID (ch_after c)) "") eqn:Hr;
  destruct (String.eqb (ch_openRun c) "") eqn:Ho;
  destruct (String.eqb (ch_closeRun c) "") eqn:Hc; cbn; rewrite ?Hs, ?Hr, ?Ho, ?Hc; cbn;
  rewrite ?Hs, ?Hr, ?Ho, ?Hc; cbn; reflect_tests; split_and!; try done; naive_solver.
Qed.

(** What the commit of a change to a locked row writes. *)
Record wrote (before after : Sandbox) (tombs : list Tombstone) (db : DB) (w : Sandbox)
    (db' : DB) : Prop := {
  wrote_touches : touches (sb_ID before) db db';
  wrote_row : db_sandboxes db' !! sb_ID before = Some w;
  wrote_core : core w = core after;
  wrote_id : sb_ID after = sb_ID before;
  wrote_gen : sb_Gen before ≤ sb_Gen w;
  wrote_run : sb_ClientState w = StateRunning → sb_RunID w ≠ ""%string;
  wrote_booking : booking_follows (db_bookings db') w;
  wrote_tombstones k :
    is_Some (db_tombstones db' !! k) ↔ is_Some (db_tombstones db !! k) ∨ k ∈ Key <$> tombs;
  wrote_nodes t : t ∈ tombs → is_Some (db_nodes db !! tb_Node t);
  wrote_node : sb_Node w = sb_Node before ∨ node_known db (sb_Node w) = true;
  wrote_lost : sb_LostFrom w = sb_LostFrom before ∨ node_known db (sb_LostFrom w) = true
}.

Lemma commit_ok e u c db w evs db' :
  db_sandboxes db !! sb_ID (ch_before c) = Some (ch_before c) →
  Forall (λ t, tb_PodID t = sb_ID (ch_before c)) (ch_tombstones c) →
  closes_stopped c →
  commit e u c db = Ok ((w, evs), db') →
  wrote (ch_before c) (ch_after c) (ch_tombstones c) db w db'.
Proof.
  intros Hrow Hts Hcl H. unfold commit in H. cbv zeta in H.
  destruct (settle_run_spec e u c) as (Hb & Htt & _ & Hcore & _ & Hrun).
  set (c' := settle_run e u c) in *. rewrite Htt, Hb in H.
  apply bind_ok in H as (? & d1 & Hup & H). apply bind_ok in H as (w' & d2 & Hw & H).
  apply bind_ok in H as (? & d3 & Hn & H). apply bind_ok in H as (? & d4 & Hs & H). tx_inv H.
  rename w' into w.
  pose proof (touches_upsert_tombstones _ _ _ _ _ Hts Hup) as T1.
  apply upsert_tombstones_ok in Hup as (Hd1 & Hks & Hns).
  assert (Hrow1 : db_sandboxes d1 !! sb_ID (ch_before c) = Some (ch_before c)) by by rewrite Hd1.
  pose proof (touches_UpdateSandbox _ _ _ _ _ Hrow1 Hw) as T2.
  apply UpdateSandbox_ok in Hw as (Hid & Hst & Hg & Hnode & Hlost & Hd2); [|done].
  assert (Hcw : core w = core (ch_after c)) by (rewrite Hst, core_stamped; exact Hcore).
  assert (HT3 : touches (sb_ID (ch_before c)) d2 d3 ∧ db_sandboxes d3 = db_sandboxes d2
                ∧ db_tombstones d3 = db_tombstones d2).
  { case_match; [unfold Notify in Hn|]; tx_inv Hn; (split_and!; [solve_touches | done | done]). }
  destruct HT3 as (T3 & HS3 & HTb3).
  assert (Hwid : sb_ID w = sb_ID (ch_before c)) by (rewrite Hst; exact Hid).
  apply syncBooking_ok in Hs as (T4 & Hbk & HS4 & HT4). rewrite Hwid in T4.
  constructor.
  - etrans; [exact T1|]. etrans; [exact T2|]. by etrans.
  - rewrite HS4, HS3, Hd2. cbn. by rewrite lookup_insert_eq.
  - done.
  - unfold core, lifecycle in Hcore. congruence.
  - done.
  - intros Hr. rewrite Hst in Hr |- *. by apply Hrun.
  - done.
  - intros k. rewrite HT4, HTb3, Hd2. cbn. by rewrite Hks.
  - done.
  - rewrite Hd1 in Hnode. exact Hnode.
  - rewrite Hd1 in Hlost. exact Hlost.
Qed.

(** ** When a commit goes through *)

Lemma upsert_tombstones_total ts db :
  Forall (λ t, is_Some (db_nodes db !! tb_Node t)) ts →
  ∃ db', upsert_tombstones ts db = Ok (tt, db').
Proof.
  intros Hts. revert db Hts. induction ts as [|t ts IH]; intros db Hts; cbn; [eauto|].
  apply Forall_cons in Hts as [Ht Hts].
  unfold mbind, tx_bind. unfold UpsertTombstone at 1. rewrite bool_decide_true by done. cbn.
  apply IH. exact Hts.
Qed.

Lemma book_total s db :
  is_Some (db_sandboxes db !! sb_ID s) → node_known db (sb_Node s) = true →
  ∃ evs db', book s db = Ok (evs, db').
Proof.
  intros Hs Hn. unfold book, node_known in *.
  destruct (bookingOf (sb_ClientState s)); [by eauto | | by eauto].
  destruct (String.eqb (sb_Node s) "") eqn:He; [by eauto|]. cbn in Hn. reflect_tests.
  destruct Hn as [n Hn]. unfold mbind, tx_bind, catch_missing, GetBooking, LockNode, SumBookings, gets.
  assert (Hup : ∀ b, bk_PodID b = sb_ID s → bk_Node b = sb_Node s →
                     ∃ db', UpsertBooking b db = Ok (tt, db')).
  { intros b E1 E2. unfold UpsertBooking. rewrite E1, E2, Hn, !bool_decide_true by eauto. eauto. }
  destruct (db_bookings db !! sb_ID s) as [b|]; [destruct (String.eqb (bk_Node b) (sb_Node s)); [eauto|]|];
    rewrite Hn;
    match goal with |- context [UpsertBooking ?b db] => destruct (Hup b) as [db' ->]; [done | done|] end;
    eauto.
Qed.

(** A change commits when its row is locked, it keeps the fixed columns, and
    the nodes it names are known. *)
Lemma commit_total e u c db :
  db_sandboxes db !! sb_ID (ch_before c) = Some (ch_before c) →
  sb_ID (ch_after c) = sb_ID (ch_before c) → fixed (ch_after c) = fixed (ch_before c) →
  Forall (λ t, is_Some (db_nodes db !! tb_Node t)) (ch_tombstones c) →
  node_known db (sb_Node (ch_after c)) = true → node_known db (sb_LostFrom (ch_after c)) = true →
  ∃ w evs db', commit e u c db = Ok ((w, evs), db').
Proof.
  intros Hrow Hid Hfix Hts Hn Hl. unfold commit. cbv zeta.
  destruct (settle_run_spec e u c) as (Hb & Htt & _ & Hcore & Hfx & _).
  set (c' := settle_run e u c) in *. clearbody c'. rewrite Hb, Htt in *.
  injection Hcore as E1 E2 E3 E4 E5 E6 E7 E8 E9 E10 E11 E12 E13.
  destruct (upsert_tombstones_total _ _ Hts) as [d1 Hup].
  pose proof (upsert_tombstones_ok _ _ _ _ Hup) as (Hd1 & _ & _).
  unfold mbind, tx_bind. rewrite Hup.
  assert (Hrow1 : db_sandboxes d1 !! sb_ID (ch_before c) = Some (ch_before c)) by by rewrite Hd1.
  destruct (UpdateSandbox_total (ch_before c) (ch_after c') d1) as (w & d2 & Hw).
  { done. } { congruence. } { apply sandboxFixed_same_of. congruence. }
  { rewrite Hd1, E4. exact Hn. } { rewrite Hd1, E6. exact Hl. }
  rewrite Hw. apply UpdateSandbox_ok in Hw as (_ & Hst & _ & _ & _ & Hd2); [|done].
  assert (Hwid : sb_ID w = sb_ID (ch_before c)) by (rewrite Hst; cbn; congruence).
  assert (Hwn : sb_Node w = sb_Node (ch_after c)) by (rewrite Hst; exact E4).
  assert (Hnt : ∃ x, (if negb (String.eqb (sb_Address w) (sb_Address (ch_before c)))
     && (IsInstance w || HasGroups w) then Notify chanLeader HintEnvGroups else mret tt) d2
     = Ok (tt, d2 <| db_notes := x |>)).
  { case_match; [by eexists|]. exists (db_notes d2). by destruct d2. }
  destruct Hnt as [x ->]. unfold syncBooking, mbind, tx_bind.
  destruct (book_total w (d2 <| db_notes := x |>)) as (evs & d3 & ->).
  - cbn. rewrite Hd2. cbn. rewrite Hwid, lookup_insert_eq. eauto.
  - unfold node_known. cbn. rewrite Hd2, Hd1, Hwn. exact Hn.
  - destruct (ch_endsProcesses c' || _); unfold DeleteProcessHolds, modify, mret, tx_ret; eauto.
Qed.
