(* ===== verification/Ops.v ===== *)
(** * The transactions of the lifecycle ops

    go/internal/sandbox: the begin of an op (begin.go) with its prechecks,
    takeovers and preempts, its end (finish.go: finish, fencing, rollback
    and the outcome table), the sync and the reconcile of a row with what
    its node reports (sync.go, reconcile.go), the deletion of a sandbox and
    the processing of tombstones (tombstone.go).  Fresh UUIDs, the runner's
    knowledge of its own ops, and the texts that measure elapsed time are
    arguments. *)

From S2P Require Import Prelude Text PodId Rows Store Placement Change.

(** ** Ops in flight (op.go) *)

(** [OpIntent]; a nil UUID is no incarnation, takeover or preempt. *)
Record OpIntent := MkOpIntent {
  oi_Kind : OpKind;
  oi_Trigger : OpTrigger;
  oi_Candidates : list string;
  oi_Target : string;
  oi_Incarnation : UUID;
  oi_ImageRef : string;
  oi_reason : string;
  oi_verdicts : list PlacementCandidate;
  oi_takeover : UUID;
  oi_preempt : UUID
}.

Record OpHandle := MkOpHandle {
  h_id : ID;
  h_opID : UUID;
  h_inc : UUID;
  h_kind : OpKind;
  h_trigger : OpTrigger;
  h_target : string;
  h_takeover : bool;
  h_preempted : UUID;
  h_from : string;
  h_noAbandon : bool;
  h_row : Sandbox;
  h_read_state : option ClientState;
  h_read_node : string;
  h_read_lostFrom : string;
  h_read_materialised : bool;
  h_tombstones : list TombstoneKey;
  h_span : string;
  h_parent : string
}.

#[export] Instance eta_OpHandle : Eta OpHandle := λ h,
  MkOpHandle (h_id h) (h_opID h) (h_inc h) (h_kind h) (h_trigger h) (h_target h) (h_takeover h)
    (h_preempted h) (h_from h) (h_noAbandon h) (h_row h) (h_read_state h) (h_read_node h)
    (h_read_lostFrom h) (h_read_materialised h) (h_tombstones h) (h_span h) (h_parent h).

(** [OpResult]; the state is absent for a row that is gone. *)
Record OpResult := MkOpResult {
  or_State : option ClientState; or_Node : string; or_Description : string;
  or_Err : option string; or_fenced : bool; or_busy : bool
}.

#[export] Instance eta_OpResult : Eta OpResult := λ r,
  MkOpResult (or_State r) (or_Node r) (or_Description r) (or_Err r) (or_fenced r) (or_busy r).

Record callResult := MkCallResult {
  cr_err : option callError;
  cr_skipped : bool;
  cr_postponed : bool;
  cr_restored : bool;
  cr_memoryRestored : bool;
  cr_reason : string;
  cr_checkpoint : option Checkpoint
}.

Record afterCommit := MkAfterCommit { ac_tombstones : list TombstoneKey; ac_sync : bool }.

Definition is_nil (u : UUID) : bool := bool_decide (u = uuidNil).

Definition transitional (k : OpKind) : ClientState :=
  match k with
  | OpResume => StateResuming
  | OpPause => StatePausing
  | OpHibernate => StateHibernating
  | _ => StateCreating
  end.

Definition admits (k : OpKind) : bool :=
  match k with OpCreate | OpStart | OpResume | OpRestore => true | _ => false end.

(** [makes]: the ops that may bring a pod up on their target. *)
Definition makes (k : OpKind) : bool :=
  match k with OpCreate | OpStart | OpResume | OpRestore | OpRepair => true | _ => false end.

Definition opGoal (k : OpKind) : ClientState :=
  match k with
  | OpPause => StatePaused
  | OpHibernate => StateHibernated
  | _ => StateRunning
  end.

Definition pinnedTarget (i : OpIntent) : string :=
  if (bool_decide (oi_Kind i = OpCreate) || bool_decide (oi_Kind i = OpRestore))
       && (0 <? length (oi_Candidates i))%nat
  then "" else oi_Target i.

Definition containsKey (ks : list TombstoneKey) (node : string) : bool :=
  existsb (λ k, String.eqb (tk_Node k) node) ks.

Definition newHandle (e : Engine) (row : Sandbox) (kind : OpKind) (trigger : OpTrigger)
    (target : string) : OpHandle :=
  MkOpHandle (sb_ID row) (sb_OpID row) (sb_Incarnation row) kind trigger target false uuidNil ""
    false row None "" "" false [] ("op-" +:+ uuid_String e (sb_OpID row)) (sb_RunID row).

Definition startEvent (h : OpHandle) (before : Sandbox) : Event :=
  MkEvent (h_id h) (sb_Owner before) (h_target h) KindLifecycleStart (h_span h) (h_parent h)
    (op_string (h_kind h) +:+ " on node " +:+ h_target h).

(** ** Begin (begin.go) *)

Definition drainHibernate (trigger : OpTrigger) (target : string) : tx bool :=
  match trigger with
  | TriggerDrain | TriggerDrainForced => mret true
  | TriggerEnsure =>
      catch_missing (GetNode target) ≫= λ n,
      mret (match n with Some n => n_Draining n | None => false end)
  | _ => mret false
  end.

Definition noAbandon (trigger : OpTrigger) (target : string) : tx bool :=
  if bool_decide (trigger = TriggerExplicit) then mret true else drainHibernate trigger target.

Definition recheckFailed {A} (id : ID) (why : string) : tx A :=
  fail (KindError ErrPrecondition ("sandbox " +:+ id +:+ " changed: " +:+ why)).

(** The states an op may begin from. *)
Definition precondition (row : Sandbox) (i : OpIntent) (target : string) : tx bool :=
  let st := sb_ClientState row in
  match oi_Kind i with
  | OpCreate => mret (bool_decide (st = StatePending))
  | OpStart => mret (bool_decide (st = StateStopped) || bool_decide (st = StateFailed))
  | OpResume => mret (bool_decide (st = StatePaused))
  | OpRestore => mret (bool_decide (st = StateHibernated) && HasCheckpoint row)
  | OpPause => mret (bool_decide (st = StateRunning))
  | OpHibernate =>
      if bool_decide (st = StatePaused) then mret true
      else if bool_decide (st ∈ [StateStopped; StateFailed; StateRunning])
      then drainHibernate (oi_Trigger i) target
      else mret false
  | OpRepair =>
      mret ((bool_decide (st = StateCreating) && negb (IsZero (sb_PendingSince row)))
            || (bool_decide (st = StateRunning) && negb (IsZero (sb_UnreachableSince row)))
            || (bool_decide (st = StateRunning) && bool_decide (oi_Trigger i = TriggerRestart)))
  end.

(** Every op's but a create's or a restore's target is the row's node. *)
Definition pinned_op (k : OpKind) : bool :=
  match k with OpCreate | OpRestore => false | _ => true end.

(** The rechecks of a pause or a hibernate, per trigger. *)
Definition recheck (e : Engine) (row : Sandbox) (i : OpIntent) : tx unit :=
  let id := sb_ID row in
  match oi_Trigger i with
  | TriggerIdle =>
      if bool_decide (oi_Kind i = OpPause) then
        IdleRecheck id (cfg_IdlePause e) ≫= λ pass,
        if negb pass
        then recheckFailed id "it was active since, or a failed idle pause backs it off"
        else HasLiveHold id [] ≫= λ held,
             if held : bool then recheckFailed id "it is held" else mret tt
      else mret tt
  | TriggerHibernateAfter =>
      if bool_decide (oi_Kind i = OpHibernate) then
        HibernateAfterRecheck id (cfg_HibernateAfter e) ≫= λ pass,
        if negb pass
        then recheckFailed id "it was resumed since, or a failed hibernation backs it off"
        else mret tt
      else mret tt
  | TriggerDrain | TriggerEnsure =>
      HasLiveHold id [HoldExec] ≫= λ held,
      if held : bool then recheckFailed id "an exec holds it" else mret tt
  | _ => mret tt
  end.

Definition precheck (e : Engine) (row : Sandbox) (i : OpIntent) (target : string) : tx unit :=
  precondition row i target ≫= λ ok,
  if negb ok then
    fail (KindError ErrPrecondition ("sandbox " +:+ sb_ID row +:+ " is "
            +:+ state_string (sb_ClientState row) +:+ ": no " +:+ op_string (oi_Kind i)))
  else if pinned_op (oi_Kind i) && negb (String.eqb target (sb_Node row)) then
    fail (KindError ErrPrecondition ("sandbox " +:+ sb_ID row +:+ " is on node "
            +:+ quoted (sb_Node row)
            +:+ ", not " +:+ target))
  else
    match oi_Kind i with
    | OpRepair =>
        if bool_decide (oi_Trigger i ∈ [TriggerRepair; TriggerEnsure]) then
          RepairRecheck (sb_ID row) (cfg_PendingRepairAfter e) (cfg_UnreachableRepairAfter e)
            ≫= λ pass,
          if negb pass then recheckFailed (sb_ID row) "it is no longer stuck" else mret tt
        else mret tt
    | OpPause | OpHibernate => recheck e row i
    | _ => mret tt
    end.

Definition preemptEnded {A} (id : ID) : tx A :=
  fail (KindError ErrPrecondition ("sandbox " +:+ id +:+ ": the hibernate to preempt ended")).

(** Admission: the claim of the target and its booking. *)
Definition admission (e : Engine) (row : Sandbox) (kind : OpKind) (target : string) : tx unit :=
  claim e row kind target ≫= λ _,
  UpsertBooking (MkBooking (sb_ID row) target (sb_VCPUs row) (sb_MemoryMiB row) true zeroTime).

(** [takeover]: the op in flight, when its owner is not live, or is this
    instance, which does not run it ([runs]). *)
Definition takeover (e : Engine) (runs : bool) (opID : UUID) (row : Sandbox)
    (trigger : OpTrigger) : tx (OpHandle * list Event) :=
  match sb_Op row with
  | None => fail (PlainError "no op in flight")
  | Some kind =>
      (if negb (String.eqb (sb_OpOwner row) (e_id e)) then InstanceLive (sb_OpOwner row)
       else mret runs) ≫= λ busy,
      if busy : bool then
        fail (KindError ErrBusy ("an op " +:+ op_string kind +:+ " of instance " +:+ sb_OpOwner row
                +:+ " is in flight"))
      else
        Now ≫= λ now,
        (if bool_decide (kind = OpHibernate) then
           catch_missing (GetNode (sb_OpTarget row)) ≫= λ n,
           mret (match n with Some n => n_Draining n | None => false end)
         else mret false) ≫= λ noAb,
        let d := deadlineFor kind (sb_MemoryMiB row) (cfg_HibernateTimeout e) in
        let after := row <| sb_OpID := opID |> <| sb_OpOwner := e_id e |>
                         <| sb_OpDeadline := now + d |> in
        UpdateSandbox row after ≫= λ written,
        let h := (newHandle e written kind trigger (sb_OpTarget row))
                   <| h_takeover := true |> <| h_from := sb_OpOwner row |> <| h_noAbandon := noAb |>
                   <| h_read_state := sb_OpFromState row |> <| h_read_node := sb_Node row |>
                   <| h_read_lostFrom := sb_LostFrom row |>
                   <| h_read_materialised := sb_Materialised row |> in
        let ev := startEvent h row in
        mret (h, [MkEvent (ev_SandboxID ev) (ev_TenantID ev) (ev_Node ev) (ev_Kind ev) (ev_SpanID ev)
                    (ev_ParentSpanID ev)
                    (op_string kind +:+ " on node " +:+ sb_OpTarget row
                      +:+ " (taken over from instance " +:+ sb_OpOwner row +:+ ")")])
  end.

(** [preemptHibernate]: a resume in the place of the hibernate in flight. *)
Definition preemptHibernate (e : Engine) (opID : UUID) (row : Sandbox) (i : OpIntent)
    (target : string) : tx (OpHandle * list Event) :=
  if negb (bool_decide (sb_OpID row = oi_preempt i))
     || negb (bool_decide (sb_Op row = Some OpHibernate))
     || negb (bool_decide (sb_ClientState row = StateHibernating))
     || negb (bool_decide (sb_OpFromState row = Some StatePaused))
     || negb (String.eqb (sb_Node row) target) || negb (String.eqb (sb_OpTarget row) target)
  then preemptEnded (sb_ID row)
  else
    admission e row OpResume target ≫= λ _,
    Now ≫= λ now,
    let d := deadlineFor OpResume (sb_MemoryMiB row) (cfg_HibernateTimeout e) in
    let after := row <| sb_Op := Some OpResume |> <| sb_OpID := opID |> <| sb_OpOwner := e_id e |>
                     <| sb_OpDeadline := now + d |> <| sb_OpTarget := target |>
                     <| sb_OpFromState := Some StatePaused |>
                     <| sb_ClientState := transitional OpResume |>
                     <| sb_StatusDescription := ""%string |> in
    UpdateSandbox row after ≫= λ written,
    syncBooking row written false ≫= λ _,
    let h := (newHandle e written OpResume (oi_Trigger i) target)
               <| h_preempted := sb_OpID row |> <| h_from := sb_OpOwner row |>
               <| h_read_state := Some StatePaused |> <| h_read_node := sb_Node row |>
               <| h_read_lostFrom := sb_LostFrom row |>
               <| h_read_materialised := sb_Materialised row |> in
    let ev := startEvent h row in
    mret (h, [MkEvent (ev_SandboxID ev) (ev_TenantID ev) (ev_Node ev) (ev_Kind ev) (ev_SpanID ev)
                (ev_ParentSpanID ev)
                (op_string OpResume +:+ " on node " +:+ target
                  +:+ " (abandons the hibernate of instance " +:+ sb_OpOwner row +:+ ")")]).

(** The tombstones of a restore elsewhere: for the record holder, and for
    the node that lost grace left the pod on. *)
Fixpoint restore_tombstones (row : Sandbox) (target : string) (olds : list string)
    (tombs : list TombstoneKey) : tx (list TombstoneKey) :=
  match olds with
  | [] => mret tombs
  | old :: rest =>
      if String.eqb old "" || String.eqb old target || containsKey tombs old
      then restore_tombstones row target rest tombs
      else
        let k := MkTombstoneKey (sb_ID row) old (sb_Incarnation row) in
        catch_missing (GetTombstone k) ≫= λ t,
        match t with
        | Some _ => restore_tombstones row target rest tombs
        | None =>
            UpsertTombstone (new_tombstone (sb_ID row) old (sb_Incarnation row)
                               ("restored on " +:+ target) zeroTime) ≫= λ _,
            restore_tombstones row target rest (tombs ++ [k])
        end
  end.

(** The row a begin writes. *)
Definition begun_row (e : Engine) (opID : UUID) (now : Time) (row : Sandbox) (i : OpIntent)
    (target : string) : Sandbox :=
  let kind := oi_Kind i in
  let d := deadlineFor kind (sb_MemoryMiB row) (cfg_HibernateTimeout e) in
  let after := row <| sb_Op := Some kind |> <| sb_OpID := opID |> <| sb_OpOwner := e_id e |>
                   <| sb_OpDeadline := now + d |> <| sb_OpTarget := target |>
                   <| sb_OpFromState := Some (sb_ClientState row) |>
                   <| sb_ClientState := transitional kind |>
                   <| sb_StatusDescription := oi_reason i |> in
  let after := if negb (pinned_op kind) then after <| sb_Node := target |> else after in
  let after :=
    if negb (String.eqb (sb_Node after) (sb_Node row)) then
      after <| sb_Materialised := false |> <| sb_LostFrom := ""%string |>
            <| sb_PolicyFailed := None |> <| sb_PolicyFailures := 0 |>
            <| sb_PolicyNotBefore := zeroTime |>
    else after in
  if bool_decide (kind = OpCreate) && String.eqb (sb_ImageRef row) ""
  then after <| sb_ImageRef := oi_ImageRef i |> else after.

(** The begin of an op on a row without one. *)
Definition begin_fresh (e : Engine) (opID : UUID) (row : Sandbox) (i : OpIntent)
    (target : string) : tx (OpHandle * list Event) :=
  precheck e row i target ≫= λ _,
  (if bool_decide (oi_Kind i = OpHibernate) then noAbandon (oi_Trigger i) target else mret false)
    ≫= λ noAb,
  (if admits (oi_Kind i) then admission e row (oi_Kind i) target else mret tt) ≫= λ _,
  Now ≫= λ now,
  let after := begun_row e opID now row i target in
  (if bool_decide (oi_Kind i = OpRestore)
   then restore_tombstones row target [sb_Node row; sb_LostFrom row] []
   else mret []) ≫= λ tombs,
  UpdateSandbox row after ≫= λ written,
  syncBooking row written false ≫= λ _,
  let h := (newHandle e written (oi_Kind i) (oi_Trigger i) target)
             <| h_read_state := Some (sb_ClientState row) |> <| h_read_node := sb_Node row |>
             <| h_read_lostFrom := sb_LostFrom row |>
             <| h_read_materialised := sb_Materialised row |>
             <| h_tombstones := tombs |> <| h_noAbandon := noAb |> in
  mret (h, (if pinned_op (oi_Kind i) then []
            else [MkEvent (sb_ID row) (sb_Owner row) target KindPlacement "" ""
                    ("placed on " +:+ target +:+ " (" +:+ op_string (oi_Kind i) +:+ ")")])
           ++ [startEvent h row]).

(** [beginOn]: one begin transaction towards [target]. *)
Definition beginOn (e : Engine) (runs : bool) (opID : UUID) (id : ID) (i : OpIntent)
    (target : string) : tx (OpHandle * list Event) :=
  LockSandbox id ≫= λ row,
  if negb (is_nil (oi_Incarnation i)) && negb (bool_decide (sb_Incarnation row = oi_Incarnation i))
  then fail (KindError ErrNotFound "no such sandbox")
  else
    match sb_Op row with
    | Some _ =>
        if negb (is_nil (oi_preempt i)) then preemptHibernate e opID row i target
        else if negb (is_nil (oi_takeover i)) && negb (bool_decide (sb_OpID row = oi_takeover i))
        then fail (KindError ErrPrecondition ("sandbox " +:+ id +:+ ": the op to take over ended"))
        else takeover e runs opID row (oi_Trigger i)
    | None =>
        if negb (is_nil (oi_takeover i))
        then fail (KindError ErrPrecondition ("sandbox " +:+ id +:+ ": the op to take over ended"))
        else if negb (is_nil (oi_preempt i)) then preemptEnded id
        else begin_fresh e opID row i target
    end.

(** [refuseVerdict]. *)
Definition refuseVerdict (vs : list PlacementCandidate) (node reason : string)
    : list PlacementCandidate :=
  (λ v, if String.eqb (pc_Node v) node
        then MkCandidate (pc_Node v) false reason (pc_Score v) else v) <$> vs.

#[export] Instance eta_OpIntent : Eta OpIntent := λ i,
  MkOpIntent (oi_Kind i) (oi_Trigger i) (oi_Candidates i) (oi_Target i) (oi_Incarnation i)
    (oi_ImageRef i) (oi_reason i) (oi_verdicts i) (oi_takeover i) (oi_preempt i).

(** The candidates in order, each in a transaction of its own; [ctxErr]
    says before which of them the caller is gone. *)
Fixpoint begin_candidates (e : Engine) (runs : bool) (ctxErr : string → bool) (opID : UUID)
    (id : ID) (i : OpIntent) (cs refused : list string) (db : DB)
    : result error (OpHandle * list Event) * DB :=
  match cs with
  | [] => (Err (KindError ErrNoCapacity ("no capacity (retryable): no feasible node; "
                  +:+ String.concat "; " refused)), db)
  | c :: cs' =>
      if ctxErr c then (Err (PlainError "context canceled"), db)
      else
        match InTx (beginOn e runs opID id i c) db with
        | (Err (Refused r), db') =>
            begin_candidates e runs ctxErr opID id
              (i <| oi_verdicts ::= λ vs, refuseVerdict vs c (rf_text r) |>)
              cs' (refused ++ [(c +:+ ": " +:+ rf_text r)%string]) db'
        | r => r
        end
  end.

Definition begin (e : Engine) (runs : bool) (ctxErr : string → bool) (opID : UUID) (id : ID)
    (i : OpIntent) (db : DB) : result error (OpHandle * list Event) * DB :=
  if String.eqb (pinnedTarget i) "" then
    begin_candidates e runs ctxErr opID id i (oi_Candidates i) [] db
  else if String.eqb (oi_Target i) "" then
    (Err (PlainError "sandbox: an op without a target node"), db)
  else
    match InTx (beginOn e runs opID id i (oi_Target i)) db with
    | (Err (Refused r), db') => (Err (admissionError r id), db')
    | r => r
    end.

(** ** Finish (finish.go) *)

(** [clearOp]. *)
Definition clearOp (a : Sandbox) : Sandbox :=
  a <| sb_Op := None |> <| sb_OpID := uuidNil |> <| sb_OpOwner := ""%string |>
    <| sb_OpDeadline := zeroTime |> <| sb_OpTarget := ""%string |> <| sb_OpFromState := None |>.

Definition nodeUnfit (cause : option prepareError) : bool :=
  match cause with
  | Some c => pe_hook c && pe_isNodeUnfit c && negb (pe_isNodeUnavailable c)
  | None => false
  end.

Definition appendUnique (ss : list string) (s : string) : list string :=
  if existsb (String.eqb s) ss then ss else ss ++ [s].

Definition opNoun (k : OpKind) : string :=
  if bool_decide (k = OpHibernate) then "hibernation" else op_string k.

Definition newerCheckpoint (cp : option Checkpoint) (row : Sandbox) : bool :=
  if String.eqb (GetHeadKey cp) "" then false
  else (sb_CheckpointEpoch row <? epoch_of cp)
       || ((epoch_of cp =? sb_CheckpointEpoch row)
           && negb (String.eqb (GetHeadKey cp) (sb_CheckpointHead row))).

Definition placementFailure (err : option callError) : bool :=
  match grpcCode err with
  | codeResourceExhausted | codeFailedPrecondition | codeAlreadyExists => true
  | _ => false
  end.

(** A restore that booted the pod anew, without its memory. *)
Definition cold_restore (res : callResult) : bool :=
  cr_restored res && negb (cr_memoryRestored res) && negb (String.eqb (cr_reason res) "").

Definition runOrigin (k : OpKind) (res : callResult) : string :=
  match k with
  | OpCreate => "image"
  | OpStart | OpRepair => "disk"
  | OpResume => "snapshot"
  | OpRestore => if cold_restore res then "coldboot: " +:+ cr_reason res else "checkpoint"
  | _ => "adopted"
  end.

Definition coldBoot (k : OpKind) (res : callResult) : bool :=
  match k with OpStart => true | OpRestore => cold_restore res | _ => false end.

(** [policyBackoff]: the loop runs at most [n - 1] times. *)
Fixpoint double_until (steps : nat) (d most : Duration) : Duration :=
  match steps with
  | O => d
  | S steps' => if d <? most then double_until steps' (wrap64 (d * 2)) most else d
  end.

Definition policyBackoff (n : Z) (least most : Duration) : Duration :=
  Z.min (double_until (Z.to_nat (n - 1)) least most) most.

Definition policy_of (h : OpHandle) (s : ClientState) : option Policy :=
  if bool_decide (h_trigger h = TriggerIdle) && bool_decide (h_kind h = OpPause)
       && bool_decide (s = StateRunning) then Some PolicyIdle
  else if bool_decide (h_trigger h = TriggerHibernateAfter) && bool_decide (h_kind h = OpHibernate)
            && bool_decide (s = StatePaused) then Some PolicyHibernateAfter
  else None.

Definition backOff (e : Engine) (h : OpHandle) (c : change) : change :=
  let a := ch_after c in
  if (bool_decide (h_kind h = OpPause) && bool_decide (sb_ClientState a = StatePaused))
     || (bool_decide (h_kind h = OpHibernate) && bool_decide (sb_ClientState a = StateHibernated))
  then amend (λ a, a <| sb_PolicyFailed := None |> <| sb_PolicyFailures := 0 |>
                     <| sb_PolicyNotBefore := zeroTime |>) c
  else
    match policy_of h (sb_ClientState a) with
    | None => c
    | Some policy =>
        let failures := wrap64 (1 + (if bool_decide (sb_PolicyFailed a = Some policy)
                                     then sb_PolicyFailures a else 0)) in
        amend (λ a, a <| sb_PolicyFailed := Some policy |> <| sb_PolicyFailures := failures |>
                      <| sb_PolicyNotBefore := ch_now c
                           + policyBackoff failures (t_policyBackoffMin e) (t_policyBackoffMax e) |>) c
    end.

(** The description of a pod that still runs after the op. *)
Definition running_text (h : OpHandle) (res : callResult) : string :=
  match h_kind h with
  | OpPause => "pause failed: " +:+ errText (cr_err res) "the pod still runs"
  | OpRepair =>
      match cr_err res with
      | Some c => match ce_prepare c with
                  | Some pe => "repair not done: " +:+ prepareError_Error pe
                  | None => "" end
      | None => ""
      end
  | _ => ""
  end.

(** The description of a pod that is suspended after the op. *)
Definition suspended_text (h : OpHandle) (res : callResult) : string :=
  if bool_decide (h_kind h = OpHibernate) then
    if bool_decide (grpcCode (cr_err res) = codeAborted)
    then "hibernation abandoned for a resume"
    else "hibernation failed: " +:+ errText (cr_err res) "the pod stays suspended"
  else "".

(** The row after the op, by the state of its pod on the target. *)
Definition apply_state (nodes : gmap string Node) (elapsed : string) (h : OpHandle)
    (res : callResult) (info : PodInfo) (c : change) : change :=
  match pi_State info with
  | POD_STATE_RUNNING =>
      let c := amend (λ a, a <| sb_ClientState := StateRunning |> <| sb_AvoidNodes := [] |>
                             <| sb_PendingSince := zeroTime |> <| sb_UnreachableSince := zeroTime |>
                             <| sb_LastActiveAt ::= λ t, if makes (h_kind h) then ch_now c else t |>
                             <| sb_StatusDescription := running_text h res |>) c in
      let c := c <| ch_openRun :=
        if bool_decide (h_kind h = OpResume) && newerCheckpoint (pi_Checkpoint info) (h_row h)
        then "checkpoint"%string else runOrigin (h_kind h) res |> in
      if coldBoot (h_kind h) res then c <| ch_endsProcesses := true |> else c
  | POD_STATE_PENDING =>
      amend (λ a, a <| sb_ClientState := StateCreating |>
                    <| sb_PendingSince := coalesce_time (sb_PendingSince a) (ch_now c) |>
                    <| sb_StatusDescription := ("still starting on node " +:+ h_target h
                         +:+ " after " +:+ elapsed)%string |>) c
  | POD_STATE_SUSPENDED =>
      (amend (λ a, a <| sb_ClientState := StatePaused |> <| sb_PendingSince := zeroTime |>
                     <| sb_PausedAt ::= λ t,
                          if bool_decide (h_kind h = OpPause) || IsZero t then ch_now c else t |>
                     <| sb_StatusDescription := suspended_text h res |>) c)
        <| ch_closeRun := if bool_decide (h_trigger h = TriggerIdle) then "idle"%string
                          else "paused"%string |>
  | POD_STATE_HIBERNATED =>
      let c := amend (λ a, a <| sb_ClientState := StateHibernated |>
                             <| sb_PendingSince := zeroTime |>) c in
      let c := if String.eqb (GetHeadKey (pi_Checkpoint info)) ""
               then mergeCheckpoint nodes (cr_checkpoint res) (h_target h) c else c in
      (amend (λ a, a <| sb_StatusDescription := ""%string |>) c)
        <| ch_closeRun := "hibernated"%string |>
  | POD_STATE_STOPPED =>
      (amend (λ a, a <| sb_ClientState := StateStopped |> <| sb_PendingSince := zeroTime |>
                     <| sb_StatusDescription := pi_Reason info |>) c)
        <| ch_closeRun := "stopped"%string |>
  | POD_STATE_FAILED =>
      (amend (λ a, a <| sb_ClientState := StateFailed |> <| sb_PendingSince := zeroTime |>
                     <| sb_StatusDescription := pi_Reason info |>) c)
        <| ch_closeRun := "failed"%string |>
  | s =>
      amend (λ a, a <| sb_ClientState := StateUnknown |>
                    <| sb_StatusDescription := (op_string (h_kind h) +:+ " on node " +:+ h_target h
                         +:+ ": the pod is in state " +:+ podstate_string s)%string |>) c
  end.

Definition applyOurs (nodes : gmap string Node) (elapsed : string) (h : OpHandle)
    (res : callResult) (info : PodInfo) (c : change) : change :=
  let c := amend (λ a, a <| sb_Node := h_target h |> <| sb_Materialised := true |>
                         <| sb_LostFrom := ""%string |> <| sb_Address := podAddress info |>) c in
  let c := mergeCheckpoint nodes (pi_Checkpoint info) (h_target h) c in
  let c := if bool_decide (h_kind h = OpRepair)
                && ((negb (cr_skipped res) && negb (cr_postponed res)) || h_takeover h)
           then c <| ch_endsProcesses := true |> else c in
  let c := apply_state nodes elapsed h res info c in
  let st := sb_ClientState (ch_after c) in
  if vmBusy (cr_err res) && negb (bool_decide (st = StateUnknown))
       && (negb (bool_decide (st = opGoal (h_kind h))) || bool_decide (h_kind h = OpRepair))
  then amend (λ a, a <| sb_StatusDescription := (opNoun (h_kind h) +:+ " postponed: "
                          +:+ callText (cr_err res))%string |>) c
  else c.

(** The op found no pod of its sandbox on its target: why, and whether the
    next placement avoids the node. *)
Definition missing_outcome (h : OpHandle) (res : callResult) (c : change) : change :=
  match cr_err res with
  | None => notFound (h_target h) "" c
  | Some _ =>
      let a := ch_after c in
      let why := (op_string (h_kind h) +:+ " on node " +:+ h_target h +:+ " failed: "
                   +:+ callText (cr_err res))%string in
      if bool_decide (h_kind h = OpCreate) && placementFailure (cr_err res)
           && negb (HasCheckpoint a) && negb (sb_Materialised a)
      then notFound (h_target h) (why +:+ "; placed elsewhere on the next use")
             (amend (λ a, a <| sb_AvoidNodes ::= λ ss, appendUnique ss (h_target h) |>) c)
      else notFound (h_target h) why c
  end.

(** The outcome table: what the target holds of the pod after the op's
    calls decides. *)
Definition outcome_table (e : Engine) (nodes : gmap string Node) (elapsed : string)
    (h : OpHandle) (res : callResult) (obs : observation) (c : change) : change :=
  let target := h_target h in
  if negb (obs_answered obs) then
    amend (λ a, a <| sb_ClientState := StateUnknown |>
                  <| sb_StatusDescription := (op_string (h_kind h) +:+ " on node " +:+ target
                       +:+ ": outcome unknown ("
                       +:+ errText (cr_err res) "the node did not answer" +:+ ")")%string |>) c
  else
    match obs_info obs with
    | Some info =>
        if ours e obs (h_inc h) then applyOurs nodes elapsed h res info c
        else
          let inc := podIncarnation e info in
          notFound target (op_string (h_kind h) +:+ " on node " +:+ target
              +:+ " found a stale pod of incarnation " +:+ uuid_String e inc
              +:+ " there; it is deleted first")
            (add_tombstone target inc (stale_reason e info) c)
    | None => missing_outcome h res c
    end.

Definition applyOutcome (e : Engine) (nodes : gmap string Node) (elapsed : string)
    (h : OpHandle) (res : callResult) (obs : observation) (c : change) : change :=
  backOff e h (outcome_table e nodes elapsed h res obs (amend clearOp c)).

Definition endEvent (h : OpHandle) (owner state runID : string) : Event :=
  MkEvent (h_id h) owner (h_target h) KindLifecycleEnd (h_span h)
    (if String.eqb runID "" then h_parent h else runID)
    (op_string (h_kind h) +:+ " on node " +:+ h_target h +:+ ": " +:+ state).

Definition result_of (row : Sandbox) (r : OpResult) : OpResult :=
  r <| or_State := Some (sb_ClientState row) |> <| or_Node := sb_Node row |>
    <| or_Description := sb_StatusDescription row |>.

Definition no_result : OpResult := MkOpResult None "" "" None false false.

(** [fencedOut]: a finish that finds the op no longer the row's; [row] is
    absent when it is gone. *)
Definition fencedOut (e : Engine) (h : OpHandle) (row : option Sandbox) (res : callResult)
    (obs : observation) : tx (OpResult * afterCommit * list Event) :=
  let result := no_result <| or_fenced := true |> in
  let result := match row with Some r => result_of r result | None => result end in
  let elsewhere := match row with
    | None => true
    | Some r => negb (bool_decide (sb_Incarnation r = h_inc h))
                || (negb (String.eqb (sb_Node r) (h_target h))
                    && negb (String.eqb (sb_OpTarget r) (h_target h)))
    end in
  if makes (h_kind h) && elsewhere then
    let t := new_tombstone (h_id h) (h_target h) (h_inc h)
               ("fenced-out " +:+ op_string (h_kind h)) zeroTime in
    UpsertTombstone t ≫= λ _,
    mret (result, MkAfterCommit [Key t] false, [tombstone_event (sb_Owner (h_row h)) t])
  else
    match row with
    | None => mret (result, MkAfterCommit [] false, [])
    | Some r =>
        if negb (bool_decide (sb_Incarnation r = h_inc h))
        then mret (result, MkAfterCommit [] false, [])
        else
          let cps := cr_checkpoint res ::
            (if ours e obs (h_inc h)
             then match obs_info obs with Some i => [pi_Checkpoint i] | None => [] end else []) in
          let newer := existsb (λ cp, negb (String.eqb (GetHeadKey cp) "")
                                      && (sb_CheckpointEpoch r <? epoch_of cp)) cps in
          if newer && String.eqb (sb_Node r) (h_target h) then
            newChange r ≫= λ c,
            gets db_nodes ≫= λ nodes,
            let c := foldl (λ c cp, mergeCheckpoint nodes cp (h_target h) c) c cps in
            UpdateSandbox r (ch_after c) ≫= λ written,
            mret (result_of written result, MkAfterCommit [] true, [])
          else mret (result, MkAfterCommit [] false, [])
    end.

(** Whether the op is still the row's. *)
Definition owns (h : OpHandle) (row : Sandbox) : bool :=
  bool_decide (sb_Incarnation row = h_inc h) && bool_decide (sb_OpID row = h_opID h).

Definition finish_fenced (e : Engine) (h : OpHandle) (row : option Sandbox) (res : callResult)
    (obs : observation) : tx (OpResult * afterCommit * list Event) :=
  fencedOut e h row res obs ≫= λ '(result, ac, events),
  let label := if bool_decide (h_kind h = OpHibernate)
                    && bool_decide (grpcCode (cr_err res) = codeAborted)
               then "abandoned" else "fenced out" in
  mret (result, ac, events ++ [endEvent h (sb_Owner (h_row h)) label ""]).

Definition finishOnce (e : Engine) (u : UUID) (elapsed : string) (h : OpHandle)
    (res : callResult) (obs : observation) : tx (OpResult * afterCommit * list Event) :=
  catch_missing (LockSandbox (h_id h)) ≫= λ row,
  match row with
  | Some r =>
      if owns h r then
        newChange r ≫= λ c,
        gets db_nodes ≫= λ nodes,
        let c := applyOutcome e nodes elapsed h res obs c in
        commit e u c ≫= λ '(w, events),
        let busy := vmBusy (cr_err res) && negb (bool_decide (sb_ClientState w = StateUnknown))
                    && negb (bool_decide (sb_ClientState w = opGoal (h_kind h))) in
        mret (result_of w (no_result <| or_busy := busy |>),
              MkAfterCommit (tombstoneKeys c ++ h_tombstones h) false,
              events ++ [endEvent h (sb_Owner w) (state_string (sb_ClientState w)) (sb_RunID w)])
      else finish_fenced e h row res obs
  | None => finish_fenced e h row res obs
  end.

(** [rollbackOnce]: nothing was sent, for want of a connection or because
    of [cause]. *)
Fixpoint delete_tombstones (ks : list TombstoneKey) : tx unit :=
  match ks with
  | [] => mret tt
  | k :: ks' => DeleteTombstone k ≫= λ _, delete_tombstones ks'
  end.

Definition rollback_why (e : Engine) (h : OpHandle) (cause : option prepareError) : string :=
  match cause with
  | Some c => prepareError_Error c
  | None => "node " +:+ h_target h +:+ " is not connected to instance " +:+ e_id e
  end.

(** What a rollback makes of the row. *)
Definition rolled_back (h : OpHandle) (cause : option prepareError) (why : string) (a : Sandbox)
    : Sandbox :=
  let a := clearOp a in
  if negb (is_nil (h_preempted h)) then
    a <| sb_ClientState := StateUnknown |>
      <| sb_StatusDescription :=
           (why +:+ "; the hibernate the resume was to abandon goes on")%string |>
  else if negb (h_takeover h) then
    let a := a <| sb_ClientState := default (sb_ClientState a) (h_read_state h) |>
               <| sb_Node := h_read_node h |> <| sb_LostFrom := h_read_lostFrom h |>
               <| sb_Materialised := h_read_materialised h |>
               <| sb_StatusDescription := (why +:+ "; nothing was sent")%string |> in
    if nodeUnfit cause && bool_decide (h_kind h = OpCreate) && String.eqb (sb_PinNode a) "" then
      a <| sb_AvoidNodes ::= λ ss, appendUnique ss (h_target h) |>
        <| sb_StatusDescription ::= λ d, (d +:+ "; placed elsewhere on the next use")%string |>
    else a
  else
    a <| sb_ClientState := StateUnknown |>
      <| sb_StatusDescription :=
           (why +:+ "; the outcome of " +:+ op_string (h_kind h) +:+ " is unknown")%string |>.

Definition rollbackOnce (e : Engine) (u : UUID) (h : OpHandle) (cause : option prepareError)
    : tx (OpResult * list Event) :=
  let why := rollback_why e h cause in
  let result := MkOpResult None "" "" (Some why) false false in
  let fenced r := mret (r <| or_fenced := true |>,
                        [endEvent h (sb_Owner (h_row h)) "fenced out" ""]) in
  catch_missing (LockSandbox (h_id h)) ≫= λ row,
  match row with
  | None => fenced result
  | Some r =>
      if negb (owns h r) then fenced (result_of r result)
      else
        newChange r ≫= λ c,
        let c := amend (rolled_back h cause why) c in
        (if is_nil (h_preempted h) && negb (h_takeover h)
         then delete_tombstones (h_tombstones h) else mret tt) ≫= λ _,
        commit e u c ≫= λ '(w, events),
        mret (result_of w result,
              events ++ [endEvent h (sb_Owner w) (state_string (sb_ClientState w)) (sb_RunID w)])
  end.

(** ** Sync and reconcile (sync.go, reconcile.go) *)

(** [applySync]: applied, deferred, and the tombstones it wrote. *)
Definition applySync (e : Engine) (u : UUID) (read : Sandbox) (obs : observation)
    : tx (bool * bool * list Event * list TombstoneKey) :=
  catch_missing (LockSandbox (sb_ID read)) ≫= λ row,
  match row with
  | None => mret (true, false, [], [])
  | Some r =>
      if bool_decide (is_Some (sb_Op r)) then mret (false, true, [], [])
      else if negb (sb_Gen r =? sb_Gen read)
                || negb (bool_decide (sb_Incarnation r = sb_Incarnation read))
                || negb (String.eqb (sb_Node r) (sb_Node read))
      then mret (false, false, [], [])
      else
        newChange r ≫= λ c,
        gets db_nodes ≫= λ nodes,
        let c := observe e nodes (sb_Node r) obs c in
        (if ours e obs (sb_Incarnation r)
         then DeleteTombstone (MkTombstoneKey (sb_ID r) (sb_Node r) (sb_Incarnation r))
                ≫= λ _, mret tt
         else mret tt) ≫= λ _,
        commit e u c ≫= λ '(_, events),
        mret (true, false, events, tombstoneKeys c)
  end.

(** Why no sandbox places a listed pod on the node; [None] when one does. *)
Definition orphaned (e : Engine) (node : string) (p : PodInfo) (row : option Sandbox)
    : option string :=
  let inc := podIncarnation e p in
  match row with
  | None => Some "no sandbox has this pod"%string
  | Some r =>
      if negb (String.eqb (sb_Node r) node) && negb (String.eqb (sb_OpTarget r) node)
      then Some "its sandbox is placed elsewhere"%string
      else if negb (bool_decide (sb_Incarnation r = inc)) && bool_decide (sb_Op r = None)
      then Some (stale_reason e p)
      else None
  end.

Definition reconcilePod (e : Engine) (u : UUID) (node : string) (id : ID) (p : PodInfo)
    (snap : gmap ID Sandbox) : tx (list Event * list TombstoneKey) :=
  let inc := podIncarnation e p in
  catch_missing (LockSandbox id) ≫= λ row,
  match orphaned e node p row with
  | Some why =>
      let t := new_tombstone id node inc why zeroTime in
      UpsertTombstone t ≫= λ _,
      mret ([tombstone_event (match row with Some r => sb_Owner r | None => "" end) t], [Key t])
  | None =>
      match row with
      | None => mret ([], [])
      | Some r =>
          let unchanged := match snap !! id with
                           | Some s => sb_Gen s =? sb_Gen r | None => false end in
          if negb (bool_decide (sb_Incarnation r = inc)) || negb (String.eqb (sb_Node r) node)
             || bool_decide (is_Some (sb_Op r)) || negb unchanged
          then mret ([], [])
          else
            newChange r ≫= λ c,
            gets db_nodes ≫= λ nodes,
            let c := observe e nodes node (MkObservation true (Some p)) c in
            DeleteTombstone (MkTombstoneKey id node inc) ≫= λ _,
            commit e u c ≫= λ '(_, events),
            mret (events, tombstoneKeys c)
      end
  end.

Definition reconcileMissing (e : Engine) (u : UUID) (node : string) (s : Sandbox)
    : tx (list Event) :=
  catch_missing (LockSandbox (sb_ID s)) ≫= λ row,
  match row with
  | None => mret []
  | Some r =>
      if negb (sb_Gen r =? sb_Gen s) || bool_decide (is_Some (sb_Op r))
         || negb (String.eqb (sb_Node r) node)
         || negb (bool_decide (sb_Incarnation r = sb_Incarnation s))
      then mret []
      else
        newChange r ≫= λ c,
        gets db_nodes ≫= λ nodes,
        commit e u (observe e nodes node (MkObservation true None) c) ≫= λ '(_, events),
        mret events
  end.

(** ** Deletion and tombstones (tombstone.go) *)

(** The tombstones of a deleted row, one per node. *)
Fixpoint delete_from (row : Sandbox) (live : bool) (nodes : list string)
    (keys : list TombstoneKey) (events : list Event) : tx (list TombstoneKey * list Event) :=
  match nodes with
  | [] => mret (keys, events)
  | n :: rest =>
      if String.eqb n "" || containsKey keys n then delete_from row live rest keys events
      else
        let t := new_tombstone (sb_ID row) n (sb_Incarnation row) "deleted"
                   (if live && String.eqb n (sb_OpTarget row) then sb_OpDeadline row
                    else zeroTime) in
        UpsertTombstone t ≫= λ _,
        delete_from row live rest (keys ++ [Key t]) (events ++ [tombstone_event (sb_Owner row) t])
  end.

Definition deleteLocked (row : Sandbox) : tx (list TombstoneKey * list Event) :=
  (match sb_Op row with
   | Some k => if makes k then InstanceLive (sb_OpOwner row) else mret false
   | None => mret false
   end) ≫= λ live,
  delete_from row live [sb_Node row; sb_OpTarget row; sb_LostFrom row] [] [] ≫= λ '(keys, events),
  let events := if String.eqb (sb_RunID row) "" then events
                else events ++ [runEnd row (sb_RunID row) "deleted"] in
  DeleteSandbox (sb_ID row) ≫= λ _,
  (if (0 <? length keys)%nat then Notify chanLeader hintTombstone else mret tt) ≫= λ _,
  mret (keys, events ++ [MkEvent (sb_ID row) (sb_Owner row) (sb_Node row) KindSandboxState ""
                           (sb_RunID row) (state_string (sb_ClientState row) +:+ " → deleted")]).

Definition Delete (owner : string) (id : ID)
    : tx (Sandbox * list TombstoneKey * list Event) :=
  let unknown := KindError ErrNotFound ("unknown sandbox " +:+ id) in
  catch_missing (LockSandbox id) ≫= λ row,
  match row with
  | None => fail unknown
  | Some r =>
      if negb (String.eqb owner "") && negb (String.eqb (sb_Owner r) owner) then fail unknown
      else deleteLocked r ≫= λ '(keys, events), mret (r, keys, events)
  end.

(** What [runTombstone] does with what the node says of the tombstone's pod:
    nothing but note a failed attempt, drop the tombstone, or delete the
    pod. *)
Inductive tombstone_action : Type := NoteAttempt | DropTombstone (why : string) | DeletePod.

Definition incarnationText (info : PodInfo) : string :=
  match pi_Labels info !! LabelIncarnation with Some s => Clean s | None => "none" end.

Definition tombstone_decision (e : Engine) (k : TombstoneKey) (obs : option observation)
    : tombstone_action :=
  match obs with
  | None => NoteAttempt
  | Some o =>
      match (if found o then obs_info o else None) with
      | None => DropTombstone "the pod is gone"
      | Some info =>
          let inc := podIncarnation e info in
          if negb (isFerunPod info)
             || (negb (bool_decide (inc = tk_Incarnation k)) && negb (is_nil inc))
          then DropTombstone ("tombstone dropped: node " +:+ tk_Node k +:+ " holds incarnation "
                               +:+ incarnationText info)
          else DeletePod
      end
  end.
