(* ===== verification/Lifecycle.v ===== *)
(** * The invariant of the registry

    What holds of a sandbox's row between two transactions ([row_ok]), of
    its booking and tombstones with it ([row_inv]), and of the whole
    registry ([db_ok]); and that a committed change keeps it.  The
    transactions of [Ops] are shown to keep it in [Engine]. *)

From S2P Require Import Prelude PodId Rows Store Placement Change Ops.

(** ** Rows *)

(** A state that no op holds the sandbox in. *)
Definition settled (s : ClientState) : bool :=
  match s with StatePausing | StateResuming | StateHibernating => false | _ => true end.

(** A state in which a sandbox may be on no node. *)
Definition homeless (s : ClientState) : bool :=
  match s with StatePending | StateHibernated => true | _ => false end.

(** No op in flight: the op's columns are empty, as [clearOp] leaves them. *)
Record idle (s : Sandbox) : Prop := {
  idle_op : sb_Op s = None;
  idle_id : sb_OpID s = uuidNil;
  idle_owner : sb_OpOwner s = ""%string;
  idle_deadline : sb_OpDeadline s = zeroTime;
  idle_target : sb_OpTarget s = ""%string;
  idle_from : sb_OpFromState s = None
}.

(** An op in flight: it holds the sandbox in its state, on its node. *)
Record in_flight (s : Sandbox) (k : OpKind) : Prop := {
  flight_op : sb_Op s = Some k;
  flight_id : sb_OpID s ≠ uuidNil;
  flight_state : sb_ClientState s = transitional k;
  flight_target : sb_OpTarget s = sb_Node s;
  flight_node : sb_Node s ≠ ""%string;
  flight_from : ∃ st, sb_OpFromState s = Some st ∧ settled st = true
}.

(** Where a state lets a sandbox be. *)
Record placed (st : ClientState) (node : string) (materialised : bool) : Prop := {
  placed_settled : settled st = true;
  placed_pending : st = StatePending → node = ""%string ∧ materialised = false;
  placed_node : homeless st = false → node ≠ ""%string
}.

Definition row_ok (s : Sandbox) : Prop :=
  sb_Incarnation s ≠ uuidNil
  ∧ ((idle s ∧ placed (sb_ClientState s) (sb_Node s) (sb_Materialised s))
     ∨ ∃ k, in_flight s k).

(** The tombstone key of the sandbox's own pod on its node. *)
Definition own_key (s : Sandbox) : TombstoneKey :=
  MkTombstoneKey (sb_ID s) (sb_Node s) (sb_Incarnation s).

Record row_inv (db : DB) (id : ID) (s : Sandbox) : Prop := {
  inv_id : sb_ID s = id;
  inv_row : row_ok s;
  inv_run : sb_ClientState s = StateRunning → sb_RunID s ≠ ""%string;
  inv_booking : booking_follows (db_bookings db) s;
  inv_tombstone : db_tombstones db !! own_key s = None;
  inv_node : node_known db (sb_Node s) = true;
  inv_lost : node_known db (sb_LostFrom s) = true
}.

Record db_ok (db : DB) : Prop := {
  ok_nodes : db_nodes db !! ""%string = None;
  ok_tombstones k : is_Some (db_tombstones db !! k) → tk_Node k ≠ ""%string;
  ok_bookings id : is_Some (db_bookings db !! id) → is_Some (db_sandboxes db !! id);
  ok_rows id s : db_sandboxes db !! id = Some s → row_inv db id s
}.

(** ** The changes of a row *)

Lemma row_ok_lifecycle s t : lifecycle s = lifecycle t → row_ok s → row_ok t.
Proof.
  unfold lifecycle. intros [= E1 E2 E3 E4 E5 E6 E7 E8 E9 E10 E11 E12] [? Hs].
  split; [congruence|].
  destruct Hs as [[[] Hp]|[k []]]; [left|right; exists k].
  - split; [constructor; congruence|]. by rewrite <- E3, <- E4, <- E5.
  - constructor; try congruence. by rewrite <- E12.
Qed.

Lemma clearOp_idle a : idle (clearOp a).
Proof. by constructor. Qed.

(** What a step of a change does besides the columns it is named after. *)
Record step_ok (c c' : change) : Prop := {
  step_now : ch_now c' = ch_now c;
  step_before : ch_before c' = ch_before c;
  step_id : sb_ID (ch_after c') = sb_ID (ch_after c);
  step_inc : sb_Incarnation (ch_after c') = sb_Incarnation (ch_after c);
  step_fixed : fixed (ch_after c') = fixed (ch_after c);
  step_epoch : sb_CheckpointEpoch (ch_after c) ≤ sb_CheckpointEpoch (ch_after c')
}.

#[export] Instance step_ok_preorder : PreOrder step_ok.
Proof.
  split.
  - intros c. by constructor.
  - intros a b c [] []. constructor; try congruence. lia.
Qed.

Lemma mergeCheckpoint_ok nodes cp node c :
  let c' := mergeCheckpoint nodes cp node c in
  step_ok c c' ∧ lifecycle (ch_after c') = lifecycle (ch_after c)
  ∧ ch_tombstones c' = ch_tombstones c ∧ ch_closeRun c' = ch_closeRun c
  ∧ sb_RunID (ch_after c') = sb_RunID (ch_after c).
Proof.
  cbv zeta. unfold mergeCheckpoint. destruct (merges cp (ch_after c)) eqn:H; [|done].
  unfold merges in H. reflect_tests. split_and!; [constructor; cbn; done || lia | done..].
Qed.

Lemma notFound_ok node why c :
  idle (ch_after c) → sb_Node (ch_after c) ≠ ""%string →
  let c' := notFound node why c in
  step_ok c c' ∧ idle (ch_after c')
  ∧ placed (sb_ClientState (ch_after c')) (sb_Node (ch_after c')) (sb_Materialised (ch_after c'))
  ∧ (sb_Node (ch_after c') = ""%string ∨ sb_Node (ch_after c') = sb_Node (ch_after c))
  ∧ ch_tombstones c' = ch_tombstones c ∧ closes_stopped c'
  ∧ sb_LostFrom (ch_after c') = sb_LostFrom (ch_after c).
Proof.
  intros [] Hn. cbv zeta. unfold notFound, closes_stopped.
  destruct (HasCheckpoint (ch_after c)); [|destruct (sb_Materialised (ch_after c)) eqn:Hm];
  (split_and!; [constructor; try done; cbn; lia | by constructor | | by (left + right) | done | done | done]);
  constructor; cbn; try done; naive_solver.
Qed.

(** A tombstone of a change [c]: of its sandbox, on its node, of another
    incarnation than [inc]. *)
Definition stale_tombstone (inc : UUID) (c : change) (t : Tombstone) : Prop :=
  tb_PodID t = sb_ID (ch_before c) ∧ tb_Incarnation t ≠ inc ∧ tb_Node t = sb_Node (ch_after c).

(** What an observation of the row's node makes of a change [c] to a row
    without an op: the sandbox stays on its node or is on none, and every
    tombstone is another incarnation's. *)
Record outcome_ok (inc : UUID) (c c' : change) : Prop := {
  outcome_step : step_ok c c';
  outcome_idle : idle (ch_after c');
  outcome_placed :
    placed (sb_ClientState (ch_after c')) (sb_Node (ch_after c')) (sb_Materialised (ch_after c'));
  outcome_node :
    sb_Node (ch_after c') = ""%string ∨ sb_Node (ch_after c') = sb_Node (ch_after c);
  outcome_closes : closes_stopped c';
  outcome_tombstones : Forall (stale_tombstone inc c) (ch_tombstones c');
  outcome_lost :
    sb_LostFrom (ch_after c') = ""%string ∨ sb_LostFrom (ch_after c') = sb_LostFrom (ch_after c)
}.

Lemma notFound_outcome inc node why c c1 :
  idle (ch_after c1) → sb_Node (ch_after c) ≠ ""%string →
  step_ok c c1 → sb_Node (ch_after c1) = sb_Node (ch_after c) →
  sb_LostFrom (ch_after c1) = sb_LostFrom (ch_after c) →
  Forall (stale_tombstone inc c) (ch_tombstones c1) →
  outcome_ok inc c (notFound node why c1).
Proof.
  intros Hi Hn Hs Hnn Hll Ht. rewrite <- Hnn in Hn.
  destruct (notFound_ok node why c1 Hi Hn) as (Hs' & ? & ? & Hnode & Htt & ? & Hl).
  constructor; [by etrans | done | done | by rewrite Hnn in Hnode | done | by rewrite Htt |].
  right. congruence.
Qed.

(** The change after a pod's own record was read, before its state is. *)
Definition of_pod (nodes : gmap string Node) (node : string) (info : PodInfo) (c : change)
    : change :=
  mergeCheckpoint nodes (pi_Checkpoint info) node
    (amend (λ a, a <| sb_Node := node |> <| sb_Materialised := true |>
                   <| sb_LostFrom := ""%string |> <| sb_Address := podAddress info |>) c).

Lemma of_pod_ok nodes node info c :
  idle (ch_after c) →
  let c' := of_pod nodes node info c in
  step_ok c c' ∧ idle (ch_after c') ∧ sb_Node (ch_after c') = node
  ∧ sb_Materialised (ch_after c') = true
  ∧ sb_ClientState (ch_after c') = sb_ClientState (ch_after c)
  ∧ ch_tombstones c' = ch_tombstones c ∧ ch_closeRun c' = ch_closeRun c
  ∧ sb_LostFrom (ch_after c') = ""%string.
Proof.
  intros []. cbv zeta. unfold of_pod.
  set (c1 := amend _ c). destruct (mergeCheckpoint_ok nodes (pi_Checkpoint info) node c1)
    as (Hs & Hl & Ht & Hc & _).
  unfold lifecycle in Hl. injection Hl as ????????????.
  split_and!; try (etrans; [eassumption | done]).
  - etrans; [|exact Hs]. by constructor.
  - constructor; etrans; (eassumption || done).
Qed.

(** Closes [outcome_ok inc c c'] for a change made from [of_pod]'s. *)
Ltac solve_outcome :=
  constructor;
  [ etrans; [eassumption|]; by constructor
  | by constructor
  | constructor; cbn; intros; (done || congruence)
  | by right
  | unfold closes_stopped; cbn; intros; (done || congruence)
  | cbn; first [done | match goal with H : ch_tombstones ?c1 = [] |- context [ch_tombstones ?c1] => by rewrite H end]
  | by left ].

Lemma observeOurs_ok inc nodes node info c :
  idle (ch_after c) → sb_Node (ch_after c) = node → node ≠ ""%string →
  settled (sb_ClientState (ch_after c)) = true → sb_ClientState (ch_after c) ≠ StatePending →
  ch_closeRun c = ""%string → ch_tombstones c = [] →
  outcome_ok inc c (observeOurs nodes node info c).
Proof.
  intros Hi Hn Hne Hset Hpend Hc Ht.
  destruct (of_pod_ok nodes node info c Hi) as (Hs & Hi' & Hn' & Hm' & Hst' & Ht' & Hc' & Hl').
  unfold observeOurs. fold (of_pod nodes node info c).
  set (c1 := of_pod nodes node info c) in *. clearbody c1. rewrite Ht in Ht'. rewrite Hc in Hc'.
  destruct Hi'. subst node. clear Hi.
  destruct (pi_State info); solve_outcome.
Qed.

(** Changes that differ in nothing an outcome is about. *)
Definition alike (c1 c2 : change) : Prop :=
  ch_now c2 = ch_now c1 ∧ ch_before c2 = ch_before c1 ∧ core (ch_after c2) = core (ch_after c1)
  ∧ fixed (ch_after c2) = fixed (ch_after c1)
  ∧ ch_tombstones c2 = ch_tombstones c1 ∧ ch_closeRun c2 = ch_closeRun c1.

Lemma outcome_alike inc c c1 c2 : alike c1 c2 → outcome_ok inc c c1 → outcome_ok inc c c2.
Proof.
  unfold alike, core, lifecycle.
  intros (Hn & Hb & [= E1 E2 E3 E4 E5 E6 E7 E8 E9 E10 E11 E12 E13] & Hfx & Ht & Hc)
    [[S1 S2 S3 S4 S5 S6] [] Hp Hnode Hcl Htb Hlf].
  constructor.
  - constructor; first [congruence | by rewrite E13].
  - constructor; congruence.
  - by rewrite E3, E4, E5.
  - by rewrite E4.
  - unfold closes_stopped in *. by rewrite E3, Hc.
  - by rewrite Ht.
  - by rewrite E6.
Qed.

Lemma observe_ok e nodes node obs row now :
  idle row → placed (sb_ClientState row) (sb_Node row) (sb_Materialised row) →
  sb_Node row = node → node ≠ ""%string →
  let c := MkChange now row row false "" "" [] [] in
  outcome_ok (sb_Incarnation row) c (observe e nodes node obs c).
Proof.
  intros Hi Hp Hn Hne c. unfold observe.
  assert (Hnf : outcome_ok (sb_Incarnation row) c (notFound node "" c))
    by (apply notFound_outcome; [done | by subst | reflexivity | done | done | by constructor]).
  destruct (obs_info obs) as [info|] eqn:Hinfo; [|done].
  destruct (ours e obs _) eqn:Ho.
  - apply observeOurs_ok; try done; [apply Hp|]. cbn. intros Hst. apply Hp in Hst as [? _]. by subst.
  - destruct (stale e obs _) eqn:Hs; [|done].
    apply notFound_outcome; [done | by subst | by constructor | done | done |].
    repeat constructor; cbn; [|done]. intros E.
    unfold stale in Hs. rewrite Hinfo in Hs. reflect_tests. done.
Qed.

Lemma apply_state_ok inc nodes elapsed h res info c c1 :
  step_ok c c1 → idle (ch_after c1) → sb_Node (ch_after c1) = sb_Node (ch_after c) →
  sb_Node (ch_after c) ≠ ""%string → ch_closeRun c1 = ""%string → ch_tombstones c1 = [] →
  sb_LostFrom (ch_after c1) = ""%string →
  outcome_ok inc c (apply_state nodes elapsed h res info c1).
Proof.
  intros Hs [] Hn Hne Hc Ht Hlf. unfold apply_state.
  destruct (pi_State info); try solve_outcome.
  - destruct (coldBoot _ _); solve_outcome.
  - set (c2 := amend _ c1).
    set (c3 := if String.eqb (GetHeadKey (pi_Checkpoint info)) ""
               then mergeCheckpoint nodes (cr_checkpoint res) (h_target h) c2 else c2).
    assert (step_ok c2 c3 ∧ lifecycle (ch_after c3) = lifecycle (ch_after c2)
            ∧ ch_tombstones c3 = ch_tombstones c2) as (Hs3 & Hl & Ht3).
    { subst c3. destruct (String.eqb _ _); [|done].
      destruct (mergeCheckpoint_ok nodes (cr_checkpoint res) (h_target h) c2) as (?&?&?&?). done. }
    clearbody c3. unfold lifecycle in Hl. injection Hl as ?? Hst ?????????.
    assert (step_ok c c3) by (etrans; [exact Hs|]; etrans; [|exact Hs3]; by constructor).
    cbn in *. rewrite Ht in Ht3.
    constructor; [etrans; [eassumption|]; by constructor | constructor; cbn; congruence
      | constructor; cbn; rewrite Hst; done | right; cbn; congruence
      | unfold closes_stopped; cbn; congruence | cbn; by rewrite Ht3 | left; cbn; congruence].
Qed.

Lemma applyOurs_ok inc nodes elapsed h res info c :
  idle (ch_after c) → sb_Node (ch_after c) = h_target h → h_target h ≠ ""%string →
  ch_closeRun c = ""%string → ch_tombstones c = [] →
  outcome_ok inc c (applyOurs nodes elapsed h res info c).
Proof.
  intros Hi Hn Hne Hc Ht.
  destruct (of_pod_ok nodes (h_target h) info c Hi) as (Hs & Hi' & Hn' & _ & _ & Ht' & Hc' & Hl').
  unfold applyOurs. fold (of_pod nodes (h_target h) info c).
  set (c1 := of_pod nodes (h_target h) info c) in *. clearbody c1.
  rewrite Ht in Ht'. rewrite Hc in Hc'. rewrite <- Hn in Hn', Hne.
  match goal with |- context [if ?b then c1 <| ch_endsProcesses := true |> else c1] =>
    set (c2 := if b then c1 <| ch_endsProcesses := true |> else c1) end.
  assert (Ho : outcome_ok inc c (apply_state nodes elapsed h res info c2)).
  { subst c2. case_match; apply apply_state_ok; try done.
    etrans; [exact Hs|]. by constructor. }
  case_match; [|done]. eapply outcome_alike, Ho. done.
Qed.

Lemma backOff_alike e h c : alike c (backOff e h c).
Proof. unfold backOff. case_match; [done|]. by case_match. Qed.

(** The outcome table, on a row whose op was cleared. *)
Lemma missing_outcome_ok inc h res c :
  idle (ch_after c) → sb_Node (ch_after c) ≠ ""%string → ch_tombstones c = [] →
  outcome_ok inc c (missing_outcome h res c).
Proof.
  intros Hi Hne Ht. unfold missing_outcome.
  destruct (cr_err res); [case_match|]; (apply notFound_outcome;
    [by destruct Hi | done | by constructor | done | done | cbn; by rewrite Ht]).
Qed.

Lemma outcome_table_ok e nodes elapsed h res obs c :
  idle (ch_after c) → sb_Node (ch_after c) = h_target h → h_target h ≠ ""%string →
  ch_closeRun c = ""%string → ch_tombstones c = [] →
  outcome_ok (h_inc h) c (outcome_table e nodes elapsed h res obs c).
Proof.
  intros Hi Hn Hne Hr Ht. unfold outcome_table.
  destruct (obs_answered obs) eqn:Ha; cbn [negb].
  2:{ destruct Hi. constructor; [by constructor | by constructor
      | constructor; cbn; [done | done | by rewrite Hn] | by right | by unfold closes_stopped
      | cbn; by rewrite Ht | by right]. }
  destruct (obs_info obs) as [info|] eqn:Hinfo.
  - destruct (ours e obs (h_inc h)) eqn:Ho; [by apply applyOurs_ok|].
    apply notFound_outcome; [by destruct Hi | by rewrite Hn | by constructor | done | done |].
    cbn. rewrite Ht. repeat constructor; cbn; [|done]. intros E.
    unfold ours, found in Ho. rewrite Ha, Hinfo in Ho. cbn in Ho.
    by rewrite bool_decide_eq_false in Ho.
  - apply missing_outcome_ok; [done | by rewrite Hn | done].
Qed.

Lemma applyOutcome_ok e nodes elapsed h res obs row now :
  sb_Node row = h_target h → h_target h ≠ ""%string →
  let c := MkChange now row row false "" "" [] [] in
  outcome_ok (h_inc h) c (applyOutcome e nodes elapsed h res obs c).
Proof.
  intros Hn Hne c. unfold applyOutcome. eapply outcome_alike; [apply backOff_alike|].
  destruct (outcome_table_ok e nodes elapsed h res obs (amend clearOp c)) as [Hs ??????]; try done.
  constructor; try done. etrans; [|exact Hs]. by constructor.
Qed.

(** ** The registry *)

(** How the rows may move in one transaction: a row keeps its incarnation,
    its gen and the epoch of its checkpoint do not fall ([row_le]); and an
    op in a row is none, one of [fresh], or the one that was there. *)
Record row_le (s s' : Sandbox) : Prop := {
  le_id : sb_ID s' = sb_ID s;
  le_inc : sb_Incarnation s' = sb_Incarnation s;
  le_gen : sb_Gen s ≤ sb_Gen s';
  le_epoch : sb_CheckpointEpoch s ≤ sb_CheckpointEpoch s'
}.

#[export] Instance row_le_preorder : PreOrder row_le.
Proof.
  split.
  - intros s. by constructor.
  - intros a b c [] []. constructor; try congruence; lia.
Qed.

(** The op in a row, as those who run it know it. *)
Definition op_of (s : Sandbox) := (sb_Incarnation s, sb_OpID s, sb_Op s, sb_OpTarget s).

Definition op_follows (fresh : gset UUID) (old : option Sandbox) (s' : Sandbox) : Prop :=
  sb_OpID s' = uuidNil ∨ sb_OpID s' ∈ fresh ∨ ∃ s, old = Some s ∧ op_of s' = op_of s.

(** A node never loses its row. *)
Definition nodes_kept (db db' : DB) : Prop :=
  ∀ name, is_Some (db_nodes db !! name) → is_Some (db_nodes db' !! name).

Record good (fresh : gset UUID) (db db' : DB) : Prop := {
  good_ok : db_ok db';
  good_le id s s' :
    db_sandboxes db !! id = Some s → db_sandboxes db' !! id = Some s' → row_le s s';
  good_op id s' :
    db_sandboxes db' !! id = Some s' → op_follows fresh (db_sandboxes db !! id) s';
  good_nodes : nodes_kept db db'
}.

Lemma good_refl fresh db : db_ok db → good fresh db db.
Proof.
  intros Hok. constructor; [done | | | by intros ?].
  - intros id s s' Hs Hs'. assert (s = s') as -> by congruence. reflexivity.
  - intros id s' Hs. right. right. eauto.
Qed.

Lemma node_known_mono db db' name :
  nodes_kept db db' → node_known db name = true → node_known db' name = true.
Proof.
  unfold nodes_kept, node_known. intros Hn. rewrite !orb_true_iff, !bool_decide_eq_true. naive_solver.
Qed.

Lemma node_known_same db db' name :
  db_nodes db' = db_nodes db → node_known db' name = node_known db name.
Proof. unfold node_known. by intros ->. Qed.

(** A row that keeps its columns is in the registry as before when its
    booking and tombstone are. *)
Lemma row_inv_frame db db' id s :
  row_inv db id s → db_bookings db' !! id = db_bookings db !! id →
  db_tombstones db' !! own_key s = db_tombstones db !! own_key s →
  nodes_kept db db' → row_inv db' id s.
Proof.
  intros [Hid Hrow Hrun Hb Ht Hn Hl] Eb Et En.
  constructor; try done; [| by rewrite Et | by eapply node_known_mono..].
  unfold booking_follows in *. rewrite Hid in *. by rewrite Eb.
Qed.

Lemma touches_kept id db db' : touches id db db' → nodes_kept db db'.
Proof. intros T name. by rewrite (touches_nodes _ _ _ T). Qed.

(** A transaction that touches one sandbox keeps the invariant when it
    keeps it there. *)
Lemma db_ok_touches id db db' :
  db_ok db → touches id db db' →
  (∀ s, db_sandboxes db' !! id = Some s → row_inv db' id s) →
  (is_Some (db_bookings db' !! id) → is_Some (db_sandboxes db' !! id)) →
  (∀ k, tk_PodID k = id → is_Some (db_tombstones db' !! k) → tk_Node k ≠ ""%string) →
  db_ok db'.
Proof.
  intros [Hn Ht Hb Hr] T Hrow Hbk Htb. constructor.
  - by rewrite (touches_nodes _ _ _ T).
  - intros k. destruct (decide (tk_PodID k = id)); [by apply Htb|].
    rewrite (touches_tombstones _ _ _ T) by done. apply Ht.
  - intros j. destruct (decide (j = id)) as [->|]; [done|].
    rewrite (touches_bookings _ _ _ T), (touches_sandboxes _ _ _ T) by done. apply Hb.
  - intros j s. destruct (decide (j = id)) as [->|]; [apply Hrow|].
    rewrite (touches_sandboxes _ _ _ T) by done. intros Hs. pose proof (Hr _ _ Hs) as Hinv.
    eapply row_inv_frame; [done | by apply (touches_bookings _ _ _ T) | |
      by eapply touches_kept].
    apply (touches_tombstones _ _ _ T). cbn. by rewrite (inv_id _ _ _ Hinv).
Qed.

Lemma good_touches fresh id db db' :
  db_ok db' → touches id db db' →
  (∀ s', db_sandboxes db' !! id = Some s' →
     (∀ s, db_sandboxes db !! id = Some s → row_le s s')
     ∧ op_follows fresh (db_sandboxes db !! id) s') →
  good fresh db db'.
Proof.
  intros Hok T Hrow. constructor; [done| | | by eapply touches_kept].
  - intros j s s'. destruct (decide (j = id)) as [->|].
    + intros Hs Hs'. by apply Hrow.
    + rewrite (touches_sandboxes _ _ _ T) by done. intros -> [= ->]. reflexivity.
  - intros j s'. destruct (decide (j = id)) as [->|]; [apply Hrow|].
    rewrite (touches_sandboxes _ _ _ T) by done. intros ->. right. right. eauto.
Qed.

Lemma no_tombstone_nowhere db k :
  db_ok db → tk_Node k = ""%string → db_tombstones db !! k = None.
Proof.
  intros Hok Hk. apply eq_None_not_Some. intros H. by apply (ok_tombstones _ Hok) in H.
Qed.

Lemma own_key_core s t : core s = core t → own_key s = own_key t.
Proof. unfold core, lifecycle, own_key. congruence. Qed.

(** A committed change to a locked row keeps the invariant when the row it
    writes is in order and no tombstone names its pod. *)
Lemma wrote_good fresh before after tombs db w db' :
  db_ok db → db_sandboxes db !! sb_ID before = Some before →
  wrote before after tombs db w db' →
  row_ok after → db_tombstones db !! own_key after = None →
  Forall (λ t, Key t ≠ own_key after) tombs →
  row_le (before <| sb_Gen := 0 |>) (after <| sb_Gen := 0 |>) →
  op_follows fresh (Some before) after → good fresh db db'.
Proof.
  intros Hok Hrow [T Hw Hc Hid Hg Hrun Hbk Htb Hns Hkn Hkl] Hafter Hno Hts [_ Linc _ Lep] Hop.
  cbn in Linc, Lep. assert (Hl : lifecycle w = lifecycle after) by (unfold core in Hc; congruence).
  pose proof Hc as Hc'. injection Hc' as E1 E2 E3 E4 E5 E6 E7 E8 E9 E10 E11 E12 E13.
  assert (Hok' : db_ok db').
  { eapply db_ok_touches; [done | exact T | | intros _; eauto |].
    - intros s Hs. rewrite Hw in Hs. injection Hs as <-. constructor; try done; [congruence| | | |].
      + by eapply row_ok_lifecycle.
      + rewrite (own_key_core _ _ Hc). apply eq_None_not_Some. rewrite Htb, Hno.
        intros [[? [=]]|Hin]. apply list_elem_of_fmap in Hin as (t & Hk & Hin).
        rewrite Forall_forall in Hts. by apply (Hts t).
      + rewrite (node_known_same _ _ _ (touches_nodes _ _ _ T)).
        destruct Hkn as [->|]; [apply (ok_rows _ Hok _ _ Hrow) | done].
      + rewrite (node_known_same _ _ _ (touches_nodes _ _ _ T)).
        destruct Hkl as [->|]; [apply (ok_rows _ Hok _ _ Hrow) | done].
    - intros k _. rewrite Htb. intros [Hk|Hin]; [by apply (ok_tombstones _ Hok)|].
      apply list_elem_of_fmap in Hin as (t & -> & Hin). cbn. intros Hk.
      apply Hns in Hin. rewrite Hk, (ok_nodes _ Hok) in Hin. by destruct Hin. }
  eapply good_touches; [done | exact T|]. intros s' Hs'. rewrite Hw in Hs'. injection Hs' as <-.
  rewrite Hrow. split.
  - intros s [= <-]. constructor; [congruence.. | done | lia].
  - unfold op_follows, op_of in *. rewrite E2, E7, E8, E11. exact Hop.
Qed.

(** A node's answer about its row's pod, applied to a row without an op. *)
Lemma observed_good fresh e u c db w evs db' row now :
  db_ok db → db_sandboxes db !! sb_ID row = Some row → row_ok row →
  (sb_Node row ≠ ""%string → db_tombstones db !! own_key row = None) →
  outcome_ok (sb_Incarnation row) (MkChange now row row false "" "" [] []) c →
  commit e u c db = Ok ((w, evs), db') → good fresh db db'.
Proof.
  intros Hok Hrow [Hinc _] Hno [[_ S2 S3 S4 _ S5] Hi Hp Hnode Hcl Hts _] Hcom. cbn in *.
  apply commit_ok in Hcom; rewrite ?S2; cbn; [|done | by eapply Forall_impl; [exact Hts|]; intros ? (? & _) | done].
  rewrite S2 in Hcom. eapply wrote_good; [done | done | exact Hcom | | | | |].
  - split; [congruence | by left].
  - destruct Hnode as [Hn|Hn]; [by apply no_tombstone_nowhere|].
    destruct (decide (sb_Node (ch_after c) = ""%string)); [by apply no_tombstone_nowhere|].
    unfold own_key in *. rewrite Hn, S3, S4. apply Hno. congruence.
  - eapply Forall_impl; [exact Hts|]. intros t (_ & Ht & _) [= _ _ E]. congruence.
  - by constructor.
  - left. apply Hi.
Qed.
