(* ===== verification/Transactions.v ===== *)
(** * Every transaction keeps the registry's invariant

    The transactions of [Ops] and of the store's sweeps, one by one: from a
    registry in order ([Lifecycle.db_ok]) each that commits leaves one in
    order, and moves every row as [Lifecycle.good] says. *)

From S2P Require Import Prelude PodId Rows Store Placement Change Ops Lifecycle.

(** ** What the runner knows of an op it runs *)

(** The handle of the op in [row]. *)
Record handle_ok (h : OpHandle) (row : Sandbox) : Prop := {
  handle_kind : sb_Op row = Some (h_kind h);
  handle_target : sb_OpTarget row = h_target h;
  handle_read :
    h_takeover h = false → h_preempted h = uuidNil →
    ∃ st, h_read_state h = Some st ∧ placed st (h_read_node h) (h_read_materialised h)
          ∧ (h_read_node h = ""%string ∨ h_read_node h = h_target h
             ∨ MkTombstoneKey (h_id h) (h_read_node h) (h_inc h) ∈ h_tombstones h)
}.

(** The handle fits the row it names, while the row has its op. *)
Definition handle_fits (db : DB) (h : OpHandle) : Prop :=
  h_opID h ≠ uuidNil ∧ is_Some (db_nodes db !! h_target h)
  ∧ ∀ row, db_sandboxes db !! h_id h = Some row → owns h row = true → handle_ok h row.

(** ** Tombstones *)

Lemma good_from fresh db db1 db' :
  db_sandboxes db1 = db_sandboxes db → nodes_kept db db1 → good fresh db1 db' →
  good fresh db db'.
Proof.
  intros E Hn [? Hl Ho Hn']. rewrite E in Hl, Ho. constructor; try done.
  intros name ?. by apply Hn', Hn.
Qed.

Lemma db_ok_delete_tombstone db k :
  db_ok db → db_ok (db <| db_tombstones ::= delete k |>).
Proof.
  intros [Hn Ht Hb Hr]. constructor; cbn; try done.
  - intros k'. rewrite lookup_delete_is_Some. naive_solver.
  - intros id s Hs. destruct (Hr id s Hs). constructor; try done. cbn.
    rewrite lookup_delete_None. by right.
Qed.

Lemma tombstone_good fresh t db r db' :
  db_ok db → UpsertTombstone t db = Ok (r, db') →
  (∀ s, db_sandboxes db !! tb_PodID t = Some s → Key t ≠ own_key s) → good fresh db db'.
Proof.
  intros Hok H Hkey. pose proof (touches_UpsertTombstone _ _ _ _ H) as T.
  apply UpsertTombstone_ok in H as [Hn ->].
  eapply good_from; [| |apply good_refl]; [done | by intros ? |].
  eapply db_ok_touches; [exact Hok | exact T | | cbn; apply (ok_bookings _ Hok) |].
  - intros s Hs. cbn in Hs. eapply row_inv_frame; [by apply (ok_rows _ Hok) | done | | by intros ?]. cbn.
    rewrite lookup_insert_ne; [done|]. by apply Hkey.
  - intros k _. cbn. rewrite lookup_insert_is_Some'. intros [<-|?]; [|by apply (ok_tombstones _ Hok)].
    cbn. intros E. rewrite E, (ok_nodes _ Hok) in Hn. by destruct Hn.
Qed.

(** A row without an op that is on a node. *)
Lemma row_no_op s : row_ok s → sb_Op s = None →
  idle s ∧ placed (sb_ClientState s) (sb_Node s) (sb_Materialised s).
Proof. intros [_ [?|[k []]]] Hop; [done | congruence]. Qed.

Lemma row_op s k : row_ok s → sb_Op s = Some k → in_flight s k.
Proof.
  intros [_ [[[] _]|[k' Hf]]] Hop; [congruence|].
  assert (k = k') as -> by (destruct Hf; congruence). done.
Qed.

(** ** Sync and reconcile *)

Lemma newChange_ok row db c db' :
  newChange row db = Ok (c, db') →
  db' = db ∧ c = MkChange (db_now db) row row false "" "" [] [].
Proof. intros H. unfold newChange in H. tx_inv H. tx_facts. done. Qed.

Lemma DeleteTombstone_ok k db r db' :
  DeleteTombstone k db = Ok (r, db') → db' = db <| db_tombstones ::= delete k |>.
Proof. intros H. unfold DeleteTombstone in H. by tx_inv H. Qed.

(** [tx_facts] with the queries of a change. *)
Ltac change_facts :=
  repeat (progress (tx_facts;
  repeat match goal with
  | H : newChange _ _ = Ok _ |- _ => apply newChange_ok in H as [??]; subst
  | H : DeleteTombstone _ _ = Ok _ |- _ => apply DeleteTombstone_ok in H; subst
  | H : Some _ = _ |- _ => symmetry in H
  | H : ¬ is_Some _ |- _ => apply eq_None_not_Some in H
  end; reflect_tests)).

(** What the node said of a row without an op, after the tombstone of the
    row's own pod may have gone. *)
Lemma sync_good e u nodes obs row db db1 w evs db' :
  db_ok db → db_sandboxes db !! sb_ID row = Some row → sb_Op row = None →
  sb_Node row ≠ ""%string →
  db1 = db ∨ (∃ k, db1 = db <| db_tombstones ::= delete k |>) →
  commit e u (observe e nodes (sb_Node row) obs
                (MkChange (db_now db) row row false "" "" [] [])) db1 = Ok ((w, evs), db') →
  good ∅ db db'.
Proof.
  intros Hok Hrow Hop Hne Hdb1 Hcom. destruct (ok_rows _ Hok _ _ Hrow) as [_ Hr _ _ Hno _ _].
  destruct (row_no_op _ Hr Hop) as [Hi Hp].
  assert (db_ok db1 ∧ db_sandboxes db1 = db_sandboxes db ∧ nodes_kept db db1
          ∧ db_tombstones db1 !! own_key row = None) as (Hok1 & Hs1 & Hn1 & Hno1).
  { destruct Hdb1 as [->|[k ->]]; [by split_and!; try intros ?|]. split; [by apply db_ok_delete_tombstone|].
    split_and!; [done | by intros ? |]. cbn. rewrite lookup_delete_None. by right. }
  eapply good_from; [exact Hs1 | exact Hn1 |].
  eapply observed_good; [done | by rewrite Hs1 | done | done | | exact Hcom].
  by apply observe_ok.
Qed.

Lemma applySync_good e u read obs db r db' :
  db_ok db → sb_Node read ≠ ""%string → applySync e u read obs db = Ok (r, db') →
  good ∅ db db'.
Proof.
  intros Hok Hne H. unfold applySync in H.
  tx_inv H; change_facts; try by apply good_refl.
  all: match goal with H : db_sandboxes _ !! _ = Some ?s |- _ =>
    pose proof (inv_id _ _ _ (ok_rows _ Hok _ _ H)) as Hid end.
  all: eapply sync_good; [done | by rewrite Hid | done | congruence | | eassumption]; eauto.
Qed.

Lemma reconcilePod_good e u node id p snap db r db' :
  db_ok db → node ≠ ""%string → reconcilePod e u node id p snap db = Ok (r, db') → good ∅ db db'.
Proof.
  intros Hok Hne H. unfold reconcilePod in H.
  apply bind_ok in H as (row & d & Hl & H). tx_facts.
  destruct (orphaned e node p _) as [why|] eqn:Ho.
  - tx_inv H. eapply tombstone_good; [done | eassumption|]. cbn. intros s Hs.
    pose proof (inv_id _ _ _ (ok_rows _ Hok _ _ Hs)) as Hid.
    unfold orphaned in Ho. rewrite Hs in Ho. unfold own_key, Key. cbn. intros [= E1 E2 E3].
    rewrite E2, String.eqb_refl in Ho. cbn in Ho.
    rewrite E3, bool_decide_true in Ho by done. done.
  - destruct (db_sandboxes db !! id) as [s|] eqn:Hs; [|tx_inv H; by apply good_refl].
    tx_inv H; change_facts; [by apply good_refl|].
    pose proof (inv_id _ _ _ (ok_rows _ Hok _ _ Hs)) as Hid. subst.
    eapply sync_good; [done | done | done | done | | eassumption]; eauto.
Qed.

Lemma reconcileMissing_good e u node s db r db' :
  db_ok db → node ≠ ""%string → reconcileMissing e u node s db = Ok (r, db') → good ∅ db db'.
Proof.
  intros Hok Hne H. unfold reconcileMissing in H.
  tx_inv H; change_facts; try by apply good_refl.
  match goal with H : db_sandboxes _ !! _ = Some ?s |- _ =>
    pose proof (inv_id _ _ _ (ok_rows _ Hok _ _ H)) as Hid end. subst.
  eapply sync_good; [done | by rewrite Hid | done | done | | eassumption]; eauto.
Qed.

(** ** The end of an op *)

(** A write of the row alone that keeps its state and its node, as a
    takeover's or a fenced-out finish's of a newer checkpoint. *)
Lemma update_good fresh row after db w db' :
  db_ok db → db_sandboxes db !! sb_ID row = Some row →
  UpdateSandbox row after db = Ok (w, db') → row_ok after →
  sb_Incarnation after = sb_Incarnation row → sb_ClientState after = sb_ClientState row →
  sb_Node after = sb_Node row → sb_RunID after = sb_RunID row →
  sb_CheckpointEpoch row ≤ sb_CheckpointEpoch after → op_follows fresh (Some row) after →
  good fresh db db' ∧ db_sandboxes db' !! sb_ID row = Some w ∧ core w = core after.
Proof.
  intros Hok Hrow H Hra Hinc Hst Hnode Hrun Hep Hop.
  pose proof (touches_UpdateSandbox _ _ _ _ _ Hrow H) as T.
  apply UpdateSandbox_ok in H as (Hid & Hw & Hg & Hkn & Hkl & Hdb); [|done].
  assert (Hl : db_sandboxes db' !! sb_ID row = Some w) by (rewrite Hdb; cbn; by rewrite lookup_insert_eq).
  assert (Hcw : core w = core after) by (rewrite Hw; apply core_stamped).
  assert (sb_RunID w = sb_RunID after) as Hrw by (rewrite Hw; done).
  destruct (ok_rows _ Hok _ _ Hrow) as [_ _ Hrn Hb Hno Hn0 Hl0].
  pose proof Hcw as Hc. injection Hc as E1 E2 E3 E4 E5 E6 E7 E8 E9 E10 E11 E12 E13.
  split; [|done]. eapply good_touches; [|exact T|].
  - eapply db_ok_touches; [done | exact T | | intros _; eauto |].
    + intros s Hs. rewrite Hl in Hs. injection Hs as <-. constructor.
      * congruence.
      * eapply row_ok_lifecycle; [|exact Hra]. unfold core in Hcw. congruence.
      * rewrite E3, Hrw, Hst, Hrun. exact Hrn.
      * unfold booking_follows. rewrite E1, E3, E4, Hid, Hst, Hnode, Hdb. exact Hb.
      * unfold own_key. rewrite E1, E2, E4, Hid, Hinc, Hnode, Hdb. exact Hno.
      * rewrite Hdb. destruct Hkn as [->|]; done.
      * rewrite Hdb. destruct Hkl as [->|]; done.
    + intros k _. rewrite Hdb. apply (ok_tombstones _ Hok).
  - intros s' Hs'. rewrite Hl in Hs'. injection Hs' as <-. rewrite Hrow. split.
    + intros s [= <-]. constructor; [congruence | congruence | done | lia].
    + unfold op_follows, op_of in *. rewrite E2, E7, E8, E11. exact Hop.
Qed.

Lemma merge_all_ok nodes node cps c :
  let c' := foldl (λ c cp, mergeCheckpoint nodes cp node c) c cps in
  step_ok c c' ∧ lifecycle (ch_after c') = lifecycle (ch_after c)
  ∧ sb_RunID (ch_after c') = sb_RunID (ch_after c).
Proof.
  revert c. induction cps as [|cp cps IH]; intros c; cbn; [done|].
  destruct (mergeCheckpoint_ok nodes cp node c) as (H1 & H2 & _ & _ & H3).
  destruct (IH (mergeCheckpoint nodes cp node c)) as (I1 & I2 & I3).
  split_and!; [by etrans | congruence | congruence].
Qed.

Lemma fencedOut_good e h res obs db r db' :
  db_ok db → fencedOut e h (db_sandboxes db !! h_id h) res obs db = Ok (r, db') → good ∅ db db'.
Proof.
  intros Hok H. unfold fencedOut in H. cbv zeta in H.
  destruct (db_sandboxes db !! h_id h) as [row|] eqn:Hrow.
  - pose proof (inv_id _ _ _ (ok_rows _ Hok _ _ Hrow)) as Hid. rewrite <- Hid in Hrow.
    tx_inv H; try by apply good_refl.
    + eapply tombstone_good; [done | eassumption|]. cbn. intros s Hs. reflect_tests.
      assert (s = row) as -> by congruence. unfold own_key, Key. cbn. intros [= _ E2 E3].
      match goal with H : _ || _ = true |- _ => rewrite E2, E3 in H end.
      rewrite bool_decide_true, String.eqb_refl in * by done. done.
    + change_facts.
      destruct (merge_all_ok (db_nodes db) (h_target h)
        (cr_checkpoint res :: (if ours e obs (h_inc h)
             then match obs_info obs with Some i => [pi_Checkpoint i] | None => [] end else []))
        (MkChange (db_now db) row row false "" "" [] [])) as ([] & Hl & Hr).
      match goal with H : UpdateSandbox _ (ch_after ?c') _ = _ |- _ => set (c := c') in *; clearbody c end.
      cbn in * |-. pose proof Hl as Hl'. injection Hl' as E1 E2 E3 E4 E5 E6 E7 E8 E9 E10 E11 E12.
      eapply update_good; try done.
      * eapply row_ok_lifecycle; [done | apply (ok_rows _ Hok _ _ Hrow)].
      * right. right. exists row. split; [done|]. unfold op_of. congruence.
  - tx_inv H; try by apply good_refl.
    eapply tombstone_good; [done | eassumption|]. cbn. congruence.
Qed.

(** The row of an op that still owns it. *)
Lemma owned_row db h row :
  db_ok db → handle_fits db h → db_sandboxes db !! h_id h = Some row → owns h row = true →
  sb_ID row = h_id h ∧ sb_Incarnation row = h_inc h ∧ handle_ok h row
  ∧ in_flight row (h_kind h) ∧ sb_Node row = h_target h ∧ h_target h ≠ ""%string.
Proof.
  intros Hok (Hnil & _ & Hfit) Hrow Ho. pose proof (Hfit _ Hrow Ho) as Hh.
  destruct (ok_rows _ Hok _ _ Hrow) as [Hid Hr _ _ _ _ _].
  assert (Hf : in_flight row (h_kind h)) by (apply row_op; [done | apply Hh]).
  unfold owns in Ho. reflect_tests. destruct Hh, Hf. split_and!; try done; congruence.
Qed.

Lemma finishOnce_good e u elapsed h res obs db r db' :
  db_ok db → handle_fits db h → finishOnce e u elapsed h res obs db = Ok (r, db') →
  good ∅ db db'.
Proof.
  intros Hok Hfit H. unfold finishOnce in H.
  apply bind_ok in H as (row & d & Hl & H). tx_facts.
  assert (Hfen : ∀ r0, finish_fenced e h (db_sandboxes db !! h_id h) res obs db = Ok (r0, db') →
                       good ∅ db db').
  { intros r0 Hf. unfold finish_fenced in Hf. tx_inv Hf. by eapply fencedOut_good. }
  destruct (db_sandboxes db !! h_id h) as [row|] eqn:Hrow; [|by eapply Hfen].
  destruct (owns h row) eqn:Ho; [|by eapply Hfen]. clear Hfen.
  destruct (owned_row _ _ _ Hok Hfit Hrow Ho) as (Hid & Hinc & _ & Hf & Hn & Hne).
  tx_inv H. change_facts. rewrite <- Hid in Hrow.
  destruct (ok_rows _ Hok _ _ Hrow) as [_ Hr _ _ Hno _ _].
  eapply observed_good; [done | done | done | done | | eassumption].
  rewrite Hinc. by apply applyOutcome_ok.
Qed.

Lemma delete_tombstones_ok ks db u db' :
  db_ok db → delete_tombstones ks db = Ok (u, db') →
  db_ok db' ∧ db' = db <| db_tombstones := db_tombstones db' |>
  ∧ (∀ k, db_tombstones db !! k = None ∨ k ∈ ks → db_tombstones db' !! k = None).
Proof.
  revert db. induction ks as [|k ks IH]; intros db Hok H; cbn in H; tx_inv H.
  - split_and!; [done | by apply DB_ext | intros k [?|Hk]; [done | by apply elem_of_nil in Hk]].
  - change_facts. destruct (IH (db <| db_tombstones ::= delete k |>)) as (? & Hdb & Hks);
      [by apply db_ok_delete_tombstone | done |].
    split_and!; [done | rewrite Hdb; by apply DB_ext |]. intros k'. rewrite elem_of_cons.
    intros [Hn|[->|Hin]]; apply Hks; [left | left | by right]; cbn.
    + rewrite lookup_delete_None. by right.
    + apply lookup_delete_eq.
Qed.

(** What a rollback makes of the row of its op. *)
Lemma rolled_back_ok h cause why row :
  row_ok row → handle_ok h row → in_flight row (h_kind h) → sb_Node row = h_target h →
  let a := rolled_back h cause why row in
  row_ok a ∧ idle a ∧ sb_ID a = sb_ID row ∧ sb_Incarnation a = sb_Incarnation row
  ∧ sb_CheckpointEpoch a = sb_CheckpointEpoch row
  ∧ sb_Node a = (if is_nil (h_preempted h) && negb (h_takeover h) then h_read_node h
                 else sb_Node row).
Proof.
  intros [Hinc _] [_ _ Hread] [] Hn a.
  assert (Hunk : placed StateUnknown (sb_Node row) (sb_Materialised row)) by by constructor.
  subst a. unfold rolled_back, is_nil in *.
  destruct (bool_decide (h_preempted h = uuidNil)) eqn:Hp; cbn [negb andb].
  2:{ split_and!; try done. split; [done|]. left. by split. }
  destruct (h_takeover h) eqn:Ht; cbn [negb].
  { split_and!; try done. split; [done|]. left. by split. }
  reflect_tests. destruct (Hread eq_refl Hp) as (st & Hst & Hpl & _). rewrite Hst. cbn [default].
  case_match; (split_and!; try done; split; [done|]; left; by split).
Qed.

Lemma rollbackOnce_good e u h cause db r db' :
  db_ok db → handle_fits db h → rollbackOnce e u h cause db = Ok (r, db') → good ∅ db db'.
Proof.
  intros Hok Hfit H. unfold rollbackOnce in H. cbv zeta in H.
  apply bind_ok in H as (row & d & Hl & H). tx_facts.
  destruct (db_sandboxes db !! h_id h) as [row|] eqn:Hrow; [|tx_inv H; by apply good_refl].
  destruct (owns h row) eqn:Ho; cbn [negb] in H; [|tx_inv H; by apply good_refl].
  destruct (owned_row _ _ _ Hok Hfit Hrow Ho) as (Hid & Hinc & Hh & Hf & Hn & Hne).
  pose proof Hrow as Hrow'. rewrite <- Hid in Hrow'.
  destruct (ok_rows _ Hok _ _ Hrow) as [_ Hr _ _ Hno _ _].
  set (why := rollback_why e h cause) in *.
  destruct (rolled_back_ok h cause why row Hr Hh Hf Hn) as (Ra & Ia & Ea & Na & Pa & Da).
  apply bind_ok in H as (c & d1 & Hc & H). change_facts.
  apply bind_ok in H as (? & d2 & Hd & H). tx_inv H. rename H0 into Hcom.
  assert (db_ok d2 ∧ db_sandboxes d2 = db_sandboxes db ∧ nodes_kept db d2
          ∧ db_tombstones d2 !! own_key (rolled_back h cause why row) = None)
    as (Hok2 & Hs2 & Hn2 & Hno2).
  { unfold own_key. rewrite Ea, Na, Da.
    destruct (is_nil (h_preempted h) && negb (h_takeover h)) eqn:Hb; [|tx_inv Hd; by split_and!; try intros ?].
    apply delete_tombstones_ok in Hd as (Hok2 & Hdb & Hk); [|done].
    split_and!; [done | by rewrite Hdb | rewrite Hdb; by intros ? |]. unfold is_nil in Hb. reflect_tests.
    destruct Hh as [_ _ Hread]. destruct Hread as (st & _ & _ & [Hrn|[Hrn|Hrn]]); [done | done | | |].
    - by apply no_tombstone_nowhere.
    - apply Hk. left. by rewrite Hrn, <- Hn.
    - apply Hk. right. by rewrite Hid, Hinc. }
  eapply good_from; [exact Hs2 | exact Hn2 |]. apply commit_ok in Hcom; [|by rewrite Hs2 | by constructor | done].
  eapply wrote_good; [done | by rewrite Hs2 | exact Hcom | done | done | by constructor | |].
  - constructor; cbn; [done | done | done | by rewrite Pa].
  - left. apply Ia.
Qed.

(** ** Deletion *)

(** The tombstone of a row's pod on a node. *)
Definition pod_key (row : Sandbox) (node : string) : TombstoneKey :=
  MkTombstoneKey (sb_ID row) node (sb_Incarnation row).

Lemma delete_from_ok row live nodes keys events db keys' events' db' :
  (∀ k, k ∈ keys → k = pod_key row (tk_Node k) ∧ is_Some (db_tombstones db !! k)) →
  delete_from row live nodes keys events db = Ok ((keys', events'), db') →
  db' = db <| db_tombstones := db_tombstones db' |>
  ∧ (∀ k, is_Some (db_tombstones db !! k) → is_Some (db_tombstones db' !! k))
  ∧ (∀ k, is_Some (db_tombstones db' !! k) → is_Some (db_tombstones db !! k)
          ∨ (k = pod_key row (tk_Node k) ∧ is_Some (db_nodes db !! tk_Node k)))
  ∧ (∀ n, n ∈ nodes → n ≠ ""%string → is_Some (db_tombstones db' !! pod_key row n))
  ∧ (∀ k, k ∈ keys' → k = pod_key row (tk_Node k) ∧ is_Some (db_tombstones db' !! k)).
Proof.
  revert keys events db. induction nodes as [|n nodes IH]; intros keys events db Hk H; cbn in H.
  - tx_inv H. split_and!; [by apply DB_ext | done | by left | set_solver | done].
  - tx_inv H.
    + destruct (IH _ _ _ Hk H) as (Hdb & Hmono & Hnew & Hall & Hks). split_and!; try done.
      intros m [->|Hm]%elem_of_cons Hne; [|by apply Hall].
      apply orb_true_iff in Heqb as [Heq|Hc]; [by apply String.eqb_eq in Heq|].
      apply existsb_exists in Hc as (k & Hin & Heq). apply String.eqb_eq in Heq as <-.
      apply list_elem_of_In in Hin. destruct (Hk k Hin) as [Ek Hs]. rewrite <- Ek. by apply Hmono.
    + tx_facts. match goal with H : delete_from _ _ _ _ _ _ = _ |- _ => apply IH in H as
        (Hdb & Hmono & Hnew & Hall & Hks) end; cbn in *.
      * split_and!.
        -- rewrite Hdb. by apply DB_ext.
        -- intros k Hs. apply Hmono. rewrite lookup_insert_is_Some'. by right.
        -- intros k Hs. apply Hnew in Hs as [Hs|?]; [|by right].
           rewrite lookup_insert_is_Some' in Hs. destruct Hs as [<-|?]; [by right | by left].
        -- intros m [->|Hm]%elem_of_cons Hne; [|by apply Hall].
           apply Hmono. rewrite lookup_insert_is_Some'. by left.
        -- done.
      * intros k Hin. rewrite lookup_insert_is_Some'. apply elem_of_app in Hin as [Hin|Hin].
        -- destruct (Hk k Hin). auto.
        -- apply list_elem_of_singleton in Hin as ->. auto.
Qed.

Lemma touches_delete_from row live nodes keys events db r db' :
  delete_from row live nodes keys events db = Ok (r, db') → touches (sb_ID row) db db'.
Proof.
  revert keys events db. induction nodes as [|n nodes IH]; intros keys events db H; cbn in H;
    tx_inv H; [done | by eapply IH |].
  etrans; [by eapply (touches_UpsertTombstone (new_tombstone _ _ _ _ _)) | by eapply IH].
Qed.

Lemma touches_DeleteSandbox id db r db' :
  DeleteSandbox id db = Ok (r, db') → touches id db db'.
Proof.
  unfold DeleteSandbox. intros H. tx_inv H; [|done]. solve_touches.
  apply option_eq. intros h. rewrite map_lookup_filter_Some. naive_solver.
Qed.

Lemma touches_Delete owner id db row keys events db' :
  db_ok db → Delete owner id db = Ok ((row, keys, events), db') →
  db_sandboxes db !! id = Some row ∧ touches id db db'
  ∧ db_sandboxes db' !! id = None ∧ db_bookings db' !! id = None
  ∧ (∀ x, db_holds db' !! (id, x) = None)
  ∧ (∀ k, is_Some (db_tombstones db' !! k) → is_Some (db_tombstones db !! k)
          ∨ (k = pod_key row (tk_Node k) ∧ is_Some (db_nodes db !! tk_Node k)))
  ∧ (∀ n, n ∈ [sb_Node row; sb_OpTarget row; sb_LostFrom row] → n ≠ ""%string →
          is_Some (db_tombstones db' !! pod_key row n)).
Proof.
  intros Hok H. unfold Delete in H. cbv zeta in H. tx_inv H. change_facts.
  match goal with H : db_sandboxes _ !! id = Some _ |- _ => rename H into Hrow end.
  pose proof (inv_id _ _ _ (ok_rows _ Hok _ _ Hrow)) as <-.
  match goal with H : deleteLocked _ _ = _ |- _ => unfold deleteLocked in H;
    apply bind_ok in H as (live & d1 & Hlive & H); rename H into Hdel end.
  assert (d1 = db) as -> by (tx_inv Hlive; tx_facts; done). cbv zeta in Hdel.
  apply bind_ok in Hdel as ([ks evs] & d2 & Hfrom & Hdel).
  apply bind_ok in Hdel as (? & d3 & Hrm & Hdel). apply bind_ok in Hdel as (? & d4 & Hnt & Hdel).
  tx_inv Hdel. pose proof (touches_delete_from _ _ _ _ _ _ _ _ Hfrom) as T1.
  pose proof (touches_DeleteSandbox _ _ _ _ Hrm) as T2.
  apply delete_from_ok in Hfrom as (Hd2 & Hmono & Hnew & Hall & _); [|set_solver].
  assert (Hd4 : d4 = d3 <| db_notes := db_notes d4 |>)
    by (unfold Notify in Hnt; tx_inv Hnt; by apply DB_ext).
  assert (T3 : touches (sb_ID s) d3 d4) by (rewrite Hd4; solve_touches).
  assert (Hs2 : db_sandboxes d2 = db_sandboxes db) by by rewrite Hd2.
  unfold DeleteSandbox in Hrm. rewrite Hs2, Hrow in Hrm. tx_inv Hrm.
  split_and!; [done | by do 2 (etrans; [eassumption|]) | | | | |]; rewrite Hd4; cbn.
  - apply lookup_delete_eq.
  - apply lookup_delete_eq.
  - intros x. apply map_lookup_filter_None. right. naive_solver.
  - done.
  - done.
Qed.

Lemma Delete_good owner id db r db' :
  db_ok db → Delete owner id db = Ok (r, db') → good ∅ db db'.
Proof.
  intros Hok H. destruct r as [[row keys] events].
  destruct (touches_Delete _ _ _ _ _ _ _ Hok H) as (Hrow & T & Hs & Hb & _ & Hk & _).
  eapply good_touches; [|exact T|]; [|by rewrite Hs].
  eapply db_ok_touches; [done | exact T | by rewrite Hs | rewrite Hb; by intros [] |].
  intros k _ [Hold|[_ Hn]]%Hk; [by apply (ok_tombstones _ Hok)|].
  intros E. rewrite E, (ok_nodes _ Hok) in Hn. by destruct Hn.
Qed.

(** ** Begin *)

Lemma restore_tombstones_ok row target olds tombs db tombs' db' :
  (∀ k, k ∈ tombs → k = pod_key row (tk_Node k)) →
  restore_tombstones row target olds tombs db = Ok (tombs', db') →
  db' = db <| db_tombstones := db_tombstones db' |> ∧ touches (sb_ID row) db db'
  ∧ (∀ k, k ∈ tombs' → k ∈ tombs ∨ (k = pod_key row (tk_Node k) ∧ tk_Node k ≠ target
                                     ∧ is_Some (db_nodes db !! tk_Node k)))
  ∧ (∀ k, is_Some (db_tombstones db' !! k) → is_Some (db_tombstones db !! k) ∨ k ∈ tombs')
  ∧ (∀ k, is_Some (db_tombstones db !! k) ∨ (k ∈ tombs' ∧ k ∉ tombs) →
          is_Some (db_tombstones db' !! k))
  ∧ (∀ k, k ∈ tombs → k ∈ tombs')
  ∧ (∀ old, old ∈ olds → old ≠ ""%string → old ≠ target →
            db_tombstones db !! pod_key row old = None → pod_key row old ∈ tombs').
Proof.
  revert tombs db. induction olds as [|old olds IH]; intros tombs db Hk H; cbn in H.
  - tx_inv H. split_and!; [by apply DB_ext | done | by left | by left | naive_solver | done
      | intros old Hin; by apply elem_of_nil in Hin].
  - tx_inv H.
    + destruct (IH _ _ Hk H) as (J1 & J2 & J3 & J4 & J5 & J6 & J7). split_and!; try done.
      intros o [->|Ho]%elem_of_cons Hne Hnt Hno; [|by apply J7].
      apply orb_true_iff in Heqb as [Hb|Hc].
      { apply orb_true_iff in Hb as [Hb|Hb]; by apply String.eqb_eq in Hb. }
      apply existsb_exists in Hc as (k & Hin & Heq). apply String.eqb_eq in Heq.
      apply list_elem_of_In in Hin. rewrite <- Heq, <- (Hk k Hin). by apply J6.
    + tx_facts. match goal with H : Some _ = _ |- _ => symmetry in H; rename H into Hold end.
      match goal with H : restore_tombstones _ _ _ _ _ = _ |- _ =>
        destruct (IH _ _ Hk H) as (J1 & J2 & J3 & J4 & J5 & J6 & J7) end. split_and!; try done.
      intros o [->|Ho]%elem_of_cons Hne Hnt Hno; [|by apply J7].
      unfold pod_key in Hno. congruence.
    + match goal with H : UpsertTombstone _ _ = _ |- _ =>
        pose proof (touches_UpsertTombstone _ _ _ _ H) as T end.
      tx_facts. match goal with H : None = _ |- _ => symmetry in H; rename H into Hold end.
      match goal with H : restore_tombstones _ _ _ _ _ = _ |- _ => apply IH in H as
        (J1 & J2 & J3 & J4 & J5 & J6 & J7) end.
      2:{ intros k [?|Hx%list_elem_of_singleton]%elem_of_app; [by apply Hk | by subst k]. }
      cbn in *. set (k0 := MkTombstoneKey (sb_ID row) old (sb_Incarnation row)) in *.
      apply orb_false_iff in Heqb as [Hb _]. reflect_tests.
      split_and!.
      * rewrite J1. by apply DB_ext.
      * by etrans.
      * intros k Hin. apply J3 in Hin as [Hin|?]; [|by right].
        apply elem_of_app in Hin as [?|Hx%list_elem_of_singleton]; [by left|].
        subst k. right. split_and!; done.
      * intros k Hs. apply J4 in Hs as [Hs|?]; [|by right].
        rewrite lookup_insert_is_Some' in Hs. destruct Hs as [<-|?]; [|by left].
        right. apply J6. set_solver.
      * intros k Hs. destruct (decide (k = k0)) as [->|Hne]; apply J5;
          rewrite lookup_insert_is_Some'; [by left; left|].
        destruct Hs as [?|[? ?]]; [by left; right | right; set_solver].
      * intros k Hin. apply J6. set_solver.
      * intros o [->|Ho]%elem_of_cons Hne' Hnt Hno; [apply J6; set_solver|].
        destruct (decide (pod_key row o = k0)) as [->|]; [apply J6; set_solver|].
        apply J7; try done. by rewrite lookup_insert_ne.
Qed.

(** The tombstone of a key, as far as its key goes. *)
Definition tomb_of (k : TombstoneKey) : Tombstone :=
  new_tombstone (tk_PodID k) (tk_Node k) (tk_Incarnation k) "" zeroTime.

Lemma Key_tomb_of (ks : list TombstoneKey) : Key <$> (tomb_of <$> ks) = ks.
Proof. induction ks as [|[] ks IH]; [done|]. cbn. by rewrite IH. Qed.

(** The writes of a begin after its admission, put together. *)
Lemma begin_wrote row after ks db d1 d2 w d3 evs db' :
  db_sandboxes db !! sb_ID row = Some row →
  touches (sb_ID row) db d1 → db_sandboxes d1 = db_sandboxes db →
  db_tombstones d1 = db_tombstones db →
  touches (sb_ID row) d1 d2 → db_sandboxes d2 = db_sandboxes d1 →
  (∀ k, is_Some (db_tombstones d2 !! k) ↔ is_Some (db_tombstones d1 !! k) ∨ k ∈ ks) →
  (∀ k, k ∈ ks → is_Some (db_nodes db !! tk_Node k)) →
  UpdateSandbox row after d2 = Ok (w, d3) → syncBooking row w false d3 = Ok (evs, db') →
  sb_ClientState after ≠ StateRunning →
  wrote row after (tomb_of <$> ks) db w db'.
Proof.
  intros Hrow T1 HS1 HT1 T2 HS2 HT2 Hns Hup Hsync Hst.
  assert (Hrow2 : db_sandboxes d2 !! sb_ID row = Some row) by by rewrite HS2, HS1.
  pose proof (touches_UpdateSandbox _ _ _ _ _ Hrow2 Hup) as T3.
  apply UpdateSandbox_ok in Hup as (Hid & Hw & Hg & Hn & Hl & Hd3); [|done].
  assert (Hwid : sb_ID w = sb_ID row) by (rewrite Hw; exact Hid).
  apply syncBooking_ok in Hsync as (T4 & Hb & HS4 & HT4). rewrite Hwid in T4.
  constructor.
  - etrans; [exact T1|]. etrans; [exact T2|]. by etrans.
  - rewrite HS4, Hd3. cbn. by rewrite lookup_insert_eq.
  - rewrite Hw. apply core_stamped.
  - done.
  - done.
  - intros E. rewrite Hw in E. by destruct Hst.
  - done.
  - intros k. rewrite HT4, Hd3, Key_tomb_of. cbn. by rewrite HT2, HT1.
  - intros t (k & -> & Hk)%list_elem_of_fmap. cbn. by apply Hns.
  - unfold node_known in Hn. rewrite (touches_nodes _ _ _ T2), (touches_nodes _ _ _ T1) in Hn. exact Hn.
  - unfold node_known in Hl. rewrite (touches_nodes _ _ _ T2), (touches_nodes _ _ _ T1) in Hl. exact Hl.
Qed.

(** The states an op begins from. *)
Definition begins_from (k : OpKind) (st : ClientState) : bool :=
  match k, st with
  | OpCreate, StatePending | OpStart, (StateStopped | StateFailed) | OpResume, StatePaused
  | OpRestore, StateHibernated | OpPause, StateRunning
  | OpHibernate, (StatePaused | StateStopped | StateFailed | StateRunning)
  | OpRepair, (StateCreating | StateRunning) => true
  | _, _ => false
  end.

Lemma drainHibernate_ok trigger target db b db' :
  drainHibernate trigger target db = Ok (b, db') → db' = db.
Proof. intros H. unfold drainHibernate in H. destruct trigger; tx_inv H; tx_facts; done. Qed.

Lemma precondition_ok row i target db db' :
  precondition row i target db = Ok (true, db') →
  db' = db ∧ begins_from (oi_Kind i) (sb_ClientState row) = true.
Proof.
  unfold precondition. intros H.
  destruct (oi_Kind i); tx_inv H; try (by destruct (sb_ClientState row)).
  - apply drainHibernate_ok in H as ->. by destruct (sb_ClientState row).
Qed.

Lemma recheck_ok e row i db u db' : recheck e row i db = Ok (u, db') → db' = db.
Proof.
  intros H. unfold recheck, recheckFailed in H. destruct (oi_Trigger i); tx_inv H; tx_facts; done.
Qed.

Lemma precheck_ok e row i target db u db' :
  precheck e row i target db = Ok (u, db') →
  db' = db ∧ begins_from (oi_Kind i) (sb_ClientState row) = true
  ∧ (pinned_op (oi_Kind i) = true → target = sb_Node row).
Proof.
  intros H. unfold precheck in H. apply bind_ok in H as (ok & d & Hp & H).
  destruct ok; cbn [negb] in H; [|tx_inv H]. apply precondition_ok in Hp as [-> Hfrom].
  destruct (pinned_op (oi_Kind i) && negb (String.eqb target (sb_Node row))) eqn:Hpin; [tx_inv H|].
  assert (Htgt : pinned_op (oi_Kind i) = true → target = sb_Node row).
  { intros E. rewrite E in Hpin. cbn in Hpin. by reflect_tests. }
  split; [|done].
  destruct (oi_Kind i); tx_inv H; tx_facts; try done; by eapply recheck_ok.
Qed.

Lemma admission_ok e row kind target db u db' :
  admission e row kind target db = Ok (u, db') →
  claim e row kind target db = Ok (tt, db) ∧ is_Some (db_nodes db !! target)
  ∧ db' = db <| db_bookings := <[sb_ID row := MkBooking (sb_ID row) target (sb_VCPUs row)
                                   (sb_MemoryMiB row) true (db_now db)]> (db_bookings db) |>.
Proof.
  intros H. unfold admission in H. apply bind_ok in H as ([] & d & Hc & H).
  pose proof (claim_ok _ _ _ _ _ _ _ Hc) as (-> & _). tx_facts. done.
Qed.

Lemma begun_row_ok e opID now row i target :
  let a := begun_row e opID now row i target in
  sb_ID a = sb_ID row ∧ sb_Incarnation a = sb_Incarnation row
  ∧ sb_CheckpointEpoch a = sb_CheckpointEpoch row
  ∧ sb_Op a = Some (oi_Kind i) ∧ sb_OpID a = opID ∧ sb_OpTarget a = target
  ∧ sb_OpFromState a = Some (sb_ClientState row)
  ∧ sb_ClientState a = transitional (oi_Kind i)
  ∧ sb_Node a = (if pinned_op (oi_Kind i) then sb_Node row else target).
Proof.
  cbv zeta. unfold begun_row.
  destruct (pinned_op (oi_Kind i)); cbn [negb]; repeat case_match; split_and!; done.
Qed.

Lemma transitional_not_running k : transitional k ≠ StateRunning.
Proof. by destruct k. Qed.

(** A begin's op is the row's, and its handle fits it. *)
Lemma begun_fits db w h opID k :
  db_ok db → db_sandboxes db !! sb_ID w = Some w → opID ≠ uuidNil →
  h_id h = sb_ID w → h_opID h = opID → sb_Op w = Some k → h_kind h = k →
  h_target h = sb_OpTarget w →
  (h_takeover h = false → h_preempted h = uuidNil →
   ∃ st, h_read_state h = Some st ∧ placed st (h_read_node h) (h_read_materialised h)
         ∧ (h_read_node h = ""%string ∨ h_read_node h = h_target h
            ∨ MkTombstoneKey (h_id h) (h_read_node h) (h_inc h) ∈ h_tombstones h)) →
  handle_fits db h.
Proof.
  intros Hok Hw Hnil Hid Hop Hk Hkind Ht Hread. destruct (ok_rows _ Hok _ _ Hw) as [_ Hr _ _ _ Hn _].
  destruct (row_op _ _ Hr Hk) as [_ _ _ Htn Hne _].
  split_and!; [congruence | |].
  { rewrite Ht, Htn. unfold node_known in Hn. apply orb_true_iff in Hn as [Hn|Hn]; by reflect_tests. }
  intros row Hrow _. rewrite Hid, Hw in Hrow. injection Hrow as <-.
  constructor; [congruence | done | done].
Qed.

Lemma begin_admitted e row k target db x d1 :
  (if admits k then admission e row k target else mret tt) db = Ok (x, d1) →
  touches (sb_ID row) db d1 ∧ db_sandboxes d1 = db_sandboxes db
  ∧ db_tombstones d1 = db_tombstones db
  ∧ (pinned_op k = false → is_Some (db_nodes db !! target)
     ∧ ∀ key, tk_PodID key = sb_ID row → tk_Node key = target → db_tombstones db !! key = None).
Proof.
  intros H. destruct (admits k) eqn:Ha; [|tx_inv H; by destruct k].
  apply admission_ok in H as (Hc & Hn & ->).
  split_and!; [solve_touches | done | done |]. intros Hk. split; [done|].
  intros key. eapply claim_no_tombstone; [exact Hc|]. destruct k; auto; done.
Qed.

Lemma begin_tombstones row k target db tombs d2 :
  (if bool_decide (k = OpRestore)
   then restore_tombstones row target [sb_Node row; sb_LostFrom row] []
   else mret []) db = Ok (tombs, d2) →
  touches (sb_ID row) db d2 ∧ db_sandboxes d2 = db_sandboxes db
  ∧ (∀ k, is_Some (db_tombstones d2 !! k) ↔ is_Some (db_tombstones db !! k) ∨ k ∈ tombs)
  ∧ (∀ k, k ∈ tombs → tk_Node k ≠ target ∧ is_Some (db_nodes db !! tk_Node k))
  ∧ (k = OpRestore → sb_Node row ≠ ""%string → sb_Node row ≠ target →
     db_tombstones db !! own_key row = None → own_key row ∈ tombs).
Proof.
  intros H. case_bool_decide as Hk; [|tx_inv H; split_and!; set_solver].
  apply restore_tombstones_ok in H as (Hdb & T & Hks & Hold & Hnew & _ & Hall); [|set_solver].
  split_and!; [done | by rewrite Hdb | | |].
  - intros key. split; [apply Hold|]. intros [?|Hin]; apply Hnew; [by left|].
    right. split; [done|]. apply not_elem_of_nil.
  - intros key Hin. apply Hks in Hin as [Hin|(_ & ? & ?)]; [by apply elem_of_nil in Hin | done].
  - intros _ Hne Hnt Hno. apply Hall; [set_solver | done..].
Qed.

Lemma begins_from_ok k st :
  begins_from k st = true →
  settled st = true ∧ (pinned_op k = true → homeless st = false)
  ∧ (k = OpCreate → st = StatePending) ∧ (pinned_op k = false → k = OpCreate ∨ k = OpRestore).
Proof. destruct k, st; naive_solver. Qed.

Lemma begin_fresh_ok e opID row i target db h evs db' :
  db_ok db → opID ≠ uuidNil → db_sandboxes db !! sb_ID row = Some row → sb_Op row = None →
  begin_fresh e opID row i target db = Ok ((h, evs), db') →
  good {[opID]} db db' ∧ h_id h = sb_ID row ∧ h_opID h = opID ∧ handle_fits db' h.
Proof.
  intros Hok Hnil Hrow Hop H. unfold begin_fresh in H.
  destruct (ok_rows _ Hok _ _ Hrow) as [_ Hr _ _ Hno _ _]. destruct (row_no_op _ Hr Hop) as [Hi Hp].
  apply bind_ok in H as (? & d0 & Hpre & H). apply precheck_ok in Hpre as (-> & Hfrom & Hpin).
  apply bind_ok in H as (noAb & d0 & Hna & H).
  assert (d0 = db) as ->.
  { tx_inv Hna; [|done]. unfold noAbandon in Hna. tx_inv Hna; [done|]. by eapply drainHibernate_ok. }
  apply bind_ok in H as (? & d1 & Had & H). apply bind_ok in H as (now & d1' & Hnow & H).
  apply gets_ok in Hnow. injection Hnow as -> ->. cbv zeta in H.
  apply bind_ok in H as (tombs & d2 & Htomb & H). apply bind_ok in H as (w & d3 & Hup & H).
  apply bind_ok in H as (evs' & d4 & Hsync & H). tx_inv H.
  set (after := begun_row e opID (db_now d1) row i target) in *.
  destruct (begun_row_ok e opID (db_now d1) row i target) as
    (A1 & A2 & A3 & A4 & A5 & A6 & A7 & A8 & A9). fold after in A1, A2, A3, A4, A5, A6, A7, A8, A9.
  destruct (begin_admitted _ _ _ _ _ _ _ Had) as (T1 & HS1 & HT1 & Hcl).
  destruct (begin_tombstones _ _ _ _ _ _ Htomb) as (T2 & HS2 & HT2 & Hks & Hown).
  rewrite (touches_nodes _ _ _ T1) in Hks. rewrite HT1 in Hown.
  destruct (begins_from_ok _ _ Hfrom) as (Hset & Hhome & Hcreate & Hkinds).
  assert (Hw : wrote row after (tomb_of <$> tombs) db w d4).
  { eapply begin_wrote; try done; [intros k Hin; by apply Hks|].
    rewrite A8. apply transitional_not_running. }
  clearbody after.
  assert (target ≠ ""%string ∧ sb_Node after = target ∧ db_tombstones db !! own_key after = None)
    as (Hne & Hna' & Hnk).
  { unfold own_key. rewrite A1, A2, A9. destruct (pinned_op (oi_Kind i)) eqn:Epin.
    - rewrite (Hpin eq_refl) in *. split_and!; [by apply Hp, Hhome | done | done].
    - destruct (Hcl eq_refl) as [[n Hn] Hnk]. split_and!; [|done | by apply Hnk].
      intros ->. by rewrite (ok_nodes _ Hok) in Hn. }
  pose proof (wrote_core _ _ _ _ _ _ Hw) as Hcore.
  injection Hcore as E1 E2 E3 E4 E5 E6 E7 E8 E9 E10 E11 E12 E13.
  assert (Hg : good {[opID]} db d4).
  { eapply wrote_good; [done | done | exact Hw | | done | | |].
    - split; [destruct Hr; congruence|]. right. exists (oi_Kind i).
      constructor; try congruence. exists (sb_ClientState row). done.
    - apply Forall_fmap, Forall_forall. intros k Hin [= _ Ek _]. destruct (Hks k Hin). congruence.
    - constructor; cbn; congruence || lia.
    - right. left. rewrite A5. set_solver. }
  split_and!; [done | cbn; congruence | cbn; congruence |].
  - eapply (begun_fits _ w _ opID); [apply Hg | | done | done | cbn; congruence | by rewrite E7 | done | cbn; congruence |].
    { rewrite E1, A1. apply (wrote_row _ _ _ _ _ _ Hw). }
    intros _ _. cbn. exists (sb_ClientState row). split_and!; [done | done|].
    destruct (decide (sb_Node row = ""%string)) as [|Hn]; [by left|].
    destruct (decide (sb_Node row = target)) as [|Hnt]; [by right; left|].
    right. right. rewrite E1, E2, A1, A2. apply Hown; try done.
    destruct (pinned_op (oi_Kind i)) eqn:Epin; [by rewrite Hpin in Hnt|].
    destruct (Hkinds eq_refl) as [Hk|Hk]; [|done]. by apply Hcreate, Hp in Hk as [? _].
Qed.

Lemma takeover_ok e runs opID row trigger db h evs db' :
  db_ok db → opID ≠ uuidNil → db_sandboxes db !! sb_ID row = Some row →
  takeover e runs opID row trigger db = Ok ((h, evs), db') →
  good {[opID]} db db' ∧ h_id h = sb_ID row ∧ h_opID h = opID ∧ handle_fits db' h.
Proof.
  intros Hok Hnil Hrow H. unfold takeover in H. destruct (sb_Op row) as [k|] eqn:Hop; [|tx_inv H].
  apply bind_ok in H as (busy & d0 & Hb & H).
  assert (d0 = db) as -> by (tx_inv Hb; tx_facts; done). destruct busy; [tx_inv H|].
  apply bind_ok in H as (now & d0 & Hnow & H). tx_facts.
  apply bind_ok in H as (noAb & d0 & Hna & H).
  assert (d0 = db) as -> by (tx_inv Hna; tx_facts; done). cbv zeta in H.
  apply bind_ok in H as (w & d1 & Hup & H). tx_inv H.
  destruct (ok_rows _ Hok _ _ Hrow) as [_ Hr _ _ _ _ _].
  pose proof (row_op _ _ Hr Hop) as [F1 F2 F3 F4 F5 F6].
  match type of Hup with UpdateSandbox _ ?a _ = _ => set (after := a) in * end.
  destruct (update_good {[opID]} row after db w d1) as (Hg & Hw & Hc); try done.
  { split; [apply Hr|]. right. by exists k. }
  { right. left. cbn. set_solver. }
  injection Hc as E1 E2 E3 E4 E5 E6 E7 E8 E9 E10 E11 E12 E13.
  split_and!; [done | done | done |].
  eapply (begun_fits _ w _ opID); [apply Hg | by rewrite E1 | done | done | done | by rewrite E7
    | done | cbn; by rewrite E11 | done].
Qed.

Lemma preempt_ok e opID row i target db h evs db' :
  db_ok db → opID ≠ uuidNil → db_sandboxes db !! sb_ID row = Some row →
  preemptHibernate e opID row i target db = Ok ((h, evs), db') →
  good {[opID]} db db' ∧ h_id h = sb_ID row ∧ h_opID h = opID ∧ handle_fits db' h.
Proof.
  intros Hok Hnil Hrow H. unfold preemptHibernate, preemptEnded in H. destruct (_ || _) eqn:Hb; [tx_inv H|].
  reflect_tests. destruct (ok_rows _ Hok _ _ Hrow) as [_ Hr _ _ Hno _ _].
  match goal with H : sb_Op row = _ |- _ => pose proof (row_op _ _ Hr H) as [F1 F2 F3 F4 F5 F6] end.
  apply bind_ok in H as (? & d1 & Had & H). apply bind_ok in H as (now & d1' & Hnow & H).
  apply gets_ok in Hnow. injection Hnow as -> ->. cbv zeta in H.
  apply bind_ok in H as (w & d3 & Hup & H). apply bind_ok in H as (evs' & d4 & Hsync & H). tx_inv H.
  match type of Hup with UpdateSandbox _ ?a _ = _ => set (after := a) in * end.
  apply admission_ok in Had as (_ & _ & Hd1).
  assert (Hw : wrote row after (tomb_of <$> []) db w d4).
  { eapply (begin_wrote row after [] db d1 d1); try done; try (by rewrite Hd1); try set_solver.
    rewrite Hd1. solve_touches. }
  pose proof (wrote_core _ _ _ _ _ _ Hw) as Hcore.
  injection Hcore as E1 E2 E3 E4 E5 E6 E7 E8 E9 E10 E11 E12 E13.
  assert (Hg : good {[opID]} db d4).
  { eapply wrote_good; [done | done | exact Hw | | done | by constructor | by constructor |].
    - split; [apply Hr|]. right. exists OpResume. constructor; try done. by exists StatePaused.
    - right. left. cbn. set_solver. }
  split_and!; [done | done | done |].
  - eapply (begun_fits _ w _ opID); [apply Hg | | done | done | done | by rewrite E7 | done | cbn; by rewrite E11 |].
    + rewrite E1. apply (wrote_row _ _ _ _ _ _ Hw).
    + cbn. intros _ E. congruence.
Qed.

Lemma beginOn_ok e runs opID id i target db h evs db' :
  db_ok db → opID ≠ uuidNil → beginOn e runs opID id i target db = Ok ((h, evs), db') →
  good {[opID]} db db' ∧ h_id h = id ∧ h_opID h = opID ∧ handle_fits db' h.
Proof.
  intros Hok Hnil H. unfold beginOn in H. apply bind_ok in H as (row & d & Hl & H). tx_facts.
  match goal with H : db_sandboxes _ !! _ = Some _ |- _ => rename H into Hrow end.
  pose proof (inv_id _ _ _ (ok_rows _ Hok _ _ Hrow)) as Hid. subst id.
  destruct (_ && _) in H; [tx_inv H|].
  destruct (sb_Op row) eqn:Hop; tx_inv H; unfold preemptEnded in *.
  - by eapply preempt_ok.
  - by eapply takeover_ok.
  - tx_inv H.
  - by eapply begin_fresh_ok.
Qed.

Lemma begin_candidates_ok e runs ctxErr opID id i cs refused db h evs db' :
  db_ok db → opID ≠ uuidNil →
  begin_candidates e runs ctxErr opID id i cs refused db = (Ok (h, evs), db') →
  good {[opID]} db db' ∧ h_id h = id ∧ h_opID h = opID ∧ handle_fits db' h.
Proof.
  intros Hok Hnil. revert i refused. induction cs as [|c cs IH]; intros i refused H; cbn in H; [done|].
  destruct (ctxErr c); [done|].
  destruct (InTx (beginOn e runs opID id i c) db) as [r d] eqn:Hin.
  destruct r as [[h' evs']|err].
  - simplify_eq. unfold InTx in Hin.
    destruct (beginOn e runs opID id i c db) as [[[? ?] ?]|] eqn:Hb; simplify_eq.
    by eapply beginOn_ok.
  - apply InTx_err in Hin as ->. destruct err; try done. by eapply IH.
Qed.

(** A begin that commits: its op is fresh, and its handle fits the row. *)
Lemma begin_ok e runs ctxErr opID id i db h evs db' :
  db_ok db → opID ≠ uuidNil → begin e runs ctxErr opID id i db = (Ok (h, evs), db') →
  good {[opID]} db db' ∧ h_id h = id ∧ h_opID h = opID ∧ handle_fits db' h.
Proof.
  intros Hok Hnil H. unfold begin in H.
  destruct (String.eqb (pinnedTarget i) ""); [by eapply begin_candidates_ok|].
  destruct (String.eqb (oi_Target i) ""); [done|].
  destruct (InTx _ db) as [r d] eqn:Hin. unfold InTx in Hin.
  destruct (beginOn e runs opID id i (oi_Target i) db) as [[[? ?] ?]|[]] eqn:Hb; simplify_eq.
  by eapply beginOn_ok.
Qed.

(** A begin that fails leaves the registry as it was. *)
Lemma begin_candidates_err e runs ctxErr opID id i cs refused db err db' :
  begin_candidates e runs ctxErr opID id i cs refused db = (Err err, db') → db' = db.
Proof.
  revert i refused. induction cs as [|c cs IH]; intros i refused H; cbn in H; [by simplify_eq|].
  destruct (ctxErr c); [by simplify_eq|].
  destruct (InTx (beginOn e runs opID id i c) db) as [[?|err'] d] eqn:Hin; [by simplify_eq|].
  apply InTx_err in Hin as ->. destruct err'; simplify_eq; try done. by eapply IH.
Qed.

Lemma begin_err e runs ctxErr opID id i db err db' :
  begin e runs ctxErr opID id i db = (Err err, db') → db' = db.
Proof.
  intros H. unfold begin in H.
  destruct (String.eqb (pinnedTarget i) ""); [by eapply begin_candidates_err|].
  destruct (String.eqb (oi_Target i) ""); [by simplify_eq|].
  destruct (InTx _ db) as [[?|err'] d] eqn:Hin; [by simplify_eq|].
  apply InTx_err in Hin as ->. by destruct err'; simplify_eq.
Qed.

(** ** New rows and single-column writes *)

Lemma CreateSandbox_good n inc db r db' :
  db_ok db → inc ≠ uuidNil → CreateSandbox n inc db = Ok (r, db') → good ∅ db db'.
Proof.
  intros Hok Hnil H. unfold CreateSandbox in H.
  destruct (db_sandboxes db !! ns_ID n) eqn:Hnew; tx_inv H; [by apply good_refl|].
  match goal with |- good _ _ ?d => assert (T : touches (ns_ID n) db d) by solve_touches end.
  eapply good_touches; [|exact T|]; [eapply db_ok_touches; [done | exact T | | |]|]; cbn;
    rewrite ?lookup_insert_eq.
  - intros s [= <-]. constructor; cbn; try done.
    + split; [done|]. left. by split.
    + unfold booking_follows. cbn. apply eq_None_not_Some. intros Hb.
      apply (ok_bookings _ Hok) in Hb. rewrite Hnew in Hb. by destruct Hb.
    + by apply no_tombstone_nowhere.
  - intros _. eauto.
  - intros k _. apply (ok_tombstones _ Hok).
  - intros s' [= <-]. rewrite Hnew. split; [done|]. by left.
Qed.

(** A write of columns that the lifecycle does not read. *)
Definition keeps_lifecycle (s s' : Sandbox) : Prop :=
  lifecycle s' = lifecycle s ∧ sb_RunID s' = sb_RunID s ∧ sb_Gen s' = sb_Gen s
  ∧ sb_CheckpointEpoch s' = sb_CheckpointEpoch s.

Lemma put_row_good id s s' db db' :
  db_ok db → db_sandboxes db !! id = Some s → keeps_lifecycle s s' →
  db' = put_sandbox s' db <| db_notes := db_notes db' |> → good ∅ db db'.
Proof.
  intros Hok Hs (Hl & Hrun & Hg & Hep) Hdb. destruct (ok_rows _ Hok _ _ Hs) as [Hid Hr Hrn Hb Hno Hn0 Hl0].
  pose proof Hl as Hl'. injection Hl' as E1 E2 E3 E4 E5 E6 E7 E8 E9 E10 E11 E12.
  assert (Hrow : db_sandboxes db' !! id = Some s').
  { rewrite Hdb. cbn. by rewrite E1, Hid, lookup_insert_eq. }
  assert (T : touches id db db').
  { rewrite Hdb. constructor; cbn; try done. intros j Hj. rewrite lookup_insert_ne; [done|]. congruence. }
  eapply good_touches; [|exact T|]; [eapply db_ok_touches; [done | exact T | | |]|].
  - intros t Ht. rewrite Hrow in Ht. injection Ht as <-. constructor.
    + congruence.
    + by eapply row_ok_lifecycle.
    + by rewrite E3, Hrun.
    + unfold booking_follows. rewrite E1, E3, E4, Hdb. exact Hb.
    + unfold own_key. rewrite E1, E2, E4, Hdb. exact Hno.
    + rewrite Hdb, E4. exact Hn0.
    + rewrite Hdb, E6. exact Hl0.
  - eauto.
  - intros k _. rewrite Hdb. apply (ok_tombstones _ Hok).
  - intros t Ht. rewrite Hrow in Ht. injection Ht as <-. rewrite Hs. split.
    + intros ? [= <-]. constructor; [done | done | lia | lia].
    + right. right. exists s. split; [done|]. unfold op_of. congruence.
Qed.

Lemma update_row_good id p f db b db' :
  (∀ now s, keeps_lifecycle s (f now s)) → db_ok db → update_row id p f db = Ok (b, db') →
  good ∅ db db'.
Proof.
  intros Hf Hok H. unfold update_row in H.
  destruct (db_sandboxes db !! id) as [s|] eqn:Hs; tx_inv H; try by apply good_refl.
  eapply put_row_good; [done | done | apply Hf | by apply DB_ext].
Qed.

Lemma SetSandboxAddress_good id inc address db b db' :
  db_ok db → SetSandboxAddress id inc address db = Ok (b, db') → good ∅ db db'.
Proof.
  intros Hok H. unfold SetSandboxAddress in H.
  destruct (db_sandboxes db !! id) as [s|] eqn:Hs; tx_inv H; try by apply good_refl.
  all: eapply (put_row_good id s (s <| sb_Address := address |>)); [done | done | done | by apply DB_ext].
Qed.

(** ** The sweeps *)

Lemma update_rows_lookup ids f rows id :
  NoDup ids →
  update_rows ids f rows !! id = (if decide (id ∈ ids) then f <$> rows !! id else rows !! id).
Proof.
  intros Hnd. revert rows. induction Hnd as [|j ids Hj Hnd IH]; intros rows; cbn [update_rows].
  - by case_decide as H; [apply elem_of_nil in H|].
  - rewrite IH. destruct (decide (id = j)) as [->|Hne].
    + rewrite decide_False by done. rewrite decide_True by set_solver. by rewrite lookup_alter_eq.
    + rewrite lookup_alter_ne by done. repeat case_decide; set_solver.
Qed.

Lemma pick_rows_ok p limit locked rows :
  NoDup (pick_rows p limit locked rows)
  ∧ ∀ id, id ∈ pick_rows p limit locked rows → ∃ s, rows !! id = Some s ∧ p s = true.
Proof.
  unfold pick_rows.
  set (l := filter (λ id, id ∉ locked) (map_to_list (filter (λ kv, p kv.2 = true) rows)).*1).
  assert (Hnd : NoDup (merge_sort String.le l)).
  { rewrite merge_sort_Permutation. apply NoDup_filter, NoDup_fst_map_to_list. }
  split.
  { rewrite <- (take_drop limit (merge_sort String.le l)) in Hnd. by apply NoDup_app in Hnd as [? _]. }
  intros id Hin. assert (Hl : id ∈ l).
  { rewrite <- (merge_sort_Permutation String.le l).
    rewrite <- (take_drop limit (merge_sort String.le l)). apply elem_of_app. by left. }
  apply list_elem_of_filter in Hl as [_ Hl]. apply list_elem_of_fmap in Hl as ([j s] & -> & Hl).
  apply elem_of_map_to_list, map_lookup_filter_Some in Hl as [? ?]. eauto.
Qed.

Lemma notifySandboxes_ok ids db u db' :
  notifySandboxes ids db = Ok (u, db') → db' = db <| db_notes := db_notes db' |>.
Proof.
  assert (Heach : ∀ ids db u db', notify_each ids db = Ok (u, db') →
                                  db' = db <| db_notes := db_notes db' |>).
  { clear. induction ids as [|id ids IH]; intros db u db' H; cbn in H; tx_inv H; [by apply DB_ext|].
    unfold Notify in H0. tx_inv H0. apply IH in H1. rewrite H1. by apply DB_ext. }
  unfold notifySandboxes. intros H. tx_inv H; [by apply DB_ext | | by eapply Heach].
  unfold Notify in H. tx_inv H. by apply DB_ext.
Qed.

(** A sweep that rewrites the rows of [ids] and may drop their bookings. *)
Lemma sweep_good ids f db db' :
  db_ok db → NoDup ids → db_sandboxes db' = update_rows ids f (db_sandboxes db) →
  db_nodes db' = db_nodes db → db_tombstones db' = db_tombstones db →
  (∀ j, j ∉ ids → db_bookings db' !! j = db_bookings db !! j) →
  (∀ j, is_Some (db_bookings db' !! j) → is_Some (db_bookings db !! j)) →
  (∀ id s, id ∈ ids → db_sandboxes db !! id = Some s →
     row_inv db' id (f s) ∧ row_le s (f s) ∧ sb_OpID (f s) = uuidNil) →
  good ∅ db db'.
Proof.
  intros Hok Hnd Hs Hn Ht Hb Hbs Hf.
  assert (Hrow : ∀ id s', db_sandboxes db' !! id = Some s' →
    (id ∈ ids ∧ ∃ s, db_sandboxes db !! id = Some s ∧ s' = f s)
    ∨ (id ∉ ids ∧ db_sandboxes db !! id = Some s')).
  { intros id s'. rewrite Hs, update_rows_lookup by done. case_decide; [|by right].
    rewrite fmap_Some. naive_solver. }
  constructor; [constructor| | | by unfold nodes_kept; rewrite Hn].
  - rewrite Hn. apply (ok_nodes _ Hok).
  - rewrite Ht. apply (ok_tombstones _ Hok).
  - intros j Hj. apply Hbs, (ok_bookings _ Hok) in Hj as [s Hj].
    rewrite Hs, update_rows_lookup, Hj by done. case_decide; cbn; eauto.
  - intros id s' Hs'. apply Hrow in Hs' as [(Hin & s & Hs0 & ->)|[Hin Hs0]]; [by apply Hf|].
    eapply row_inv_frame; [by apply (ok_rows _ Hok) | by apply Hb | by rewrite Ht | by unfold nodes_kept; rewrite Hn].
  - intros id s s' Hs0 Hs'. apply Hrow in Hs' as [(Hin & t & Ht0 & ->)|[Hin Ht0]].
    + assert (t = s) as -> by congruence. by apply (Hf id).
    + assert (s' = s) as -> by congruence. reflexivity.
  - intros id s' Hs'. apply Hrow in Hs' as [(Hin & t & Ht0 & ->)|[Hin Ht0]].
    + left. by apply (Hf id).
    + right. right. eauto.
Qed.

(** ** A finish always commits *)

Lemma UpsertTombstone_total t db :
  is_Some (db_nodes db !! tb_Node t) → ∃ r db', UpsertTombstone t db = Ok (r, db').
Proof. intros H. unfold UpsertTombstone. rewrite bool_decide_true by done. cbn. eauto. Qed.

Lemma fencedOut_total e h res obs db :
  db_ok db → handle_fits db h →
  ∃ r db', fencedOut e h (db_sandboxes db !! h_id h) res obs db = Ok (r, db').
Proof.
  intros Hok (_ & Ht & _). unfold fencedOut. cbv zeta.
  destruct (_ && _).
  { unfold mbind, tx_bind. destruct (UpsertTombstone_total
      (new_tombstone (h_id h) (h_target h) (h_inc h) ("fenced-out " +:+ op_string (h_kind h)) zeroTime) db)
      as (r & d & ->); [done|]. eauto. }
  destruct (db_sandboxes db !! h_id h) as [row|] eqn:Hrow; [|eauto].
  destruct (negb _); [eauto|]. set (cps := cr_checkpoint res :: _).
  destruct (_ && _); [|eauto]. unfold mbind, tx_bind, newChange, Now, mbind, tx_bind, gets, mret, tx_ret.
  destruct (merge_all_ok (db_nodes db) (h_target h) cps
    (MkChange (db_now db) row row false "" "" [] [])) as ([_ _ S1 S2 S3 _] & Hl & _).
  set (c := foldl _ _ cps) in *. clearbody c. cbn in S1, S2, S3, Hl.
  injection Hl as E1 E2 E3 E4 E5 E6 E7 E8 E9 E10 E11 E12.
  destruct (ok_rows _ Hok _ _ Hrow) as [Hid _ _ _ _ Hn Hlf].
  destruct (UpdateSandbox_total row (ch_after c) db) as (w & d & ->);
    [by rewrite Hid | done | by apply sandboxFixed_same_of | by rewrite E4 | by rewrite E6 |]. eauto.
Qed.

Lemma finishOnce_total e u elapsed h res obs db :
  db_ok db → handle_fits db h → ∃ r db', finishOnce e u elapsed h res obs db = Ok (r, db').
Proof.
  intros Hok Hfit. unfold finishOnce. unfold mbind at 1, tx_bind at 1, catch_missing, LockSandbox.
  assert (Hfen : ∃ r db', finish_fenced e h (db_sandboxes db !! h_id h) res obs db = Ok (r, db')).
  { destruct (fencedOut_total e h res obs db Hok Hfit) as ([[r ac] evs] & d & Hf).
    unfold finish_fenced, mbind, tx_bind. rewrite Hf. eauto. }
  destruct (db_sandboxes db !! h_id h) as [row|] eqn:Hrow; [|done].
  destruct (owns h row) eqn:Ho; [|done]. clear Hfen.
  destruct (owned_row _ _ _ Hok Hfit Hrow Ho) as (Hid & Hinc & _ & _ & Hn & Hne).
  destruct (ok_rows _ Hok _ _ Hrow) as [_ _ _ _ _ Hkn Hkl].
  unfold mbind, tx_bind, newChange, Now, mbind, tx_bind, gets, mret, tx_ret.
  destruct (applyOutcome_ok e (db_nodes db) elapsed h res obs row (db_now db) Hn Hne)
    as [[_ S1 S2 _ S3 _] _ _ Hnode _ Hts Hlost].
  set (c := applyOutcome _ _ _ _ _ _ _) in *. clearbody c. cbn in S1, S2, S3, Hnode, Hts, Hlost.
  destruct (commit_total e u c db) as (w & evs & d & ->).
  - rewrite S1, Hid. done.
  - by rewrite S1, S2.
  - by rewrite S1, S3.
  - eapply Forall_impl; [exact Hts|]. intros t (_ & _ & E). rewrite E. cbn.
    destruct Hfit as (_ & ? & _). by rewrite Hn.
  - destruct Hnode as [->| ->]; done.
  - destruct Hlost as [->| ->]; done.
  - eauto.
Qed.

(** ** What an admission books *)

Lemma book_booked s db b evs db' :
  bookingOf (sb_ClientState s) = bookMust → db_bookings db !! sb_ID s = Some b →
  bk_Node b = sb_Node s → book s db = Ok (evs, db') → db' = db.
Proof.
  intros Hm Hb Hn H. unfold book in H. rewrite Hm in H. tx_inv H; tx_facts; try done.
  exfalso. rewrite Hb, Hn, String.eqb_refl in Heqb1. done.
Qed.

Lemma begin_fresh_books e opID row i target db h evs db' :
  db_sandboxes db !! sb_ID row = Some row → admits (oi_Kind i) = true →
  begin_fresh e opID row i target db = Ok ((h, evs), db') →
  claim e row (oi_Kind i) target db = Ok (tt, db)
  ∧ db_bookings db' = <[sb_ID row := MkBooking (sb_ID row) target (sb_VCPUs row)
                          (sb_MemoryMiB row) true (db_now db)]> (db_bookings db).
Proof.
  intros Hrow Had H. unfold begin_fresh in H. rewrite Had in H.
  apply bind_ok in H as (? & d0 & Hpre & H). apply precheck_ok in Hpre as (-> & _ & Hpin).
  apply bind_ok in H as (noAb & d0 & Hna & H). rewrite bool_decide_false in Hna by (by intros E; rewrite E in Had).
  tx_inv Hna. apply bind_ok in H as (? & d1 & Hadm & H).
  apply bind_ok in H as (now & d1' & Hnow & H). apply gets_ok in Hnow. injection Hnow as -> ->.
  cbv zeta in H. apply bind_ok in H as (tombs & d2 & Htomb & H).
  apply bind_ok in H as (w & d3 & Hup & H). apply bind_ok in H as (evs' & d4 & Hsync & H). tx_inv H.
  apply admission_ok in Hadm as (Hcl & _ & Hd1). split; [done|].
  assert (Hd2 : d2 = d1 <| db_tombstones := db_tombstones d2 |>).
  { case_bool_decide; [|tx_inv Htomb; by apply DB_ext].
    apply restore_tombstones_ok in Htomb as (? & _); [done | set_solver]. }
  destruct (begun_row_ok e opID (db_now d1) row i target) as (A1 & _ & _ & _ & _ & _ & _ & A8 & A9).
  apply UpdateSandbox_ok in Hup as (_ & Hw & _ & _ & _ & Hd3); [|by rewrite Hd2, Hd1].
  assert (Hst : sb_ClientState w = transitional (oi_Kind i)) by (rewrite Hw; exact A8).
  assert (Hid : sb_ID w = sb_ID row) by (rewrite Hw; exact A1).
  assert (Hn : sb_Node w = target).
  { rewrite Hw. cbn. rewrite A9. destruct (pinned_op (oi_Kind i)) eqn:Hp; [|done]. by rewrite Hpin. }
  assert (Hb3 : db_bookings d3 = db_bookings d1) by by rewrite Hd3, Hd2.
  assert (d4 = d3) as ->; [|by rewrite Hb3, Hd1].
  unfold syncBooking in Hsync. apply bind_ok in Hsync as (evs2 & d5 & Hbk & Hsync).
  eapply book_booked in Hbk as ->; [| | rewrite Hb3, Hd1, Hid; apply lookup_insert_eq | done].
  - tx_inv Hsync; [|done]. rewrite Hst in *. by destruct (oi_Kind i).
  - rewrite Hst. by destruct (oi_Kind i).
Qed.
