(* ===== verification/Engine.v ===== *)
(** * The engine: every reachable registry is in order

    The transactions of all instances interleave in any order: begins,
    finishes and rollbacks of the ops in flight, syncs, reconciles,
    deletions, the leader's sweeps, the small writes of single columns, and
    whatever else moves the clock, the nodes, the instances and the holds.
    [step] is that relation on the registry and the handles of the ops in
    flight; the invariant of [Lifecycle] holds in every reachable state. *)

From S2P Require Import Prelude PodId Rows Store Placement Change Ops Lifecycle Transactions.

(** ** The sweeps of the leader *)

Lemma placed_unknown node m : node ≠ ""%string → placed StateUnknown node m.
Proof. by constructor. Qed.

Lemma ReleaseOpsOf_good instanceID db r db' :
  db_ok db → ReleaseOpsOf instanceID db = Ok (r, db') → good ∅ db db'.
Proof.
  intros Hok H. unfold ReleaseOpsOf in H. cbv zeta in H. tx_inv H.
  match goal with H : notifySandboxes _ _ = _ |- _ => apply notifySandboxes_ok in H as Hdb end.
  destruct (pick_rows_ok (owned_op instanceID) (size (db_sandboxes db)) ∅ (db_sandboxes db))
    as [Hnd Hids].
  eapply sweep_good; [done | exact Hnd | by rewrite Hdb | by rewrite Hdb | by rewrite Hdb
    | by rewrite Hdb | rewrite Hdb; by intros ? |].
  intros id s Hin Hs. apply Hids in Hin as (s' & Hs' & Hp). assert (s' = s) as -> by congruence.
  unfold owned_op in Hp. reflect_tests. match goal with H : is_Some _ |- _ => destruct H as [k Hk] end.
  destruct (ok_rows _ Hok _ _ Hs) as [Hid Hr Hrn Hb Hno Hn0 Hl0]. pose proof (row_op _ _ Hr Hk) as [].
  split_and!; [|by constructor; cbn; try done; lia | done].
  constructor; try done.
  - split; [apply Hr|]. left. split; [by constructor|]. by apply placed_unknown.
  - unfold own_key. cbn. rewrite Hdb. exact Hno.
  - rewrite Hdb. exact Hn0.
  - rewrite Hdb. exact Hl0.
Qed.

Lemma DownSweep_good limit locked db r db' :
  db_ok db → DownSweep limit locked db = Ok (r, db') → good ∅ db db'.
Proof.
  intros Hok H. unfold DownSweep in H. cbv zeta in H. tx_inv H.
  match goal with H : notifySandboxes _ _ = _ |- _ => apply notifySandboxes_ok in H as Hdb end.
  destruct (pick_rows_ok (down_sweep_due db) limit locked (db_sandboxes db)) as [Hnd Hids].
  eapply sweep_good; [done | exact Hnd | by rewrite Hdb | by rewrite Hdb | by rewrite Hdb
    | by rewrite Hdb | rewrite Hdb; by intros ? |].
  intros id s Hin Hs. apply Hids in Hin as (s' & Hs' & Hp). assert (s' = s) as -> by congruence.
  unfold down_sweep_due, node_out in Hp. reflect_tests.
  destruct (ok_rows _ Hok _ _ Hs) as [Hid Hr Hrn Hb Hno Hn0 Hl0].
  destruct (row_no_op _ Hr) as [[] Hpl]; [done|].
  unfold down_row. destruct (db_nodes db !! sb_Node s) as [n|] eqn:Hn; [|done].
  split_and!; [|by constructor; cbn; try done; lia | done].
  constructor; try done.
  - split; [apply Hr|]. left. split; [by constructor|]. apply placed_unknown. cbn.
    intros E. by rewrite E, (ok_nodes _ Hok) in Hn.
  - unfold own_key. cbn. rewrite Hdb. exact Hno.
  - rewrite Hdb. exact Hn0.
  - rewrite Hdb. exact Hl0.
Qed.

Lemma LostGrace_good grace limit locked db r db' :
  db_ok db → LostGrace grace limit locked db = Ok (r, db') → good ∅ db db'.
Proof.
  intros Hok H. unfold LostGrace in H. cbv zeta in H.
  set (ids := pick_rows (lost_due db grace) limit locked (db_sandboxes db)) in *.
  apply bind_ok in H as (? & d1 & Hn & H). tx_inv H.
  match goal with H : notifySandboxes _ _ = _ |- _ => apply notifySandboxes_ok in H as Hdb end.
  match type of Hn with _ ?d = _ => set (d0 := d) in * end.
  assert (Hd1 : d1 = d0 <| db_notes := db_notes d1 |>)
    by (unfold Notify in Hn; tx_inv Hn; by apply DB_ext).
  destruct (pick_rows_ok (lost_due db grace) limit locked (db_sandboxes db)) as [Hnd Hids].
  fold ids in Hnd, Hids.
  eapply (sweep_good ids (lost_row db)); [done | done | by rewrite Hdb, Hd1 | by rewrite Hdb, Hd1
    | by rewrite Hdb, Hd1 | | |].
  - intros j Hj. rewrite Hdb, Hd1. cbn. apply option_eq. intros b.
    rewrite map_lookup_filter_Some. naive_solver.
  - intros j. rewrite Hdb, Hd1. cbn. intros [b Hb]. apply map_lookup_filter_Some in Hb as [? _]. eauto.
  - intros id s Hin Hs. pose proof Hin as Hin'. apply Hids in Hin as (s' & Hs' & Hp).
    assert (s' = s) as -> by congruence. unfold lost_due in Hp. reflect_tests.
    destruct (ok_rows _ Hok _ _ Hs) as [Hid Hr Hrn Hb Hno Hn0 Hl0].
    destruct (row_no_op _ Hr) as [[] Hpl]; [done|].
    assert (Hnode : sb_Node s ≠ ""%string).
    { apply Hpl. match goal with H : sb_ClientState s = _ |- _ => by rewrite H end. }
    assert (Hno' : db_tombstones db !! pod_key s ""%string = None) by by apply no_tombstone_nowhere.
    match goal with |- row_inv ?d _ _ ∧ _ => assert (Hbk : db_bookings d !! id = None) end.
    { rewrite Hdb, Hd1. cbn. apply map_lookup_filter_None. right. naive_solver. }
    unfold lost_row. destruct (db_nodes db !! sb_Node s) as [n|] eqn:Hn'; [|done].
    split_and!; [|by constructor; cbn; try done; lia | done].
    unfold lost_state. destruct (HasCheckpoint s) eqn:Hc; cbn [orb];
      [|destruct (sb_Materialised s) eqn:Hm]; constructor; try done; cbn;
      try (split; [apply Hr|]; left; split; [by constructor|]; constructor; cbn; congruence || done);
      try (unfold booking_follows; cbn; by rewrite Hid);
      try (unfold own_key; cbn; rewrite Hdb, Hd1; done).
Qed.

(** ** Steps *)

(** The registry and the ops in flight of all instances, by op id. *)
Record State := MkState { st_db : DB; st_ops : gmap UUID OpHandle }.

(** What moves beside the engine's transactions: the clock, the instances,
    the holds, the nodes' columns (a node never loses its row). *)
Definition elsewhere (db db' : DB) : Prop :=
  db_sandboxes db' = db_sandboxes db ∧ db_bookings db' = db_bookings db
  ∧ db_tombstones db' = db_tombstones db ∧ db_nodes db' !! ""%string = None
  ∧ nodes_kept db db'.

Inductive step : State → State → Prop :=
| step_elsewhere db db' ops :
    elsewhere db db' → step (MkState db ops) (MkState db' ops)
| step_create n inc db r db' ops :
    inc ≠ uuidNil → CreateSandbox n inc db = Ok (r, db') →
    step (MkState db ops) (MkState db' ops)
| step_begin e runs ctxErr opID id i db h evs db' ops :
    opID ≠ uuidNil → ops !! opID = None →
    begin e runs ctxErr opID id i db = (Ok (h, evs), db') →
    step (MkState db ops) (MkState db' (<[opID := h]> ops))
| step_finish e u elapsed o h res obs db r db' ops :
    ops !! o = Some h → finishOnce e u elapsed h res obs db = Ok (r, db') →
    step (MkState db ops) (MkState db' ops)
| step_rollback e u o h cause db r db' ops :
    ops !! o = Some h → rollbackOnce e u h cause db = Ok (r, db') →
    step (MkState db ops) (MkState db' ops)
| step_end o db ops : step (MkState db ops) (MkState db (delete o ops))
| step_sync e u read obs db r db' ops :
    sb_Node read ≠ ""%string → applySync e u read obs db = Ok (r, db') →
    step (MkState db ops) (MkState db' ops)
| step_reconcile_pod e u node id p snap db r db' ops :
    node ≠ ""%string → reconcilePod e u node id p snap db = Ok (r, db') →
    step (MkState db ops) (MkState db' ops)
| step_reconcile_missing e u node s db r db' ops :
    node ≠ ""%string → reconcileMissing e u node s db = Ok (r, db') →
    step (MkState db ops) (MkState db' ops)
| step_delete owner id db r db' ops :
    Delete owner id db = Ok (r, db') → step (MkState db ops) (MkState db' ops)
| step_tombstone_done k db r db' ops :
    DeleteTombstone k db = Ok (r, db') → step (MkState db ops) (MkState db' ops)
| step_tombstone_failed k text db r db' ops :
    NoteTombstoneAttempt k text db = Ok (r, db') → step (MkState db ops) (MkState db' ops)
| step_address id inc address db b db' ops :
    SetSandboxAddress id inc address db = Ok (b, db') → step (MkState db ops) (MkState db' ops)
| step_touch id db u db' ops :
    TouchSandbox id db = Ok (u, db') → step (MkState db ops) (MkState db' ops)
| step_unreachable id db b db' ops :
    MarkUnreachable id db = Ok (b, db') → step (MkState db ops) (MkState db' ops)
| step_reachable id db u db' ops :
    ClearUnreachable id db = Ok (u, db') → step (MkState db ops) (MkState db' ops)
| step_pending id inc db b db' ops :
    MarkPending id inc db = Ok (b, db') → step (MkState db ops) (MkState db' ops)
| step_describe id inc text db u db' ops :
    SetStatusDescription id inc text db = Ok (u, db') → step (MkState db ops) (MkState db' ops)
| step_hold id kind instanceID lease db u db' ops :
    AdmitHold id kind instanceID lease db = Ok (u, db') → step (MkState db ops) (MkState db' ops)
| step_unhold id kind instanceID db u db' ops :
    ReleaseHold id kind instanceID db = Ok (u, db') → step (MkState db ops) (MkState db' ops)
| step_release instanceID db r db' ops :
    ReleaseOpsOf instanceID db = Ok (r, db') → step (MkState db ops) (MkState db' ops)
| step_down limit locked db r db' ops :
    DownSweep limit locked db = Ok (r, db') → step (MkState db ops) (MkState db' ops)
| step_lost grace limit locked db r db' ops :
    LostGrace grace limit locked db = Ok (r, db') → step (MkState db ops) (MkState db' ops).

(** An empty registry, with whatever nodes and instances there are. *)
Definition initial (s : State) : Prop :=
  db_sandboxes (st_db s) = ∅ ∧ db_bookings (st_db s) = ∅ ∧ db_tombstones (st_db s) = ∅
  ∧ db_nodes (st_db s) !! ""%string = None ∧ st_ops s = ∅.

Definition reachable (s : State) : Prop := ∃ s0, initial s0 ∧ rtc step s0 s.

(** ** The invariant *)

Record state_ok (s : State) : Prop := {
  state_db : db_ok (st_db s);
  state_ops o h : st_ops s !! o = Some h → h_opID h = o ∧ handle_fits (st_db s) h
}.

Lemma initial_ok s : initial s → state_ok s.
Proof.
  intros (Hs & Hb & Ht & Hn & Ho). constructor.
  - constructor; rewrite ?Hs, ?Hb, ?Ht; try done; intros ?; rewrite lookup_empty; by intros [].
  - intros o h. by rewrite Ho, lookup_empty.
Qed.

(** A handle fits on through a transaction that brings no op of its id. *)
Lemma fits_follow fresh db db' h :
  good fresh db db' → h_opID h ∉ fresh → handle_fits db h → handle_fits db' h.
Proof.
  intros [_ _ Hop Hn] Hf (Hnil & Htgt & Hfit). split_and!; [done | by apply Hn |]. intros row' Hrow' Ho.
  pose proof Ho as Ho'. unfold owns in Ho'. reflect_tests.
  destruct (Hop _ _ Hrow') as [?|[?|(row & Hrow & Eop)]]; [congruence | congruence|].
  injection Eop as E1 E2 E3 E4.
  destruct (Hfit row) as [Hk Ht Hr]; [done | unfold owns; by rewrite <- E1, <- E2, !bool_decide_true|].
  constructor; [congruence | congruence | done].
Qed.

Lemma state_ok_good db db' ops :
  good ∅ db db' → state_ok (MkState db ops) → state_ok (MkState db' ops).
Proof.
  intros Hg [_ Hops]. constructor; [apply Hg|]. intros o h Hh. destruct (Hops o h Hh) as [Ho Hf].
  split; [done|]. eapply fits_follow; [done | set_solver | done].
Qed.

Lemma elsewhere_good db db' : elsewhere db db' → db_ok db → good ∅ db db'.
Proof.
  intros (Hs & Hb & Ht & Hn & Hmono) [_ H2 H3 H4]. eapply good_from; [exact Hs | exact Hmono |].
  apply good_refl. constructor; rewrite ?Hs, ?Hb, ?Ht; try done.
  intros id s Hrow. eapply row_inv_frame; [by apply H4 | by rewrite Hb | by rewrite Ht | done].
Qed.

Lemma DeleteTombstone_good k db r db' :
  db_ok db → DeleteTombstone k db = Ok (r, db') → good ∅ db db'.
Proof.
  intros Hok ->%DeleteTombstone_ok. eapply good_from; [| |apply good_refl]; [done | by intros ? |].
  by apply db_ok_delete_tombstone.
Qed.

Lemma NoteTombstoneAttempt_good k text db r db' :
  db_ok db → NoteTombstoneAttempt k text db = Ok (r, db') → good ∅ db db'.
Proof.
  intros Hok H. unfold NoteTombstoneAttempt in H.
  destruct (db_tombstones db !! k) eqn:Hk; tx_inv H; [|by apply good_refl].
  eapply good_from; [| |apply good_refl]; [done | by intros ? |]. destruct Hok as [H1 H2 H3 H4].
  constructor; cbn; try done.
  - intros k'. rewrite lookup_insert_is_Some'. intros [<-|?]; [by apply H2|by apply H2].
  - intros id s Hs. pose proof (H4 id s Hs) as Hinv.
    eapply row_inv_frame; [exact Hinv | done | | by intros ?]. cbn.
    rewrite lookup_insert_ne; [done|]. intros ->. by rewrite (inv_tombstone _ _ _ Hinv) in Hk.
Qed.

Lemma TouchSandbox_good id db u db' :
  db_ok db → TouchSandbox id db = Ok (u, db') → good ∅ db db'.
Proof.
  intros Hok H. unfold TouchSandbox in H. tx_inv H. by eapply update_row_good; [|done|eassumption].
Qed.

Lemma MarkUnreachable_good id db b db' :
  db_ok db → MarkUnreachable id db = Ok (b, db') → good ∅ db db'.
Proof. intros Hok H. by eapply update_row_good; [|done|exact H]. Qed.

Lemma ClearUnreachable_good id db u db' :
  db_ok db → ClearUnreachable id db = Ok (u, db') → good ∅ db db'.
Proof.
  intros Hok H. unfold ClearUnreachable in H. tx_inv H.
  by eapply update_row_good; [|done|eassumption].
Qed.

Lemma MarkPending_good id inc db b db' :
  db_ok db → MarkPending id inc db = Ok (b, db') → good ∅ db db'.
Proof. intros Hok H. by eapply update_row_good; [|done|exact H]. Qed.

Lemma SetStatusDescription_good id inc text db u db' :
  db_ok db → SetStatusDescription id inc text db = Ok (u, db') → good ∅ db db'.
Proof.
  intros Hok H. unfold SetStatusDescription in H. tx_inv H.
  by eapply update_row_good; [|done|eassumption].
Qed.

(** A write of the holds alone, then of the activity. *)
Lemma hold_good id db db1 u db' :
  db_ok db → db1 = db <| db_holds := db_holds db1 |> → TouchSandbox id db1 = Ok (u, db') →
  good ∅ db db'.
Proof.
  intros Hok Hdb1 H. assert (He : elsewhere db db1)
    by (rewrite Hdb1; split_and!; try done; [apply (ok_nodes _ Hok) | by intros ?]).
  pose proof (elsewhere_good _ _ He Hok) as Hg.
  eapply good_from; [apply He | apply He |]. eapply TouchSandbox_good; [apply Hg | done].
Qed.

Lemma AdmitHold_good id kind instanceID lease db u db' :
  db_ok db → AdmitHold id kind instanceID lease db = Ok (u, db') → good ∅ db db'.
Proof.
  intros Hok H. unfold AdmitHold, RenewHold, upsertHold in H. tx_inv H.
  all: eapply hold_good; [done | | eassumption]; by apply DB_ext.
Qed.

Lemma ReleaseHold_good id kind instanceID db u db' :
  db_ok db → ReleaseHold id kind instanceID db = Ok (u, db') → good ∅ db db'.
Proof.
  intros Hok H. unfold ReleaseHold in H. tx_inv H.
  eapply hold_good; [done | | eassumption]. by apply DB_ext.
Qed.

Create HintDb engine.
#[export] Hint Resolve CreateSandbox_good finishOnce_good rollbackOnce_good applySync_good
  reconcilePod_good reconcileMissing_good Delete_good DeleteTombstone_good
  NoteTombstoneAttempt_good SetSandboxAddress_good TouchSandbox_good MarkUnreachable_good
  ClearUnreachable_good MarkPending_good SetStatusDescription_good AdmitHold_good
  ReleaseHold_good ReleaseOpsOf_good DownSweep_good LostGrace_good elsewhere_good : engine.

(** Every step keeps the invariant and moves every row forward. *)
Lemma step_good s s' :
  state_ok s → step s s' → state_ok s' ∧ ∃ fresh, good fresh (st_db s) (st_db s').
Proof.
  intros Hok Hstep. pose proof Hok as [Hdb Hops].
  assert (Hone : ∀ db', good ∅ (st_db s) db' → state_ok (MkState db' (st_ops s)))
    by (intros db'; destruct s; by intros; eapply state_ok_good).
  destruct Hstep as [| | |e u el o h res obs db r db' ops Hh Hf | e u o h cause db r db' ops Hh Hf
    | o db ops | | | | | | | | | | | | | | | | |]; cbn in *;
    try (assert (Hg : good ∅ db db') by (by eauto with engine); split; [by apply Hone | by eauto]).
  - (* begin *)
    match goal with H : begin _ _ _ _ _ _ _ = _ |- _ => apply begin_ok in H as
      (Hg & Hid & Hop & Hfit) end; [|done|done].
    split; [|by eauto]. constructor; cbn; [apply Hg|]. intros o h' Hl.
    destruct (decide (o = opID)) as [->|Hne].
    + rewrite lookup_insert_eq in Hl. injection Hl as <-. done.
    + rewrite lookup_insert_ne in Hl by done. destruct (Hops o h' Hl) as [Ho Hf].
      split; [done|]. eapply fits_follow; [done | set_solver | done].
  - destruct (Hops o h Hh). assert (good ∅ db db') by by eauto with engine. split; [by apply Hone | by eauto].
  - destruct (Hops o h Hh). assert (good ∅ db db') by by eauto with engine. split; [by apply Hone | by eauto].
  - split; [|exists ∅; by apply good_refl]. constructor; [done|]. cbn. intros o' h' Hl.
    apply lookup_delete_Some in Hl as [_ Hl]. by apply Hops.
Qed.

Lemma reachable_ok s : reachable s → state_ok s.
Proof.
  intros (s0 & Hi & Hs). apply initial_ok in Hi. revert Hi.
  induction Hs as [|s s1 s2 Hstep _ IH]; [done|]. intros Hok. apply IH. by eapply step_good.
Qed.
