(* ===== verification/Safety.v ===== *)
(** * What the engine promises

    The properties of the sandbox engine over every reachable registry and
    every transaction: a tombstone never names the pod a sandbox is on, a
    row's op, state, node and booking agree, rows only move forward, an
    admitted op leaves its node within its capacity, an op that was fenced
    out writes nothing of its outcome, and an op ends when it finishes. *)

From S2P Require Import Prelude PodId Rows Store Placement Change Ops Lifecycle Transactions Engine.

(** ** A concrete run, for the witnesses *)

Definition ex_engine : Engine :=
  MkEngine "i1" false 0 (10 * Minute) 0 0 0 0 (10 * Minute) (30 * Second) (30 * Minute) (30 * Second)
    (λ _, true)
    (λ s, if String.eqb s "seven" then Some 7%N else if String.eqb s "nine" then Some 9%N else None)
    (λ u, pretty u).

Definition ex_node (name : string) : Node :=
  MkNode name NodeReady "" 0 0 false 0 2 0 (float64_of 1) "" "" "" 4 (8 * 2 ^ 30) 0 "" true "s3" ""
    1%N 0 "" 0 0 0 0 0 "" [] "" 0.

Definition ex_db0 : DB :=
  MkDB Hour ∅ (<["n1" := ex_node "n1"]> (<["n2" := ex_node "n2"]> ∅))%string ∅ ∅ ∅
    (<["i1" := MkInstance "i1" "" "" "" 0 Hour 0]> ∅)%string (λ _, true) (λ _, false) [].

Definition ex_id : ID := "abcdefghjkm".

Definition ex_new : NewSandbox :=
  MkNewSandbox ex_id "t1" "img" 1 1024 "img@sha" uuidNil None "" None false ∅ "".

(** The database after a transaction that commits. *)
Definition after_tx {A} (m : tx A) (db : DB) : DB := (InTx m db).2.

Definition ex_db1 : DB := after_tx (CreateSandbox ex_new 7%N) ex_db0.

Definition ex_intent : OpIntent :=
  MkOpIntent OpCreate TriggerEnsure ["n1"; "n2"]%string "" 7%N "img@sha" "" [] uuidNil uuidNil.

Definition ex_begin : result error (OpHandle * list Event) * DB :=
  begin ex_engine false (λ _, false) 11%N ex_id ex_intent ex_db1.

Definition ex_db2 : DB := ex_begin.2.

Definition ex_handle : OpHandle :=
  match ex_begin.1 with
  | Ok (h, _) => h
  | Err _ => newHandle ex_engine (new_row ex_new 7%N 0) OpCreate TriggerNone ""
  end.

Definition ex_state2 : State := MkState ex_db2 (<[11%N := ex_handle]> ∅).

Lemma ex_reachable : reachable ex_state2.
Proof.
  exists (MkState ex_db0 ∅). split; [by vm_compute|].
  eapply rtc_l; [eapply (step_create ex_new 7%N); [done | vm_compute; reflexivity]|].
  eapply rtc_l; [|reflexivity].
  eapply (step_begin ex_engine false (λ _, false) 11%N ex_id ex_intent ex_db1); [done | done |].
  vm_compute. reflexivity.
Qed.

Definition ex_row2 : Sandbox :=
  Eval vm_compute in default (new_row ex_new 7%N 0) (db_sandboxes ex_db2 !! ex_id).

Lemma ex_row2_eq : db_sandboxes (st_db ex_state2) !! ex_id = Some ex_row2.
Proof. vm_compute. reflexivity. Qed.

(** The create's finish, with the pod running on its target. *)
Definition ex_pod (inc : string) : PodInfo :=
  MkPodInfo POD_STATE_RUNNING "" (<[LabelSandbox := ""%string]> (<[LabelIncarnation := inc]> ∅)) 1024
    "fd00::1" None.

Definition ex_called : callResult := MkCallResult None false false false false "" None.

Definition ex_finish : tx (OpResult * afterCommit * list Event) :=
  finishOnce ex_engine 21%N "1s" ex_handle ex_called (MkObservation true (Some (ex_pod "seven"))).

Definition ex_db3 : DB := after_tx ex_finish ex_db2.

(** A reconcile that finds a pod of another incarnation on the node. *)
Definition ex_db4 : DB :=
  after_tx (reconcilePod ex_engine 22%N "n1" ex_id (ex_pod "nine") ∅) ex_db3.

Definition ex_state4 : State := MkState ex_db4 (<[11%N := ex_handle]> ∅).

Lemma ex_reachable4 : reachable ex_state4.
Proof.
  destruct ex_reachable as (s0 & Hi & Hs). exists s0. split; [done|].
  etrans; [exact Hs|].
  eapply rtc_l; [eapply (step_finish ex_engine 21%N "1s" 11%N ex_handle ex_called
    (MkObservation true (Some (ex_pod "seven")))); vm_compute; reflexivity|].
  eapply rtc_l; [|reflexivity].
  eapply (step_reconcile_pod ex_engine 22%N "n1" ex_id (ex_pod "nine") ∅); [done|].
  vm_compute. reflexivity.
Qed.

Definition ex_row4 : Sandbox :=
  Eval vm_compute in default (new_row ex_new 7%N 0) (db_sandboxes ex_db4 !! ex_id).

Lemma ex_row4_eq : db_sandboxes (st_db ex_state4) !! ex_id = Some ex_row4.
Proof. vm_compute. reflexivity. Qed.

Example ex_begun : sb_ClientState <$> db_sandboxes ex_db2 !! ex_id = Some StateCreating.
Proof. vm_compute. reflexivity. Qed.

(** ** Every reachable registry *)

(** C1: In every registry the instances can reach, by any interleaving of
    begins, finishes, rollbacks, syncs, reconciles, deletions and sweeps, no
    tombstone names a sandbox's own pod on the node the sandbox is on: what
    a tombstone deletes is never what a row places. *)
Theorem own_pod_never_tombstoned s id row :
  reachable s → db_sandboxes (st_db s) !! id = Some row →
  db_tombstones (st_db s) !! MkTombstoneKey id (sb_Node row) (sb_Incarnation row) = None.
Proof.
  intros Hs Hrow. apply reachable_ok in Hs as [Hdb _].
  destruct (ok_rows _ Hdb _ _ Hrow) as [<- _ _ _ Hno _ _]. exact Hno.
Qed.

Lemma own_pod_never_tombstoned_witness :
  sb_Node ex_row2 = "n1"%string
  ∧ db_tombstones (st_db ex_state2) !! MkTombstoneKey ex_id (sb_Node ex_row2) (sb_Incarnation ex_row2)
    = None.
Proof.
  split; [reflexivity|].
  exact (own_pod_never_tombstoned ex_state2 ex_id ex_row2 ex_reachable ex_row2_eq).
Defined.



(** C24: In every reachable registry a row's op and state agree: without an op
    its op columns are empty and its state is none that an op holds it in;
    with one, its state is the op's, the op's target is the row's node, and
    the op has an id; and a sandbox is on a node unless it is pending or
    hibernated, a pending one on none. *)
Theorem op_state_node_agree s id row :
  reachable s → db_sandboxes (st_db s) !! id = Some row →
  match sb_Op row with
  | None =>
      sb_OpID row = uuidNil ∧ sb_OpTarget row = ""%string ∧ sb_OpOwner row = ""%string
      ∧ sb_OpFromState row = None
      ∧ sb_ClientState row ∉ [StatePausing; StateResuming; StateHibernating]
      ∧ (sb_ClientState row = StatePending → sb_Node row = ""%string)
      ∧ (sb_ClientState row ∉ [StatePending; StateHibernated] → sb_Node row ≠ ""%string)
  | Some k =>
      sb_OpID row ≠ uuidNil ∧ sb_ClientState row = transitional k
      ∧ sb_OpTarget row = sb_Node row ∧ sb_Node row ≠ ""%string
  end.
Proof.
  intros Hs Hrow. apply reachable_ok in Hs as [Hdb _].
  destruct (ok_rows _ Hdb _ _ Hrow) as [_ Hr _ _ _ _ _].
  destruct (sb_Op row) as [k|] eqn:Hop.
  - by destruct (row_op _ _ Hr Hop).
  - destruct (row_no_op _ Hr Hop) as [[] [Hset Hpend Hnode]]. split_and!; try done.
    + destruct (sb_ClientState row); try done; set_solver.
    + intros E. by apply Hpend.
    + intros Hn. apply Hnode. destruct (sb_ClientState row); try done; set_solver.
Qed.

Lemma op_state_node_agree_witness :
  sb_OpID ex_row2 ≠ uuidNil ∧ sb_ClientState ex_row2 = transitional OpCreate
  ∧ sb_OpTarget ex_row2 = sb_Node ex_row2 ∧ sb_Node ex_row2 ≠ ""%string.
Proof. exact (op_state_node_agree ex_state2 ex_id ex_row2 ex_reachable ex_row2_eq). Defined.

(** C26: In every reachable registry the bookings follow the states: a sandbox
    that uses its node (creating, running, pausing, resuming) has a booking
    there, one that uses none (pending, paused, hibernated, stopped, failed,
    lost) has no booking, and no booking is without its sandbox. *)
Theorem bookings_follow_states s id :
  reachable s →
  match db_sandboxes (st_db s) !! id with
  | None => db_bookings (st_db s) !! id = None
  | Some row =>
      match bookingOf (sb_ClientState row) with
      | bookNone => db_bookings (st_db s) !! id = None
      | bookMust => ∃ b, db_bookings (st_db s) !! id = Some b ∧ bk_Node b = sb_Node row
      | bookUnchanged => True
      end
  end.
Proof.
  intros Hs. apply reachable_ok in Hs as [Hdb _].
  destruct (db_sandboxes (st_db s) !! id) as [row|] eqn:Hrow.
  - destruct (ok_rows _ Hdb _ _ Hrow) as [<- Hr _ Hb _ _ _]. unfold booking_follows in Hb.
    destruct (bookingOf (sb_ClientState row)) eqn:Hbk; try done. apply Hb.
    destruct (sb_Op row) as [k|] eqn:Hop; [by destruct (row_op _ _ Hr Hop)|].
    destruct (row_no_op _ Hr Hop) as [_ [_ _ Hnode]]. apply Hnode. by destruct (sb_ClientState row).
  - apply eq_None_not_Some. intros Hb. apply (ok_bookings _ Hdb) in Hb. rewrite Hrow in Hb. by destruct Hb.
Qed.

Lemma bookings_follow_states_witness :
  ∃ b, db_bookings (st_db ex_state2) !! ex_id = Some b ∧ bk_Node b = sb_Node ex_row2.
Proof.
  generalize (bookings_follow_states ex_state2 ex_id ex_reachable). rewrite ex_row2_eq.
  exact (λ H, H).
Defined.

(** A step of the engine never moves a row backwards: while the row is
    there, its incarnation stays, and neither its gen nor the epoch of its
    checkpoint falls; so a write guarded by gen and incarnation cannot be
    applied to an older row, and no checkpoint is replaced by an older one. *)
Theorem rows_move_forward s s' id row row' :
  reachable s → step s s' →
  db_sandboxes (st_db s) !! id = Some row → db_sandboxes (st_db s') !! id = Some row' →
  sb_Incarnation row' = sb_Incarnation row ∧ sb_Gen row ≤ sb_Gen row'
  ∧ sb_CheckpointEpoch row ≤ sb_CheckpointEpoch row'.
Proof.
  intros Hs Hstep Hrow Hrow'. apply reachable_ok in Hs.
  destruct (step_good _ _ Hs Hstep) as [_ [fresh Hg]].
  destruct (good_le _ _ _ Hg _ _ _ Hrow Hrow'). done.
Qed.

Definition ex_state3 : State := MkState ex_db3 (<[11%N := ex_handle]> ∅).

Definition ex_row3 : Sandbox :=
  Eval vm_compute in default (new_row ex_new 7%N 0) (db_sandboxes ex_db3 !! ex_id).

Lemma rows_move_forward_witness :
  sb_Incarnation ex_row3 = sb_Incarnation ex_row2 ∧ sb_Gen ex_row2 ≤ sb_Gen ex_row3
  ∧ sb_CheckpointEpoch ex_row2 ≤ sb_CheckpointEpoch ex_row3.
Proof.
  apply (rows_move_forward ex_state2 ex_state3 ex_id); [exact ex_reachable | | exact ex_row2_eq |].
  - eapply (step_finish ex_engine 21%N "1s" 11%N ex_handle ex_called
      (MkObservation true (Some (ex_pod "seven")))); vm_compute; reflexivity.
  - vm_compute. reflexivity.
Defined.

(** ** The end of an op *)



(** C11: A finish whose op is the row's ends the op: the row has no op any
    more, is in a state no op holds it in, and the result the waiters get is
    the state, node and description of the row written. *)
Theorem finish_ends_op e u elapsed s o h row res obs r ac evs db' :
  reachable s → st_ops s !! o = Some h → db_sandboxes (st_db s) !! h_id h = Some row →
  owns h row = true → finishOnce e u elapsed h res obs (st_db s) = Ok ((r, ac, evs), db') →
  ∃ row', db_sandboxes db' !! h_id h = Some row' ∧ sb_Op row' = None ∧ sb_OpID row' = uuidNil
    ∧ settled (sb_ClientState row') = true
    ∧ or_State r = Some (sb_ClientState row') ∧ or_Node r = sb_Node row'
    ∧ or_Description r = sb_StatusDescription row' ∧ or_fenced r = false.
Proof.
  intros Hs Hh Hrow Ho H. apply reachable_ok in Hs as [Hok Hops]. destruct (Hops o h Hh) as [_ Hfit].
  destruct (owned_row _ _ _ Hok Hfit Hrow Ho) as (Hid & Hinc & _ & _ & Hn & Hne).
  unfold finishOnce in H. apply bind_ok in H as (row0 & d & Hl & H). tx_facts.
  rewrite Hrow, Ho in H. tx_inv H. change_facts.
  destruct (applyOutcome_ok e (db_nodes (st_db s)) elapsed h res obs row (db_now (st_db s)) Hn Hne)
    as [[_ S1 S2 _ _ _] [] [Hset _ _] _ Hcl Hts _]. cbn in S1.
  match goal with H : commit _ _ _ _ = _ |- _ => apply commit_ok in H as Hw end;
    [rewrite S1 in Hw | by rewrite S1, Hid
     | rewrite S1; eapply Forall_impl; [exact Hts|]; by intros t (? & _) | done].
  destruct Hw as [_ Hw Hcore _ _ _ _ _ _ _ _]. rewrite Hid in Hw.
  injection Hcore as E1 E2 E3 E4 E5 E6 E7 E8 E9 E10 E11 E12 E13.
  eexists. split_and!; [exact Hw | congruence | congruence | by rewrite E3 | done..].
Qed.

Lemma finish_ends_op_witness :
  ∃ row', db_sandboxes ex_db3 !! ex_id = Some row' ∧ sb_Op row' = None ∧ sb_OpID row' = uuidNil
    ∧ settled (sb_ClientState row') = true.
Proof.
  destruct (finish_ends_op ex_engine 21%N "1s" ex_state2 11%N ex_handle ex_row2 ex_called
    (MkObservation true (Some (ex_pod "seven")))
    (match ex_finish ex_db2 with Ok (r, _, _, _) => r | Err _ => no_result end)
    (match ex_finish ex_db2 with Ok (_, ac, _, _) => ac | Err _ => MkAfterCommit [] false end)
    (match ex_finish ex_db2 with Ok (_, _, evs, _) => evs | Err _ => [] end) ex_db3)
    as (row' & H1 & H2 & H3 & H4 & _);
    [exact ex_reachable | reflexivity | exact ex_row2_eq | vm_compute; reflexivity
    | vm_compute; reflexivity |].
  exists row'. split; [exact H1|]. split; [exact H2|]. split; [exact H3 | exact H4].
Defined.

(** C18: A finish that was fenced out (its op is no longer the row's: taken
    over, released, preempted) writes nothing of its outcome: the row keeps
    its state, node, op and everything else but a newer checkpoint, every
    other row and every booking and hold stay as they are. *)
Theorem fenced_finish_keeps_row e u elapsed h res obs db row r db' :
  db_sandboxes db !! h_id h = Some row → sb_ID row = h_id h → owns h row = false →
  finishOnce e u elapsed h res obs db = Ok (r, db') →
  (∃ row', db_sandboxes db' !! h_id h = Some row' ∧ lifecycle row' = lifecycle row
     ∧ sb_RunID row' = sb_RunID row ∧ sb_CheckpointEpoch row ≤ sb_CheckpointEpoch row')
  ∧ (∀ j, j ≠ h_id h → db_sandboxes db' !! j = db_sandboxes db !! j)
  ∧ db_bookings db' = db_bookings db ∧ db_holds db' = db_holds db.
Proof.
  intros Hrow Hid Ho H. unfold finishOnce in H. apply bind_ok in H as (row0 & d & Hl & H). tx_facts.
  rewrite Hrow, Ho in H. unfold finish_fenced in H. tx_inv H.
  match goal with H : fencedOut _ _ _ _ _ _ = _ |- _ => unfold fencedOut in H; cbv zeta in H;
    tx_inv H; change_facts end; try (split; [exists row; by split_and! | by split_and!]).
  match goal with H : UpdateSandbox _ (ch_after ?c) _ = _ |- _ => rename H into Hup; set (c' := c) in * end.
  destruct (merge_all_ok (db_nodes db) (h_target h)
    (cr_checkpoint res :: (if ours e obs (h_inc h)
       then match obs_info obs with Some i => [pi_Checkpoint i] | None => [] end else []))
    (MkChange (db_now db) row row false "" "" [] [])) as ([_ _ _ _ _ S] & Hlc & Hrun).
  fold c' in S, Hlc, Hrun. clearbody c'. cbn in S, Hlc, Hrun.
  apply UpdateSandbox_ok in Hup as (_ & Hw & _ & _ & _ & Hdb); [|by rewrite Hid].
  rewrite Hdb, Hid. cbn. split_and!; [|by intros j Hj; rewrite lookup_insert_ne | done | done].
  eexists. split; [by rewrite lookup_insert_eq|]. rewrite Hw. cbn. by rewrite <- Hlc.
Qed.

Lemma fenced_finish_keeps_row_witness :
  ∃ row', db_sandboxes (after_tx ex_finish ex_db3) !! ex_id = Some row'
    ∧ lifecycle row' = lifecycle ex_row3.
Proof.
  destruct (fenced_finish_keeps_row ex_engine 21%N "1s" ex_handle ex_called
    (MkObservation true (Some (ex_pod "seven"))) ex_db3 ex_row3
    (match ex_finish ex_db3 with Ok (r, _) => r | Err _ => (no_result, MkAfterCommit [] false, []) end)
    (after_tx ex_finish ex_db3)) as [(row' & H1 & H2 & _) _];
    [vm_compute; reflexivity | vm_compute; reflexivity | vm_compute; reflexivity
    | vm_compute; reflexivity |].
  exists row'. split; [exact H1 | exact H2].
Defined.

(** ** Begins *)



(** An op in flight is never taken over while its owner lives: a begin on
    the row of another live instance's op, or of an op this instance runs,
    fails and changes nothing (a resume that preempts a hibernate apart). *)
Theorem live_op_not_taken_over e runs opID id i target db row :
  db_sandboxes db !! id = Some row → is_Some (sb_Op row) → oi_preempt i = uuidNil →
  (if String.eqb (sb_OpOwner row) (e_id e) then runs = true
   else ∃ inst, db_instances db !! sb_OpOwner row = Some inst
                ∧ instanceLive (db_now db) inst = true) →
  ∃ err, InTx (beginOn e runs opID id i target) db = (Err err, db).
Proof.
  intros Hrow [k Hk] Hpre Hlive. unfold InTx.
  destruct (beginOn e runs opID id i target db) as [[[h evs] db']|err] eqn:H; [|eauto].
  exfalso. unfold beginOn in H. apply bind_ok in H as (row0 & d & Hl & H). tx_facts.
  assert (row0 = row) as -> by congruence. rewrite Hk in H. unfold is_nil in H.
  rewrite (bool_decide_true (oi_preempt i = uuidNil)) in H by done. cbn [negb] in H.
  tx_inv H. unfold takeover in H. rewrite Hk in H.
  apply bind_ok in H as (busy & d0 & Hb & H).
  destruct (String.eqb (sb_OpOwner row) (e_id e)); cbn [negb] in Hb.
  - subst runs. tx_inv Hb. tx_inv H.
  - destruct Hlive as (inst & Hi & Hlv). unfold InstanceLive in Hb. rewrite gets_ok, Hi, Hlv in Hb.
    injection Hb as -> ->. tx_inv H.
Qed.

Lemma live_op_not_taken_over_witness :
  ∃ err, InTx (beginOn (MkEngine "i2" false 0 0 0 0 0 0 0 0 0 0 (λ _, true) (λ _, None) (λ _, ""%string))
                 false 12%N ex_id ex_intent "n2") ex_db2 = (Err err, ex_db2).
Proof.
  apply (live_op_not_taken_over _ _ _ _ _ _ _ ex_row2);
    [exact ex_row2_eq | eexists; reflexivity | reflexivity |].
  cbn. eexists. split; vm_compute; reflexivity.
Defined.

(** C30: An idle pause begins only of a sandbox nothing keeps awake: no hold
    of it has a lease ahead, it was last active longer ago than its idle
    time, no failed idle pause backs it off, and neither an ingress nor an
    attached service needs it. *)
Theorem idle_pause_spares_held e runs opID id i target db row h evs db' :
  db_sandboxes db !! id = Some row → sb_ID row = id → sb_Op row = None →
  oi_Kind i = OpPause → oi_Trigger i = TriggerIdle →
  beginOn e runs opID id i target db = Ok ((h, evs), db') →
  (∀ holder hold, db_holds db !! (id, holder) = Some hold → hold_live (db_now db) hold = false)
  ∧ sb_LastActiveAt row < db_now db - idleAfter (cfg_IdlePause e) row
  ∧ policyDue PolicyIdle (db_now db) row = true
  ∧ db_ingressFence db row = true ∧ db_attachedAwake db row = false.
Proof.
  intros Hrow Hid Hop Hk Htr H. unfold beginOn in H.
  apply bind_ok in H as (row0 & d & Hl & H). tx_facts.
  assert (row0 = row) as -> by congruence. rewrite Hop in H. unfold preemptEnded in H. tx_inv H.
  unfold begin_fresh in H. apply bind_ok in H as (? & d & Hpre & _).
  unfold precheck in Hpre. rewrite Hk in Hpre. apply bind_ok in Hpre as (? & d0 & Hc & Hpre).
  unfold precondition in Hc. rewrite Hk in Hc. tx_inv Hc. tx_inv Hpre.
  unfold recheck, recheckFailed in Hpre. rewrite Htr, Hk in Hpre. rewrite bool_decide_true in Hpre by done.
  tx_inv Hpre. tx_facts. rewrite Hid, Hrow in *.
  repeat match goal with H : negb _ = false |- _ => apply negb_false_iff in H end.
  unfold idle_due in *. reflect_tests. split_and!; try done.
  intros holder hold Hh. destruct (hold_live (db_now db) hold) eqn:Hlive; [|done]. exfalso.
  match goal with H : false = existsb _ _ |- _ => symmetry in H;
    rewrite <- not_true_iff_false, existsb_exists in H; apply H end.
  exists ((id, holder), hold). split; [by apply list_elem_of_In, elem_of_map_to_list|].
  cbn. by rewrite String.eqb_refl, Hlive.
Qed.

Definition ex_pause : OpIntent :=
  MkOpIntent OpPause TriggerIdle [] "n1" 7%N "" "" [] uuidNil uuidNil.

(** Nine hours later. *)
Definition ex_late : DB := ex_db3 <| db_now := 10 * Hour |>.

Lemma idle_pause_spares_held_witness :
  sb_LastActiveAt ex_row3 < db_now ex_late - idleAfter (cfg_IdlePause ex_engine) ex_row3.
Proof.
  destruct (idle_pause_spares_held ex_engine false 13%N ex_id ex_pause "n1" ex_late ex_row3
    (match beginOn ex_engine false 13%N ex_id ex_pause "n1" ex_late with
     | Ok (h, _, _) => h | Err _ => ex_handle end)
    (match beginOn ex_engine false 13%N ex_id ex_pause "n1" ex_late with
     | Ok (_, evs, _) => evs | Err _ => [] end)
    (after_tx (beginOn ex_engine false 13%N ex_id ex_pause "n1") ex_late)) as (_ & H & _);
    [vm_compute; reflexivity | reflexivity | reflexivity | reflexivity | reflexivity
    | vm_compute; reflexivity | exact H].
Defined.

(** C31: A deletion leaves nothing of the sandbox in the registry but the
    tombstones: its row, booking and holds are gone, every node that may
    hold a pod of its incarnation (its node, its op's target, the node lost
    grace left it on) has a tombstone of that pod, and the rows, bookings
    and tombstones of every other sandbox are untouched. *)
Theorem delete_leaves_tombstones owner s id row keys events db' :
  reachable s → Delete owner id (st_db s) = Ok ((row, keys, events), db') →
  db_sandboxes (st_db s) !! id = Some row
  ∧ db_sandboxes db' !! id = None ∧ db_bookings db' !! id = None
  ∧ (∀ x, db_holds db' !! (id, x) = None)
  ∧ (∀ n, n ∈ [sb_Node row; sb_OpTarget row; sb_LostFrom row] → n ≠ ""%string →
          is_Some (db_tombstones db' !! MkTombstoneKey id n (sb_Incarnation row)))
  ∧ (∀ j, j ≠ id → db_sandboxes db' !! j = db_sandboxes (st_db s) !! j
                   ∧ db_bookings db' !! j = db_bookings (st_db s) !! j)
  ∧ (∀ k, tk_PodID k ≠ id → db_tombstones db' !! k = db_tombstones (st_db s) !! k).
Proof.
  intros Hs H. apply reachable_ok in Hs as [Hok _].
  destruct (touches_Delete _ _ _ _ _ _ _ Hok H) as (Hrow & T & H1 & H2 & H3 & _ & H5).
  pose proof (inv_id _ _ _ (ok_rows _ Hok _ _ Hrow)) as <-.
  split_and!; try done; [by intros j Hj; split; apply T | by apply T].
Qed.

Lemma delete_leaves_tombstones_witness :
  is_Some (db_tombstones (after_tx (Delete "t1" ex_id) ex_db2) !! MkTombstoneKey ex_id "n1" 7%N).
Proof.
  destruct (delete_leaves_tombstones "t1" ex_state2 ex_id ex_row2
    (match Delete "t1" ex_id ex_db2 with Ok (_, ks, _, _) => ks | Err _ => [] end)
    (match Delete "t1" ex_id ex_db2 with Ok (_, _, evs, _) => evs | Err _ => [] end)
    (after_tx (Delete "t1" ex_id) ex_db2)) as (_ & _ & _ & _ & H & _);
    [exact ex_reachable | vm_compute; reflexivity |].
  apply (H "n1"%string); [vm_compute; apply list_elem_of_here | discriminate].
Defined.

(** A begin that fails, on a target or on any number of candidates each in
    a transaction of its own, leaves the registry as it was. *)
Theorem failed_begin_changes_nothing e runs ctxErr opID id i db err db' :
  begin e runs ctxErr opID id i db = (Err err, db') → db' = db.
Proof. apply begin_err. Qed.

Lemma failed_begin_changes_nothing_witness :
  (begin ex_engine false (λ _, false) 11%N "nosuch" ex_intent ex_db1).2 = ex_db1.
Proof.
  apply (failed_begin_changes_nothing ex_engine false (λ _, false) 11%N "nosuch" ex_intent ex_db1
    (KindError ErrNotFound "no such sandbox")).
  vm_compute. reflexivity.
Defined.

(** ** The backoff of a policy *)

Lemma double_until_spec n d most :
  0 < d → 2 * most ≤ int64_max → d ≤ most →
  Z.min (double_until n d most) most = Z.min (d * 2 ^ Z.of_nat n) most.
Proof.
  revert d. induction n as [|n IH]; intros d Hd Hm Hle; cbn [double_until].
  - f_equal. lia.
  - assert (Hp : 1 ≤ 2 ^ Z.of_nat n) by (pose proof (Z.pow_pos_nonneg 2 (Z.of_nat n)); lia).
    rewrite Nat2Z.inj_succ, Z.pow_succ_r by lia.
    destruct (Z.ltb_spec d most) as [Hlt|Hge].
    + rewrite wrap64_id by (unfold in_int64, int64_min, int64_max in *; lia).
      destruct (Z_le_gt_dec (d * 2) most) as [H2|H2].
      * rewrite IH by lia. f_equal. lia.
      * assert (E : double_until n (d * 2) most = d * 2).
        { destruct n; cbn [double_until]; [done|]. destruct (Z.ltb_spec (d * 2) most); lia. }
        rewrite E. rewrite !Z.min_r by nia. done.
    + rewrite !Z.min_r by nia. done.
Qed.

(** The backoff after the nth consecutive failure of a policy is the
    least one doubled n-1 times, at most the greatest one: the loop neither
    overflows nor stops early. *)
Theorem policyBackoff_doubles n least most :
  1 ≤ n → 0 < least ≤ most → 2 * most ≤ int64_max →
  policyBackoff n least most = Z.min (least * 2 ^ (n - 1)) most.
Proof.
  intros Hn Hl Hm. unfold policyBackoff. rewrite double_until_spec by lia.
  by rewrite Z2Nat.id by lia.
Qed.

Lemma policyBackoff_doubles_witness :
  policyBackoff 4 (30 * Second) (30 * Minute) = 240 * Second
  ∧ policyBackoff 4 (30 * Second) (30 * Minute) = Z.min (30 * Second * 2 ^ (4 - 1)) (30 * Minute).
Proof.
  split; [vm_compute; reflexivity|].
  apply policyBackoff_doubles; unfold Minute, Second, int64_max; lia.
Defined.


(** ** Witnesses of the placement's properties *)

Definition ex_telemetry (name : string) (gib : Z) : Telemetry :=
  MkTelemetry name Hour (float64_of 0) (gib * 2 ^ 30) 0 0 0 0 0 "" 0 "".

(** [n2] has less free memory than [n1]. *)
Definition ex_tel : gmap string Telemetry :=
  (<["n1" := ex_telemetry "n1" 8]> (<["n2" := ex_telemetry "n2" 2]> ∅))%string.

Definition ex_snaps : list NodeSnapshot := PlacementSnapshot ex_tel ex_id ex_db1.

Definition ex_row1 : Sandbox := new_row ex_new 7%N Hour.

Lemma place_in_policy_order_witness :
  pl_candidates (place ex_engine ex_row1 OpCreate ex_snaps) = ["n2"; "n1"]%string
  ∧ ∃ l, pl_candidates (place ex_engine ex_row1 OpCreate ex_snaps) = sc_name <$> l
    ∧ l ≡ₚ omap feasible_of (snapshot_input ex_engine ex_row1 OpCreate <$> ex_snaps)
    ∧ Sorted (λ a b, scored_leb false a b = true) l.
Proof.
  split; [vm_compute; reflexivity|].
  apply (place_in_policy_order ex_engine ex_row1 OpCreate ex_snaps); [done|].
  repeat (constructor; [vm_compute; reflexivity|]). constructor.
Defined.

(** A restore whose record is on the node the policy would try last. *)
Definition ex_restore : Sandbox := ex_row1 <| sb_Node := "n1"%string |>.

Lemma restore_prefers_record_holder_witness :
  head (pl_candidates (place ex_engine ex_restore OpRestore ex_snaps)) = Some "n1"%string.
Proof.
  apply (restore_prefers_record_holder ex_engine ex_restore ex_snaps); [|done].
  apply list_elem_of_In. vm_compute. auto.
Defined.

Lemma candidate_passes_claim_witness :
  claim ex_engine ex_row1 OpCreate "n2" ex_db1 = Ok (tt, ex_db1).
Proof.
  apply (candidate_passes_claim ex_engine ex_row1 OpCreate ex_tel ex_db1 "n2"); [by left| |].
  - intros k n. replace (db_nodes ex_db1) with (db_nodes ex_db0) by (vm_compute; reflexivity).
    cbn. rewrite !lookup_insert_Some, lookup_empty. intros [[<- <-]|[_ [[<- <-]|[_ [=]]]]]; done.
  - apply list_elem_of_In. vm_compute. auto.
Defined.
